(** * Spacing Guild: the calculation module (Mentat) and the routing engine
      (Navigator), embedded from the TypeScript sources.

    Numbers.  The program is embedded twice.

    The exact reading takes a TypeScript [number] as the rational it
    denotes and arithmetic as exact ([Q]); distances, square roots of
    rationals, are kept in symbolic form ([JS.Root], [JS.PerRoot]) together
    with exactly those operations the program applies to them.  It shows
    the control flow of the engine and how the functions of the program
    relate to each other; NaN, the infinities and binary rounding are
    outside it (a division by zero is [Qdiv]'s 0 here).

    The reading on doubles ([Double], [Floating]) takes a [number] as an
    IEEE 754 binary64 value: the zeros, the infinities, NaN and the finite
    doubles, every operation returning the double nearest to the exact
    result, ties to the even mantissa.  The fuel formulas, the limits of a
    route, distances and ranges are stated on this reading.

    Objects.  [undefined] and [null] are [None].  A method of the engine is
    a state transformer that ends normally or throws; a throw keeps the
    assignments made before it. *)

From Stdlib Require Import ZArith QArith Qround Qabs Qminmax Qpower Lia List String Bool.
From Stdlib Require Import Reals Qreals Psatz.
From Stdlib Require Import Permutation Sorted.
From Stdlib Require Import SpecFloat.
Import ListNotations.

Open Scope Q_scope.

(* ================================================================= *)
(** ** JavaScript values *)

Module JS.

Definition number := Q.

Definition ltb (x y : Q) : bool := negb (Qle_bool y x).
Definition gtb (x y : Q) : bool := ltb y x.
Definition leb (x y : Q) : bool := Qle_bool x y.
Definition geb (x y : Q) : bool := Qle_bool y x.

(** Truthiness of a number: every number but zero. *)
Definition truthy (x : Q) : bool := negb (Qeq_bool x 0).

(** [x || 0] on a possibly missing number. *)
Definition orZero (x : option Q) : Q :=
  match x with
  | Some v => if truthy v then v else 0
  | None => 0
  end.

(** [null] and [undefined] in arithmetic position ([null] converts to 0;
    the program multiplies by a possibly-null unit cost). *)
Definition nullToZero (x : option Q) : Q :=
  match x with Some v => v | None => 0 end.

(** [Math.floor], [Math.ceil], and [Math.round] (half-way cases go up). *)
Definition floor (x : Q) : Q := inject_Z (Qfloor x).
Definition ceil (x : Q) : Q := inject_Z (Qceiling x).
Definition round (x : Q) : Q := inject_Z (Qfloor (x + (1 # 2))).

(** [Math.pow(x, 2)] and [Math.abs]. *)
Definition pow2 (x : Q) : Q := x * x.
Definition abs (x : Q) : Q := Qabs x.

(** The real number [sqrt radicand], for a radicand that is not negative. *)
Record Root : Type := sqrt { radicand : Q }.

(** [Math.round(sqrt r)]: the integer [n] with [n - 1/2 <= sqrt r < n + 1/2],
    which is [floor ((floor (sqrt (4 r)) + 1) / 2)]. *)
Definition roundRoot (d : Root) : Q :=
  inject_Z ((Z.sqrt (Qfloor (4 * radicand d)) + 1) / 2).

(** Truthiness of [sqrt r]. *)
Definition truthyRoot (d : Root) : bool := truthy (radicand d).

(** [x > sqrt r]. *)
Definition gtRoot (x : Q) (d : Root) : bool :=
  ltb 0 x && ltb (radicand d) (x * x).

(** The real number [numer / sqrt under], for a positive [under]. *)
Record PerRoot : Type := perRoot { numer : Q; under : Q }.

Definition divRoot (x : Q) (d : Root) : PerRoot :=
  {| numer := x; under := radicand d |}.

Definition ofQ (x : Q) : PerRoot := {| numer := x; under := 1 |}.

(** [t |-> t * |t|] is strictly increasing, so [n1 / sqrt u1 < n2 / sqrt u2]
    exactly when [n1 |n1| / u1 < n2 |n2| / u2]. *)
Definition signedSquare (v : PerRoot) : Q := numer v * Qabs (numer v) / under v.

Definition ltPerRoot (v w : PerRoot) : bool := ltb (signedSquare v) (signedSquare w).
Definition gtPerRoot (v w : PerRoot) : bool := ltPerRoot w v.

(** Exceptions and the completion of a call. *)
Inductive Exn : Type :=
| TypeError
| Error (message : string).

Inductive Completion (A : Type) : Type :=
| Normal (value : A)
| Throw (e : Exn).
Arguments Normal {A} value.
Arguments Throw {A} e.

Definition bindC {A B} (c : Completion A) (k : A -> Completion B) : Completion B :=
  match c with
  | Normal a => k a
  | Throw e => Throw e
  end.

(** Reading a property of a value that may be [null] or [undefined]. *)
Definition deref {A} (o : option A) : Completion A :=
  match o with
  | Some a => Normal a
  | None => Throw TypeError
  end.

End JS.

Notation "x <?- c ;; k" := (JS.bindC c (fun x => k))
(at level 61, c at next level, right associativity).

(* ================================================================= *)
(** ** interfaces/index.ts *)

Module IGood.
Record t : Type := {
  quantityAvailable : Q;
  volumePerUnit : Q;
  pricePerUnit : Q;
  spread : Q;
  purchasePricePerUnit : Q;
  sellPricePerUnit : Q;
  symbol : string
}.
End IGood.

Module ILocation.
Record t : Type := {
  symbol : string;
  type : string;
  name : string;
  x : Q;
  y : Q;
  marketplace : option (list IGood.t)
}.
End ILocation.

Module ICargo.
Record t : Type := {
  good : string;
  quantity : Q;
  totalVolume : Q
}.
End ICargo.

Module IShip.
Record t : Type := {
  id : string;
  location : string;
  x : Q;
  y : Q;
  cargo : list ICargo.t;
  spaceAvailable : Q;
  type : string;
  class : string;
  maxCargo : Q;
  speed : Q;
  manufacturer : string;
  plating : Q;
  weapons : Q
}.
End IShip.

Module ITradeRoute.
Record t : Type := {
  destination : ILocation.t;
  cargo : list ICargo.t
}.
End ITradeRoute.

Module ITrade.
Record t : Type := {
  destination : ILocation.t;
  localGood : IGood.t;
  destinationGood : IGood.t
}.
End ITrade.

Module ITradeOption.
Record t : Type := {
  trade : ITrade.t;
  profitPerDU : JS.PerRoot
}.
End ITradeOption.

(** A caller may leave out either field of the parameter object. *)
Module INavigationParameters.
Record t : Type := {
  range : option Q;
  fuelMargin : option Q
}.
End INavigationParameters.

(** The enumeration [ShipClass] of enums/index.ts is imported by mentat.ts
  but is not among the sources: the three members mentat.ts names are
  taken as parameters. *)
Module ShipClass.
Record t : Type := {
  HM_MK_III : string;
  GR_MK_III : string;
  GR_MK_II : string
}.
End ShipClass.

(* ================================================================= *)
(** ** mentat.ts *)

Module Mentat.

Definition calculateDistance (ax ay bx by_ : Q) : JS.Root :=
  JS.sqrt (JS.abs (JS.pow2 (ax - bx)) + JS.abs (JS.pow2 (ay - by_))).

Definition calculateLocationDistance (a b : ILocation.t) : JS.Root :=
  calculateDistance (ILocation.x a) (ILocation.y a) (ILocation.x b) (ILocation.y b).

Section WithShipClass.

Variable ShipClass : ShipClass.t.

(** [multiplier] starts at 0.25 and [penalty] at 0; the [switch] on the
    ship's type sets both. *)
Definition calculateFuelToTravel (ship : IShip.t) (location destination : ILocation.t) : Q :=
  let isPlanet := String.eqb (ILocation.type location) "PLANET" in
  let '(multiplier, penalty) :=
    if String.eqb (IShip.type ship) (ShipClass.HM_MK_III ShipClass)
    then (0.188, if isPlanet then 1 else 0)
    else if String.eqb (IShip.type ship) (ShipClass.GR_MK_III ShipClass)
    then (0.25, if isPlanet then 4 else 0)
    else if String.eqb (IShip.type ship) (ShipClass.GR_MK_II ShipClass)
    then (0.25, if isPlanet then 3 else 0)
    else (0.25, if isPlanet then 2 else 0) in
  JS.round (JS.roundRoot (calculateLocationDistance location destination) * multiplier)
  + penalty + 1.

End WithShipClass.

(** [margin] is an optional argument whose default is 0. *)
Definition calculateFuelQuantity (ship : IShip.t) (fuelToTravel : Q) (margin : option Q) : Q :=
  let margin := match margin with Some m => m | None => 0 end in
  let currentFuel :=
    JS.orZero (option_map ICargo.quantity
                 (hd_error (filter (fun c => String.eqb (ICargo.good c) "FUEL")
                                   (IShip.cargo ship)))) in
  let quantity := if JS.geb currentFuel fuelToTravel then 0 else fuelToTravel - currentFuel in
  JS.ceil (quantity * (1 + (0.01 * margin))).

Definition calculatePricePerVolume (pricePerUnit volumePerUnit : Q) : Q :=
  pricePerUnit / volumePerUnit.

Definition calculateGoodProfitPerVol (a b : IGood.t) : Q :=
  let aPpV := calculatePricePerVolume (IGood.sellPricePerUnit a) (IGood.volumePerUnit a) in
  let bPpV := calculatePricePerVolume (IGood.purchasePricePerUnit b) (IGood.volumePerUnit b) in
  aPpV - bPpV.

Definition calculateGoodProfit (good : IGood.t) (amount : Q) : Q :=
  IGood.sellPricePerUnit good * amount.

Definition calculateGoodCost (good : IGood.t) (amount : Q) : Q :=
  IGood.purchasePricePerUnit good * amount.

Definition calculateFuelToTravelCost (amount unitCost : Q) : Q :=
  amount * unitCost.

Definition calculateCargoVolume (good : IGood.t) (amount : Q) : Q :=
  amount * IGood.volumePerUnit good.

Definition calculateGoodQuantity (space volumePerUnit : Q) : Q :=
  JS.floor (JS.floor (space / volumePerUnit)).

Definition calculateFuelToTravelVolume (amount : Q) : Q :=
  amount * 1.

Definition calculateGoodVolume (amount : Q) (good : IGood.t) : Q :=
  amount * IGood.volumePerUnit good.

Definition calculateRemainingSpaceAfterRefuel (ship : IShip.t) (fuelQuantity : Q) : Q :=
  IShip.spaceAvailable ship - calculateFuelToTravelVolume fuelQuantity.

Definition validateRange (ship : IShip.t) (range : Q) (location : ILocation.t) : bool :=
  JS.gtRoot range
    (calculateDistance (IShip.x ship) (IShip.y ship) (ILocation.x location) (ILocation.y location)).

Section WithShipClass.

Variable ShipClass : ShipClass.t.

(** [fuelUnitCost] is the engine's [getCurrentFuelUnitCost()], which is
    [null] when the market lists no FUEL. *)
Definition calculateProfitPerDU (aGood bGood : IGood.t) (ship : IShip.t)
           (location destination : ILocation.t) (fuelUnitCost : option Q) : JS.PerRoot :=
  let distance := calculateLocationDistance location destination in
  if JS.truthyRoot distance then
    let fuel := calculateFuelToTravel ShipClass ship location destination in
    let fuelCost := calculateFuelToTravelCost fuel (JS.nullToZero fuelUnitCost) in
    let goodProfitPerVol := calculateGoodProfitPerVol aGood bGood in
    let profit := (goodProfitPerVol * (IShip.spaceAvailable ship - fuel)) - fuelCost in
    JS.divRoot profit distance
  else JS.ofQ 0.

End WithShipClass.

(** [arr.sort(cmp)] with [cmp a b = 1] when [a[key] < b[key]], [-1] when
    [a[key] > b[key]] and [0] otherwise: [a] stays in front of [b] unless
    [cmp a b > 0].  The sort is stable (ECMAScript 2019). *)
Section Sort.

Context {A : Type} (key : A -> JS.PerRoot).

Definition compareByKey (a b : A) : Z :=
  let x := key a in
  let y := key b in
  if JS.ltPerRoot x y then 1 else if JS.gtPerRoot x y then (-1) else 0.

Fixpoint insertByKey (a : A) (sorted : list A) : list A :=
  match sorted with
  | [] => [a]
  | b :: rest =>
      if (0 <? compareByKey a b)%Z then b :: insertByKey a rest
      else a :: sorted
  end.

Definition sortByKey (arr : list A) : list A :=
  fold_right insertByKey [] arr.

End Sort.

End Mentat.

(* ================================================================= *)
(** ** navigator.ts *)

(** What [logTradeOptions] prints for one option. *)
Module LogEntry.
Record t : Type := {
  trip : string;
  distance : JS.Root;
  profitPerDU : JS.PerRoot;
  goodProfit : Q;
  profit : Q;
  good : string;
  goodQuantity : Q;
  goodCost : Q;
  fuelQuantity : Q;
  fuelCost : Q
}.
End LogEntry.

Module Navigator.

(** The private fields.  A field that has not been assigned yet, or that
    holds [null], is [None]. *)
Record t : Type := {
  _initialized : bool;
  _locations : option (list ILocation.t);
  _ship : option IShip.t;
  _currentLocation : option ILocation.t;
  _currentMarketplace : option (list IGood.t);
  _currentFuelUnitCost : option Q;
  _tradeOptions : option (list ITradeOption.t)
}.

(** The object as the constructor finds it. *)
Definition blank : t :=
  {| _initialized := false; _locations := None; _ship := None;
     _currentLocation := None; _currentMarketplace := None;
     _currentFuelUnitCost := None; _tradeOptions := None |}.

Definition set_initialized (v : bool) (this : t) : t :=
  {| _initialized := v; _locations := _locations this; _ship := _ship this;
     _currentLocation := _currentLocation this;
     _currentMarketplace := _currentMarketplace this;
     _currentFuelUnitCost := _currentFuelUnitCost this;
     _tradeOptions := _tradeOptions this |}.

Definition set_locations (v : option (list ILocation.t)) (this : t) : t :=
  {| _initialized := _initialized this; _locations := v; _ship := _ship this;
     _currentLocation := _currentLocation this;
     _currentMarketplace := _currentMarketplace this;
     _currentFuelUnitCost := _currentFuelUnitCost this;
     _tradeOptions := _tradeOptions this |}.

Definition set_ship (v : option IShip.t) (this : t) : t :=
  {| _initialized := _initialized this; _locations := _locations this; _ship := v;
     _currentLocation := _currentLocation this;
     _currentMarketplace := _currentMarketplace this;
     _currentFuelUnitCost := _currentFuelUnitCost this;
     _tradeOptions := _tradeOptions this |}.

Definition set_currentLocation (v : option ILocation.t) (this : t) : t :=
  {| _initialized := _initialized this; _locations := _locations this;
     _ship := _ship this; _currentLocation := v;
     _currentMarketplace := _currentMarketplace this;
     _currentFuelUnitCost := _currentFuelUnitCost this;
     _tradeOptions := _tradeOptions this |}.

Definition set_currentMarketplace (v : option (list IGood.t)) (this : t) : t :=
  {| _initialized := _initialized this; _locations := _locations this;
     _ship := _ship this; _currentLocation := _currentLocation this;
     _currentMarketplace := v;
     _currentFuelUnitCost := _currentFuelUnitCost this;
     _tradeOptions := _tradeOptions this |}.

Definition set_currentFuelUnitCost (v : option Q) (this : t) : t :=
  {| _initialized := _initialized this; _locations := _locations this;
     _ship := _ship this; _currentLocation := _currentLocation this;
     _currentMarketplace := _currentMarketplace this;
     _currentFuelUnitCost := v;
     _tradeOptions := _tradeOptions this |}.

Definition set_tradeOptions (v : option (list ITradeOption.t)) (this : t) : t :=
  {| _initialized := _initialized this; _locations := _locations this;
     _ship := _ship this; _currentLocation := _currentLocation this;
     _currentMarketplace := _currentMarketplace this;
     _currentFuelUnitCost := _currentFuelUnitCost this;
     _tradeOptions := v |}.

(** *** Methods: state and exceptions *)

Definition M (A : Type) : Type := t -> t * JS.Completion A.

Definition ret {A} (a : A) : M A := fun this => (this, JS.Normal a).

Definition throw {A} (e : JS.Exn) : M A := fun this => (this, JS.Throw e).

Definition bind {A B} (m : M A) (k : A -> M B) : M B :=
  fun this =>
    match m this with
    | (this', JS.Normal a) => k a this'
    | (this', JS.Throw e) => (this', JS.Throw e)
    end.

(** A computation that reads [this] and may throw. *)
Definition reading {A} (f : t -> JS.Completion A) : M A :=
  fun this => (this, f this).

(** An assignment to a field of [this]. *)
Definition assign (f : t -> t) : M unit :=
  fun this => (f this, JS.Normal tt).

Notation "x <- m ;; k" := (bind m (fun x => k))
  (at level 61, m at next level, right associativity).
Notation "m ;;; k" := (bind m (fun _ => k))
  (at level 61, right associativity).

(** *** The getters *)

(** The loop of [getCurrentLocation] and of [getCurrentMarketplace]: the
    first location whose symbol is the ship's location.  [this._ship] is
    read in the loop body only. *)
Fixpoint locateShip (ship : option IShip.t) (locations : list ILocation.t)
  : JS.Completion (option ILocation.t) :=
  match locations with
  | [] => JS.Normal None
  | l :: rest =>
      s <?- JS.deref ship ;;
      if String.eqb (IShip.location s) (ILocation.symbol l) then JS.Normal (Some l)
      else locateShip ship rest
  end.

Definition getCurrentLocation (this : t) : JS.Completion (option ILocation.t) :=
  locations <?- JS.deref (_locations this) ;;
  locateShip (_ship this) locations.

(** [undefined] (a location without the optional field) and [null] (no
    location found) are both [None]. *)
Definition getCurrentMarketplace (this : t) : JS.Completion (option (list IGood.t)) :=
  locations <?- JS.deref (_locations this) ;;
  found <?- locateShip (_ship this) locations ;;
  JS.Normal (match found with
             | Some l => ILocation.marketplace l
             | None => None
             end).

(** [marketplace.length] throws when there is no marketplace. *)
Definition getCurrentFuelUnitCost (this : t) : JS.Completion (option Q) :=
  found <?- getCurrentMarketplace this ;;
  marketplace <?- JS.deref found ;;
  JS.Normal (option_map IGood.purchasePricePerUnit
               (find (fun g => String.eqb (IGood.symbol g) "FUEL") marketplace)).

Definition setProperties : M unit :=
  v <- reading getCurrentLocation ;; assign (set_currentLocation v) ;;;
  v <- reading getCurrentMarketplace ;; assign (set_currentMarketplace v) ;;;
  v <- reading getCurrentFuelUnitCost ;; assign (set_currentFuelUnitCost v).

Section WithShipClass.

Variable ShipClass : ShipClass.t.

(** *** sortTradeOptions *)

(** The loop over the goods of one destination marketplace ([j] and [k]
    loops).  [push] appends. *)
Fixpoint goodsLoop (this : t) (currentLocation : ILocation.t) (localMarket : list IGood.t)
         (destination : ILocation.t) (marketplace : list IGood.t)
         (trades : list ITradeOption.t) : JS.Completion (list ITradeOption.t) :=
  match marketplace with
  | [] => JS.Normal trades
  | destinationGood :: rest =>
      match find (fun g => String.eqb (IGood.symbol g) (IGood.symbol destinationGood))
                 localMarket with
      | Some localGood =>
          if JS.gtb (IGood.quantityAvailable localGood) 0 then
            fuelUnitCost <?- getCurrentFuelUnitCost this ;;
            ship <?- JS.deref (_ship this) ;;
            let profitPerDU :=
              Mentat.calculateProfitPerDU ShipClass destinationGood localGood ship
                currentLocation destination fuelUnitCost in
            if JS.gtPerRoot profitPerDU (JS.ofQ 0) then
              goodsLoop this currentLocation localMarket destination rest
                (trades ++ [{| ITradeOption.trade :=
                                 {| ITrade.destination := destination;
                                    ITrade.localGood := localGood;
                                    ITrade.destinationGood := destinationGood |};
                               ITradeOption.profitPerDU := profitPerDU |}])
            else goodsLoop this currentLocation localMarket destination rest trades
          else goodsLoop this currentLocation localMarket destination rest trades
      | None => goodsLoop this currentLocation localMarket destination rest trades
      end
  end.

(** The loop over the locations ([i] loop). *)
Fixpoint locationsLoop (this : t) (currentLocation : ILocation.t) (localMarket : list IGood.t)
         (locations : list ILocation.t) (trades : list ITradeOption.t)
  : JS.Completion (list ITradeOption.t) :=
  match locations with
  | [] => JS.Normal trades
  | destination :: rest =>
      if String.eqb (ILocation.symbol destination) (ILocation.symbol currentLocation)
      then locationsLoop this currentLocation localMarket rest trades
      else
        match ILocation.marketplace destination with
        | Some (g :: gs) =>
            trades' <?- goodsLoop this currentLocation localMarket destination (g :: gs) trades ;;
            locationsLoop this currentLocation localMarket rest trades'
        | _ => locationsLoop this currentLocation localMarket rest trades
        end
  end.

(** The early [return] leaves [_tradeOptions] as it was.  What
    [logTradeOptions] prints to the console is not part of the state. *)
Definition sortTradeOptions : M unit :=
  currentLocation <- reading (fun this => JS.deref (_currentLocation this)) ;;
  match ILocation.marketplace currentLocation with
  | None | Some [] => ret tt
  | Some localMarket =>
      trades <- reading (fun this =>
                  locations <?- JS.deref (_locations this) ;;
                  locationsLoop this currentLocation localMarket locations []) ;;
      assign (set_tradeOptions (Some (Mentat.sortByKey ITradeOption.profitPerDU trades)))
  end.

(** *** The update operations and the constructor *)

Definition updateLocationsData (locations : list ILocation.t) : M unit :=
  assign (set_locations (Some locations)) ;;;
  initialized <- reading (fun this => JS.Normal (_initialized this)) ;;
  if initialized then setProperties ;;; sortTradeOptions else ret tt.

Definition updateShipData (ship : IShip.t) : M unit :=
  assign (set_ship (Some ship)) ;;;
  setProperties ;;;
  initialized <- reading (fun this => JS.Normal (_initialized this)) ;;
  if initialized then sortTradeOptions else ret tt.

(** [new Navigator(locations, ship)]: no object when the body throws. *)
Definition constructor (locations : list ILocation.t) (ship : IShip.t) : JS.Completion t :=
  match (updateLocationsData locations ;;;
         updateShipData ship ;;;
         sortTradeOptions ;;;
         assign (set_initialized true)) blank with
  | (this, JS.Normal _) => JS.Normal this
  | (_, JS.Throw e) => JS.Throw e
  end.

(** *** navigate *)

(** The local variable [trades]: the very array held in [this._tradeOptions],
    or an array of its own that [filter] made. *)
Inductive TradesRef : Type :=
| ThisTradeOptions
| OwnArray (arr : list ITradeOption.t).

Definition readTrades (trades : TradesRef) : M (list ITradeOption.t) :=
  match trades with
  | ThisTradeOptions => reading (fun this => JS.deref (_tradeOptions this))
  | OwnArray arr => ret arr
  end.

Definition removeAt {A} (i : nat) (arr : list A) : list A :=
  firstn i arr ++ skipn (S i) arr.

(** [trades.splice(i, 1)] changes the array in place. *)
Definition splice1 (i : nat) (trades : TradesRef) : M TradesRef :=
  match trades with
  | ThisTradeOptions =>
      arr <- readTrades ThisTradeOptions ;;
      assign (set_tradeOptions (Some (removeAt i arr))) ;;;
      ret ThisTradeOptions
  | OwnArray arr => ret (OwnArray (removeAt i arr))
  end.

(** What the first loop leaves in [destination], [fuelQuantity] and
    [fuelVolume] when it ends with [break]. *)
Record Refuel : Type := {
  destination : ILocation.t;
  fuelQuantity : Q;
  fuelVolume : Q
}.

(** The first loop of [navigate], from index [i].  Every iteration either
    ends the loop or shortens the array and advances [i], so [gas] at least
    the length of the array minus [i] is never used up; at [O] the loop
    condition is false. *)
Fixpoint fuelScan (gas : nat) (params : INavigationParameters.t) (i : nat) (trades : TradesRef)
  : M (TradesRef * option Refuel) :=
  match gas with
  | O => ret (trades, None)
  | S gas' =>
      arr <- readTrades trades ;;
      match nth_error arr i with
      | None => ret (trades, None)
      | Some tradeOption =>
          let trade := ITradeOption.trade tradeOption in
          currentLocation <- reading (fun this => JS.deref (_currentLocation this)) ;;
          ship <- reading (fun this => JS.deref (_ship this)) ;;
          let fuelToTravel :=
            Mentat.calculateFuelToTravel ShipClass ship currentLocation
              (ITrade.destination trade) in
          let fuelQuantity :=
            Mentat.calculateFuelQuantity ship fuelToTravel
              (INavigationParameters.fuelMargin params) in
          let fuelVolume := Mentat.calculateFuelToTravelVolume fuelQuantity in
          currentMarketplace <- reading (fun this => JS.deref (_currentMarketplace this)) ;;
          let localFuel :=
            hd_error (filter (fun g => String.eqb (IGood.symbol g) "FUEL")
                             currentMarketplace) in
          if JS.gtb fuelQuantity (JS.orZero (option_map IGood.quantityAvailable localFuel))
          then trades' <- splice1 i trades ;; fuelScan gas' params (S i) trades'
          else if JS.ltb (IShip.spaceAvailable ship) fuelQuantity
          then trades' <- splice1 i trades ;; fuelScan gas' params (S i) trades'
          else ret (trades, Some {| destination := ITrade.destination trade;
                                    fuelQuantity := fuelQuantity;
                                    fuelVolume := fuelVolume |})
      end
  end.

(** The second loop of [navigate]: the cargo lines pushed after the FUEL
    line. *)
Fixpoint fillCargo (remainingSpace : Q) (trades : list ITradeOption.t) : list ICargo.t :=
  match trades with
  | [] => []
  | tradeOption :: rest =>
      if JS.leb remainingSpace 0 then []
      else
        let trade := ITradeOption.trade tradeOption in
        let goodQuantity :=
          Mentat.calculateGoodQuantity remainingSpace
            (IGood.volumePerUnit (ITrade.localGood trade)) in
        let goodQuantity :=
          if JS.gtb goodQuantity (IGood.quantityAvailable (ITrade.localGood trade))
          then IGood.quantityAvailable (ITrade.localGood trade)
          else goodQuantity in
        let goodVolume := Mentat.calculateGoodVolume goodQuantity (ITrade.localGood trade) in
        {| ICargo.good := IGood.symbol (ITrade.localGood trade);
           ICargo.quantity := goodQuantity;
           ICargo.totalVolume := goodVolume |}
        :: fillCargo (remainingSpace - goodVolume) rest
  end.

(** [throw new Error(message)] in strict mode, [return;] otherwise. *)
Definition giveUp (strict : bool) (message : string) : M (option ITradeRoute.t) :=
  if strict then throw (JS.Error message) else ret None.

Definition NoProfitableTrade : string :=
  "No profitable trades found from this ship's position".
Definition NoTradeInRange : string :=
  "No profitable trades found in the specified range".
Definition NoFeasibleFuelPlan : string :=
  "Not able to fuel a profitable trip".

(** [navigate] from the first loop on. *)
Definition plotRoute (params : INavigationParameters.t) (strict : bool) (trades : TradesRef)
  : M (option ITradeRoute.t) :=
  arr <- readTrades trades ;;
  scanned <- fuelScan (List.length arr) params 0 trades ;;
  match scanned with
  | (_, None) => giveUp strict NoFeasibleFuelPlan
  | (trades, Some refuel) =>
      arr <- readTrades trades ;;
      let trades :=
        filter (fun tradeOption =>
                  String.eqb
                    (ILocation.symbol (ITrade.destination (ITradeOption.trade tradeOption)))
                    (ILocation.symbol (destination refuel))) arr in
      ship <- reading (fun this => JS.deref (_ship this)) ;;
      let cargo := [{| ICargo.good := "FUEL";
                       ICargo.quantity := fuelQuantity refuel;
                       ICargo.totalVolume := fuelVolume refuel |}] in
      let remainingSpace :=
        Mentat.calculateRemainingSpaceAfterRefuel ship (fuelQuantity refuel) in
      ret (Some {| ITradeRoute.destination := destination refuel;
                   ITradeRoute.cargo := cargo ++ fillCargo remainingSpace trades |})
  end.

Definition defaultParameters : INavigationParameters.t :=
  {| INavigationParameters.range := Some 0;
     INavigationParameters.fuelMargin := Some 5 |}.

(** [params] is [None] when the caller leaves the argument out.  A route is
    [Some]; [return;] is [None]. *)
Definition navigate (params : option INavigationParameters.t) (strict : bool)
  : M (option ITradeRoute.t) :=
  let params := match params with Some p => p | None => defaultParameters end in
  arr <- readTrades ThisTradeOptions ;;
  match arr with
  | [] => giveUp strict NoProfitableTrade
  | _ :: _ =>
      match INavigationParameters.range params with
      | Some range =>
          if JS.truthy range then
            ship <- reading (fun this => JS.deref (_ship this)) ;;
            let filtered :=
              filter (fun tradeOption =>
                        Mentat.validateRange ship range
                          (ITrade.destination (ITradeOption.trade tradeOption))) arr in
            match filtered with
            | [] => giveUp strict NoTradeInRange
            | _ :: _ => plotRoute params strict (OwnArray filtered)
            end
          else plotRoute params strict ThisTradeOptions
      | None => plotRoute params strict ThisTradeOptions
      end
  end.

(** *** logTradeOptions *)

(** The callback of [forEach] in [logTradeOptions]: the object it hands to
    [console.log]. *)
Definition logEntry (this : t) (tradeOption : ITradeOption.t) : JS.Completion LogEntry.t :=
  currentLocation <?- JS.deref (_currentLocation this) ;;
  ship <?- JS.deref (_ship this) ;;
  let trade := ITradeOption.trade tradeOption in
  let fuelQuantity :=
    Mentat.calculateFuelToTravel ShipClass ship currentLocation (ITrade.destination trade) in
  let remainingSpace := Mentat.calculateRemainingSpaceAfterRefuel ship fuelQuantity in
  let goodQuantity :=
    Mentat.calculateGoodQuantity remainingSpace (IGood.volumePerUnit (ITrade.localGood trade)) in
  let goodCost := Mentat.calculateGoodCost (ITrade.localGood trade) goodQuantity in
  let fuelCost :=
    Mentat.calculateFuelToTravelCost fuelQuantity
      (JS.nullToZero (_currentFuelUnitCost this)) in
  let goodProfit := Mentat.calculateGoodProfit (ITrade.destinationGood trade) goodQuantity in
  let profit := goodProfit - goodCost - fuelCost in
  JS.Normal
    {| LogEntry.trip := (ILocation.symbol currentLocation ++ " -> "
                         ++ ILocation.symbol (ITrade.destination trade))%string;
       LogEntry.distance :=
         Mentat.calculateLocationDistance currentLocation (ITrade.destination trade);
       LogEntry.profitPerDU := ITradeOption.profitPerDU tradeOption;
       LogEntry.goodProfit := goodProfit;
       LogEntry.profit := profit;
       LogEntry.good := IGood.symbol (ITrade.localGood trade);
       LogEntry.goodQuantity := goodQuantity;
       LogEntry.goodCost := goodCost;
       LogEntry.fuelQuantity := fuelQuantity;
       LogEntry.fuelCost := fuelCost |}.

(** [forEach]: what has been printed stays printed when the callback
    throws. *)
Fixpoint logEach (this : t) (tradeOptions : list ITradeOption.t) (printed : list LogEntry.t)
  : list LogEntry.t * JS.Completion unit :=
  match tradeOptions with
  | [] => (printed, JS.Normal tt)
  | tradeOption :: rest =>
      match logEntry this tradeOption with
      | JS.Normal entry => logEach this rest (printed ++ [entry])
      | JS.Throw e => (printed, JS.Throw e)
      end
  end.

(** [logTradeOptions]: the console output and the completion.  The engine
    is only read. *)
Definition logTradeOptions (this : t) : list LogEntry.t * JS.Completion unit :=
  match _tradeOptions this with
  | Some tradeOptions => logEach this tradeOptions []
  | None => ([], JS.Throw JS.TypeError)
  end.

End WithShipClass.

(** *** The public accessors *)

Definition currentLocation (this : t) : option ILocation.t := _currentLocation this.
Definition currentMarketplace (this : t) : option (list IGood.t) := _currentMarketplace this.
Definition currentFuelUnitCost (this : t) : option Q := _currentFuelUnitCost this.
Definition tradeOptions (this : t) : option (list ITradeOption.t) := _tradeOptions this.

End Navigator.

Import Navigator.

(* ================================================================= *)
(** ** The specification's tables and formulas *)

Module Spec.

(** The brackets of the fuel formula: one per ship class that has its own,
    and the fallback bracket of every other class. *)
Inductive Bracket : Type :=
| HM_MK_III
| GR_MK_III
| GR_MK_II
| Fallback.

Definition bracketOf (enum : ShipClass.t) (shipType : string) : Bracket :=
  if String.eqb shipType (ShipClass.HM_MK_III enum) then HM_MK_III
  else if String.eqb shipType (ShipClass.GR_MK_III enum) then GR_MK_III
  else if String.eqb shipType (ShipClass.GR_MK_II enum) then GR_MK_II
  else Fallback.

Definition multiplier (b : Bracket) : Q :=
  match b with
  | HM_MK_III => 0.188
  | _ => 0.25
  end.

Definition planetPenalty (b : Bracket) : Q :=
  match b with
  | HM_MK_III => 1
  | GR_MK_III => 4
  | GR_MK_II => 3
  | Fallback => 2
  end.

Definition isPlanet (l : ILocation.t) : bool := String.eqb (ILocation.type l) "PLANET".

Definition penalty (b : Bracket) (origin : ILocation.t) : Q :=
  if isPlanet origin then planetPenalty b else 0.


(** The fuel already held: the quantity of the FUEL line of the ship's
    cargo, 0 when there is none. *)
Definition held (ship : IShip.t) : Q :=
  match find (fun c => String.eqb (ICargo.good c) "FUEL") (IShip.cargo ship) with
  | Some c => ICargo.quantity c
  | None => 0
  end.

Definition fuelQuantity (ship : IShip.t) (fuelToTravel marginPercent : Q) : Z :=
  Qceiling (Qmax 0 (fuelToTravel - held ship) * (1 + marginPercent / 100)).

(** The FUEL on offer: the available quantity of the first FUEL good of a
    marketplace, 0 when FUEL is not listed. *)
Definition availableFuel (marketplace : list IGood.t) : Q :=
  match find (fun g => String.eqb (IGood.symbol g) "FUEL") marketplace with
  | Some g => IGood.quantityAvailable g
  | None => 0
  end.

Definition totalCargoVolume (cargo : list ICargo.t) : Q :=
  fold_right (fun line acc => ICargo.totalVolume line + acc) 0 cargo.

End Spec.

(* ================================================================= *)
(** ** The real numbers behind the symbolic values *)

Module Real.

(** [Math.round] on a real number: [floor (x + 1/2)]. *)
Definition round (x : R) : Z := Int_part (x + / 2).

Definition ofRoot (d : JS.Root) : R := sqrt (Q2R (JS.radicand d)).

Definition ofPerRoot (v : JS.PerRoot) : R :=
  (Q2R (JS.numer v) / sqrt (Q2R (JS.under v)))%R.

(** The Euclidean distance between two points and between two locations. *)
Definition distance (ax ay bx by_ : Q) : R :=
  sqrt ((Q2R ax - Q2R bx) * (Q2R ax - Q2R bx) + (Q2R ay - Q2R by_) * (Q2R ay - Q2R by_)).


End Real.

(* ================================================================= *)
(** ** Properties of engine states used in the statements *)

(** The array a reference stands for. *)
Definition arrayOf (trades : TradesRef) (this : t) : option (list ITradeOption.t) :=
  match trades with
  | ThisTradeOptions => _tradeOptions this
  | OwnArray arr => Some arr
  end.

(** [this'] is [this] up to the contents of [_tradeOptions]. *)
Definition sameButTradeOptions (this this' : t) : Prop :=
  this' = set_tradeOptions (_tradeOptions this') this.

(** A destination the first loop settles on can be fuelled. *)
Definition fuelled (this : t) (refuel : Refuel) : Prop :=
  exists ship marketplace,
    _ship this = Some ship /\
    _currentMarketplace this = Some marketplace /\
    fuelQuantity refuel <= Spec.availableFuel marketplace /\
    fuelQuantity refuel <= IShip.spaceAvailable ship /\
    fuelVolume refuel = fuelQuantity refuel * 1.

Definition positiveVolume (tradeOption : ITradeOption.t) : Prop :=
  0 < IGood.volumePerUnit (ITrade.localGood (ITradeOption.trade tradeOption)).

(** The fuel the first loop asks for a candidate, and its two checks. *)
Definition refuelFor (enum : ShipClass.t) (params : INavigationParameters.t)
           (ship : IShip.t) (currentLocation : ILocation.t)
           (tradeOption : ITradeOption.t) : Refuel :=
  let fuelQuantity :=
    Mentat.calculateFuelQuantity ship
      (Mentat.calculateFuelToTravel enum ship currentLocation
         (ITrade.destination (ITradeOption.trade tradeOption)))
      (INavigationParameters.fuelMargin params) in
  {| destination := ITrade.destination (ITradeOption.trade tradeOption);
     fuelQuantity := fuelQuantity;
     fuelVolume := Mentat.calculateFuelToTravelVolume fuelQuantity |}.

Definition canRefuel (marketplace : list IGood.t) (ship : IShip.t) (refuel : Refuel) : bool :=
  negb (JS.gtb (fuelQuantity refuel)
          (JS.orZero (option_map IGood.quantityAvailable
                        (hd_error (filter (fun g => String.eqb (IGood.symbol g) "FUEL")
                                          marketplace)))))
  && negb (JS.ltb (IShip.spaceAvailable ship) (fuelQuantity refuel)).

(** What the first loop does to an array: it examines the first candidate;
    when it drops it, the next candidate moves into its place and is
    passed over. *)
Fixpoint examine (ok : ITradeOption.t -> bool) (arr : list ITradeOption.t)
  : list ITradeOption.t * option ITradeOption.t :=
  match arr with
  | [] => ([], None)
  | candidate :: rest =>
      if ok candidate then (arr, Some candidate)
      else match rest with
           | [] => ([], None)
           | passedOver :: rest' =>
               let (kept, found) := examine ok rest' in
               (passedOver :: kept, found)
           end
  end.

(** The engine and the reference after the array behind the reference
    has become [arr]. *)
Definition commit (trades : TradesRef) (arr : list ITradeOption.t) (this : t) : t :=
  match trades with
  | ThisTradeOptions => set_tradeOptions (Some arr) this
  | OwnArray _ => this
  end.

Definition rebind (trades : TradesRef) (arr : list ITradeOption.t) : TradesRef :=
  match trades with
  | ThisTradeOptions => ThisTradeOptions
  | OwnArray _ => OwnArray arr
  end.

(** The ranked list of [this'] holds options of the ranked list of [this]
    only. *)
Definition optionsShrink (this this' : t) : Prop :=
  forall tradeOptions', _tradeOptions this' = Some tradeOptions' ->
    exists tradeOptions, _tradeOptions this = Some tradeOptions /\
                         incl tradeOptions' tradeOptions.

(** The invariant of the data model on the goods of a location: every good
    of its marketplace has a positive volume per unit. *)
Definition goodsTakeSpace (l : ILocation.t) : Prop :=
  forall marketplace, ILocation.marketplace l = Some marketplace ->
                      Forall (fun g => 0 < IGood.volumePerUnit g) marketplace.

(** A ranked option as [sortTradeOptions] makes them: the local good is on
    offer, and it is a good of the marketplace of a location that meets
    [P]. *)
Definition soundOption (P : ILocation.t -> Prop) (tradeOption : ITradeOption.t) : Prop :=
  let localGood := ITrade.localGood (ITradeOption.trade tradeOption) in
  0 < IGood.quantityAvailable localGood /\
  exists l marketplace,
    P l /\ ILocation.marketplace l = Some marketplace /\ In localGood marketplace.

Definition soundEngine (P : ILocation.t -> Prop) (this : t) : Prop :=
  (forall locations, _locations this = Some locations -> Forall P locations) /\
  (forall l, _currentLocation this = Some l -> P l) /\
  (forall tradeOptions, _tradeOptions this = Some tradeOptions ->
                        Forall (soundOption P) tradeOptions).

(** The engines a caller can hold: built by the constructor and changed by
    the public methods, whether these return or throw, from locations that
    meet [P]. *)
Inductive reachable (P : ILocation.t -> Prop) (enum : ShipClass.t) : t -> Prop :=
| reachable_new (locations : list ILocation.t) (ship : IShip.t) (this : t) :
    Forall P locations ->
    constructor enum locations ship = JS.Normal this ->
    reachable P enum this
| reachable_locations (locations : list ILocation.t) (this this' : t)
                      (c : JS.Completion unit) :
    reachable P enum this ->
    Forall P locations ->
    updateLocationsData enum locations this = (this', c) ->
    reachable P enum this'
| reachable_ship (ship : IShip.t) (this this' : t) (c : JS.Completion unit) :
    reachable P enum this ->
    updateShipData enum ship this = (this', c) ->
    reachable P enum this'
| reachable_navigate (params : option INavigationParameters.t) (strict : bool)
                     (this this' : t) (c : JS.Completion (option ITradeRoute.t)) :
    reachable P enum this ->
    navigate enum params strict this = (this', c) ->
    reachable P enum this'.

(** No condition on the locations. *)
Definition anyLocation (l : ILocation.t) : Prop := True.

(** Two enumerations put the ship in the same bracket. *)
Definition sameBracket (enum1 enum2 : ShipClass.t) (ship : IShip.t) : Prop :=
  Spec.bracketOf enum1 (IShip.type ship) = Spec.bracketOf enum2 (IShip.type ship).

Definition sameBracketIn (enum1 enum2 : ShipClass.t) (this : t) : Prop :=
  forall ship, _ship this = Some ship -> sameBracket enum1 enum2 ship.

(** A ship type that is none of the enumerated classes is in the fallback
    bracket. *)
Definition unrecognized (enum : ShipClass.t) (shipType : string) : Prop :=
  shipType <> ShipClass.HM_MK_III enum /\
  shipType <> ShipClass.GR_MK_III enum /\
  shipType <> ShipClass.GR_MK_II enum.

(* ================================================================= *)
(** ** Ranking, rebuilding and scanning, as the statements name them *)

(** The classes by the fuel they need, the thriftiest first. *)
Definition thirst (b : Spec.Bracket) : nat :=
  match b with
  | Spec.HM_MK_III => 0
  | Spec.Fallback => 1
  | Spec.GR_MK_II => 2
  | Spec.GR_MK_III => 3
  end.

(** No element stands before one with a strictly greater key. *)
Definition descending {A : Type} (key : A -> JS.PerRoot) (arr : list A) : Prop :=
  StronglySorted (fun a b => JS.ltPerRoot (key a) (key b) = false) arr.

(** The first of the locations that bears the symbol in [ship.location]. *)
Definition shipLocation (ship : IShip.t) (locations : list ILocation.t) : option ILocation.t :=
  find (fun l => String.eqb (IShip.location ship) (ILocation.symbol l)) locations.

(** The purchase price of the first FUEL good of a marketplace. *)
Definition fuelUnitCostAt (marketplace : list IGood.t) : option Q :=
  option_map IGood.purchasePricePerUnit
    (find (fun g => String.eqb (IGood.symbol g) "FUEL") marketplace).

(** The engine's cached properties agree with its locations and its ship. *)
Definition inSync (this : t) : Prop :=
  exists (locations : list ILocation.t) (ship : IShip.t),
    _initialized this = true /\
    _locations this = Some locations /\
    _ship this = Some ship /\
    currentLocation this = shipLocation ship locations /\
    currentMarketplace this
    = match shipLocation ship locations with
      | Some l => ILocation.marketplace l
      | None => None
      end /\
    forall marketplace, currentMarketplace this = Some marketplace ->
                        currentFuelUnitCost this = fuelUnitCostAt marketplace.

(** The options one good of a destination's marketplace gives rise to: none
    or one. *)
Definition offer (enum : ShipClass.t) (ship : IShip.t) (currentLocation : ILocation.t)
           (localMarket : list IGood.t) (fuelUnitCost : option Q)
           (destination : ILocation.t) (destinationGood : IGood.t) : list ITradeOption.t :=
  match find (fun g => String.eqb (IGood.symbol g) (IGood.symbol destinationGood))
             localMarket with
  | Some localGood =>
      let profitPerDU :=
        Mentat.calculateProfitPerDU enum destinationGood localGood ship
          currentLocation destination fuelUnitCost in
      if JS.gtb (IGood.quantityAvailable localGood) 0
         && JS.gtPerRoot profitPerDU (JS.ofQ 0)
      then [{| ITradeOption.trade :=
                 {| ITrade.destination := destination;
                    ITrade.localGood := localGood;
                    ITrade.destinationGood := destinationGood |};
               ITradeOption.profitPerDU := profitPerDU |}]
      else []
  | None => []
  end.

(** The options a destination gives rise to: none for a location that bears
    the current location's symbol or has no marketplace. *)
Definition offersAt (enum : ShipClass.t) (ship : IShip.t) (currentLocation : ILocation.t)
           (localMarket : list IGood.t) (fuelUnitCost : option Q)
           (destination : ILocation.t) : list ITradeOption.t :=
  if String.eqb (ILocation.symbol destination) (ILocation.symbol currentLocation) then []
  else match ILocation.marketplace destination with
       | Some marketplace =>
           flat_map (offer enum ship currentLocation localMarket fuelUnitCost destination)
                    marketplace
       | None => []
       end.

(** The options of all the locations, in the order [sortTradeOptions] pushes
    them. *)
Definition offers (enum : ShipClass.t) (ship : IShip.t) (currentLocation : ILocation.t)
           (localMarket : list IGood.t) (fuelUnitCost : option Q)
           (locations : list ILocation.t) : list ITradeOption.t :=
  flat_map (offersAt enum ship currentLocation localMarket fuelUnitCost) locations.

(** The ranked list a rebuild leaves: the sorted offers, or the previous
    list when the local marketplace is empty. *)
Definition rankedAt (enum : ShipClass.t) (locations : list ILocation.t) (ship : IShip.t)
           (l : ILocation.t) (marketplace : list IGood.t)
           (previous : option (list ITradeOption.t)) : option (list ITradeOption.t) :=
  match marketplace with
  | [] => previous
  | _ :: _ =>
      Some (Mentat.sortByKey ITradeOption.profitPerDU
              (offers enum ship l marketplace (fuelUnitCostAt marketplace) locations))
  end.

(** An initialized engine whose cached properties are those of [l] and its
    marketplace. *)
Definition engineOf (locations : list ILocation.t) (ship : IShip.t) (l : ILocation.t)
           (marketplace : list IGood.t) (ranked : option (list ITradeOption.t)) : t :=
  {| _initialized := true; _locations := Some locations; _ship := Some ship;
     _currentLocation := Some l; _currentMarketplace := Some marketplace;
     _currentFuelUnitCost := fuelUnitCostAt marketplace;
     _tradeOptions := ranked |}.

(** The engine after an update that threw: the location found, if any, has
    no marketplace. *)
Definition adrift (found : option ILocation.t) (this : t) : t :=
  set_currentMarketplace None (set_currentLocation found this).

(** A ranked option as [sortTradeOptions] lists it. *)
Definition listed (enum : ShipClass.t) (ship : IShip.t) (currentLocation : ILocation.t)
           (localMarket : list IGood.t) (locations : list ILocation.t)
           (o : ITradeOption.t) : Prop :=
  let trade := ITradeOption.trade o in
  let destination := ITrade.destination trade in
  In destination locations /\
  ILocation.symbol destination <> ILocation.symbol currentLocation /\
  (exists marketplace,
      ILocation.marketplace destination = Some marketplace /\
      In (ITrade.destinationGood trade) marketplace) /\
  find (fun g => String.eqb (IGood.symbol g) (IGood.symbol (ITrade.destinationGood trade)))
       localMarket = Some (ITrade.localGood trade) /\
  0 < IGood.quantityAvailable (ITrade.localGood trade) /\
  ITradeOption.profitPerDU o
  = Mentat.calculateProfitPerDU enum (ITrade.destinationGood trade) (ITrade.localGood trade)
      ship currentLocation destination (fuelUnitCostAt localMarket) /\
  JS.gtPerRoot (ITradeOption.profitPerDU o) (JS.ofQ 0) = true.

(** The candidates [navigate] scans: the ranked options, or those in range
    of the ship when a range is given. *)
Definition candidates (params : INavigationParameters.t) (ship : IShip.t)
           (ranked : list ITradeOption.t) : list ITradeOption.t :=
  match INavigationParameters.range params with
  | Some range =>
      if JS.truthy range
      then filter (fun o => Mentat.validateRange ship range
                              (ITrade.destination (ITradeOption.trade o))) ranked
      else ranked
  | None => ranked
  end.

(** The parameters in force. *)
Definition inForce (params : option INavigationParameters.t) : INavigationParameters.t :=
  match params with Some p => p | None => defaultParameters end.

(** The route [navigate] assembles for a destination it has settled on. *)
Definition routeFor (ship : IShip.t) (refuel : Refuel) (kept : list ITradeOption.t)
  : ITradeRoute.t :=
  {| ITradeRoute.destination := destination refuel;
     ITradeRoute.cargo :=
       {| ICargo.good := "FUEL"; ICargo.quantity := fuelQuantity refuel;
          ICargo.totalVolume := fuelVolume refuel |}
       :: fillCargo (Mentat.calculateRemainingSpaceAfterRefuel ship (fuelQuantity refuel))
            (filter (fun o => String.eqb
                                (ILocation.symbol (ITrade.destination (ITradeOption.trade o)))
                                (ILocation.symbol (destination refuel))) kept) |}.

(** A cargo line loads the local good of an option. *)
Definition loads (line : ICargo.t) (o : ITradeOption.t) : Prop :=
  let localGood := ITrade.localGood (ITradeOption.trade o) in
  ICargo.good line = IGood.symbol localGood /\
  ICargo.quantity line <= IGood.quantityAvailable localGood /\
  ICargo.totalVolume line = ICargo.quantity line * IGood.volumePerUnit localGood.

(** The array [navigate] hands to its first loop. *)
Definition scanRef (params : INavigationParameters.t) (scanned : list ITradeOption.t)
  : TradesRef :=
  match INavigationParameters.range params with
  | Some range => if JS.truthy range then OwnArray scanned else ThisTradeOptions
  | None => ThisTradeOptions
  end.

(** A cargo line asks for no negative quantity. *)
Definition notNegative (line : ICargo.t) : Prop :=
  0 <= ICargo.quantity line /\ 0 <= ICargo.totalVolume line.

(* ================================================================= *)
(** ** Worked scenarios *)

Module Scenario.

Definition good (symbol : string) (quantityAvailable volumePerUnit purchase sell : Q) : IGood.t :=
  {| IGood.quantityAvailable := quantityAvailable;
     IGood.volumePerUnit := volumePerUnit;
     IGood.pricePerUnit := purchase;
     IGood.spread := 0;
     IGood.purchasePricePerUnit := purchase;
     IGood.sellPricePerUnit := sell;
     IGood.symbol := symbol |}.

Definition planet (symbol : string) (x y : Q) (marketplace : option (list IGood.t))
  : ILocation.t :=
  {| ILocation.symbol := symbol; ILocation.type := "PLANET"; ILocation.name := symbol;
     ILocation.x := x; ILocation.y := y; ILocation.marketplace := marketplace |}.

(** A ship of a class outside the enumerated ones. *)
Definition shipAt (location : string) (x y : Q) (cargo : list ICargo.t) (spaceAvailable : Q)
  : IShip.t :=
  {| IShip.id := "ship-1"; IShip.location := location; IShip.x := x; IShip.y := y;
     IShip.cargo := cargo; IShip.spaceAvailable := spaceAvailable;
     IShip.type := "JW-MK-I"; IShip.class := "MK-I"; IShip.maxCargo := spaceAvailable;
     IShip.speed := 1; IShip.manufacturer := "Jackshaw"; IShip.plating := 0;
     IShip.weapons := 0 |}.

(** One possible content of the enumeration. *)
Definition classes : ShipClass.t :=
  {| ShipClass.HM_MK_III := "HM-MK-III";
     ShipClass.GR_MK_III := "GR-MK-III";
     ShipClass.GR_MK_II := "GR-MK-II" |}.

Definition destinationOf (tradeOption : ITradeOption.t) : string :=
  ILocation.symbol (ITrade.destination (ITradeOption.trade tradeOption)).

Definition line (good : string) (quantity totalVolume : Q) : ICargo.t :=
  {| ICargo.good := good; ICargo.quantity := quantity; ICargo.totalVolume := totalVolume |}.

(** The scenario of the specification: A sells FUEL and METAL, B buys
    METAL at a higher price. *)
Definition locA (metalAvailable : Q) : ILocation.t :=
  planet "A" 0 0 (Some [good "FUEL" 100 1 1 1; good "METAL" metalAvailable 1 5 4]).
Definition locB : ILocation.t := planet "B" 3 4 (Some [good "METAL" 50 1 11 10]).
Definition shipAtA : IShip.t := shipAt "A" 0 0 [] 50.

(** Little FUEL on offer at the origin O; X pays best but is far away,
    Y and Z are near. *)
Definition locO : ILocation.t :=
  planet "O" 0 0 (Some [good "FUEL" 10 1 1 1; good "METAL" 1000 1 5 4]).
Definition locX : ILocation.t := planet "X" 100 0 (Some [good "METAL" 50 1 1001 1000]).
Definition locY : ILocation.t := planet "Y" 3 4 (Some [good "METAL" 50 1 11 10]).
Definition locZ : ILocation.t := planet "Z" 0 5 (Some [good "METAL" 50 1 10 9]).
Definition shipAtO : IShip.t := shipAt "O" 0 0 [] 100.

(** E lists an empty marketplace, N has none. *)
Definition locE : ILocation.t := planet "E" 1 1 (Some []).
Definition locN : ILocation.t := planet "N" 2 2 None.
Definition shipAtE : IShip.t := shipAt "E" 1 1 [] 50.
Definition shipAtN : IShip.t := shipAt "N" 2 2 [] 50.

(** A sells METAL and MACHINERY; a unit of MACHINERY takes 10 units of
    space. *)
Definition locA' : ILocation.t :=
  planet "A" 0 0 (Some [good "FUEL" 100 1 1 1; good "METAL" 40 1 5 4;
                        good "MACHINERY" 10 10 20 15]).
Definition locB' : ILocation.t :=
  planet "B" 3 4 (Some [good "METAL" 50 1 11 10; good "MACHINERY" 5 10 70 60]).

(** The MACHINERY trade between A and B. *)
Definition machineryOption : ITradeOption.t :=
  {| ITradeOption.trade :=
       {| ITrade.destination := locB';
          ITrade.localGood := good "MACHINERY" 10 10 20 15;
          ITrade.destinationGood := good "MACHINERY" 5 10 70 60 |};
     ITradeOption.profitPerDU := JS.ofQ 1 |}.

End Scenario.

Import Scenario.
Open Scope string_scope.
Open Scope list_scope.

(** The engine of the scenario of the specification, with 45 METAL on
    offer at A. *)
Definition scenarioEngine : t :=
  Eval vm_compute in
    match constructor classes [locA 45; locB] shipAtA with
    | JS.Normal this => this
    | JS.Throw _ => blank
    end.

Definition scenarioRoute : ITradeRoute.t :=
  {| ITradeRoute.destination := locB;
     ITradeRoute.cargo := [line "FUEL" 5 5; line "METAL" 45 45] |}.

(** The engine that trades METAL and MACHINERY between A and B. *)
Definition machineryEngine : t :=
  Eval vm_compute in
    match constructor classes [locA'; locB'] shipAtA with
    | JS.Normal this => this
    | JS.Throw _ => blank
    end.

Definition machineryRoute : ITradeRoute.t :=
  {| ITradeRoute.destination := locB';
     ITradeRoute.cargo := [line "FUEL" 5 5; line "METAL" 40 40; line "MACHINERY" 0 0] |}.

(** The ship at A, were it of the given class. *)
Definition shipOfClass (type : string) : IShip.t :=
  {| IShip.id := "ship-1"; IShip.location := "A"; IShip.x := 0; IShip.y := 0;
     IShip.cargo := []; IShip.spaceAvailable := 50;
     IShip.type := type; IShip.class := "MK-III"; IShip.maxCargo := 50;
     IShip.speed := 1; IShip.manufacturer := "Hermes"; IShip.plating := 0;
     IShip.weapons := 0 |}.

(** The METAL bought at A and sold at B, and the trade the engine of the
    scenario ranks. *)
Definition metalAtA : IGood.t := good "METAL" 45 1 5 4.
Definition metalAtB : IGood.t := good "METAL" 50 1 11 10.
Definition metalOption : ITradeOption.t :=
  {| ITradeOption.trade :=
       {| ITrade.destination := locB;
          ITrade.localGood := metalAtA;
          ITrade.destinationGood := metalAtB |};
     ITradeOption.profitPerDU :=
       Mentat.calculateProfitPerDU classes metalAtB metalAtA shipAtA (locA 45) locB (Some 1) |}.

(** The engine at O, where little FUEL is on offer, before and after a
    first call of [navigate]. *)
Definition scarceFuelEngine : t :=
  Eval vm_compute in
    match constructor classes [locO; locX; locY] shipAtO with
    | JS.Normal this => this
    | JS.Throw _ => blank
    end.

Definition scarceFuelEngine' : t :=
  Eval vm_compute in fst (navigate classes None false scarceFuelEngine).

Definition optionsOf (this : t) : list ITradeOption.t :=
  match _tradeOptions this with
  | Some ranked => ranked
  | None => []
  end.

(** What the engine of the scenario prints for its METAL trade. *)
Definition metalEntry : LogEntry.t :=
  {| LogEntry.trip := "A -> B";
     LogEntry.distance := JS.sqrt 25;
     LogEntry.profitPerDU := ITradeOption.profitPerDU metalOption;
     LogEntry.goodProfit := 460;
     LogEntry.profit := 226;
     LogEntry.good := "METAL";
     LogEntry.goodQuantity := 46;
     LogEntry.goodCost := 230;
     LogEntry.fuelQuantity := 4;
     LogEntry.fuelCost := 4 |}.

(* ================================================================= *)
(** ** IEEE 754 binary64 *)

Module Double.

(** A value is a zero, an infinity, NaN or [(-1)^s * m * 2^e]. *)
Definition t : Type := spec_float.

Definition prec : Z := 53.
Definition emax : Z := 1024.
Definition emin : Z := -1074.

Definition NaN : t := S754_nan.
Definition Infinity : t := S754_infinity false.
Definition zero : t := S754_zero false.

Definition isNaN (x : t) : bool :=
  match x with S754_nan => true | _ => false end.

(** The doubles among the values: a mantissa of 53 bits with an exponent
    from -1074 to 971, or a shorter mantissa with the exponent -1074. *)
Definition isDouble (x : t) : bool := valid_binary prec emax x.

Definition isFinite (x : t) : bool :=
  match x with
  | S754_zero _ | S754_finite _ _ _ => isDouble x
  | _ => false
  end.

(** The rational a zero or a finite value stands for. *)
Definition toQ (x : t) : Q :=
  match x with
  | S754_finite s m e =>
      (if s then - inject_Z (Zpos m) else inject_Z (Zpos m)) * 2 ^ e
  | _ => 0
  end.

(** The number on the extended line: the infinities stand at [2^1024] and
    [-2^1024], beyond every double. *)
Definition extended (x : t) : Q :=
  match x with
  | S754_infinity s => if s then - 2 ^ emax else 2 ^ emax
  | _ => toQ x
  end.

(** [floor (log2 q)] for a positive [q]. *)
Definition ilog2 (q : Q) : Z :=
  let k := (Z.log2 (Qnum q) - Z.log2 (Zpos (Qden q)))%Z in
  if Qle_bool (2 ^ k) q then k else (k - 1)%Z.

(** The nearest integer, the even one of two that are equally near. *)
Definition roundHalfEven (x : Q) : Z :=
  let f := Qfloor x in
  match Qcompare (x - inject_Z f) (1 # 2) with
  | Lt => f
  | Gt => (f + 1)%Z
  | Eq => if Z.even f then f else (f + 1)%Z
  end.

(** A mantissa that rounding has carried to 54 bits is brought back to 53;
    a result beyond the largest exponent is an infinity, a mantissa of 0 a
    zero. *)
Definition pack (negative : bool) (m e : Z) : t :=
  let '(m, e) := if (m =? 2 ^ prec)%Z then (2 ^ (prec - 1), e + 1)%Z else (m, e) in
  match m with
  | Zpos m => if (e <=? emax - prec)%Z then S754_finite negative m e
              else S754_infinity negative
  | _ => S754_zero negative
  end.

(** The exponent of the doubles next to a positive value whose binary
    logarithm has the integer part [l]. *)
Definition exponentAt (l : Z) : Z := Z.max (l - (prec - 1)) emin.

(** The double nearest to a positive rational [q], ties to the even
    mantissa. *)
Definition nearest (negative : bool) (q : Q) : t :=
  let e := exponentAt (ilog2 q) in
  pack negative (roundHalfEven (q * 2 ^ (- e))) e.

(** The multiple of the spacing of the doubles at [q] that is nearest to a
    positive rational [q]. *)
Definition rounded (q : Q) : Q :=
  let e := exponentAt (ilog2 q) in
  inject_Z (roundHalfEven (q * 2 ^ (- e))) * 2 ^ e.

(** Rounding to nearest: what an operation returns for the exact result
    [q].  An exact 0 is +0. *)
Definition round (q : Q) : t :=
  match Qcompare q 0 with
  | Eq => S754_zero false
  | Gt => nearest false q
  | Lt => nearest true (- q)
  end.

(** The double nearest to the square root of a positive rational [q]. *)
Definition nearestSqrt (q : Q) : t :=
  let e := exponentAt (ilog2 q / 2) in
  let x := q * 2 ^ (- (2 * e)) in
  let s := Z.sqrt (Qfloor x) in
  let half := inject_Z s + (1 # 2) in
  pack false
       (match Qcompare x (half * half) with
        | Lt => s
        | Gt => (s + 1)%Z
        | Eq => if Z.even s then s else (s + 1)%Z
        end) e.

(** A numeric literal and an integer. *)
Definition lit (q : Q) : t := round q.
Definition ofZ (z : Z) : t := round (inject_Z z).

(** *** Arithmetic *)

Definition opp (x : t) : t := SFopp x.
Definition abs (x : t) : t := SFabs x.

Definition sign (x : t) : bool :=
  match x with
  | S754_zero s | S754_infinity s | S754_finite s _ _ => s
  | S754_nan => false
  end.

Definition add (x y : t) : t :=
  match x, y with
  | S754_nan, _ | _, S754_nan => S754_nan
  | S754_infinity sx, S754_infinity sy => if Bool.eqb sx sy then x else S754_nan
  | S754_infinity _, _ => x
  | _, S754_infinity _ => y
  | S754_zero sx, S754_zero sy => S754_zero (sx && sy)
  | S754_zero _, _ => y
  | _, S754_zero _ => x
  | _, _ => round (toQ x + toQ y)
  end.

Definition sub (x y : t) : t := add x (opp y).

Definition mul (x y : t) : t :=
  let s := xorb (sign x) (sign y) in
  match x, y with
  | S754_nan, _ | _, S754_nan => S754_nan
  | S754_infinity _, S754_zero _ | S754_zero _, S754_infinity _ => S754_nan
  | S754_infinity _, _ | _, S754_infinity _ => S754_infinity s
  | S754_zero _, _ | _, S754_zero _ => S754_zero s
  | _, _ => round (toQ x * toQ y)
  end.

Definition div (x y : t) : t :=
  let s := xorb (sign x) (sign y) in
  match x, y with
  | S754_nan, _ | _, S754_nan => S754_nan
  | S754_infinity _, S754_infinity _ | S754_zero _, S754_zero _ => S754_nan
  | S754_infinity _, _ | _, S754_zero _ => S754_infinity s
  | S754_zero _, _ | _, S754_infinity _ => S754_zero s
  | _, _ => round (toQ x / toQ y)
  end.

Definition sqrt (x : t) : t :=
  match x with
  | S754_nan | S754_infinity true | S754_finite true _ _ => S754_nan
  | S754_infinity false | S754_zero _ => x
  | S754_finite false _ _ => nearestSqrt (toQ x)
  end.

(** *** Comparison *)

(** The order of two numbers; none when one of them is NaN. *)
Definition compare (x y : t) : option comparison :=
  match x, y with
  | S754_nan, _ | _, S754_nan => None
  | S754_infinity sx, S754_infinity sy =>
      Some (if sx then if sy then Eq else Lt else if sy then Gt else Eq)
  | S754_infinity s, _ => Some (if s then Lt else Gt)
  | _, S754_infinity s => Some (if s then Gt else Lt)
  | _, _ => Some (Qcompare (toQ x) (toQ y))
  end.

Definition ltb (x y : t) : bool :=
  match compare x y with Some Lt => true | _ => false end.
Definition leb (x y : t) : bool :=
  match compare x y with Some Lt | Some Eq => true | _ => false end.
Definition gtb (x y : t) : bool := ltb y x.
Definition geb (x y : t) : bool := leb y x.
Definition eqb (x y : t) : bool :=
  match compare x y with Some Eq => true | _ => false end.

(** The numbers from the zeros up to +Infinity. *)
Definition nonNegative (x : t) : bool :=
  match x with
  | S754_zero _ => true
  | S754_infinity s | S754_finite s _ _ => negb s
  | S754_nan => false
  end.

(** Truthiness: every number but the zeros and NaN. *)
Definition truthy (x : t) : bool :=
  match x with
  | S754_zero _ | S754_nan => false
  | _ => true
  end.

(** [x || 0] on a possibly missing number. *)
Definition orZero (x : option t) : t :=
  match x with
  | Some v => if truthy v then v else zero
  | None => zero
  end.

(** [null] in arithmetic position is +0. *)
Definition nullToZero (x : option t) : t :=
  match x with Some v => v | None => zero end.

(** *** The functions of [Math] *)

(** An integer result of [Math.floor], [Math.ceil] or [Math.round]; one
    that is 0 keeps the sign of the argument. *)
Definition integral (negative : bool) (n : Z) : t :=
  if (n =? 0)%Z then S754_zero negative else ofZ n.

Definition floor (x : t) : t :=
  match x with
  | S754_finite s _ _ => integral s (Qfloor (toQ x))
  | _ => x
  end.

Definition ceil (x : t) : t :=
  match x with
  | S754_finite s _ _ => integral s (Qceiling (toQ x))
  | _ => x
  end.

(** [Math.round]: the nearest integer, the greater one of two that are
    equally near. *)
Definition roundToInteger (x : t) : t :=
  match x with
  | S754_finite s _ _ => integral s (Qfloor (toQ x + (1 # 2)))
  | _ => x
  end.

(** [Math.pow(x, 2)]: the square, rounded once. *)
Definition pow2 (x : t) : t := mul x x.

(** [Math.max] of two numbers: NaN when one is NaN, +0 for the two zeros. *)
Definition max (x y : t) : t :=
  match compare x y with
  | None => S754_nan
  | Some Lt => y
  | Some Gt => x
  | Some Eq => if sign x then y else x
  end.

End Double.

(* ================================================================= *)
(** ** The program on doubles *)

Declare Scope double_scope.
Delimit Scope double_scope with D.
Bind Scope double_scope with Double.t.
Infix "+" := Double.add : double_scope.
Infix "-" := Double.sub : double_scope.
Infix "*" := Double.mul : double_scope.
Infix "/" := Double.div : double_scope.

(* ================================================================= *)
(** ** The sources on doubles *)

Module Floating.

#[local] Open Scope double_scope.

Module IGood.
Record t : Type := {
  quantityAvailable : Double.t;
  volumePerUnit : Double.t;
  pricePerUnit : Double.t;
  spread : Double.t;
  purchasePricePerUnit : Double.t;
  sellPricePerUnit : Double.t;
  symbol : string
}.
End IGood.

Module ILocation.
Record t : Type := {
  symbol : string;
  type : string;
  name : string;
  x : Double.t;
  y : Double.t;
  marketplace : option (list IGood.t)
}.
End ILocation.

Module ICargo.
Record t : Type := {
  good : string;
  quantity : Double.t;
  totalVolume : Double.t
}.
End ICargo.

Module IShip.
Record t : Type := {
  id : string;
  location : string;
  x : Double.t;
  y : Double.t;
  cargo : list ICargo.t;
  spaceAvailable : Double.t;
  type : string;
  class : string;
  maxCargo : Double.t;
  speed : Double.t;
  manufacturer : string;
  plating : Double.t;
  weapons : Double.t
}.
End IShip.

Module ITradeRoute.
Record t : Type := {
  destination : ILocation.t;
  cargo : list ICargo.t
}.
End ITradeRoute.

Module ITrade.
Record t : Type := {
  destination : ILocation.t;
  localGood : IGood.t;
  destinationGood : IGood.t
}.
End ITrade.

Module ITradeOption.
Record t : Type := {
  trade : ITrade.t;
  profitPerDU : Double.t
}.
End ITradeOption.

(** A caller may leave out either field of the parameter object. *)
Module INavigationParameters.
Record t : Type := {
  range : option Double.t;
  fuelMargin : option Double.t
}.
End INavigationParameters.

Module Mentat.

(** [Math.pow(d, 2)] is the square, rounded once. *)
Definition calculateDistance (ax ay bx by_ : Double.t) : Double.t :=
  Double.sqrt (Double.abs (Double.pow2 (ax - bx)) + Double.abs (Double.pow2 (ay - by_))).

Definition calculateLocationDistance (a b : ILocation.t) : Double.t :=
  calculateDistance (ILocation.x a) (ILocation.y a) (ILocation.x b) (ILocation.y b).

Section WithShipClass.

Variable ShipClass : ShipClass.t.

(** [multiplier] starts at 0.25 and [penalty] at 0; the [switch] on the
    ship's type sets both. *)
Definition calculateFuelToTravel (ship : IShip.t) (location destination : ILocation.t)
  : Double.t :=
  let isPlanet := String.eqb (ILocation.type location) "PLANET" in
  let '(multiplier, penalty) :=
    if String.eqb (IShip.type ship) (ShipClass.HM_MK_III ShipClass)
    then (Double.lit 0.188, if isPlanet then Double.lit 1 else Double.lit 0)
    else if String.eqb (IShip.type ship) (ShipClass.GR_MK_III ShipClass)
    then (Double.lit 0.25, if isPlanet then Double.lit 4 else Double.lit 0)
    else if String.eqb (IShip.type ship) (ShipClass.GR_MK_II ShipClass)
    then (Double.lit 0.25, if isPlanet then Double.lit 3 else Double.lit 0)
    else (Double.lit 0.25, if isPlanet then Double.lit 2 else Double.lit 0) in
  Double.roundToInteger
    (Double.roundToInteger (calculateLocationDistance location destination) * multiplier)
  + penalty + Double.lit 1.

End WithShipClass.

(** [margin] is an optional argument whose default is 0. *)
Definition calculateFuelQuantity (ship : IShip.t) (fuelToTravel : Double.t)
           (margin : option Double.t) : Double.t :=
  let margin := match margin with Some m => m | None => Double.lit 0 end in
  let currentFuel :=
    Double.orZero (option_map ICargo.quantity
                     (hd_error (filter (fun c => String.eqb (ICargo.good c) "FUEL")
                                       (IShip.cargo ship)))) in
  let quantity :=
    if Double.geb currentFuel fuelToTravel then Double.lit 0
    else fuelToTravel - currentFuel in
  Double.ceil (quantity * (Double.lit 1 + (Double.lit 0.01 * margin))).

Definition calculatePricePerVolume (pricePerUnit volumePerUnit : Double.t) : Double.t :=
  pricePerUnit / volumePerUnit.

Definition calculateGoodProfitPerVol (a b : IGood.t) : Double.t :=
  let aPpV := calculatePricePerVolume (IGood.sellPricePerUnit a) (IGood.volumePerUnit a) in
  let bPpV := calculatePricePerVolume (IGood.purchasePricePerUnit b) (IGood.volumePerUnit b) in
  aPpV - bPpV.

Definition calculateGoodProfit (good : IGood.t) (amount : Double.t) : Double.t :=
  IGood.sellPricePerUnit good * amount.

Definition calculateGoodCost (good : IGood.t) (amount : Double.t) : Double.t :=
  IGood.purchasePricePerUnit good * amount.

Definition calculateFuelToTravelCost (amount unitCost : Double.t) : Double.t :=
  amount * unitCost.

Definition calculateCargoVolume (good : IGood.t) (amount : Double.t) : Double.t :=
  amount * IGood.volumePerUnit good.

Definition calculateGoodQuantity (space volumePerUnit : Double.t) : Double.t :=
  Double.floor (Double.floor (space / volumePerUnit)).

Definition calculateFuelToTravelVolume (amount : Double.t) : Double.t :=
  amount * Double.lit 1.

Definition calculateGoodVolume (amount : Double.t) (good : IGood.t) : Double.t :=
  amount * IGood.volumePerUnit good.

Definition calculateRemainingSpaceAfterRefuel (ship : IShip.t) (fuelQuantity : Double.t)
  : Double.t :=
  IShip.spaceAvailable ship - calculateFuelToTravelVolume fuelQuantity.

Definition validateRange (ship : IShip.t) (range : Double.t) (location : ILocation.t) : bool :=
  Double.gtb range
    (calculateDistance (IShip.x ship) (IShip.y ship) (ILocation.x location) (ILocation.y location)).

Section WithShipClass.

Variable ShipClass : ShipClass.t.

(** [fuelUnitCost] is the engine's [getCurrentFuelUnitCost()], which is
    [null] when the market lists no FUEL. *)
Definition calculateProfitPerDU (aGood bGood : IGood.t) (ship : IShip.t)
           (location destination : ILocation.t) (fuelUnitCost : option Double.t) : Double.t :=
  let distance := calculateLocationDistance location destination in
  if Double.truthy distance then
    let fuel := calculateFuelToTravel ShipClass ship location destination in
    let fuelCost := calculateFuelToTravelCost fuel (Double.nullToZero fuelUnitCost) in
    let goodProfitPerVol := calculateGoodProfitPerVol aGood bGood in
    let profit := (goodProfitPerVol * (IShip.spaceAvailable ship - fuel)) - fuelCost in
    profit / distance
  else Double.lit 0.

End WithShipClass.

(** [arr.sort(cmp)] with [cmp a b = 1] when [a[key] < b[key]], [-1] when
    [a[key] > b[key]] and [0] otherwise: [a] stays in front of [b] unless
    [cmp a b > 0].  The sort is stable (ECMAScript 2019). *)
Section Sort.

Context {A : Type} (key : A -> Double.t).

Definition compareByKey (a b : A) : Z :=
  let x := key a in
  let y := key b in
  if Double.ltb x y then 1%Z else if Double.gtb x y then (-1)%Z else 0%Z.

Fixpoint insertByKey (a : A) (sorted : list A) : list A :=
  match sorted with
  | [] => [a]
  | b :: rest =>
      if (0 <? compareByKey a b)%Z then b :: insertByKey a rest
      else a :: sorted
  end.

Definition sortByKey (arr : list A) : list A :=
  fold_right insertByKey [] arr.

End Sort.

End Mentat.

Module Navigator.

(** The private fields.  A field that has not been assigned yet, or that
    holds [null], is [None]. *)
Record t : Type := {
  _initialized : bool;
  _locations : option (list ILocation.t);
  _ship : option IShip.t;
  _currentLocation : option ILocation.t;
  _currentMarketplace : option (list IGood.t);
  _currentFuelUnitCost : option Double.t;
  _tradeOptions : option (list ITradeOption.t)
}.

(** The object as the constructor finds it. *)
Definition blank : t :=
  {| _initialized := false; _locations := None; _ship := None;
     _currentLocation := None; _currentMarketplace := None;
     _currentFuelUnitCost := None; _tradeOptions := None |}.

Definition set_initialized (v : bool) (this : t) : t :=
  {| _initialized := v; _locations := _locations this; _ship := _ship this;
     _currentLocation := _currentLocation this;
     _currentMarketplace := _currentMarketplace this;
     _currentFuelUnitCost := _currentFuelUnitCost this;
     _tradeOptions := _tradeOptions this |}.

Definition set_locations (v : option (list ILocation.t)) (this : t) : t :=
  {| _initialized := _initialized this; _locations := v; _ship := _ship this;
     _currentLocation := _currentLocation this;
     _currentMarketplace := _currentMarketplace this;
     _currentFuelUnitCost := _currentFuelUnitCost this;
     _tradeOptions := _tradeOptions this |}.

Definition set_ship (v : option IShip.t) (this : t) : t :=
  {| _initialized := _initialized this; _locations := _locations this; _ship := v;
     _currentLocation := _currentLocation this;
     _currentMarketplace := _currentMarketplace this;
     _currentFuelUnitCost := _currentFuelUnitCost this;
     _tradeOptions := _tradeOptions this |}.

Definition set_currentLocation (v : option ILocation.t) (this : t) : t :=
  {| _initialized := _initialized this; _locations := _locations this;
     _ship := _ship this; _currentLocation := v;
     _currentMarketplace := _currentMarketplace this;
     _currentFuelUnitCost := _currentFuelUnitCost this;
     _tradeOptions := _tradeOptions this |}.

Definition set_currentMarketplace (v : option (list IGood.t)) (this : t) : t :=
  {| _initialized := _initialized this; _locations := _locations this;
     _ship := _ship this; _currentLocation := _currentLocation this;
     _currentMarketplace := v;
     _currentFuelUnitCost := _currentFuelUnitCost this;
     _tradeOptions := _tradeOptions this |}.

Definition set_currentFuelUnitCost (v : option Double.t) (this : t) : t :=
  {| _initialized := _initialized this; _locations := _locations this;
     _ship := _ship this; _currentLocation := _currentLocation this;
     _currentMarketplace := _currentMarketplace this;
     _currentFuelUnitCost := v;
     _tradeOptions := _tradeOptions this |}.

Definition set_tradeOptions (v : option (list ITradeOption.t)) (this : t) : t :=
  {| _initialized := _initialized this; _locations := _locations this;
     _ship := _ship this; _currentLocation := _currentLocation this;
     _currentMarketplace := _currentMarketplace this;
     _currentFuelUnitCost := _currentFuelUnitCost this;
     _tradeOptions := v |}.

(** *** Methods: state and exceptions *)

Definition M (A : Type) : Type := t -> t * JS.Completion A.

Definition ret {A} (a : A) : M A := fun this => (this, JS.Normal a).

Definition throw {A} (e : JS.Exn) : M A := fun this => (this, JS.Throw e).

Definition bind {A B} (m : M A) (k : A -> M B) : M B :=
  fun this =>
    match m this with
    | (this', JS.Normal a) => k a this'
    | (this', JS.Throw e) => (this', JS.Throw e)
    end.

(** A computation that reads [this] and may throw. *)
Definition reading {A} (f : t -> JS.Completion A) : M A :=
  fun this => (this, f this).

(** An assignment to a field of [this]. *)
Definition assign (f : t -> t) : M unit :=
  fun this => (f this, JS.Normal tt).

#[local] Notation "x <- m ;; k" := (bind m (fun x => k))
  (at level 61, m at next level, right associativity).
#[local] Notation "m ;;; k" := (bind m (fun _ => k))
  (at level 61, right associativity).

(** *** The getters *)

(** The loop of [getCurrentLocation] and of [getCurrentMarketplace]: the
    first location whose symbol is the ship's location.  [this._ship] is
    read in the loop body only. *)
Fixpoint locateShip (ship : option IShip.t) (locations : list ILocation.t)
  : JS.Completion (option ILocation.t) :=
  match locations with
  | [] => JS.Normal None
  | l :: rest =>
      s <?- JS.deref ship ;;
      if String.eqb (IShip.location s) (ILocation.symbol l) then JS.Normal (Some l)
      else locateShip ship rest
  end.

Definition getCurrentLocation (this : t) : JS.Completion (option ILocation.t) :=
  locations <?- JS.deref (_locations this) ;;
  locateShip (_ship this) locations.

(** [undefined] (a location without the optional field) and [null] (no
    location found) are both [None]. *)
Definition getCurrentMarketplace (this : t) : JS.Completion (option (list IGood.t)) :=
  locations <?- JS.deref (_locations this) ;;
  found <?- locateShip (_ship this) locations ;;
  JS.Normal (match found with
             | Some l => ILocation.marketplace l
             | None => None
             end).

(** [marketplace.length] throws when there is no marketplace. *)
Definition getCurrentFuelUnitCost (this : t) : JS.Completion (option Double.t) :=
  found <?- getCurrentMarketplace this ;;
  marketplace <?- JS.deref found ;;
  JS.Normal (option_map IGood.purchasePricePerUnit
               (find (fun g => String.eqb (IGood.symbol g) "FUEL") marketplace)).

Definition setProperties : M unit :=
  v <- reading getCurrentLocation ;; assign (set_currentLocation v) ;;;
  v <- reading getCurrentMarketplace ;; assign (set_currentMarketplace v) ;;;
  v <- reading getCurrentFuelUnitCost ;; assign (set_currentFuelUnitCost v).

Section WithShipClass.

Variable ShipClass : ShipClass.t.

(** *** sortTradeOptions *)

(** The loop over the goods of one destination marketplace ([j] and [k]
    loops).  [push] appends. *)
Fixpoint goodsLoop (this : t) (currentLocation : ILocation.t) (localMarket : list IGood.t)
         (destination : ILocation.t) (marketplace : list IGood.t)
         (trades : list ITradeOption.t) : JS.Completion (list ITradeOption.t) :=
  match marketplace with
  | [] => JS.Normal trades
  | destinationGood :: rest =>
      match find (fun g => String.eqb (IGood.symbol g) (IGood.symbol destinationGood))
                 localMarket with
      | Some localGood =>
          if Double.gtb (IGood.quantityAvailable localGood) (Double.lit 0) then
            fuelUnitCost <?- getCurrentFuelUnitCost this ;;
            ship <?- JS.deref (_ship this) ;;
            let profitPerDU :=
              Mentat.calculateProfitPerDU ShipClass destinationGood localGood ship
                currentLocation destination fuelUnitCost in
            if Double.gtb profitPerDU (Double.lit 0) then
              goodsLoop this currentLocation localMarket destination rest
                (trades ++ [{| ITradeOption.trade :=
                                 {| ITrade.destination := destination;
                                    ITrade.localGood := localGood;
                                    ITrade.destinationGood := destinationGood |};
                               ITradeOption.profitPerDU := profitPerDU |}])
            else goodsLoop this currentLocation localMarket destination rest trades
          else goodsLoop this currentLocation localMarket destination rest trades
      | None => goodsLoop this currentLocation localMarket destination rest trades
      end
  end.

(** The loop over the locations ([i] loop). *)
Fixpoint locationsLoop (this : t) (currentLocation : ILocation.t) (localMarket : list IGood.t)
         (locations : list ILocation.t) (trades : list ITradeOption.t)
  : JS.Completion (list ITradeOption.t) :=
  match locations with
  | [] => JS.Normal trades
  | destination :: rest =>
      if String.eqb (ILocation.symbol destination) (ILocation.symbol currentLocation)
      then locationsLoop this currentLocation localMarket rest trades
      else
        match ILocation.marketplace destination with
        | Some (g :: gs) =>
            trades' <?- goodsLoop this currentLocation localMarket destination (g :: gs) trades ;;
            locationsLoop this currentLocation localMarket rest trades'
        | _ => locationsLoop this currentLocation localMarket rest trades
        end
  end.

(** The early [return] leaves [_tradeOptions] as it was.  What
    [logTradeOptions] prints to the console is not part of the state. *)
Definition sortTradeOptions : M unit :=
  currentLocation <- reading (fun this => JS.deref (_currentLocation this)) ;;
  match ILocation.marketplace currentLocation with
  | None | Some [] => ret tt
  | Some localMarket =>
      trades <- reading (fun this =>
                  locations <?- JS.deref (_locations this) ;;
                  locationsLoop this currentLocation localMarket locations []) ;;
      assign (set_tradeOptions (Some (Mentat.sortByKey ITradeOption.profitPerDU trades)))
  end.

(** *** The update operations and the constructor *)

Definition updateLocationsData (locations : list ILocation.t) : M unit :=
  assign (set_locations (Some locations)) ;;;
  initialized <- reading (fun this => JS.Normal (_initialized this)) ;;
  if initialized then setProperties ;;; sortTradeOptions else ret tt.

Definition updateShipData (ship : IShip.t) : M unit :=
  assign (set_ship (Some ship)) ;;;
  setProperties ;;;
  initialized <- reading (fun this => JS.Normal (_initialized this)) ;;
  if initialized then sortTradeOptions else ret tt.

(** [new Navigator(locations, ship)]: no object when the body throws. *)
Definition constructor (locations : list ILocation.t) (ship : IShip.t) : JS.Completion t :=
  match (updateLocationsData locations ;;;
         updateShipData ship ;;;
         sortTradeOptions ;;;
         assign (set_initialized true)) blank with
  | (this, JS.Normal _) => JS.Normal this
  | (_, JS.Throw e) => JS.Throw e
  end.

(** *** navigate *)

(** The local variable [trades]: the very array held in [this._tradeOptions],
    or an array of its own that [filter] made. *)
Inductive TradesRef : Type :=
| ThisTradeOptions
| OwnArray (arr : list ITradeOption.t).

Definition readTrades (trades : TradesRef) : M (list ITradeOption.t) :=
  match trades with
  | ThisTradeOptions => reading (fun this => JS.deref (_tradeOptions this))
  | OwnArray arr => ret arr
  end.

Definition removeAt {A} (i : nat) (arr : list A) : list A :=
  firstn i arr ++ skipn (S i) arr.

(** [trades.splice(i, 1)] changes the array in place. *)
Definition splice1 (i : nat) (trades : TradesRef) : M TradesRef :=
  match trades with
  | ThisTradeOptions =>
      arr <- readTrades ThisTradeOptions ;;
      assign (set_tradeOptions (Some (removeAt i arr))) ;;;
      ret ThisTradeOptions
  | OwnArray arr => ret (OwnArray (removeAt i arr))
  end.

(** What the first loop leaves in [destination], [fuelQuantity] and
    [fuelVolume] when it ends with [break]. *)
Record Refuel : Type := {
  destination : ILocation.t;
  fuelQuantity : Double.t;
  fuelVolume : Double.t
}.

(** The first loop of [navigate], from index [i].  Every iteration either
    ends the loop or shortens the array and advances [i], so [gas] at least
    the length of the array minus [i] is never used up; at [O] the loop
    condition is false. *)
Fixpoint fuelScan (gas : nat) (params : INavigationParameters.t) (i : nat) (trades : TradesRef)
  : M (TradesRef * option Refuel) :=
  match gas with
  | O => ret (trades, None)
  | S gas' =>
      arr <- readTrades trades ;;
      match nth_error arr i with
      | None => ret (trades, None)
      | Some tradeOption =>
          let trade := ITradeOption.trade tradeOption in
          currentLocation <- reading (fun this => JS.deref (_currentLocation this)) ;;
          ship <- reading (fun this => JS.deref (_ship this)) ;;
          let fuelToTravel :=
            Mentat.calculateFuelToTravel ShipClass ship currentLocation
              (ITrade.destination trade) in
          let fuelQuantity :=
            Mentat.calculateFuelQuantity ship fuelToTravel
              (INavigationParameters.fuelMargin params) in
          let fuelVolume := Mentat.calculateFuelToTravelVolume fuelQuantity in
          currentMarketplace <- reading (fun this => JS.deref (_currentMarketplace this)) ;;
          let localFuel :=
            hd_error (filter (fun g => String.eqb (IGood.symbol g) "FUEL")
                             currentMarketplace) in
          if Double.gtb fuelQuantity (Double.orZero (option_map IGood.quantityAvailable localFuel))
          then trades' <- splice1 i trades ;; fuelScan gas' params (S i) trades'
          else if Double.ltb (IShip.spaceAvailable ship) fuelQuantity
          then trades' <- splice1 i trades ;; fuelScan gas' params (S i) trades'
          else ret (trades, Some {| destination := ITrade.destination trade;
                                    fuelQuantity := fuelQuantity;
                                    fuelVolume := fuelVolume |})
      end
  end.

(** The second loop of [navigate]: the cargo lines pushed after the FUEL
    line. *)
Fixpoint fillCargo (remainingSpace : Double.t) (trades : list ITradeOption.t) : list ICargo.t :=
  match trades with
  | [] => []
  | tradeOption :: rest =>
      if Double.leb remainingSpace (Double.lit 0) then []
      else
        let trade := ITradeOption.trade tradeOption in
        let goodQuantity :=
          Mentat.calculateGoodQuantity remainingSpace
            (IGood.volumePerUnit (ITrade.localGood trade)) in
        let goodQuantity :=
          if Double.gtb goodQuantity (IGood.quantityAvailable (ITrade.localGood trade))
          then IGood.quantityAvailable (ITrade.localGood trade)
          else goodQuantity in
        let goodVolume := Mentat.calculateGoodVolume goodQuantity (ITrade.localGood trade) in
        {| ICargo.good := IGood.symbol (ITrade.localGood trade);
           ICargo.quantity := goodQuantity;
           ICargo.totalVolume := goodVolume |}
        :: fillCargo (remainingSpace - goodVolume) rest
  end.

(** [throw new Error(message)] in strict mode, [return;] otherwise. *)
Definition giveUp (strict : bool) (message : string) : M (option ITradeRoute.t) :=
  if strict then throw (JS.Error message) else ret None.

Definition NoProfitableTrade : string :=
  "No profitable trades found from this ship's position".
Definition NoTradeInRange : string :=
  "No profitable trades found in the specified range".
Definition NoFeasibleFuelPlan : string :=
  "Not able to fuel a profitable trip".

(** [navigate] from the first loop on. *)
Definition plotRoute (params : INavigationParameters.t) (strict : bool) (trades : TradesRef)
  : M (option ITradeRoute.t) :=
  arr <- readTrades trades ;;
  scanned <- fuelScan (List.length arr) params 0 trades ;;
  match scanned with
  | (_, None) => giveUp strict NoFeasibleFuelPlan
  | (trades, Some refuel) =>
      arr <- readTrades trades ;;
      let trades :=
        filter (fun tradeOption =>
                  String.eqb
                    (ILocation.symbol (ITrade.destination (ITradeOption.trade tradeOption)))
                    (ILocation.symbol (destination refuel))) arr in
      ship <- reading (fun this => JS.deref (_ship this)) ;;
      let cargo := [{| ICargo.good := "FUEL";
                       ICargo.quantity := fuelQuantity refuel;
                       ICargo.totalVolume := fuelVolume refuel |}] in
      let remainingSpace :=
        Mentat.calculateRemainingSpaceAfterRefuel ship (fuelQuantity refuel) in
      ret (Some {| ITradeRoute.destination := destination refuel;
                   ITradeRoute.cargo := cargo ++ fillCargo remainingSpace trades |})
  end.

Definition defaultParameters : INavigationParameters.t :=
  {| INavigationParameters.range := Some (Double.lit 0);
     INavigationParameters.fuelMargin := Some (Double.lit 5) |}.

(** [params] is [None] when the caller leaves the argument out.  A route is
    [Some]; [return;] is [None]. *)
Definition navigate (params : option INavigationParameters.t) (strict : bool)
  : M (option ITradeRoute.t) :=
  let params := match params with Some p => p | None => defaultParameters end in
  arr <- readTrades ThisTradeOptions ;;
  match arr with
  | [] => giveUp strict NoProfitableTrade
  | _ :: _ =>
      match INavigationParameters.range params with
      | Some range =>
          if Double.truthy range then
            ship <- reading (fun this => JS.deref (_ship this)) ;;
            let filtered :=
              filter (fun tradeOption =>
                        Mentat.validateRange ship range
                          (ITrade.destination (ITradeOption.trade tradeOption))) arr in
            match filtered with
            | [] => giveUp strict NoTradeInRange
            | _ :: _ => plotRoute params strict (OwnArray filtered)
            end
          else plotRoute params strict ThisTradeOptions
      | None => plotRoute params strict ThisTradeOptions
      end
  end.

End WithShipClass.

End Navigator.

End Floating.

(** The fuel already held, on doubles: the quantity of the first FUEL line
    of the ship's cargo, 0 when there is none. *)
Definition heldOnDoubles (ship : Floating.IShip.t) : Double.t :=
  match find (fun c => String.eqb (Floating.ICargo.good c) "FUEL") (Floating.IShip.cargo ship) with
  | Some c => Floating.ICargo.quantity c
  | None => Double.lit 0
  end.

(** The sum of the total volumes of the cargo lines, as a rational. *)
Definition volumeOnDoubles (cargo : list Floating.ICargo.t) : Q :=
  fold_right (fun line acc => Double.toQ (Floating.ICargo.totalVolume line) + acc) 0 cargo.

(** The data as [JSON.parse] hands them to the program: every number of the
    exact reading becomes the double nearest to it. *)
Module Parsed.

Definition good (g : IGood.t) : Floating.IGood.t :=
  {| Floating.IGood.quantityAvailable := Double.lit (IGood.quantityAvailable g);
     Floating.IGood.volumePerUnit := Double.lit (IGood.volumePerUnit g);
     Floating.IGood.pricePerUnit := Double.lit (IGood.pricePerUnit g);
     Floating.IGood.spread := Double.lit (IGood.spread g);
     Floating.IGood.purchasePricePerUnit := Double.lit (IGood.purchasePricePerUnit g);
     Floating.IGood.sellPricePerUnit := Double.lit (IGood.sellPricePerUnit g);
     Floating.IGood.symbol := IGood.symbol g |}.

Definition location (l : ILocation.t) : Floating.ILocation.t :=
  {| Floating.ILocation.symbol := ILocation.symbol l;
     Floating.ILocation.type := ILocation.type l;
     Floating.ILocation.name := ILocation.name l;
     Floating.ILocation.x := Double.lit (ILocation.x l);
     Floating.ILocation.y := Double.lit (ILocation.y l);
     Floating.ILocation.marketplace := option_map (map good) (ILocation.marketplace l) |}.

Definition cargo (c : ICargo.t) : Floating.ICargo.t :=
  {| Floating.ICargo.good := ICargo.good c;
     Floating.ICargo.quantity := Double.lit (ICargo.quantity c);
     Floating.ICargo.totalVolume := Double.lit (ICargo.totalVolume c) |}.

Definition ship (s : IShip.t) : Floating.IShip.t :=
  {| Floating.IShip.id := IShip.id s;
     Floating.IShip.location := IShip.location s;
     Floating.IShip.x := Double.lit (IShip.x s);
     Floating.IShip.y := Double.lit (IShip.y s);
     Floating.IShip.cargo := map cargo (IShip.cargo s);
     Floating.IShip.spaceAvailable := Double.lit (IShip.spaceAvailable s);
     Floating.IShip.type := IShip.type s;
     Floating.IShip.class := IShip.class s;
     Floating.IShip.maxCargo := Double.lit (IShip.maxCargo s);
     Floating.IShip.speed := Double.lit (IShip.speed s);
     Floating.IShip.manufacturer := IShip.manufacturer s;
     Floating.IShip.plating := Double.lit (IShip.plating s);
     Floating.IShip.weapons := Double.lit (IShip.weapons s) |}.

Definition route (r : ITradeRoute.t) : Floating.ITradeRoute.t :=
  {| Floating.ITradeRoute.destination := location (ITradeRoute.destination r);
     Floating.ITradeRoute.cargo := map cargo (ITradeRoute.cargo r) |}.

End Parsed.

(** The origin is a planet. *)
Definition planetOnDoubles (l : Floating.ILocation.t) : bool :=
  String.eqb (Floating.ILocation.type l) "PLANET".

(** *** Scenarios on doubles *)

(** A sells FUEL and GRAIN, a unit of GRAIN taking 1.1 units of space; B
    buys GRAIN at a higher price.  The ship has 192 units of space. *)
Definition grainA : ILocation.t :=
  Scenario.planet "A" 0 0 (Some [Scenario.good "FUEL" 100 1 1 1;
                                 Scenario.good "GRAIN" 500 1.1 5 4]).
Definition grainB : ILocation.t :=
  Scenario.planet "B" 3 4 (Some [Scenario.good "GRAIN" 50 1.1 11 10]).
Definition grainShip : IShip.t := Scenario.shipAt "A" 0 0 [] 192.


(* ================================================================= *)
(** ** Facts about JavaScript numbers *)

Lemma ltb_lt (x y : Q) : JS.ltb x y = true <-> x < y.
Proof.
  unfold JS.ltb. rewrite negb_true_iff. split; intro H.
  - apply Qnot_le_lt. intro L. apply Qle_bool_iff in L. congruence.
  - destruct (Qle_bool y x) eqn:E; [|reflexivity].
    apply Qle_bool_iff in E. exfalso. apply (Qlt_not_le _ _ H E).
Qed.

Lemma ltb_ge (x y : Q) : JS.ltb x y = false <-> y <= x.
Proof.
  unfold JS.ltb. rewrite negb_false_iff. apply Qle_bool_iff.
Qed.

Lemma gtb_lt (x y : Q) : JS.gtb x y = true <-> y < x.
Proof. apply ltb_lt. Qed.

Lemma gtb_le (x y : Q) : JS.gtb x y = false <-> x <= y.
Proof. apply ltb_ge. Qed.

Lemma leb_le (x y : Q) : JS.leb x y = true <-> x <= y.
Proof. apply Qle_bool_iff. Qed.

Lemma leb_gt (x y : Q) : JS.leb x y = false <-> y < x.
Proof.
  unfold JS.leb. split; intro H.
  - apply Qnot_le_lt. intro L. apply Qle_bool_iff in L. congruence.
  - destruct (Qle_bool x y) eqn:E; [|reflexivity].
    apply Qle_bool_iff in E. exfalso. apply (Qlt_not_le _ _ H E).
Qed.

Lemma geb_le (x y : Q) : JS.geb x y = true <-> y <= x.
Proof. apply Qle_bool_iff. Qed.

Lemma geb_lt (x y : Q) : JS.geb x y = false <-> x < y.
Proof. apply leb_gt. Qed.

Lemma truthy_false (x : Q) : JS.truthy x = false <-> x == 0.
Proof.
  unfold JS.truthy. rewrite negb_false_iff. apply Qeq_bool_iff.
Qed.

Lemma orZero_some (x : Q) : JS.orZero (Some x) == x.
Proof.
  unfold JS.orZero. destruct (JS.truthy x) eqn:E; [reflexivity|].
  apply truthy_false in E. symmetry. exact E.
Qed.


Lemma inject_Z_nonneg (z : Z) : (0 <= z)%Z -> 0 <= inject_Z z.
Proof. intro H. change 0 with (inject_Z 0). rewrite <- Zle_Qle. exact H. Qed.

Lemma floor_nonneg (x : Q) : 0 <= x -> (0 <= Qfloor x)%Z.
Proof. intro H. change 0%Z with (Qfloor 0). apply Qfloor_resp_le. exact H. Qed.

Lemma ceiling_nonneg (x : Q) : 0 <= x -> (0 <= Qceiling x)%Z.
Proof. intro H. change 0%Z with (Qceiling 0). apply Qceiling_resp_le. exact H. Qed.


Lemma roundRoot_nonneg (d : JS.Root) : 0 <= JS.roundRoot d.
Proof.
  apply inject_Z_nonneg.
  pose proof (Z.sqrt_nonneg (Qfloor (4 * JS.radicand d))).
  apply Z.div_pos; lia.
Qed.

Lemma square_nonneg (x : Q) : 0 <= x * x.
Proof. nra. Qed.


(* ================================================================= *)
(** ** The symbolic values and the real numbers *)



Lemma Q2R_0 : Q2R 0 = 0%R.
Proof. unfold Q2R. cbn. lra. Qed.



Lemma sqrt_lt_sqr (a r : R) : (0 <= a)%R -> (0 <= r)%R -> (r < a * a)%R -> (sqrt r < a)%R.
Proof.
  intros Ha Hr H. rewrite <- (sqrt_square a Ha). apply sqrt_lt_1_alt. split; assumption.
Qed.


Lemma gtRoot_value (x : Q) (d : JS.Root) :
  0 <= JS.radicand d ->
  JS.gtRoot x d = true <-> (Real.ofRoot d < Q2R x)%R.
Proof.
  intro Hr. unfold JS.gtRoot, Real.ofRoot. set (r := JS.radicand d) in *.
  assert (Rr : (0 <= Q2R r)%R) by (rewrite <- Q2R_0; apply Qle_Rle, Hr).
  rewrite andb_true_iff, !ltb_lt. split.
  - intros [H0 H1]. apply Qlt_Rlt in H0, H1. rewrite Q2R_0 in H0. rewrite Q2R_mult in H1.
    apply sqrt_lt_sqr; lra.
  - intro H. pose proof (sqrt_pos (Q2R r)) as Hs.
    pose proof (sqrt_sqrt (Q2R r) Rr) as Hq.
    split; apply Rlt_Qlt.
    + rewrite Q2R_0. lra.
    + rewrite Q2R_mult. nra.
Qed.

Lemma truthyRoot_value (d : JS.Root) :
  0 <= JS.radicand d ->
  JS.truthyRoot d = true <-> Real.ofRoot d <> 0%R.
Proof.
  intro Hr. unfold JS.truthyRoot, JS.truthy, Real.ofRoot. set (r := JS.radicand d) in *.
  assert (Rr : (0 <= Q2R r)%R) by (rewrite <- Q2R_0; apply Qle_Rle, Hr).
  rewrite negb_true_iff. split.
  - intros H E. apply Qeq_bool_neq in H. apply H.
    apply eqR_Qeq. rewrite Q2R_0. apply sqrt_eq_0; assumption.
  - intro H. destruct (Qeq_bool r 0) eqn:E; [|reflexivity].
    exfalso. apply H. apply Qeq_bool_eq in E. rewrite (Qeq_eqR _ _ E), Q2R_0. apply sqrt_0.
Qed.

Lemma Q2R_abs (x : Q) : Q2R (Qabs x) = Rabs (Q2R x).
Proof.
  destruct (Qlt_le_dec x 0) as [H|H].
  - rewrite (Qeq_eqR _ _ (Qabs_neg x (Qlt_le_weak _ _ H))), Q2R_opp.
    apply Qlt_Rlt in H. rewrite Q2R_0 in H. rewrite Rabs_left by exact H. reflexivity.
  - rewrite (Qeq_eqR _ _ (Qabs_pos x H)).
    apply Qle_Rle in H. rewrite Q2R_0 in H. rewrite Rabs_right by lra. reflexivity.
Qed.

Lemma signed_square_lt (a b : R) : (a < b <-> a * Rabs a < b * Rabs b)%R.
Proof.
  unfold Rabs. destruct (Rcase_abs a), (Rcase_abs b); split; intro H; nra.
Qed.

Lemma signedSquare_value (v : JS.PerRoot) :
  0 < JS.under v ->
  Q2R (JS.signedSquare v) = (Real.ofPerRoot v * Rabs (Real.ofPerRoot v))%R.
Proof.
  intro Hu. unfold JS.signedSquare, Real.ofPerRoot.
  set (n := JS.numer v). set (u := JS.under v) in *.
  assert (Ru : (0 < Q2R u)%R) by (rewrite <- Q2R_0; apply Qlt_Rlt, Hu).
  pose proof (sqrt_lt_R0 _ Ru) as Hs.
  pose proof (sqrt_sqrt (Q2R u) (Rlt_le _ _ Ru)) as Hq.
  rewrite Q2R_div by (intro E; rewrite E in Hu; discriminate Hu).
  rewrite Q2R_mult, Q2R_abs.
  unfold Rdiv. rewrite Rabs_mult, (Rabs_right (/ sqrt (Q2R u))).
  2:{ apply Rle_ge, Rlt_le, Rinv_0_lt_compat, Hs. }
  rewrite <- Hq at 1. field. lra.
Qed.

Lemma ltPerRoot_value (v w : JS.PerRoot) :
  0 < JS.under v -> 0 < JS.under w ->
  JS.ltPerRoot v w = true <-> (Real.ofPerRoot v < Real.ofPerRoot w)%R.
Proof.
  intros Hv Hw. unfold JS.ltPerRoot. rewrite ltb_lt, signed_square_lt.
  rewrite <- (signedSquare_value v Hv), <- (signedSquare_value w Hw).
  split; [apply Qlt_Rlt|apply Rlt_Qlt].
Qed.

Lemma divRoot_value (x : Q) (d : JS.Root) :
  Real.ofPerRoot (JS.divRoot x d) = (Q2R x / Real.ofRoot d)%R.
Proof. reflexivity. Qed.

Lemma ofQ_value (x : Q) : Real.ofPerRoot (JS.ofQ x) = Q2R x.
Proof.
  unfold Real.ofPerRoot, JS.ofQ. cbn [JS.numer JS.under].
  replace (Q2R 1) with 1%R by (unfold Q2R; cbn; lra).
  rewrite sqrt_1. lra.
Qed.



(** The distance the code computes is the Euclidean distance. *)
Lemma calculateDistance_value (ax ay bx by_ : Q) :
  Real.ofRoot (Mentat.calculateDistance ax ay bx by_) = Real.distance ax ay bx by_.
Proof.
  unfold Real.ofRoot, Real.distance, Mentat.calculateDistance. cbn [JS.radicand].
  unfold JS.abs, JS.pow2. f_equal.
  rewrite Q2R_plus.
  rewrite (Qeq_eqR _ _ (Qabs_pos _ (square_nonneg (ax - bx)))).
  rewrite (Qeq_eqR _ _ (Qabs_pos _ (square_nonneg (ay - by_)))).
  rewrite !Q2R_mult, !Q2R_minus. reflexivity.
Qed.


Lemma calculateDistance_radicand_nonneg (ax ay bx by_ : Q) :
  0 <= JS.radicand (Mentat.calculateDistance ax ay bx by_).
Proof.
  unfold Mentat.calculateDistance. cbn [JS.radicand]. unfold JS.abs.
  pose proof (Qabs_nonneg (JS.pow2 (ax - bx))).
  pose proof (Qabs_nonneg (JS.pow2 (ay - by_))).
  lra.
Qed.

(** [validateRange] compares the range with the Euclidean distance between
    the ship and the location. *)
Lemma validateRange_value (ship : IShip.t) (range : Q) (location : ILocation.t) :
  Mentat.validateRange ship range location = true
  <-> (Real.distance (IShip.x ship) (IShip.y ship)
                     (ILocation.x location) (ILocation.y location) < Q2R range)%R.
Proof.
  unfold Mentat.validateRange. rewrite <- calculateDistance_value.
  apply gtRoot_value, calculateDistance_radicand_nonneg.
Qed.

(* ================================================================= *)
(** ** The fuel formulas *)



Lemma calculateFuelToTravel_unfold (enum : ShipClass.t) (ship : IShip.t)
      (origin destination : ILocation.t) :
  Mentat.calculateFuelToTravel enum ship origin destination
  = JS.round (JS.roundRoot (Mentat.calculateLocationDistance origin destination)
              * Spec.multiplier (Spec.bracketOf enum (IShip.type ship)))
    + Spec.penalty (Spec.bracketOf enum (IShip.type ship)) origin + 1.
Proof.
  unfold Mentat.calculateFuelToTravel, Spec.bracketOf, Spec.penalty, Spec.isPlanet.
  destruct (String.eqb (IShip.type ship) (ShipClass.HM_MK_III enum)); [reflexivity|].
  destruct (String.eqb (IShip.type ship) (ShipClass.GR_MK_III enum)); [reflexivity|].
  destruct (String.eqb (IShip.type ship) (ShipClass.GR_MK_II enum)); reflexivity.
Qed.


Lemma hd_error_filter {A} (f : A -> bool) (l : list A) :
  hd_error (filter f l) = find f l.
Proof.
  induction l as [|a l IH]; [reflexivity|].
  cbn. destruct (f a); [reflexivity|exact IH].
Qed.

(** The fuel the code finds in the cargo is the held fuel. *)
Lemma currentFuel_held (ship : IShip.t) :
  JS.orZero (option_map ICargo.quantity
               (hd_error (filter (fun c => String.eqb (ICargo.good c) "FUEL")
                                 (IShip.cargo ship))))
  == Spec.held ship.
Proof.
  rewrite hd_error_filter. unfold Spec.held.
  destruct (find _ (IShip.cargo ship)) as [c|]; cbn [option_map].
  - apply orZero_some.
  - reflexivity.
Qed.

Lemma calculateFuelQuantity_ceiling (ship : IShip.t) (fuelToTravel : Q) (margin : option Q) :
  Mentat.calculateFuelQuantity ship fuelToTravel margin
  = inject_Z (Spec.fuelQuantity ship fuelToTravel
                (match margin with Some m => m | None => 0 end)).
Proof.
  unfold Mentat.calculateFuelQuantity, Spec.fuelQuantity, JS.ceil.
  set (m := match margin with Some m => m | None => 0 end).
  f_equal. apply Qceiling_comp.
  pose proof (currentFuel_held ship) as Hc.
  set (currentFuel := JS.orZero _) in *.
  assert (Hf : 1 + 0.01 * m == 1 + m / 100) by field.
  rewrite Hf.
  apply Qmult_comp; [|reflexivity].
  destruct (JS.geb currentFuel fuelToTravel) eqn:E.
  - apply geb_le in E. symmetry. apply Q.max_l. lra.
  - apply geb_lt in E.
    assert (Em : Qmax 0 (fuelToTravel - Spec.held ship) == fuelToTravel - Spec.held ship)
      by (apply Q.max_r; lra).
    rewrite Em, Hc. reflexivity.
Qed.

(* ================================================================= *)
(** ** The engine: what the methods keep *)

Lemma bind_normal {A B} (m : M A) (k : A -> M B) (this this' : t) (b : B) :
  bind m k this = (this', JS.Normal b) ->
  exists a this1, m this = (this1, JS.Normal a) /\ k a this1 = (this', JS.Normal b).
Proof.
  unfold bind. destruct (m this) as [this1 [a|e]]; intro H.
  - exists a, this1. split; [reflexivity|exact H].
  - discriminate H.
Qed.

Lemma reading_normal {A} (f : t -> JS.Completion A) (this this' : t) (a : A) :
  reading f this = (this', JS.Normal a) -> this' = this /\ f this = JS.Normal a.
Proof.
  unfold reading. intro H. inversion H. split; reflexivity.
Qed.

Lemma deref_normal {A} (o : option A) (a : A) :
  JS.deref o = JS.Normal a -> o = Some a.
Proof. destruct o; cbn; intro H; inversion H; reflexivity. Qed.

Lemma sameButTradeOptions_refl (this : t) : sameButTradeOptions this this.
Proof. destruct this; reflexivity. Qed.

Lemma sameButTradeOptions_trans (a b c : t) :
  sameButTradeOptions a b -> sameButTradeOptions b c -> sameButTradeOptions a c.
Proof.
  unfold sameButTradeOptions. intros H1 H2. rewrite H2 at 1. rewrite H1.
  destruct a; reflexivity.
Qed.

Lemma sameButTradeOptions_set (v : option (list ITradeOption.t)) (this : t) :
  sameButTradeOptions this (set_tradeOptions v this).
Proof. destruct this; reflexivity. Qed.

Lemma readTrades_arrayOf (trades : TradesRef) (this : t) :
  readTrades trades this = (this, JS.deref (arrayOf trades this)).
Proof. destruct trades; reflexivity. Qed.

Lemma readTrades_normal (trades : TradesRef) (this this' : t) (arr : list ITradeOption.t) :
  readTrades trades this = (this', JS.Normal arr) ->
  this' = this /\ arrayOf trades this = Some arr.
Proof.
  rewrite readTrades_arrayOf. intro H. inversion H as [[E1 E2]].
  split; [reflexivity|]. apply deref_normal. rewrite E2. reflexivity.
Qed.

Lemma removeAt_incl {A} (i : nat) (arr : list A) : incl (removeAt i arr) arr.
Proof.
  unfold removeAt. intros a Ha. apply in_app_or in Ha. destruct Ha as [Ha|Ha].
  - rewrite <- (firstn_skipn i arr). apply in_or_app. left. exact Ha.
  - rewrite <- (firstn_skipn (S i) arr). apply in_or_app. right. exact Ha.
Qed.

Lemma splice1_normal (i : nat) (trades trades' : TradesRef) (this this' : t)
      (arr : list ITradeOption.t) :
  arrayOf trades this = Some arr ->
  splice1 i trades this = (this', JS.Normal trades') ->
  sameButTradeOptions this this' /\ arrayOf trades' this' = Some (removeAt i arr).
Proof.
  destruct trades as [|own]; cbn [arrayOf splice1].
  - intros Ha H. unfold bind, readTrades, reading, assign, ret in H.
    rewrite Ha in H. cbn in H. inversion H. subst.
    split; [apply sameButTradeOptions_set|reflexivity].
  - intros Ha H. inversion Ha. subst. inversion H. subst.
    split; [apply sameButTradeOptions_refl|reflexivity].
Qed.

Lemma sameButTradeOptions_ship (this this' : t) :
  sameButTradeOptions this this' -> _ship this' = _ship this.
Proof. intro H. rewrite H. reflexivity. Qed.

Lemma sameButTradeOptions_currentMarketplace (this this' : t) :
  sameButTradeOptions this this' -> _currentMarketplace this' = _currentMarketplace this.
Proof. intro H. rewrite H. reflexivity. Qed.

Lemma sameButTradeOptions_currentLocation (this this' : t) :
  sameButTradeOptions this this' -> _currentLocation this' = _currentLocation this.
Proof. intro H. rewrite H. reflexivity. Qed.

(** The FUEL the code finds on the local market is the FUEL on offer. *)
Lemma localFuel_available (marketplace : list IGood.t) :
  JS.orZero (option_map IGood.quantityAvailable
               (hd_error (filter (fun g => String.eqb (IGood.symbol g) "FUEL") marketplace)))
  == Spec.availableFuel marketplace.
Proof.
  rewrite hd_error_filter. unfold Spec.availableFuel.
  destruct (find _ marketplace) as [g|]; cbn [option_map].
  - apply orZero_some.
  - reflexivity.
Qed.

Lemma fuelScan_normal (enum : ShipClass.t) (params : INavigationParameters.t) (gas : nat) :
  forall (i : nat) (trades trades' : TradesRef) (this this' : t)
         (arr : list ITradeOption.t) (found : option Refuel),
    arrayOf trades this = Some arr ->
    fuelScan enum gas params i trades this = (this', JS.Normal (trades', found)) ->
    sameButTradeOptions this this' /\
    (exists arr', arrayOf trades' this' = Some arr' /\ incl arr' arr) /\
    (forall refuel, found = Some refuel -> fuelled this refuel).
Proof.
  induction gas as [|gas IH]; intros i trades trades' this this' arr found Ha H.
  - cbn in H. inversion H. subst. split; [apply sameButTradeOptions_refl|]. split.
    + exists arr. split; [exact Ha|apply incl_refl].
    + intros refuel E. discriminate E.
  - cbn [fuelScan] in H.
    apply bind_normal in H. destruct H as (arr0 & this0 & Hr & H).
    apply readTrades_normal in Hr. destruct Hr as [-> Hr].
    rewrite Ha in Hr. inversion Hr. subst arr0. clear Hr.
    destruct (nth_error arr i) as [tradeOption|].
    2:{ inversion H. subst. split; [apply sameButTradeOptions_refl|]. split.
        - exists arr. split; [exact Ha|apply incl_refl].
        - intros refuel E. discriminate E. }
    apply bind_normal in H. destruct H as (currentLocation & this1 & Hr & H).
    apply reading_normal in Hr. destruct Hr as [-> Hcl].
    apply bind_normal in H. destruct H as (ship & this1 & Hr & H).
    apply reading_normal in Hr. destruct Hr as [-> Hship]. apply deref_normal in Hship.
    apply bind_normal in H. destruct H as (marketplace & this1 & Hr & H).
    apply reading_normal in Hr. destruct Hr as [-> Hm]. apply deref_normal in Hm.
    cbv zeta in H.
    set (fq := Mentat.calculateFuelQuantity ship _ _) in H.
    destruct (JS.gtb fq _) eqn:Efuel.
    { apply bind_normal in H. destruct H as (trades1 & this1 & Hs & H).
      destruct (splice1_normal _ _ _ _ _ _ Ha Hs) as [Hsame Ha1].
      destruct (IH _ _ _ _ _ _ _ Ha1 H) as (Hsame' & (arr' & Ha' & Hincl) & Hfound).
      split; [eapply sameButTradeOptions_trans; eassumption|]. split.
      - exists arr'. split; [exact Ha'|].
        eapply incl_tran; [exact Hincl|apply removeAt_incl].
      - intros refuel E. destruct (Hfound refuel E) as (s & m & H1 & H2 & H3).
        exists s, m.
        rewrite <- (sameButTradeOptions_ship _ _ Hsame).
        rewrite <- (sameButTradeOptions_currentMarketplace _ _ Hsame).
        split; [exact H1|]. split; [exact H2|exact H3]. }
    destruct (JS.ltb (IShip.spaceAvailable ship) fq) eqn:Espace.
    { apply bind_normal in H. destruct H as (trades1 & this1 & Hs & H).
      destruct (splice1_normal _ _ _ _ _ _ Ha Hs) as [Hsame Ha1].
      destruct (IH _ _ _ _ _ _ _ Ha1 H) as (Hsame' & (arr' & Ha' & Hincl) & Hfound).
      split; [eapply sameButTradeOptions_trans; eassumption|]. split.
      - exists arr'. split; [exact Ha'|].
        eapply incl_tran; [exact Hincl|apply removeAt_incl].
      - intros refuel E. destruct (Hfound refuel E) as (s & m & H1 & H2 & H3).
        exists s, m.
        rewrite <- (sameButTradeOptions_ship _ _ Hsame).
        rewrite <- (sameButTradeOptions_currentMarketplace _ _ Hsame).
        split; [exact H1|]. split; [exact H2|exact H3]. }
    inversion H. subst. split; [apply sameButTradeOptions_refl|]. split.
    + exists arr. split; [exact Ha|apply incl_refl].
    + intros refuel E. inversion E. subst refuel.
      exists ship, marketplace. cbn [fuelQuantity fuelVolume].
      apply gtb_le in Efuel. apply ltb_ge in Espace.
      rewrite localFuel_available in Efuel.
      repeat split; assumption.
Qed.

(* ================================================================= *)
(** ** Cargo assembly *)

(** The whole units of a good that fit the space take no more than the space. *)
Lemma calculateGoodQuantity_fits (space volumePerUnit : Q) :
  0 < volumePerUnit ->
  Mentat.calculateGoodQuantity space volumePerUnit * volumePerUnit <= space.
Proof.
  intro Hv. unfold Mentat.calculateGoodQuantity, JS.floor. rewrite Qfloor_Z.
  pose proof (Qfloor_le (space / volumePerUnit)) as Hf.
  assert (E : space == space / volumePerUnit * volumePerUnit) by (field; lra).
  rewrite E at 2.
  apply Qmult_le_compat_r; [exact Hf|lra].
Qed.

Lemma totalCargoVolume_cons (line : ICargo.t) (cargo : list ICargo.t) :
  Spec.totalCargoVolume (line :: cargo)
  = ICargo.totalVolume line + Spec.totalCargoVolume cargo.
Proof. reflexivity. Qed.

(** The lines of the second loop take no more than the space it starts with. *)
Lemma fillCargo_volume (trades : list ITradeOption.t) :
  Forall positiveVolume trades ->
  forall remainingSpace : Q,
    0 <= remainingSpace ->
    Spec.totalCargoVolume (fillCargo remainingSpace trades) <= remainingSpace.
Proof.
  induction 1 as [|tradeOption rest Hpos Hrest IH]; intros remainingSpace Hrem.
  - exact Hrem.
  - cbn [fillCargo]. destruct (JS.leb remainingSpace 0) eqn:E; [exact Hrem|].
    cbv zeta.
    set (localGood := ITrade.localGood (ITradeOption.trade tradeOption)) in *.
    set (q0 := Mentat.calculateGoodQuantity remainingSpace (IGood.volumePerUnit localGood)).
    set (q := if JS.gtb q0 (IGood.quantityAvailable localGood)
              then IGood.quantityAvailable localGood else q0).
    rewrite totalCargoVolume_cons. cbn [ICargo.totalVolume].
    unfold Mentat.calculateGoodVolume. fold localGood.
    unfold positiveVolume in Hpos. fold localGood in Hpos.
    assert (Hq : q <= q0).
    { unfold q. destruct (JS.gtb q0 (IGood.quantityAvailable localGood)) eqn:Eq.
      - apply gtb_lt in Eq. lra.
      - lra. }
    pose proof (calculateGoodQuantity_fits remainingSpace _ Hpos) as Hfit. fold q0 in Hfit.
    assert (Hv : q * IGood.volumePerUnit localGood <= remainingSpace).
    { apply Qle_trans with (2 := Hfit). apply Qmult_le_compat_r; [exact Hq|lra]. }
    specialize (IH (remainingSpace - q * IGood.volumePerUnit localGood)).
    lra.
Qed.

Lemma Forall_incl {A} (P : A -> Prop) (l l' : list A) :
  incl l' l -> Forall P l -> Forall P l'.
Proof.
  intros Hi Hf. rewrite Forall_forall in *. intros a Ha. apply Hf, Hi, Ha.
Qed.

Lemma filter_incl {A} (f : A -> bool) (l : list A) : incl (filter f l) l.
Proof. intros a Ha. apply filter_In in Ha. apply Ha. Qed.

(** What a route that [plotRoute] returns is made of. *)
Lemma plotRoute_route (enum : ShipClass.t) (params : INavigationParameters.t) (strict : bool)
      (trades : TradesRef) (this this' : t) (route : ITradeRoute.t) :
  plotRoute enum params strict trades this = (this', JS.Normal (Some route)) ->
  exists (arr kept : list ITradeOption.t) (refuel : Refuel) (ship : IShip.t),
    arrayOf trades this = Some arr /\ incl kept arr /\
    fuelled this refuel /\ _ship this = Some ship /\
    sameButTradeOptions this this' /\
    ITradeRoute.destination route = destination refuel /\
    ITradeRoute.cargo route
    = {| ICargo.good := "FUEL"; ICargo.quantity := fuelQuantity refuel;
         ICargo.totalVolume := fuelVolume refuel |}
      :: fillCargo (IShip.spaceAvailable ship - fuelQuantity refuel * 1) kept.
Proof.
  unfold plotRoute. intro H.
  apply bind_normal in H. destruct H as (arr & this0 & Hr & H).
  apply readTrades_normal in Hr. destruct Hr as [-> Ha].
  apply bind_normal in H. destruct H as ([trades1 found] & this1 & Hscan & H).
  destruct (fuelScan_normal _ _ _ _ _ _ _ _ _ _ Ha Hscan)
    as (Hsame & (arr' & Ha' & Hincl) & Hfound).
  destruct found as [refuel|].
  2:{ unfold giveUp in H. destruct strict; inversion H. }
  apply bind_normal in H. destruct H as (arr1 & this2 & Hr & H).
  apply readTrades_normal in Hr. destruct Hr as [-> Ha1].
  rewrite Ha' in Ha1. inversion Ha1. subst arr1. clear Ha1.
  apply bind_normal in H. destruct H as (ship & this2 & Hr & H).
  apply reading_normal in Hr. destruct Hr as [-> Hship]. apply deref_normal in Hship.
  inversion H. subst this' route. clear H.
  rewrite (sameButTradeOptions_ship _ _ Hsame) in Hship.
  eexists arr, _, refuel, ship.
  split; [exact Ha|]. split.
  { eapply incl_tran; [apply filter_incl|exact Hincl]. }
  split; [apply Hfound; reflexivity|]. split; [exact Hship|]. split; [exact Hsame|].
  split; reflexivity.
Qed.

(** What a route that [navigate] returns is made of. *)
Lemma navigate_route (enum : ShipClass.t) (params : option INavigationParameters.t)
      (strict : bool) (this this' : t) (route : ITradeRoute.t) :
  navigate enum params strict this = (this', JS.Normal (Some route)) ->
  exists (tradeOptions kept : list ITradeOption.t) (refuel : Refuel) (ship : IShip.t),
    _tradeOptions this = Some tradeOptions /\ incl kept tradeOptions /\
    fuelled this refuel /\ _ship this = Some ship /\
    sameButTradeOptions this this' /\
    ITradeRoute.destination route = destination refuel /\
    ITradeRoute.cargo route
    = {| ICargo.good := "FUEL"; ICargo.quantity := fuelQuantity refuel;
         ICargo.totalVolume := fuelVolume refuel |}
      :: fillCargo (IShip.spaceAvailable ship - fuelQuantity refuel * 1) kept.
Proof.
  unfold navigate. intro H.
  apply bind_normal in H. destruct H as (arr & this0 & Hr & H).
  apply readTrades_normal in Hr. destruct Hr as [-> Ha]. cbn [arrayOf] in Ha.
  destruct arr as [|o arr]; [unfold giveUp in H; destruct strict; inversion H|].
  set (p := match params with Some p => p | None => defaultParameters end) in H.
  assert (Hown : plotRoute enum p strict ThisTradeOptions this = (this', JS.Normal (Some route)) ->
                 exists (tradeOptions kept : list ITradeOption.t) (refuel : Refuel) (ship : IShip.t),
                   _tradeOptions this = Some tradeOptions /\ incl kept tradeOptions /\
                   fuelled this refuel /\ _ship this = Some ship /\
                   sameButTradeOptions this this' /\
                   ITradeRoute.destination route = destination refuel /\
                   ITradeRoute.cargo route
                   = {| ICargo.good := "FUEL"; ICargo.quantity := fuelQuantity refuel;
                        ICargo.totalVolume := fuelVolume refuel |}
                     :: fillCargo (IShip.spaceAvailable ship - fuelQuantity refuel * 1) kept).
  { intro Hp. apply plotRoute_route in Hp.
    destruct Hp as (arr0 & kept & refuel & ship & H1 & H2 & H3).
    exists arr0, kept, refuel, ship. split; [exact H1|]. split; [exact H2|exact H3]. }
  destruct (INavigationParameters.range p) as [range|]; [|exact (Hown H)].
  destruct (JS.truthy range); [|exact (Hown H)].
  apply bind_normal in H. destruct H as (ship0 & this1 & Hr & H).
  apply reading_normal in Hr. destruct Hr as [-> _].
  set (filtered := filter _ (o :: arr)) in H.
  assert (Hf : incl filtered (o :: arr)) by apply filter_incl.
  destruct filtered as [|o' filtered]; [unfold giveUp in H; destruct strict; inversion H|].
  apply plotRoute_route in H.
  destruct H as (arr0 & kept & refuel & ship & H1 & H2 & H3).
  cbn [arrayOf] in H1. inversion H1. subst arr0.
  exists (o :: arr), kept, refuel, ship. split; [exact Ha|]. split; [|exact H3].
  eapply incl_tran; eassumption.
Qed.

(** The limits on the fuel line and on the total volume of a route. *)
Lemma route_within_limits (enum : ShipClass.t)
        (params : option INavigationParameters.t) (strict : bool)
        (this this' : t) (route : ITradeRoute.t) :
  (forall tradeOptions, _tradeOptions this = Some tradeOptions ->
                        Forall positiveVolume tradeOptions) ->
  navigate enum params strict this = (this', JS.Normal (Some route)) ->
  exists (ship : IShip.t) (marketplace : list IGood.t) (fuelLine : ICargo.t)
         (goods : list ICargo.t),
    _ship this = Some ship /\
    _currentMarketplace this = Some marketplace /\
    ITradeRoute.cargo route = fuelLine :: goods /\
    ICargo.good fuelLine = "FUEL"%string /\
    ICargo.quantity fuelLine <= Spec.availableFuel marketplace /\
    Spec.totalCargoVolume (ITradeRoute.cargo route) <= IShip.spaceAvailable ship.
Proof.
  intros Hpos H. apply navigate_route in H.
  destruct H as (tradeOptions & kept & refuel & ship & Ht & Hk & Hf & Hs & _ & _ & Hc).
  destruct Hf as (ship' & marketplace & Hs' & Hm & Hav & Hsp & Hvol).
  rewrite Hs in Hs'. inversion Hs'. subst ship'. clear Hs'.
  eexists ship, marketplace, _, _.
  split; [exact Hs|]. split; [exact Hm|]. split; [exact Hc|].
  split; [reflexivity|]. split; [exact Hav|].
  rewrite Hc, totalCargoVolume_cons. cbn [ICargo.totalVolume]. rewrite Hvol.
  assert (Hk' : Forall positiveVolume kept).
  { eapply Forall_incl; [exact Hk|]. apply Hpos, Ht. }
  pose proof (fillCargo_volume kept Hk' (IShip.spaceAvailable ship - fuelQuantity refuel * 1)) as Hfill.
  lra.
Qed.

(* ================================================================= *)
(** ** The engine depends on the enumeration through the ship's bracket only *)

Section Brackets.

Variables enum1 enum2 : ShipClass.t.

Lemma calculateFuelToTravel_bracket (ship : IShip.t) (location destination : ILocation.t) :
  sameBracket enum1 enum2 ship ->
  Mentat.calculateFuelToTravel enum1 ship location destination
  = Mentat.calculateFuelToTravel enum2 ship location destination.
Proof.
  unfold sameBracket. intro H. rewrite !calculateFuelToTravel_unfold, H. reflexivity.
Qed.

Lemma calculateProfitPerDU_bracket (aGood bGood : IGood.t) (ship : IShip.t)
      (location destination : ILocation.t) (fuelUnitCost : option Q) :
  sameBracket enum1 enum2 ship ->
  Mentat.calculateProfitPerDU enum1 aGood bGood ship location destination fuelUnitCost
  = Mentat.calculateProfitPerDU enum2 aGood bGood ship location destination fuelUnitCost.
Proof.
  intro H. unfold Mentat.calculateProfitPerDU.
  rewrite (calculateFuelToTravel_bracket _ _ _ H). reflexivity.
Qed.

Lemma goodsLoop_bracket (this : t) (currentLocation : ILocation.t)
      (localMarket : list IGood.t) (destination : ILocation.t) (marketplace : list IGood.t) :
  sameBracketIn enum1 enum2 this ->
  forall trades,
    goodsLoop enum1 this currentLocation localMarket destination marketplace trades
    = goodsLoop enum2 this currentLocation localMarket destination marketplace trades.
Proof.
  intro Hin. induction marketplace as [|destinationGood rest IH]; intro trades.
  - reflexivity.
  - cbn [goodsLoop].
    destruct (find _ localMarket) as [localGood|]; [|apply IH].
    destruct (JS.gtb (IGood.quantityAvailable localGood) 0); [|apply IH].
    destruct (getCurrentFuelUnitCost this) as [fuelUnitCost|e]; [|reflexivity].
    cbn [JS.bindC].
    destruct (_ship this) as [ship|] eqn:Es; [|reflexivity].
    cbn [JS.deref JS.bindC].
    rewrite (calculateProfitPerDU_bracket _ _ _ _ _ _ (Hin ship Es)).
    destruct (JS.gtPerRoot _ _); apply IH.
Qed.

Lemma locationsLoop_bracket (this : t) (currentLocation : ILocation.t)
      (localMarket : list IGood.t) (locations : list ILocation.t) :
  sameBracketIn enum1 enum2 this ->
  forall trades,
    locationsLoop enum1 this currentLocation localMarket locations trades
    = locationsLoop enum2 this currentLocation localMarket locations trades.
Proof.
  intro Hin. induction locations as [|destination rest IH]; intro trades.
  - reflexivity.
  - cbn [locationsLoop].
    destruct (String.eqb _ _); [apply IH|].
    destruct (ILocation.marketplace destination) as [[|g gs]|]; try apply IH.
    rewrite (goodsLoop_bracket _ _ _ _ _ Hin).
    destruct (goodsLoop enum2 _ _ _ _ _ _) as [trades'|e]; [|reflexivity].
    cbn [JS.bindC]. apply IH.
Qed.

Lemma sortTradeOptions_bracket (this : t) :
  sameBracketIn enum1 enum2 this -> sortTradeOptions enum1 this = sortTradeOptions enum2 this.
Proof.
  intro Hin. unfold sortTradeOptions, bind, reading.
  destruct (JS.deref (_currentLocation this)) as [currentLocation|e]; [|reflexivity].
  destruct (ILocation.marketplace currentLocation) as [[|g gs]|]; try reflexivity.
  destruct (JS.deref (_locations this)) as [locations|e]; [|reflexivity].
  cbn [JS.bindC]. rewrite (locationsLoop_bracket _ _ _ _ Hin). reflexivity.
Qed.

End Brackets.

Lemma setProperties_ship (this this' : t) (c : JS.Completion unit) :
  setProperties this = (this', c) -> _ship this' = _ship this.
Proof.
  unfold setProperties, bind, reading, assign.
  destruct (getCurrentLocation this) as [l|e]; [|intro H; inversion H; reflexivity].
  destruct (getCurrentMarketplace _) as [m|e]; [|intro H; inversion H; reflexivity].
  destruct (getCurrentFuelUnitCost _) as [f|e]; intro H; inversion H; reflexivity.
Qed.

Lemma updateShipData_bracket (enum1 enum2 : ShipClass.t) (ship : IShip.t) (this : t) :
  sameBracket enum1 enum2 ship ->
  updateShipData enum1 ship this = updateShipData enum2 ship this.
Proof.
  intro H. unfold updateShipData, bind. cbn [assign].
  destruct (setProperties (set_ship (Some ship) this)) as [this1 [u|e]] eqn:E; [|reflexivity].
  apply setProperties_ship in E. cbn [reading].
  destruct (_initialized this1); [|reflexivity].
  apply sortTradeOptions_bracket. intros s Hs.
  rewrite E in Hs. cbn in Hs. inversion Hs. subst s. exact H.
Qed.

Lemma updateLocationsData_bracket (enum1 enum2 : ShipClass.t)
      (locations : list ILocation.t) (this : t) :
  sameBracketIn enum1 enum2 this ->
  updateLocationsData enum1 locations this = updateLocationsData enum2 locations this.
Proof.
  intro H. unfold updateLocationsData, bind. cbn [assign reading].
  destruct (_initialized _); [|reflexivity].
  destruct (setProperties _) as [this1 [u|e]] eqn:E; [|reflexivity].
  apply setProperties_ship in E.
  apply sortTradeOptions_bracket. intros s Hs.
  rewrite E in Hs. apply H. exact Hs.
Qed.

Lemma constructor_unfold (enum : ShipClass.t) (locations : list ILocation.t) (ship : IShip.t) :
  constructor enum locations ship
  = match updateShipData enum ship (set_locations (Some locations) blank) with
    | (this1, JS.Normal _) =>
        match sortTradeOptions enum this1 with
        | (this2, JS.Normal _) => JS.Normal (set_initialized true this2)
        | (_, JS.Throw e) => JS.Throw e
        end
    | (_, JS.Throw e) => JS.Throw e
    end.
Proof.
  unfold constructor, updateLocationsData. unfold bind at 1 2 3. cbn [assign reading blank _initialized set_locations].
  unfold ret at 1. unfold bind at 1.
  destruct (updateShipData enum ship _) as [this1 [u|e]]; [|reflexivity].
  unfold bind, assign.
  destruct (sortTradeOptions enum this1) as [this2 [u'|e]]; reflexivity.
Qed.

Lemma sortTradeOptions_ship (enum : ShipClass.t) (this this' : t) (c : JS.Completion unit) :
  sortTradeOptions enum this = (this', c) -> _ship this' = _ship this.
Proof.
  unfold sortTradeOptions, bind, reading. intro E.
  destruct (JS.deref (_currentLocation this)); [|inversion E; reflexivity].
  destruct (ILocation.marketplace _) as [[|g gs]|]; try (inversion E; reflexivity).
  destruct (_ <?- _ ;; _); inversion E; reflexivity.
Qed.

Lemma updateShipData_ship (enum : ShipClass.t) (ship : IShip.t) (this this' : t)
      (c : JS.Completion unit) :
  updateShipData enum ship this = (this', c) -> _ship this' = Some ship.
Proof.
  unfold updateShipData, bind. cbn [assign]. intro E.
  destruct (setProperties (set_ship (Some ship) this)) as [this1 [u|e]] eqn:E1.
  - apply setProperties_ship in E1. cbn [reading] in E.
    destruct (_initialized this1).
    + apply sortTradeOptions_ship in E. rewrite E, E1. reflexivity.
    + inversion E. subst. rewrite E1. reflexivity.
  - apply setProperties_ship in E1. inversion E. subst. rewrite E1. reflexivity.
Qed.

Lemma constructor_bracket (enum1 enum2 : ShipClass.t)
      (locations : list ILocation.t) (ship : IShip.t) :
  sameBracket enum1 enum2 ship ->
  constructor enum1 locations ship = constructor enum2 locations ship.
Proof.
  intro H. rewrite !constructor_unfold.
  rewrite (updateShipData_bracket enum1 enum2 _ _ H).
  destruct (updateShipData enum2 ship _) as [this1 [u|e]] eqn:E; [|reflexivity].
  apply updateShipData_ship in E.
  rewrite (sortTradeOptions_bracket enum1 enum2); [reflexivity|].
  intros s Hs. rewrite E in Hs. inversion Hs. subst s. exact H.
Qed.

Lemma splice1_ship (i : nat) (trades : TradesRef) (this this' : t)
      (c : JS.Completion TradesRef) :
  splice1 i trades this = (this', c) -> _ship this' = _ship this.
Proof.
  destruct trades as [|arr]; cbn [splice1].
  - unfold bind, readTrades, reading, assign, ret.
    destruct (JS.deref (_tradeOptions this)); intro H; inversion H; reflexivity.
  - intro H. inversion H. reflexivity.
Qed.

Lemma fuelScan_bracket (enum1 enum2 : ShipClass.t) (params : INavigationParameters.t)
      (gas : nat) :
  forall (i : nat) (trades : TradesRef) (this : t),
    sameBracketIn enum1 enum2 this ->
    fuelScan enum1 gas params i trades this = fuelScan enum2 gas params i trades this.
Proof.
  induction gas as [|gas IH]; intros i trades this Hin; [reflexivity|].
  cbn [fuelScan]. unfold bind. rewrite readTrades_arrayOf.
  destruct (JS.deref (arrayOf trades this)) as [arr|e]; [|reflexivity].
  destruct (nth_error arr i) as [tradeOption|]; [|reflexivity].
  unfold reading.
  destruct (JS.deref (_currentLocation this)) as [currentLocation|e]; [|reflexivity].
  destruct (_ship this) as [ship|] eqn:Es; [|reflexivity]. cbn [JS.deref].
  destruct (JS.deref (_currentMarketplace this)) as [marketplace|e]; [|reflexivity].
  cbv zeta. rewrite (calculateFuelToTravel_bracket enum1 enum2 _ _ _ (Hin ship Es)).
  assert (Hnext : forall this1 c, splice1 i trades this = (this1, c) ->
                                  sameBracketIn enum1 enum2 this1).
  { intros this1 c Hs s Hs1. apply splice1_ship in Hs. rewrite Hs in Hs1. apply Hin, Hs1. }
  destruct (JS.gtb _ _).
  { destruct (splice1 i trades this) as [this1 [trades1|e]] eqn:E; [|reflexivity].
    apply IH. eapply Hnext. reflexivity. }
  destruct (JS.ltb _ _); [|reflexivity].
  destruct (splice1 i trades this) as [this1 [trades1|e]] eqn:E; [|reflexivity].
  apply IH. eapply Hnext. reflexivity.
Qed.

Lemma plotRoute_bracket (enum1 enum2 : ShipClass.t) (params : INavigationParameters.t)
      (strict : bool) (trades : TradesRef) (this : t) :
  sameBracketIn enum1 enum2 this ->
  plotRoute enum1 params strict trades this = plotRoute enum2 params strict trades this.
Proof.
  intro Hin. unfold plotRoute. unfold bind at 1 5. rewrite readTrades_arrayOf.
  destruct (JS.deref (arrayOf trades this)) as [arr|e]; [|reflexivity].
  unfold bind at 1 4. rewrite (fuelScan_bracket enum1 enum2 _ _ _ _ _ Hin).
  reflexivity.
Qed.

Lemma navigate_bracket (enum1 enum2 : ShipClass.t) (params : option INavigationParameters.t)
      (strict : bool) (this : t) :
  sameBracketIn enum1 enum2 this ->
  navigate enum1 params strict this = navigate enum2 params strict this.
Proof.
  intro Hin. unfold navigate, bind. rewrite readTrades_arrayOf.
  destruct (JS.deref (arrayOf ThisTradeOptions this)) as [[|o arr]|e]; try reflexivity.
  destruct (INavigationParameters.range _) as [range|];
    [|apply plotRoute_bracket, Hin].
  destruct (JS.truthy range); [|apply plotRoute_bracket, Hin].
  unfold reading. destruct (JS.deref (_ship this)) as [ship|e]; [|reflexivity].
  destruct (filter _ _); [reflexivity|apply plotRoute_bracket, Hin].
Qed.

Lemma unrecognized_fallback (enum : ShipClass.t) (shipType : string) :
  unrecognized enum shipType -> Spec.bracketOf enum shipType = Spec.Fallback.
Proof.
  intros (H1 & H2 & H3). unfold Spec.bracketOf.
  apply String.eqb_neq in H1, H2, H3. rewrite H1, H2, H3. reflexivity.
Qed.

Lemma fallback_bracket (enum : ShipClass.t) (ship : IShip.t) :
  unrecognized enum "JW-MK-I" ->
  IShip.type ship = "JW-MK-I"%string ->
  sameBracket enum Scenario.classes ship.
Proof.
  intros H E. unfold sameBracket. rewrite E.
  rewrite (unrecognized_fallback _ _ H). reflexivity.
Qed.

(* ================================================================= *)
(** ** The engine at work: missing marketplaces, dropped candidates *)

(** Where the current location has no marketplace, or an empty one, the
    rebuild changes nothing. *)
Lemma sortTradeOptions_without_marketplace (enum : ShipClass.t) (this : t) (l : ILocation.t) :
  _currentLocation this = Some l ->
  ILocation.marketplace l = None \/ ILocation.marketplace l = Some [] ->
  sortTradeOptions enum this = (this, JS.Normal tt).
Proof.
  intros El Hm. unfold sortTradeOptions, bind, reading. rewrite El. cbn [JS.deref].
  destruct Hm as [Hm|Hm]; rewrite Hm; reflexivity.
Qed.

(** Where the ship's location has no marketplace, the fuel unit cost cannot
    be read. *)
Lemma getCurrentFuelUnitCost_without_marketplace (this : t) :
  getCurrentMarketplace this = JS.Normal None ->
  getCurrentFuelUnitCost this = JS.Throw JS.TypeError.
Proof.
  intro H. unfold getCurrentFuelUnitCost. rewrite H. reflexivity.
Qed.

(** An engine without a ranked list cannot navigate. *)
Lemma navigate_without_tradeOptions (enum : ShipClass.t)
      (params : option INavigationParameters.t) (strict : bool) (this : t) :
  _tradeOptions this = None ->
  navigate enum params strict this = (this, JS.Throw JS.TypeError).
Proof.
  intro H. unfold navigate, bind, readTrades, reading. rewrite H. reflexivity.
Qed.

Ltac fallback H :=
  lazymatch goal with
  | |- sameBracket _ _ _ => apply fallback_bracket; [exact H|reflexivity]
  | |- sameBracketIn _ _ _ =>
      let s := fresh "s" in
      let Hs := fresh "Hs" in
      intros s Hs; injection Hs as <-; apply fallback_bracket; [exact H|reflexivity]
  end.

(** Evaluation under an arbitrary enumeration goes through [classes]. *)
Ltac to_classes H :=
  first [ rewrite (constructor_bracket _ classes)
        | rewrite (updateShipData_bracket _ classes)
        | rewrite (calculateFuelToTravel_bracket _ classes)
        | rewrite (navigate_bracket _ classes) ];
  [|fallback H].

(** C2, the code at the failing input.  The ranked candidates are X, Y, Z
    in this order; the market offers 10 FUEL, X needs 30 and is dropped, Y
    needs 5 and can be fuelled, and yet [navigate] never examines Y and
    settles on Z, which ranks below Y. *)
Theorem navigate_skips_feasible_candidate (enum : ShipClass.t) :
  unrecognized enum "JW-MK-I" ->
  exists (this this' : t) (route : ITradeRoute.t),
    constructor enum [locO; locX; locY; locZ] shipAtO = JS.Normal this /\
    option_map (map destinationOf) (_tradeOptions this) = Some ["X"; "Y"; "Z"] /\
    Mentat.calculateFuelQuantity shipAtO
      (Mentat.calculateFuelToTravel enum shipAtO locO locX) (Some 5) = 30 /\
    Mentat.calculateFuelQuantity shipAtO
      (Mentat.calculateFuelToTravel enum shipAtO locO locY) (Some 5) = 5 /\
    _currentMarketplace this = ILocation.marketplace locO /\
    option_map Spec.availableFuel (ILocation.marketplace locO) = Some 10 /\
    IShip.spaceAvailable shipAtO = 100 /\
    navigate enum None false this = (this', JS.Normal (Some route)) /\
    ILocation.symbol (ITradeRoute.destination route) = "Z".
Proof.
  intro H. do 3 eexists.
  split. { to_classes H. vm_compute. reflexivity. }
  split. { vm_compute. reflexivity. }
  split. { to_classes H. vm_compute. reflexivity. }
  split. { to_classes H. vm_compute. reflexivity. }
  split. { vm_compute. reflexivity. }
  split. { vm_compute. reflexivity. }
  split. { reflexivity. }
  split. { to_classes H. vm_compute. reflexivity. }
  reflexivity.
Qed.

(** C6, the code at the failing input.  With the default parameters the
    first loop removes the candidate X from the array that the engine
    holds: the first call returns nothing, the same call repeated on the
    engine it left behind returns a route to Y. *)
Theorem navigate_twice_differs (enum : ShipClass.t) :
  unrecognized enum "JW-MK-I" ->
  exists (this this1 this2 : t) (route : ITradeRoute.t),
    constructor enum [locO; locX; locY] shipAtO = JS.Normal this /\
    option_map (map destinationOf) (_tradeOptions this) = Some ["X"; "Y"] /\
    navigate enum None false this = (this1, JS.Normal None) /\
    option_map (map destinationOf) (_tradeOptions this1) = Some ["Y"] /\
    navigate enum None false this1 = (this2, JS.Normal (Some route)) /\
    ILocation.symbol (ITradeRoute.destination route) = "Y" /\
    ITradeRoute.cargo route = [line "FUEL" 5 5; line "METAL" 95 95].
Proof.
  intro H. do 4 eexists.
  split. { to_classes H. vm_compute. reflexivity. }
  split. { vm_compute. reflexivity. }
  split. { to_classes H. vm_compute. reflexivity. }
  split. { vm_compute. reflexivity. }
  split. { to_classes H. vm_compute. reflexivity. }
  split; reflexivity.
Qed.

(** C3, the code at the failing input.  An engine built at A ranks the
    trade to B.  When the ship moves to E, whose marketplace is empty, the
    rebuild keeps that list; and an engine built at E has no list at all. *)
Theorem rebuild_keeps_stale_options (enum : ShipClass.t) :
  unrecognized enum "JW-MK-I" ->
  exists (this this' atE : t),
    constructor enum [locA 60; locB; locE] shipAtA = JS.Normal this /\
    updateShipData enum shipAtE this = (this', JS.Normal tt) /\
    _currentLocation this' = Some locE /\
    ILocation.marketplace locE = Some [] /\
    _tradeOptions this' = _tradeOptions this /\
    option_map (map destinationOf) (_tradeOptions this') = Some ["B"] /\
    constructor enum [locA 60; locB; locE] shipAtE = JS.Normal atE /\
    _currentLocation atE = Some locE /\
    _tradeOptions atE = None.
Proof.
  intro H. do 3 eexists.
  split. { to_classes H. vm_compute. reflexivity. }
  split. { to_classes H. vm_compute. reflexivity. }
  split. { reflexivity. }
  split. { reflexivity. }
  split. { reflexivity. }
  split. { reflexivity. }
  split. { to_classes H. vm_compute. reflexivity. }
  split; reflexivity.
Qed.

(** C4, the code at the failing input.  With the ship at N, a location
    without a marketplace, the constructor throws a TypeError.  With the
    ship at E, whose marketplace is empty, the constructor succeeds and
    [navigate] throws a TypeError in lenient and in strict mode. *)
Theorem no_marketplace_type_error (enum : ShipClass.t) :
  ILocation.marketplace locN = None /\
  constructor enum [locA 60; locB; locN] shipAtN = JS.Throw JS.TypeError /\
  ILocation.marketplace locE = Some [] /\
  exists this : t,
    constructor enum [locA 60; locB; locE] shipAtE = JS.Normal this /\
    _currentLocation this = Some locE /\
    navigate enum None false this = (this, JS.Throw JS.TypeError) /\
    navigate enum None true this = (this, JS.Throw JS.TypeError).
Proof.
  split; [reflexivity|]. split; [reflexivity|]. split; [reflexivity|].
  eexists. split; [reflexivity|]. split; [reflexivity|]. split; reflexivity.
Qed.

(** C5.  A(0,0) sells FUEL (purchase 1, 100 available, volume 1) and METAL
    (purchase 5, at least 45 available, volume 1), B(3,4) buys METAL at 10;
    the ship is at A, in the bracket with multiplier 0.25 and planet
    penalty 2, with 50 units of space and no fuel held.  The fuel to travel
    is 4, and [navigate()] returns B with the cargo
    [{FUEL, 5, 5}, {METAL, 45, 45}]. *)
Theorem scenario_route (enum : ShipClass.t) (metalAvailable : Q) :
  unrecognized enum "JW-MK-I" ->
  45 <= metalAvailable ->
  exists this : t,
    constructor enum [locA metalAvailable; locB] shipAtA = JS.Normal this /\
    Mentat.calculateFuelToTravel enum shipAtA (locA metalAvailable) locB = 4 /\
    navigate enum None false this
    = (this, JS.Normal (Some {| ITradeRoute.destination := locB;
                                 ITradeRoute.cargo := [line "FUEL" 5 5;
                                                       line "METAL" 45 45] |})).
Proof.
  intros H Hm.
  assert (H0 : JS.gtb metalAvailable 0 = true) by (apply gtb_lt; lra).
  assert (H1 : JS.gtb 45 metalAvailable = false) by (apply gtb_le; lra).
  eexists.
  split. { to_classes H. cbv -[JS.gtb]. rewrite H0. vm_compute. reflexivity. }
  split. { to_classes H. vm_compute. reflexivity. }
  to_classes H.
  repeat (cbv -[JS.gtb];
          match goal with
          | |- context [JS.gtb ?x ?y] =>
              first [ rewrite H1
                    | let b := eval vm_compute in (JS.gtb x y) in
                      match b with true => idtac | false => idtac end;
                      change (JS.gtb x y) with b ]
          end).
  cbv. reflexivity.
Qed.

(* ================================================================= *)
(** ** Zero-quantity lines and the defaults of the parameters *)

Lemma calculateGoodQuantity_comp (space space' volumePerUnit : Q) :
  space == space' ->
  Mentat.calculateGoodQuantity space volumePerUnit
  = Mentat.calculateGoodQuantity space' volumePerUnit.
Proof.
  intro E. unfold Mentat.calculateGoodQuantity, JS.floor.
  do 3 f_equal. apply Qfloor_comp. rewrite E. reflexivity.
Qed.

(** The second loop reads the remaining space as a number. *)
Lemma fillCargo_comp (trades : list ITradeOption.t) :
  forall space space' : Q,
    space == space' -> fillCargo space trades = fillCargo space' trades.
Proof.
  induction trades as [|tradeOption rest IH]; intros space space' E; [reflexivity|].
  cbn [fillCargo]. unfold JS.leb. rewrite (Qleb_comp _ _ E 0 0 (Qeq_refl 0)).
  destruct (Qle_bool space' 0); [reflexivity|]. cbv zeta.
  rewrite (calculateGoodQuantity_comp _ _ _ E).
  f_equal. apply IH. rewrite E. reflexivity.
Qed.

Lemma calculateGoodQuantity_zero (space volumePerUnit : Q) :
  0 < space -> space < volumePerUnit ->
  Mentat.calculateGoodQuantity space volumePerUnit = 0.
Proof.
  intros H0 H1. unfold Mentat.calculateGoodQuantity, JS.floor. rewrite Qfloor_Z.
  change 0 with (inject_Z 0). f_equal.
  assert (Hv : 0 < volumePerUnit) by lra.
  assert (Hlo : 0 <= space / volumePerUnit).
  { apply Qle_shift_div_l; [exact Hv|lra]. }
  assert (Hhi : space / volumePerUnit < 1).
  { apply Qlt_shift_div_r; [exact Hv|lra]. }
  pose proof (floor_nonneg _ Hlo) as F0.
  pose proof (Qfloor_le (space / volumePerUnit)) as F1.
  assert (F2 : inject_Z (Qfloor (space / volumePerUnit)) < inject_Z 1).
  { change (inject_Z 1) with 1. lra. }
  rewrite <- Zlt_Qlt in F2. lia.
Qed.

Lemma fillCargo_zero_line (remainingSpace : Q) (tradeOption : ITradeOption.t)
      (rest : list ITradeOption.t) :
  let localGood := ITrade.localGood (ITradeOption.trade tradeOption) in
  0 < remainingSpace ->
  remainingSpace < IGood.volumePerUnit localGood ->
  0 <= IGood.quantityAvailable localGood ->
  exists zeroLine : ICargo.t,
    fillCargo remainingSpace (tradeOption :: rest)
    = zeroLine :: fillCargo remainingSpace rest /\
    ICargo.good zeroLine = IGood.symbol localGood /\
    ICargo.quantity zeroLine = 0 /\
    ICargo.totalVolume zeroLine == 0.
Proof.
  intros localGood H0 H1 H2. cbn [fillCargo]. fold localGood.
  assert (E : JS.leb remainingSpace 0 = false) by (apply leb_gt; exact H0).
  rewrite E. cbv zeta.
  rewrite (calculateGoodQuantity_zero _ _ H0 H1).
  assert (G : JS.gtb 0 (IGood.quantityAvailable localGood) = false)
    by (apply gtb_le; exact H2).
  rewrite G.
  exists {| ICargo.good := IGood.symbol localGood;
            ICargo.quantity := 0;
            ICargo.totalVolume := Mentat.calculateGoodVolume 0 localGood |}.
  split; [|split; [reflexivity|split; [reflexivity|]]].
  - f_equal. apply fillCargo_comp. unfold Mentat.calculateGoodVolume. ring.
  - cbn [ICargo.totalVolume]. unfold Mentat.calculateGoodVolume. ring.
Qed.

Lemma fuelScan_margin (enum : ShipClass.t) (params1 params2 : INavigationParameters.t)
      (gas : nat) :
  (forall ship fuelToTravel,
      Mentat.calculateFuelQuantity ship fuelToTravel (INavigationParameters.fuelMargin params1)
      = Mentat.calculateFuelQuantity ship fuelToTravel
          (INavigationParameters.fuelMargin params2)) ->
  forall (i : nat) (trades : TradesRef) (this : t),
    fuelScan enum gas params1 i trades this = fuelScan enum gas params2 i trades this.
Proof.
  intro Hq. induction gas as [|gas IH]; intros i trades this; [reflexivity|].
  cbn [fuelScan]. unfold bind. rewrite readTrades_arrayOf.
  destruct (JS.deref (arrayOf trades this)) as [arr|e]; [|reflexivity].
  destruct (nth_error arr i) as [tradeOption|]; [|reflexivity].
  unfold reading.
  destruct (JS.deref (_currentLocation this)) as [currentLocation|e]; [|reflexivity].
  destruct (JS.deref (_ship this)) as [ship|e]; [|reflexivity].
  destruct (JS.deref (_currentMarketplace this)) as [marketplace|e]; [|reflexivity].
  cbv zeta. rewrite Hq.
  destruct (JS.gtb _ _).
  { destruct (splice1 i trades this) as [this1 [trades1|e]]; [apply IH|reflexivity]. }
  destruct (JS.ltb _ _); [|reflexivity].
  destruct (splice1 i trades this) as [this1 [trades1|e]]; [apply IH|reflexivity].
Qed.

Lemma plotRoute_margin (enum : ShipClass.t) (params1 params2 : INavigationParameters.t)
      (strict : bool) (trades : TradesRef) (this : t) :
  (forall ship fuelToTravel,
      Mentat.calculateFuelQuantity ship fuelToTravel (INavigationParameters.fuelMargin params1)
      = Mentat.calculateFuelQuantity ship fuelToTravel
          (INavigationParameters.fuelMargin params2)) ->
  plotRoute enum params1 strict trades this = plotRoute enum params2 strict trades this.
Proof.
  intro Hq. unfold plotRoute. unfold bind at 1 5. rewrite readTrades_arrayOf.
  destruct (JS.deref (arrayOf trades this)) as [arr|e]; [|reflexivity].
  unfold bind at 1 4. rewrite (fuelScan_margin enum params1 params2 _ Hq).
  reflexivity.
Qed.

(** C10.  A call without the parameter object is a call with range 0 and
    margin 5.  A call with a parameter object that has no [fuelMargin] is
    the call with margin 0, whatever the range; in the scenario of the
    specification [navigate({range: 0})] asks for 4 FUEL, the fuel to
    travel with no margin, where [navigate()] asks for 5. *)
Theorem omitted_margin_is_zero :
  (forall (enum : ShipClass.t) (strict : bool) (this : t),
      navigate enum None strict this
      = navigate enum (Some {| INavigationParameters.range := Some 0;
                               INavigationParameters.fuelMargin := Some 5 |}) strict this)
  /\
  (forall (enum : ShipClass.t) (range : option Q) (strict : bool) (this : t),
      navigate enum (Some {| INavigationParameters.range := range;
                             INavigationParameters.fuelMargin := None |}) strict this
      = navigate enum (Some {| INavigationParameters.range := range;
                               INavigationParameters.fuelMargin := Some 0 |}) strict this)
  /\
  (forall enum : ShipClass.t,
      unrecognized enum "JW-MK-I" ->
      exists (this this1 this2 : t) (withoutMargin byDefault : ITradeRoute.t),
        constructor enum [locA 60; locB] shipAtA = JS.Normal this /\
        navigate enum (Some {| INavigationParameters.range := Some 0;
                               INavigationParameters.fuelMargin := None |}) false this
        = (this1, JS.Normal (Some withoutMargin)) /\
        ITradeRoute.cargo withoutMargin = [line "FUEL" 4 4; line "METAL" 46 46] /\
        navigate enum None false this = (this2, JS.Normal (Some byDefault)) /\
        ITradeRoute.cargo byDefault = [line "FUEL" 5 5; line "METAL" 45 45]).
Proof.
  split; [reflexivity|]. split.
  - intros enum range strict this. unfold navigate, bind.
    destruct (readTrades ThisTradeOptions this) as [this0 [[|o arr]|e]]; try reflexivity.
    cbn [INavigationParameters.range].
    assert (Hp : forall trades this1,
               plotRoute enum {| INavigationParameters.range := range;
                                 INavigationParameters.fuelMargin := None |}
                         strict trades this1
               = plotRoute enum {| INavigationParameters.range := range;
                                   INavigationParameters.fuelMargin := Some 0 |}
                           strict trades this1).
    { intros trades this1. apply plotRoute_margin. reflexivity. }
    destruct range as [r|]; [|apply Hp].
    destruct (JS.truthy r); [|apply Hp].
    destruct (reading _ this0) as [this1 [ship|e]]; [|reflexivity].
    destruct (filter _ _); [reflexivity|apply Hp].
  - intros enum H. do 5 eexists.
    split. { to_classes H. vm_compute. reflexivity. }
    split. { to_classes H. vm_compute. reflexivity. }
    split. { reflexivity. }
    split. { to_classes H. vm_compute. reflexivity. }
    reflexivity.
Qed.

(* ================================================================= *)
(** ** The first loop terminates *)

Lemma removeAt_length {A} (i : nat) (arr : list A) :
  (i < List.length arr)%nat -> List.length (removeAt i arr) = pred (List.length arr).
Proof.
  intro H. unfold removeAt.
  rewrite length_app, length_firstn, length_skipn. lia.
Qed.

(** Gas beyond the number of elements from [i] on changes nothing: the
    loop has ended by then. *)
Lemma fuelScan_gas (enum : ShipClass.t) (params : INavigationParameters.t) (gas : nat) :
  forall (gas' i : nat) (trades : TradesRef) (this : t) (arr : list ITradeOption.t),
    arrayOf trades this = Some arr ->
    (List.length arr - i <= gas)%nat ->
    (List.length arr - i <= gas')%nat ->
    fuelScan enum gas params i trades this = fuelScan enum gas' params i trades this.
Proof.
  induction gas as [|gas IH]; intros gas' i trades this arr Ha Hg Hg'.
  - destruct gas' as [|gas']; [reflexivity|].
    cbn [fuelScan]. unfold bind. rewrite readTrades_arrayOf, Ha. cbn [JS.deref].
    assert (En : nth_error arr i = None) by (apply nth_error_None; lia).
    rewrite En. reflexivity.
  - destruct gas' as [|gas'].
    + cbn [fuelScan]. unfold bind. rewrite readTrades_arrayOf, Ha. cbn [JS.deref].
      assert (En : nth_error arr i = None) by (apply nth_error_None; lia).
      rewrite En. reflexivity.
    + cbn [fuelScan]. unfold bind. rewrite readTrades_arrayOf, Ha. cbn [JS.deref].
      destruct (nth_error arr i) as [tradeOption|] eqn:En; [|reflexivity].
      assert (Hi : (i < List.length arr)%nat) by (apply nth_error_Some; congruence).
      unfold reading.
      destruct (JS.deref (_currentLocation this)) as [currentLocation|e]; [|reflexivity].
      destruct (JS.deref (_ship this)) as [ship|e]; [|reflexivity].
      destruct (JS.deref (_currentMarketplace this)) as [marketplace|e]; [|reflexivity].
      cbv zeta.
      assert (Hnext : forall this1 trades1,
                 splice1 i trades this = (this1, JS.Normal trades1) ->
                 fuelScan enum gas params (S i) trades1 this1
                 = fuelScan enum gas' params (S i) trades1 this1).
      { intros this1 trades1 Hs.
        destruct (splice1_normal _ _ _ _ _ _ Ha Hs) as [_ Ha1].
        apply (IH gas' (S i) trades1 this1 _ Ha1);
          rewrite (removeAt_length _ _ Hi); lia. }
      destruct (JS.gtb _ _).
      { destruct (splice1 i trades this) as [this1 [trades1|e]];
          [apply Hnext; reflexivity|reflexivity]. }
      destruct (JS.ltb _ _); [|reflexivity].
      destruct (splice1 i trades this) as [this1 [trades1|e]];
        [apply Hnext; reflexivity|reflexivity].
Qed.

(** [navigate] and [plotRoute] give the first loop all the gas it needs. *)
Lemma plotRoute_gas (enum : ShipClass.t) (params : INavigationParameters.t)
      (trades : TradesRef) (this : t) (arr : list ITradeOption.t) (extra : nat) :
  arrayOf trades this = Some arr ->
  fuelScan enum (List.length arr) params 0 trades this
  = fuelScan enum (List.length arr + extra) params 0 trades this.
Proof.
  intro Ha. apply (fuelScan_gas enum params _ _ 0%nat trades this arr Ha); lia.
Qed.

Lemma commit_same (trades : TradesRef) (arr : list ITradeOption.t) (this : t) :
  arrayOf trades this = Some arr -> commit trades arr this = this.
Proof.
  destruct trades; cbn; intro H; [|reflexivity]. rewrite <- H. destruct this; reflexivity.
Qed.

Lemma rebind_same (trades : TradesRef) (arr : list ITradeOption.t) (this : t) :
  arrayOf trades this = Some arr -> rebind trades arr = trades.
Proof.
  destruct trades; cbn; intro H; [reflexivity|]. inversion H. reflexivity.
Qed.

Lemma splice1_commit (i : nat) (trades : TradesRef) (this : t) (arr : list ITradeOption.t) :
  arrayOf trades this = Some arr ->
  splice1 i trades this
  = (commit trades (removeAt i arr) this, JS.Normal (rebind trades (removeAt i arr))).
Proof.
  destruct trades; cbn [arrayOf splice1 commit rebind]; intro H.
  - unfold bind, readTrades, reading, assign, ret. rewrite H. reflexivity.
  - inversion H. reflexivity.
Qed.

Lemma removeAt_middle {A} (pre : list A) (a : A) (rest : list A) :
  removeAt (List.length pre) (pre ++ a :: rest) = pre ++ rest.
Proof.
  unfold removeAt.
  rewrite firstn_app, Nat.sub_diag, firstn_all. cbn [firstn]. rewrite app_nil_r.
  rewrite skipn_app, (skipn_all2 pre) by lia.
  replace (S (List.length pre) - List.length pre)%nat with 1%nat by lia.
  reflexivity.
Qed.

(** The first loop computes [examine], given gas for every element from
    its index on. *)
Lemma fuelScan_examine (enum : ShipClass.t) (params : INavigationParameters.t)
      (ship : IShip.t) (currentLocation : ILocation.t) (marketplace : list IGood.t)
      (gas : nat) :
  forall (trades : TradesRef) (this : t) (pre suf : list ITradeOption.t),
    _ship this = Some ship ->
    _currentLocation this = Some currentLocation ->
    _currentMarketplace this = Some marketplace ->
    arrayOf trades this = Some (pre ++ suf) ->
    (List.length suf <= gas)%nat ->
    let ok := fun o => canRefuel marketplace ship (refuelFor enum params ship currentLocation o) in
    fuelScan enum gas params (List.length pre) trades this
    = (commit trades (pre ++ fst (examine ok suf)) this,
       JS.Normal (rebind trades (pre ++ fst (examine ok suf)),
                  option_map (refuelFor enum params ship currentLocation)
                             (snd (examine ok suf)))).
Proof.
  induction gas as [|gas IH]; intros trades this pre suf Hs Hc Hm Ha Hg ok.
  - destruct suf; [|cbn in Hg; lia].
    cbn [fuelScan examine fst snd option_map]. unfold ret.
    rewrite (commit_same _ _ _ Ha), (rebind_same _ _ _ Ha). reflexivity.
  - cbn [fuelScan]. unfold bind. rewrite readTrades_arrayOf, Ha. cbn [JS.deref].
    destruct suf as [|candidate rest].
    + rewrite (proj2 (nth_error_None _ _)) by (rewrite app_nil_r; lia).
      cbn [examine fst snd option_map]. unfold ret.
      rewrite (commit_same _ _ _ Ha), (rebind_same _ _ _ Ha). reflexivity.
    + rewrite nth_error_app2, Nat.sub_diag by lia. cbn [nth_error].
      unfold reading. rewrite Hc, Hs, Hm. cbn [JS.deref]. cbv zeta.
      assert (Eok : ok candidate
                    = negb (JS.gtb (fuelQuantity (refuelFor enum params ship currentLocation candidate))
                              (JS.orZero (option_map IGood.quantityAvailable
                                 (hd_error (filter (fun g => String.eqb (IGood.symbol g) "FUEL")
                                                   marketplace)))))
                      && negb (JS.ltb (IShip.spaceAvailable ship)
                                 (fuelQuantity (refuelFor enum params ship currentLocation candidate))))
        by reflexivity.
      cbn [refuelFor fuelQuantity] in Eok.
      assert (Hdrop : ok candidate = false ->
                match splice1 (List.length pre) trades this with
                | (this', JS.Normal a) => fuelScan enum gas params (S (List.length pre)) a this'
                | (this', JS.Throw e) => (this', JS.Throw e)
                end
                = (commit trades (pre ++ fst (examine ok (candidate :: rest))) this,
                   JS.Normal (rebind trades (pre ++ fst (examine ok (candidate :: rest))),
                              option_map (refuelFor enum params ship currentLocation)
                                (snd (examine ok (candidate :: rest)))))).
      { intro Ek. cbn [examine]. rewrite Ek.
        rewrite (splice1_commit _ _ _ _ Ha), removeAt_middle.
        set (this1 := commit trades (pre ++ rest) this).
        set (trades1 := rebind trades (pre ++ rest)).
        assert (Ha1 : arrayOf trades1 this1 = Some (pre ++ rest))
          by (unfold trades1, this1; destruct trades; reflexivity).
        assert (Hs1 : _ship this1 = Some ship)
          by (unfold this1; destruct trades; exact Hs).
        assert (Hc1 : _currentLocation this1 = Some currentLocation)
          by (unfold this1; destruct trades; exact Hc).
        assert (Hm1 : _currentMarketplace this1 = Some marketplace)
          by (unfold this1; destruct trades; exact Hm).
        assert (Hcommit : forall l, commit trades1 l this1 = commit trades l this)
          by (intro l; unfold trades1, this1; destruct trades; reflexivity).
        assert (Hrebind : forall l, rebind trades1 l = rebind trades l)
          by (intro l; unfold trades1; destruct trades; reflexivity).
        destruct rest as [|passedOver rest'].
        - destruct gas as [|gas'].
          + cbn [fuelScan]. unfold ret. cbn [fst snd option_map].
            unfold this1, trades1. reflexivity.
          + cbn [fuelScan]. unfold bind. rewrite readTrades_arrayOf, Ha1. cbn [JS.deref].
            rewrite (proj2 (nth_error_None _ _)) by (rewrite length_app; cbn; lia).
            unfold ret. cbn [fst snd option_map]. unfold this1, trades1. reflexivity.
        - replace (S (List.length pre)) with (List.length (pre ++ [passedOver]))
            by (rewrite length_app; cbn; lia).
          assert (Ha2 : arrayOf trades1 this1 = Some ((pre ++ [passedOver]) ++ rest'))
            by (rewrite <- app_assoc; exact Ha1).
          assert (Hg2 : (List.length rest' <= gas)%nat) by (cbn in Hg; lia).
          rewrite (IH trades1 this1 (pre ++ [passedOver]) rest' Hs1 Hc1 Hm1 Ha2 Hg2).
          fold ok. rewrite Hcommit, Hrebind.
          destruct (examine ok rest') as [kept found]. cbn [fst snd].
          rewrite <- app_assoc. reflexivity. }
      destruct (JS.gtb _ _) eqn:E1.
      { apply Hdrop. rewrite Eok. reflexivity. }
      destruct (JS.ltb _ _) eqn:E2.
      { apply Hdrop. rewrite Eok. reflexivity. }
      assert (Ek : ok candidate = true) by (rewrite Eok; reflexivity).
      cbn [examine]. rewrite Ek. cbn [fst snd option_map]. unfold ret.
      rewrite (commit_same _ _ _ Ha), (rebind_same _ _ _ Ha). reflexivity.
Qed.

(** After a candidate that cannot be fuelled, the next one is kept and not
    examined, whether it can be fuelled or not. *)
Lemma fuelScan_passes_over (enum : ShipClass.t) (params : INavigationParameters.t)
      (ship : IShip.t) (currentLocation : ILocation.t) (marketplace : list IGood.t)
      (trades : TradesRef) (this : t)
      (dropped passedOver : ITradeOption.t) (rest : list ITradeOption.t) :
  _ship this = Some ship ->
  _currentLocation this = Some currentLocation ->
  _currentMarketplace this = Some marketplace ->
  arrayOf trades this = Some (dropped :: passedOver :: rest) ->
  let ok := fun o => canRefuel marketplace ship (refuelFor enum params ship currentLocation o) in
  ok dropped = false ->
  fuelScan enum (List.length (dropped :: passedOver :: rest)) params 0 trades this
  = (commit trades (passedOver :: fst (examine ok rest)) this,
     JS.Normal (rebind trades (passedOver :: fst (examine ok rest)),
                option_map (refuelFor enum params ship currentLocation)
                           (snd (examine ok rest)))).
Proof.
  intros Hs Hc Hm Ha ok Hd.
  pose proof (fuelScan_examine enum params ship currentLocation marketplace _
                trades this [] (dropped :: passedOver :: rest) Hs Hc Hm Ha (Nat.le_refl _))
    as H.
  cbn [List.length app] in H |- *. cbv zeta in H. fold ok in H. rewrite H.
  cbn [examine]. rewrite Hd.
  destruct (examine ok rest) as [kept found]. reflexivity.
Qed.

(* ================================================================= *)
(** ** The engines a caller can hold *)

Lemma optionsShrink_refl (this : t) : optionsShrink this this.
Proof.
  intros tradeOptions' H. exists tradeOptions'. split; [exact H|apply incl_refl].
Qed.

Lemma optionsShrink_trans (a b c : t) :
  optionsShrink a b -> optionsShrink b c -> optionsShrink a c.
Proof.
  intros H1 H2 o3 E3. destruct (H2 o3 E3) as (o2 & E2 & I2).
  destruct (H1 o2 E2) as (o1 & E1 & I1).
  exists o1. split; [exact E1|]. eapply incl_tran; eassumption.
Qed.

Lemma splice1_frame (i : nat) (trades : TradesRef) (this this' : t)
      (c : JS.Completion TradesRef) :
  splice1 i trades this = (this', c) ->
  sameButTradeOptions this this' /\ optionsShrink this this'.
Proof.
  destruct trades as [|arr]; cbn [splice1].
  - unfold bind, readTrades, reading, assign, ret.
    destruct (_tradeOptions this) as [arr|] eqn:E; cbn [JS.deref]; intro H;
      inversion H; subst.
    + split; [apply sameButTradeOptions_set|].
      intros o' E'. cbn in E'. inversion E'. subst o'.
      exists arr. split; [exact E|apply removeAt_incl].
    + split; [apply sameButTradeOptions_refl|apply optionsShrink_refl].
  - intro H. inversion H. subst.
    split; [apply sameButTradeOptions_refl|apply optionsShrink_refl].
Qed.

Lemma fuelScan_frame (enum : ShipClass.t) (params : INavigationParameters.t) (gas : nat) :
  forall (i : nat) (trades : TradesRef) (this this' : t)
         (c : JS.Completion (TradesRef * option Refuel)),
    fuelScan enum gas params i trades this = (this', c) ->
    sameButTradeOptions this this' /\ optionsShrink this this'.
Proof.
  assert (Hrefl : forall (this this' : t) (c c' : JS.Completion (TradesRef * option Refuel)),
             (this, c) = (this', c') ->
             sameButTradeOptions this this' /\ optionsShrink this this').
  { intros this this' c c' H. inversion H. subst.
    split; [apply sameButTradeOptions_refl|apply optionsShrink_refl]. }
  induction gas as [|gas IH]; intros i trades this this' c H.
  - cbn in H. unfold ret in H. eapply Hrefl, H.
  - cbn [fuelScan] in H. unfold bind in H. rewrite readTrades_arrayOf in H.
    destruct (JS.deref (arrayOf trades this)) as [arr|e]; [|eapply Hrefl, H].
    destruct (nth_error arr i) as [tradeOption|]; [|eapply Hrefl, H].
    unfold reading in H.
    destruct (JS.deref (_currentLocation this)) as [currentLocation|e]; [|eapply Hrefl, H].
    destruct (JS.deref (_ship this)) as [ship|e]; [|eapply Hrefl, H].
    destruct (JS.deref (_currentMarketplace this)) as [marketplace|e]; [|eapply Hrefl, H].
    cbv zeta in H.
    assert (Hnext : match splice1 i trades this with
                    | (this'0, JS.Normal a) => fuelScan enum gas params (S i) a this'0
                    | (this'0, JS.Throw e) => (this'0, JS.Throw e)
                    end = (this', c) ->
                    sameButTradeOptions this this' /\ optionsShrink this this').
    { destruct (splice1 i trades this) as [this1 [trades1|e]] eqn:Es; intro K.
      - destruct (splice1_frame _ _ _ _ _ Es) as [S1 O1].
        destruct (IH _ _ _ _ _ K) as [S2 O2].
        split; [eapply sameButTradeOptions_trans|eapply optionsShrink_trans]; eassumption.
      - inversion K. subst. eapply splice1_frame, Es. }
    destruct (JS.gtb _ _); [exact (Hnext H)|].
    destruct (JS.ltb _ _); [exact (Hnext H)|].
    eapply Hrefl, H.
Qed.

Lemma plotRoute_frame (enum : ShipClass.t) (params : INavigationParameters.t)
      (strict : bool) (trades : TradesRef) (this this' : t)
      (c : JS.Completion (option ITradeRoute.t)) :
  plotRoute enum params strict trades this = (this', c) ->
  sameButTradeOptions this this' /\ optionsShrink this this'.
Proof.
  assert (Hrefl : forall (this this' : t) (c c' : JS.Completion (option ITradeRoute.t)),
             (this, c) = (this', c') ->
             sameButTradeOptions this this' /\ optionsShrink this this').
  { intros a b x y H. inversion H. subst.
    split; [apply sameButTradeOptions_refl|apply optionsShrink_refl]. }
  unfold plotRoute, bind. rewrite readTrades_arrayOf.
  destruct (JS.deref (arrayOf trades this)) as [arr|e]; [|apply Hrefl].
  destruct (fuelScan enum _ params 0 trades this) as [this1 [[trades1 found]|e]] eqn:Es.
  - apply fuelScan_frame in Es. intro H.
    assert (E : this' = this1).
    { destruct found as [refuel|].
      - rewrite readTrades_arrayOf in H.
        destruct (JS.deref (arrayOf trades1 this1)); [|inversion H; reflexivity].
        unfold reading in H.
        destruct (JS.deref (_ship this1)); inversion H; reflexivity.
      - unfold giveUp, throw, ret in H. destruct strict; inversion H; reflexivity. }
    subst this'. exact Es.
  - apply fuelScan_frame in Es. intro H. inversion H. subst. exact Es.
Qed.

(** [navigate] changes nothing but the contents of [_tradeOptions], from
    which it only removes. *)
Lemma navigate_frame (enum : ShipClass.t) (params : option INavigationParameters.t)
      (strict : bool) (this this' : t) (c : JS.Completion (option ITradeRoute.t)) :
  navigate enum params strict this = (this', c) ->
  sameButTradeOptions this this' /\ optionsShrink this this'.
Proof.
  assert (Hrefl : forall (this this' : t) (c c' : JS.Completion (option ITradeRoute.t)),
             (this, c) = (this', c') ->
             sameButTradeOptions this this' /\ optionsShrink this this').
  { intros a b x y H. inversion H. subst.
    split; [apply sameButTradeOptions_refl|apply optionsShrink_refl]. }
  assert (Hgive : forall message (this this' : t) (c : JS.Completion (option ITradeRoute.t)),
             giveUp strict message this = (this', c) ->
             sameButTradeOptions this this' /\ optionsShrink this this').
  { intros message a b x. unfold giveUp, throw, ret. destruct strict; apply Hrefl. }
  unfold navigate, bind. rewrite readTrades_arrayOf.
  destruct (JS.deref (arrayOf ThisTradeOptions this)) as [[|o arr]|e];
    [apply Hgive| |apply Hrefl].
  destruct (INavigationParameters.range _) as [range|]; [|apply plotRoute_frame].
  destruct (JS.truthy range); [|apply plotRoute_frame].
  unfold reading. destruct (JS.deref (_ship this)) as [ship|e]; [|apply Hrefl].
  destruct (filter _ _); [apply Hgive|apply plotRoute_frame].
Qed.

Lemma fuelScan_own (enum : ShipClass.t) (params : INavigationParameters.t) (gas : nat) :
  forall (i : nat) (arr : list ITradeOption.t) (this this' : t)
         (c : JS.Completion (TradesRef * option Refuel)),
    fuelScan enum gas params i (OwnArray arr) this = (this', c) -> this' = this.
Proof.
  induction gas as [|gas IH]; intros i arr this this' c H.
  - inversion H. reflexivity.
  - cbn [fuelScan] in H. unfold bind in H. cbn [readTrades ret] in H.
    destruct (nth_error arr i) as [tradeOption|]; [|inversion H; reflexivity].
    unfold reading in H.
    destruct (JS.deref (_currentLocation this)) as [currentLocation|e];
      [|inversion H; reflexivity].
    destruct (JS.deref (_ship this)) as [ship|e]; [|inversion H; reflexivity].
    destruct (JS.deref (_currentMarketplace this)) as [marketplace|e];
      [|inversion H; reflexivity].
    cbv zeta in H. cbn [splice1 ret] in H.
    destruct (JS.gtb _ _); [exact (IH _ _ _ _ _ H)|].
    destruct (JS.ltb _ _); [exact (IH _ _ _ _ _ H)|].
    inversion H. reflexivity.
Qed.

Lemma plotRoute_own (enum : ShipClass.t) (params : INavigationParameters.t)
      (strict : bool) (arr : list ITradeOption.t) (this this' : t)
      (c : JS.Completion (option ITradeRoute.t)) :
  plotRoute enum params strict (OwnArray arr) this = (this', c) -> this' = this.
Proof.
  unfold plotRoute, bind. cbn [readTrades ret].
  destruct (fuelScan enum _ params 0 (OwnArray arr) this)
    as [this1 [[trades1 found]|e]] eqn:Es; apply fuelScan_own in Es; subst this1.
  - destruct found as [refuel|].
    + rewrite readTrades_arrayOf.
      destruct (JS.deref (arrayOf trades1 this)); [|intro H; inversion H; reflexivity].
      unfold reading.
      destruct (JS.deref (_ship this)); intro H; inversion H; reflexivity.
    + unfold giveUp, throw, ret. destruct strict; intro H; inversion H; reflexivity.
  - intro H. inversion H. reflexivity.
Qed.

(** With a range that is not 0, [navigate] works on an array of its own
    and leaves the engine as it is. *)
Lemma navigate_in_range_pure (enum : ShipClass.t) (range : Q) (fuelMargin : option Q)
      (strict : bool) (this this' : t) (c : JS.Completion (option ITradeRoute.t)) :
  JS.truthy range = true ->
  navigate enum (Some {| INavigationParameters.range := Some range;
                         INavigationParameters.fuelMargin := fuelMargin |}) strict this
  = (this', c) ->
  this' = this.
Proof.
  intro Hr. unfold navigate, bind. rewrite readTrades_arrayOf.
  cbn [INavigationParameters.range]. rewrite Hr.
  destruct (JS.deref (arrayOf ThisTradeOptions this)) as [[|o arr]|e].
  - unfold giveUp, throw, ret. destruct strict; intro H; inversion H; reflexivity.
  - unfold reading. destruct (JS.deref (_ship this)) as [ship|e];
      [|intro H; inversion H; reflexivity].
    destruct (filter _ _) as [|o' filtered].
    + unfold giveUp, throw, ret. destruct strict; intro H; inversion H; reflexivity.
    + apply plotRoute_own.
  - intro H. inversion H. reflexivity.
Qed.

Lemma locateShip_in (ship : option IShip.t) (locations : list ILocation.t) (l : ILocation.t) :
  locateShip ship locations = JS.Normal (Some l) -> In l locations.
Proof.
  induction locations as [|l0 rest IH]; cbn [locateShip].
  - intro H. inversion H.
  - destruct (JS.deref ship) as [s|e]; cbn [JS.bindC]; [|intro H; inversion H].
    destruct (String.eqb _ _).
    + intro H. inversion H. left. reflexivity.
    + intro H. right. apply IH, H.
Qed.

Lemma insertByKey_Forall {A} (key : A -> JS.PerRoot) (P : A -> Prop) (a : A) (sorted : list A) :
  P a -> Forall P sorted -> Forall P (Mentat.insertByKey key a sorted).
Proof.
  intros Ha. induction 1 as [|b rest Hb Hrest IH]; cbn [Mentat.insertByKey].
  - constructor; [exact Ha|constructor].
  - destruct (0 <? Mentat.compareByKey key a b)%Z.
    + constructor; [exact Hb|exact IH].
    + constructor; [exact Ha|]. constructor; [exact Hb|exact Hrest].
Qed.

Lemma sortByKey_Forall {A} (key : A -> JS.PerRoot) (P : A -> Prop) (arr : list A) :
  Forall P arr -> Forall P (Mentat.sortByKey key arr).
Proof.
  unfold Mentat.sortByKey. induction 1 as [|a rest Ha Hrest IH]; cbn [fold_right].
  - constructor.
  - apply insertByKey_Forall; assumption.
Qed.

Section Invariant.

Variable P : ILocation.t -> Prop.

Lemma soundEngine_set_currentLocation (v : option ILocation.t) (this : t) :
  soundEngine P this ->
  (forall l, v = Some l -> P l) ->
  soundEngine P (set_currentLocation v this).
Proof.
  intros (H1 & H2 & H3) Hv. split; [exact H1|]. split; [exact Hv|exact H3].
Qed.

Lemma soundEngine_set_currentMarketplace (v : option (list IGood.t)) (this : t) :
  soundEngine P this -> soundEngine P (set_currentMarketplace v this).
Proof. intros (H1 & H2 & H3). split; [exact H1|]. split; [exact H2|exact H3]. Qed.

Lemma soundEngine_set_currentFuelUnitCost (v : option Q) (this : t) :
  soundEngine P this -> soundEngine P (set_currentFuelUnitCost v this).
Proof. intros (H1 & H2 & H3). split; [exact H1|]. split; [exact H2|exact H3]. Qed.

Lemma soundEngine_set_ship (v : option IShip.t) (this : t) :
  soundEngine P this -> soundEngine P (set_ship v this).
Proof. intros (H1 & H2 & H3). split; [exact H1|]. split; [exact H2|exact H3]. Qed.

Lemma soundEngine_set_initialized (v : bool) (this : t) :
  soundEngine P this -> soundEngine P (set_initialized v this).
Proof. intros (H1 & H2 & H3). split; [exact H1|]. split; [exact H2|exact H3]. Qed.

Lemma soundEngine_set_locations (locations : list ILocation.t) (this : t) :
  soundEngine P this ->
  Forall P locations ->
  soundEngine P (set_locations (Some locations) this).
Proof.
  intros (H1 & H2 & H3) Hl. split; [|split; [exact H2|exact H3]].
  intros locations' E. cbn in E. inversion E. subst. exact Hl.
Qed.

Lemma soundEngine_set_tradeOptions (tradeOptions : list ITradeOption.t) (this : t) :
  soundEngine P this ->
  Forall (soundOption P) tradeOptions ->
  soundEngine P (set_tradeOptions (Some tradeOptions) this).
Proof.
  intros (H1 & H2 & H3) Ho. split; [exact H1|]. split; [exact H2|].
  intros o E. cbn in E. inversion E. subst. exact Ho.
Qed.

Lemma setProperties_sound (this this' : t) (c : JS.Completion unit) :
  soundEngine P this -> setProperties this = (this', c) -> soundEngine P this'.
Proof.
  intro Hs. unfold setProperties, bind, reading, assign.
  destruct (getCurrentLocation this) as [found|e] eqn:El;
    [|intro H; inversion H; subst; exact Hs].
  assert (Hs1 : soundEngine P (set_currentLocation found this)).
  { apply soundEngine_set_currentLocation; [exact Hs|].
    intros l E. subst found. unfold getCurrentLocation in El.
    destruct (_locations this) as [locations|] eqn:E; cbn in El; [|inversion El].
    apply locateShip_in in El. destruct Hs as (H1 & _).
    specialize (H1 locations E). rewrite Forall_forall in H1. apply H1, El. }
  destruct (getCurrentMarketplace _) as [m|e];
    [|intro H; inversion H; subst; exact Hs1].
  destruct (getCurrentFuelUnitCost _) as [f|e]; intro H; inversion H; subst.
  - apply soundEngine_set_currentFuelUnitCost, soundEngine_set_currentMarketplace, Hs1.
  - apply soundEngine_set_currentMarketplace, Hs1.
Qed.

Lemma goodsLoop_sound (enum : ShipClass.t) (this : t) (currentLocation : ILocation.t)
      (localMarket : list IGood.t) (destination : ILocation.t) (marketplace : list IGood.t) :
  P currentLocation ->
  ILocation.marketplace currentLocation = Some localMarket ->
  forall trades trades',
    Forall (soundOption P) trades ->
    goodsLoop enum this currentLocation localMarket destination marketplace trades
    = JS.Normal trades' ->
    Forall (soundOption P) trades'.
Proof.
  intros Hp Hm. induction marketplace as [|destinationGood rest IH];
    intros trades trades' Ht H.
  - inversion H. subst. exact Ht.
  - cbn [goodsLoop] in H.
    destruct (find _ localMarket) as [localGood|] eqn:Ef; [|exact (IH _ _ Ht H)].
    destruct (JS.gtb (IGood.quantityAvailable localGood) 0) eqn:Eq; [|exact (IH _ _ Ht H)].
    destruct (getCurrentFuelUnitCost this) as [fuelUnitCost|e]; [|inversion H].
    cbn [JS.bindC] in H.
    destruct (JS.deref (_ship this)) as [ship|e]; [|inversion H].
    cbn [JS.bindC] in H.
    destruct (JS.gtPerRoot _ _); [|exact (IH _ _ Ht H)].
    refine (IH _ _ _ H). apply Forall_app. split; [exact Ht|].
    constructor; [|constructor]. split; cbn.
    + apply gtb_lt, Eq.
    + exists currentLocation, localMarket. split; [exact Hp|]. split; [exact Hm|].
      apply find_some in Ef. apply Ef.
Qed.

Lemma locationsLoop_sound (enum : ShipClass.t) (this : t) (currentLocation : ILocation.t)
      (localMarket : list IGood.t) (locations : list ILocation.t) :
  P currentLocation ->
  ILocation.marketplace currentLocation = Some localMarket ->
  forall trades trades',
    Forall (soundOption P) trades ->
    locationsLoop enum this currentLocation localMarket locations trades
    = JS.Normal trades' ->
    Forall (soundOption P) trades'.
Proof.
  intros Hp Hm. induction locations as [|destination rest IH]; intros trades trades' Ht H.
  - inversion H. subst. exact Ht.
  - cbn [locationsLoop] in H.
    destruct (String.eqb _ _); [exact (IH _ _ Ht H)|].
    destruct (ILocation.marketplace destination) as [[|g gs]|];
      try exact (IH _ _ Ht H).
    destruct (goodsLoop enum this currentLocation localMarket destination (g :: gs) trades)
      as [trades1|e] eqn:Eg; [|inversion H].
    cbn [JS.bindC] in H.
    apply (IH _ _ (goodsLoop_sound _ _ _ _ _ _ Hp Hm _ _ Ht Eg) H).
Qed.

Lemma sortTradeOptions_sound (enum : ShipClass.t) (this this' : t) (c : JS.Completion unit) :
  soundEngine P this -> sortTradeOptions enum this = (this', c) -> soundEngine P this'.
Proof.
  intro Hs. unfold sortTradeOptions, bind, reading, ret, assign.
  destruct (_currentLocation this) as [currentLocation|] eqn:Ec; cbn [JS.deref];
    [|intro H; inversion H; subst; exact Hs].
  destruct (ILocation.marketplace currentLocation) as [[|g gs]|] eqn:Em;
    try (intro H; inversion H; subst; exact Hs).
  destruct (JS.deref (_locations this)) as [locations|e]; cbn [JS.bindC];
    [|intro H; inversion H; subst; exact Hs].
  destruct (locationsLoop enum this currentLocation (g :: gs) locations [])
    as [trades|e] eqn:El; intro H; inversion H; subst; [|exact Hs].
  apply soundEngine_set_tradeOptions; [exact Hs|].
  apply sortByKey_Forall.
  refine (locationsLoop_sound _ _ _ _ _ _ Em _ _ (Forall_nil _) El).
  destruct Hs as (_ & H2 & _). exact (H2 _ Ec).
Qed.

Lemma updateLocationsData_sound (enum : ShipClass.t) (locations : list ILocation.t)
      (this this' : t) (c : JS.Completion unit) :
  soundEngine P this ->
  Forall P locations ->
  updateLocationsData enum locations this = (this', c) ->
  soundEngine P this'.
Proof.
  intros Hs Hl. unfold updateLocationsData, bind. cbn [assign reading].
  pose proof (soundEngine_set_locations _ _ Hs Hl) as Hs1.
  destruct (_initialized _); [|intro H; inversion H; subst; exact Hs1].
  destruct (setProperties _) as [this1 [u|e]] eqn:Ep.
  - intro H. eapply sortTradeOptions_sound; [|exact H].
    eapply setProperties_sound; eassumption.
  - intro H. inversion H. subst. eapply setProperties_sound; eassumption.
Qed.

Lemma updateShipData_sound (enum : ShipClass.t) (ship : IShip.t)
      (this this' : t) (c : JS.Completion unit) :
  soundEngine P this ->
  updateShipData enum ship this = (this', c) ->
  soundEngine P this'.
Proof.
  intro Hs. unfold updateShipData, bind. cbn [assign].
  pose proof (soundEngine_set_ship (Some ship) _ Hs) as Hs1.
  destruct (setProperties _) as [this1 [u|e]] eqn:Ep.
  - pose proof (setProperties_sound _ _ _ Hs1 Ep) as Hs2. cbn [reading].
    destruct (_initialized this1).
    + intro H. eapply sortTradeOptions_sound; eassumption.
    + intro H. inversion H. subst. exact Hs2.
  - intro H. inversion H. subst. eapply setProperties_sound; eassumption.
Qed.

Lemma blank_sound : soundEngine P blank.
Proof. repeat split; intros x H; discriminate H. Qed.

Lemma constructor_sound (enum : ShipClass.t) (locations : list ILocation.t) (ship : IShip.t)
      (this : t) :
  Forall P locations ->
  constructor enum locations ship = JS.Normal this ->
  soundEngine P this.
Proof.
  intros Hl. rewrite constructor_unfold.
  destruct (updateShipData enum ship _) as [this1 [u|e]] eqn:Eu; [|intro H; inversion H].
  apply updateShipData_sound in Eu.
  2:{ apply soundEngine_set_locations; [apply blank_sound|exact Hl]. }
  destruct (sortTradeOptions enum this1) as [this2 [u'|e]] eqn:Es; intro H; inversion H.
  apply soundEngine_set_initialized. eapply sortTradeOptions_sound; eassumption.
Qed.

Lemma navigate_sound (enum : ShipClass.t) (params : option INavigationParameters.t)
      (strict : bool) (this this' : t) (c : JS.Completion (option ITradeRoute.t)) :
  soundEngine P this ->
  navigate enum params strict this = (this', c) ->
  soundEngine P this'.
Proof.
  intros (H1 & H2 & H3) H. apply navigate_frame in H. destruct H as [Hs Ho].
  rewrite Hs. split; [exact H1|]. split; [exact H2|].
  intros o E. cbn in E. destruct (Ho o E) as (o0 & E0 & I0).
  eapply Forall_incl; [exact I0|]. apply H3, E0.
Qed.

(** Every engine a caller can hold meets the invariant. *)
Lemma reachable_sound (enum : ShipClass.t) (this : t) :
  reachable P enum this -> soundEngine P this.
Proof.
  induction 1 as [locations ship this Hl Hc
                 |locations this this' c Hr IH Hl Hu
                 |ship this this' c Hr IH Hu
                 |params strict this this' c Hr IH Hn].
  - eapply constructor_sound; eassumption.
  - eapply updateLocationsData_sound; eassumption.
  - eapply updateShipData_sound; eassumption.
  - eapply navigate_sound; eassumption.
Qed.

End Invariant.

Lemma soundOption_positiveVolume (tradeOptions : list ITradeOption.t) :
  Forall (soundOption goodsTakeSpace) tradeOptions -> Forall positiveVolume tradeOptions.
Proof.
  apply Forall_impl. intros o (_ & l & marketplace & Hl & Hm & Hin).
  specialize (Hl marketplace Hm). rewrite Forall_forall in Hl. apply Hl, Hin.
Qed.

(** The ranked options of an engine a caller can hold are for goods on
    offer. *)
Lemma reachable_on_offer (enum : ShipClass.t) (this : t)
      (tradeOptions : list ITradeOption.t) :
  reachable anyLocation enum this ->
  _tradeOptions this = Some tradeOptions ->
  Forall (fun tradeOption =>
            0 < IGood.quantityAvailable (ITrade.localGood (ITradeOption.trade tradeOption)))
         tradeOptions.
Proof.
  intros Hr E. destruct (reachable_sound _ _ _ Hr) as (_ & _ & H3).
  specialize (H3 _ E). revert H3. apply Forall_impl. intros o [H _]. exact H.
Qed.

(* ================================================================= *)
(** ** Distances and ranges *)

(* ================================================================= *)
(** ** More on the fuel formulas *)

(** Rounding keeps the order of the distances. *)
Lemma roundRoot_monotone (d1 d2 : JS.Root) :
  JS.radicand d1 <= JS.radicand d2 -> JS.roundRoot d1 <= JS.roundRoot d2.
Proof.
  intro H. unfold JS.roundRoot. rewrite <- Zle_Qle.
  apply Z.div_le_mono; [lia|].
  apply Z.add_le_mono_r, Z.sqrt_le_mono, Qfloor_resp_le.
  lra.
Qed.

Lemma round_monotone (x y : Q) : x <= y -> JS.round x <= JS.round y.
Proof.
  intro H. unfold JS.round. rewrite <- Zle_Qle. apply Qfloor_resp_le. lra.
Qed.

(** The order of two distances is the order of their radicands. *)
Lemma ofRoot_le (d1 d2 : JS.Root) :
  0 <= JS.radicand d1 -> 0 <= JS.radicand d2 ->
  (Real.ofRoot d1 <= Real.ofRoot d2)%R -> JS.radicand d1 <= JS.radicand d2.
Proof.
  intros H1 H2 H. unfold Real.ofRoot in H.
  apply Qle_Rle in H1, H2. rewrite Q2R_0 in H1, H2.
  apply Rle_Qle. apply sqrt_le_0; assumption.
Qed.

(** X4.  For one trip, the fuel to travel is ordered by the ship's class:
    HM_MK_III needs no more than a class outside the enumeration, which
    needs no more than GR_MK_II, which needs no more than GR_MK_III. *)
Theorem calculateFuelToTravel_by_class (enum : ShipClass.t) (ship1 ship2 : IShip.t)
        (origin destination : ILocation.t) :
  (thirst (Spec.bracketOf enum (IShip.type ship1))
   <= thirst (Spec.bracketOf enum (IShip.type ship2)))%nat ->
  Mentat.calculateFuelToTravel enum ship1 origin destination
  <= Mentat.calculateFuelToTravel enum ship2 origin destination.
Proof.
  intro H. rewrite !calculateFuelToTravel_unfold.
  set (b1 := Spec.bracketOf enum (IShip.type ship1)) in *.
  set (b2 := Spec.bracketOf enum (IShip.type ship2)) in *.
  pose proof (roundRoot_nonneg (Mentat.calculateLocationDistance origin destination)) as Hd.
  set (n := JS.roundRoot (Mentat.calculateLocationDistance origin destination)) in *.
  assert (Hm : Spec.multiplier b1 <= Spec.multiplier b2).
  { destruct b1, b2; cbn in H; try lia; cbn; lra. }
  assert (Hp : Spec.penalty b1 origin <= Spec.penalty b2 origin).
  { unfold Spec.penalty. destruct (Spec.isPlanet origin); [|lra].
    destruct b1, b2; cbn in H; try lia; cbn; lra. }
  assert (Hr : JS.round (n * Spec.multiplier b1) <= JS.round (n * Spec.multiplier b2)).
  { apply round_monotone. rewrite !(Qmult_comm n). apply Qmult_le_compat_r; assumption. }
  lra.
Qed.

(* ================================================================= *)
(** ** Quantities and profits *)

(* ================================================================= *)
(** ** Sorting by key *)

Section SortByKey.

Context {A : Type} (key : A -> JS.PerRoot).

(** The comparator is positive exactly when the first key is the smaller. *)
Lemma compareByKey_positive (a b : A) :
  (0 <? Mentat.compareByKey key a b)%Z = JS.ltPerRoot (key a) (key b).
Proof.
  unfold Mentat.compareByKey. cbv zeta.
  destruct (JS.ltPerRoot (key a) (key b)); [reflexivity|].
  destruct (JS.gtPerRoot (key a) (key b)); reflexivity.
Qed.

(** The comparator is 0 exactly when the keys are equal. *)
Lemma compareByKey_zero (a b : A) :
  (Mentat.compareByKey key a b =? 0)%Z = true
  <-> JS.signedSquare (key a) == JS.signedSquare (key b).
Proof.
  unfold Mentat.compareByKey, JS.gtPerRoot. cbv zeta.
  destruct (JS.ltPerRoot (key a) (key b)) eqn:E1.
  - unfold JS.ltPerRoot in E1. apply ltb_lt in E1.
    split; [intro H; discriminate H|intro H; lra].
  - unfold JS.ltPerRoot in E1. apply ltb_ge in E1.
    destruct (JS.ltPerRoot (key b) (key a)) eqn:E2; unfold JS.ltPerRoot in E2.
    + apply ltb_lt in E2. split; [intro H; discriminate H|intro H; lra].
    + apply ltb_ge in E2. split; [intros _; lra|reflexivity].
Qed.

Lemma insertByKey_permutation (a : A) (sorted : list A) :
  Permutation (a :: sorted) (Mentat.insertByKey key a sorted).
Proof.
  induction sorted as [|b rest IH]; cbn [Mentat.insertByKey]; [reflexivity|].
  destruct (0 <? Mentat.compareByKey key a b)%Z; [|reflexivity].
  rewrite perm_swap. apply perm_skip, IH.
Qed.

Lemma insertByKey_descending (a : A) (sorted : list A) :
  descending key sorted -> descending key (Mentat.insertByKey key a sorted).
Proof.
  unfold descending. induction 1 as [|b rest Hrest IH Hb]; cbn [Mentat.insertByKey].
  - constructor; constructor.
  - rewrite compareByKey_positive.
    destruct (JS.ltPerRoot (key a) (key b)) eqn:E.
    + constructor; [exact IH|].
      apply insertByKey_Forall; [|exact Hb].
      unfold JS.ltPerRoot in *. apply ltb_lt in E. apply ltb_ge. lra.
    + constructor; [constructor; assumption|].
      constructor; [exact E|].
      eapply Forall_impl; [|exact Hb].
      intros c Hc. unfold JS.ltPerRoot in *. apply ltb_ge in E, Hc. apply ltb_ge. lra.
Qed.

(** An element is inserted behind the elements before it that tie with it. *)
Lemma insertByKey_stable (x a : A) (sorted : list A) :
  filter (fun c => (Mentat.compareByKey key c x =? 0)%Z) (Mentat.insertByKey key a sorted)
  = filter (fun c => (Mentat.compareByKey key c x =? 0)%Z) (a :: sorted).
Proof.
  induction sorted as [|b rest IH]; cbn [Mentat.insertByKey]; [reflexivity|].
  rewrite compareByKey_positive.
  destruct (JS.ltPerRoot (key a) (key b)) eqn:E; [|reflexivity].
  cbn [filter] in IH |- *. rewrite IH.
  destruct (Mentat.compareByKey key a x =? 0)%Z eqn:Ea; [|reflexivity].
  destruct (Mentat.compareByKey key b x =? 0)%Z eqn:Eb; [|reflexivity].
  exfalso. apply compareByKey_zero in Ea, Eb.
  unfold JS.ltPerRoot in E. apply ltb_lt in E. lra.
Qed.

Lemma insertByKey_front (a : A) (sorted : list A) :
  descending key (a :: sorted) -> Mentat.insertByKey key a sorted = a :: sorted.
Proof.
  intro H. destruct sorted as [|b rest]; [reflexivity|].
  cbn [Mentat.insertByKey]. rewrite compareByKey_positive.
  apply StronglySorted_inv in H. destruct H as [_ H].
  apply Forall_inv in H. rewrite H. reflexivity.
Qed.

(** A sorted array is left as it is. *)
Lemma sortByKey_fixes (arr : list A) :
  descending key arr -> Mentat.sortByKey key arr = arr.
Proof.
  unfold Mentat.sortByKey.
  induction arr as [|a rest IH]; intro H; [reflexivity|].
  cbn [fold_right]. rewrite IH.
  - apply insertByKey_front, H.
  - apply StronglySorted_inv in H. apply H.
Qed.

Lemma sortByKey_permutation (arr : list A) :
  Permutation arr (Mentat.sortByKey key arr).
Proof.
  unfold Mentat.sortByKey. induction arr as [|a rest IH]; cbn [fold_right].
  - reflexivity.
  - rewrite <- insertByKey_permutation. apply perm_skip, IH.
Qed.

Lemma sortByKey_descending (arr : list A) :
  descending key (Mentat.sortByKey key arr).
Proof.
  unfold Mentat.sortByKey. induction arr as [|a rest IH]; cbn [fold_right].
  - constructor.
  - apply insertByKey_descending, IH.
Qed.

Lemma sortByKey_keeps_ties (arr : list A) (x : A) :
  filter (fun c => (Mentat.compareByKey key c x =? 0)%Z) (Mentat.sortByKey key arr)
  = filter (fun c => (Mentat.compareByKey key c x =? 0)%Z) arr.
Proof.
  unfold Mentat.sortByKey. induction arr as [|a rest IH]; [reflexivity|].
  cbn [fold_right]. rewrite insertByKey_stable. cbn [filter]. rewrite IH. reflexivity.
Qed.

End SortByKey.

(** X8.  [sortByKey] returns a permutation of the array in which no element
    stands before one with a strictly greater key; sorting the result
    again changes nothing. *)
Theorem sortByKey_sorts {A : Type} (key : A -> JS.PerRoot) (arr : list A) :
  Permutation arr (Mentat.sortByKey key arr)
  /\ descending key (Mentat.sortByKey key arr)
  /\ Mentat.sortByKey key (Mentat.sortByKey key arr) = Mentat.sortByKey key arr.
Proof.
  split; [apply sortByKey_permutation|]. split; [apply sortByKey_descending|].
  apply sortByKey_fixes, sortByKey_descending.
Qed.

(** X9.  [sortByKey] is stable: the elements whose key equals the key of any
    given element stand in the result in the order they have in the
    array. *)
Theorem sortByKey_stable {A : Type} (key : A -> JS.PerRoot) (arr : list A) (x : A) :
  filter (fun c => (Mentat.compareByKey key c x =? 0)%Z) (Mentat.sortByKey key arr)
  = filter (fun c => (Mentat.compareByKey key c x =? 0)%Z) arr.
Proof. apply sortByKey_keeps_ties. Qed.

(* ================================================================= *)
(** ** The getters and the rebuild in closed form *)

(** The loop of the getters is [find]. *)
Lemma locateShip_find (ship : IShip.t) (locations : list ILocation.t) :
  locateShip (Some ship) locations = JS.Normal (shipLocation ship locations).
Proof.
  unfold shipLocation. induction locations as [|l rest IH]; [reflexivity|].
  cbn [locateShip find JS.deref JS.bindC].
  destruct (String.eqb _ _); [reflexivity|exact IH].
Qed.

Section Settled.

Variables (this : t) (locations : list ILocation.t) (ship : IShip.t).
Hypothesis Hl : _locations this = Some locations.
Hypothesis Hs : _ship this = Some ship.

Lemma getCurrentLocation_find :
  getCurrentLocation this = JS.Normal (shipLocation ship locations).
Proof.
  unfold getCurrentLocation. rewrite Hl, Hs. apply locateShip_find.
Qed.

Lemma getCurrentMarketplace_find :
  getCurrentMarketplace this
  = JS.Normal (match shipLocation ship locations with
               | Some l => ILocation.marketplace l
               | None => None
               end).
Proof.
  unfold getCurrentMarketplace. rewrite Hl, Hs. cbn [JS.deref JS.bindC].
  rewrite locateShip_find. reflexivity.
Qed.

Lemma getCurrentFuelUnitCost_find :
  getCurrentFuelUnitCost this
  = match shipLocation ship locations with
    | Some l => match ILocation.marketplace l with
                | Some marketplace => JS.Normal (fuelUnitCostAt marketplace)
                | None => JS.Throw JS.TypeError
                end
    | None => JS.Throw JS.TypeError
    end.
Proof.
  unfold getCurrentFuelUnitCost. rewrite getCurrentMarketplace_find. cbn [JS.bindC].
  destruct (shipLocation ship locations) as [l|]; [|reflexivity].
  destruct (ILocation.marketplace l); reflexivity.
Qed.

End Settled.

(** [setProperties] with locations and a ship: three assignments, or two and a
    TypeError. *)
Lemma setProperties_closed (this : t) (locations : list ILocation.t) (ship : IShip.t) :
  _locations this = Some locations ->
  _ship this = Some ship ->
  setProperties this
  = match shipLocation ship locations with
    | Some l =>
        match ILocation.marketplace l with
        | Some marketplace =>
            (set_currentFuelUnitCost (fuelUnitCostAt marketplace)
               (set_currentMarketplace (Some marketplace)
                  (set_currentLocation (Some l) this)), JS.Normal tt)
        | None => (adrift (Some l) this, JS.Throw JS.TypeError)
        end
    | None => (adrift None this, JS.Throw JS.TypeError)
    end.
Proof.
  intros Hl Hs. unfold setProperties, bind, reading, assign.
  rewrite (getCurrentLocation_find this locations ship Hl Hs).
  rewrite (getCurrentMarketplace_find _ locations ship) by assumption.
  rewrite (getCurrentFuelUnitCost_find _ locations ship) by assumption.
  destruct (shipLocation ship locations) as [l|]; [|reflexivity].
  destruct (ILocation.marketplace l); reflexivity.
Qed.

(** The [j] and [k] loops push the offers of a destination. *)
Lemma goodsLoop_offers (enum : ShipClass.t) (this : t) (ship : IShip.t)
      (fuelUnitCost : option Q) (currentLocation : ILocation.t) (localMarket : list IGood.t)
      (destination : ILocation.t) (marketplace : list IGood.t) :
  getCurrentFuelUnitCost this = JS.Normal fuelUnitCost ->
  _ship this = Some ship ->
  forall trades,
    goodsLoop enum this currentLocation localMarket destination marketplace trades
    = JS.Normal (trades ++ flat_map (offer enum ship currentLocation localMarket
                                           fuelUnitCost destination) marketplace).
Proof.
  intros Hc Hs. induction marketplace as [|destinationGood rest IH]; intro trades.
  - cbn. rewrite app_nil_r. reflexivity.
  - cbn [goodsLoop flat_map]. unfold offer at 1.
    destruct (find _ localMarket) as [localGood|]; [|apply IH].
    destruct (JS.gtb (IGood.quantityAvailable localGood) 0); [|apply IH].
    rewrite Hc, Hs. cbn [JS.deref JS.bindC andb]. cbv zeta.
    destruct (JS.gtPerRoot _ _); [|apply IH].
    rewrite IH, <- app_assoc. reflexivity.
Qed.

(** The [i] loop pushes the offers of the locations. *)
Lemma locationsLoop_offers (enum : ShipClass.t) (this : t) (ship : IShip.t)
      (fuelUnitCost : option Q) (currentLocation : ILocation.t) (localMarket : list IGood.t)
      (locations : list ILocation.t) :
  getCurrentFuelUnitCost this = JS.Normal fuelUnitCost ->
  _ship this = Some ship ->
  forall trades,
    locationsLoop enum this currentLocation localMarket locations trades
    = JS.Normal (trades ++ offers enum ship currentLocation localMarket fuelUnitCost locations).
Proof.
  intros Hc Hs. unfold offers. induction locations as [|destination rest IH]; intro trades.
  - cbn. rewrite app_nil_r. reflexivity.
  - cbn [locationsLoop flat_map]. unfold offersAt at 1.
    destruct (String.eqb _ _); [apply IH|].
    destruct (ILocation.marketplace destination) as [[|g gs]|]; try apply IH.
    rewrite (goodsLoop_offers enum this ship fuelUnitCost) by assumption.
    cbn [JS.bindC]. rewrite IH, <- app_assoc. reflexivity.
Qed.

(** [sortTradeOptions] where the cached location is the ship's. *)
Lemma sortTradeOptions_closed (enum : ShipClass.t) (this : t) (locations : list ILocation.t)
      (ship : IShip.t) (l : ILocation.t) (marketplace : list IGood.t) :
  _locations this = Some locations ->
  _ship this = Some ship ->
  _currentLocation this = Some l ->
  shipLocation ship locations = Some l ->
  ILocation.marketplace l = Some marketplace ->
  sortTradeOptions enum this
  = (set_tradeOptions (rankedAt enum locations ship l marketplace (_tradeOptions this)) this,
     JS.Normal tt).
Proof.
  intros Hl Hs Hc Hf Hm. unfold sortTradeOptions, bind, reading, assign, ret.
  rewrite Hc. cbn [JS.deref]. rewrite Hm.
  destruct marketplace as [|g gs].
  - cbn [rankedAt]. destruct this; reflexivity.
  - rewrite Hl. cbn [JS.deref JS.bindC].
    rewrite (locationsLoop_offers enum this ship (fuelUnitCostAt (g :: gs))); [reflexivity| |exact Hs].
    rewrite (getCurrentFuelUnitCost_find this locations ship Hl Hs), Hf, Hm. reflexivity.
Qed.

(** The constructor in one step. *)
Lemma constructor_closed (enum : ShipClass.t) (locations : list ILocation.t) (ship : IShip.t) :
  constructor enum locations ship
  = match shipLocation ship locations with
    | Some l =>
        match ILocation.marketplace l with
        | Some marketplace =>
            JS.Normal (engineOf locations ship l marketplace
                         (rankedAt enum locations ship l marketplace None))
        | None => JS.Throw JS.TypeError
        end
    | None => JS.Throw JS.TypeError
    end.
Proof.
  rewrite constructor_unfold. unfold updateShipData, bind. cbn [assign].
  rewrite (setProperties_closed _ locations ship) by reflexivity.
  destruct (shipLocation ship locations) as [l|] eqn:Ef; [|reflexivity].
  destruct (ILocation.marketplace l) as [marketplace|] eqn:Em; [|reflexivity].
  cbn [reading _initialized set_currentFuelUnitCost set_currentMarketplace
       set_currentLocation set_ship set_locations blank ret].
  rewrite (sortTradeOptions_closed enum _ locations ship l marketplace)
    by (try reflexivity; assumption).
  reflexivity.
Qed.

(** [updateShipData] on an initialized engine in one step. *)
Lemma updateShipData_closed (enum : ShipClass.t) (ship : IShip.t) (this : t)
      (locations : list ILocation.t) :
  _initialized this = true ->
  _locations this = Some locations ->
  updateShipData enum ship this
  = match shipLocation ship locations with
    | Some l =>
        match ILocation.marketplace l with
        | Some marketplace =>
            (engineOf locations ship l marketplace
               (rankedAt enum locations ship l marketplace (_tradeOptions this)),
             JS.Normal tt)
        | None => (adrift (Some l) (set_ship (Some ship) this), JS.Throw JS.TypeError)
        end
    | None => (adrift None (set_ship (Some ship) this), JS.Throw JS.TypeError)
    end.
Proof.
  intros Hi Hl. unfold updateShipData, bind. cbn [assign].
  rewrite (setProperties_closed _ locations ship) by (try reflexivity; exact Hl).
  destruct (shipLocation ship locations) as [l|] eqn:Ef; [|reflexivity].
  destruct (ILocation.marketplace l) as [marketplace|] eqn:Em; [|reflexivity].
  cbn [reading _initialized set_currentFuelUnitCost set_currentMarketplace
       set_currentLocation set_ship]. rewrite Hi.
  rewrite (sortTradeOptions_closed enum _ locations ship l marketplace)
    by (try reflexivity; assumption).
  cbn [_tradeOptions set_currentFuelUnitCost set_currentMarketplace
       set_currentLocation set_ship].
  destruct this; cbn in Hi, Hl |- *; subst; reflexivity.
Qed.

(** [updateLocationsData] on an initialized engine in one step. *)
Lemma updateLocationsData_closed (enum : ShipClass.t) (locations : list ILocation.t)
      (this : t) (ship : IShip.t) :
  _initialized this = true ->
  _ship this = Some ship ->
  updateLocationsData enum locations this
  = match shipLocation ship locations with
    | Some l =>
        match ILocation.marketplace l with
        | Some marketplace =>
            (engineOf locations ship l marketplace
               (rankedAt enum locations ship l marketplace (_tradeOptions this)),
             JS.Normal tt)
        | None => (adrift (Some l) (set_locations (Some locations) this),
                   JS.Throw JS.TypeError)
        end
    | None => (adrift None (set_locations (Some locations) this), JS.Throw JS.TypeError)
    end.
Proof.
  intros Hi Hs. unfold updateLocationsData. unfold bind at 1 2. cbn [assign reading].
  cbn [_initialized set_locations]. rewrite Hi. unfold bind.
  rewrite (setProperties_closed _ locations ship) by (try reflexivity; exact Hs).
  destruct (shipLocation ship locations) as [l|] eqn:Ef; [|reflexivity].
  destruct (ILocation.marketplace l) as [marketplace|] eqn:Em; [|reflexivity].
  rewrite (sortTradeOptions_closed enum _ locations ship l marketplace)
    by (try reflexivity; assumption).
  cbn [_tradeOptions set_currentFuelUnitCost set_currentMarketplace
       set_currentLocation set_locations].
  destruct this; cbn in Hi, Hs |- *; subst; reflexivity.
Qed.

(* ================================================================= *)
(** ** What a new engine ranks *)

Lemma offer_listed (enum : ShipClass.t) (ship : IShip.t) (currentLocation : ILocation.t)
      (localMarket : list IGood.t) (fuelUnitCost : option Q)
      (destination : ILocation.t) (destinationGood : IGood.t) (o : ITradeOption.t) :
  In o (offer enum ship currentLocation localMarket fuelUnitCost destination destinationGood)
  <-> ITrade.destination (ITradeOption.trade o) = destination /\
      ITrade.destinationGood (ITradeOption.trade o) = destinationGood /\
      find (fun g => String.eqb (IGood.symbol g) (IGood.symbol destinationGood)) localMarket
      = Some (ITrade.localGood (ITradeOption.trade o)) /\
      0 < IGood.quantityAvailable (ITrade.localGood (ITradeOption.trade o)) /\
      ITradeOption.profitPerDU o
      = Mentat.calculateProfitPerDU enum destinationGood
          (ITrade.localGood (ITradeOption.trade o)) ship currentLocation destination
          fuelUnitCost /\
      JS.gtPerRoot (ITradeOption.profitPerDU o) (JS.ofQ 0) = true.
Proof.
  unfold offer.
  destruct (find _ localMarket) as [localGood|] eqn:Ef.
  - cbv zeta. destruct (JS.gtb (IGood.quantityAvailable localGood) 0) eqn:Eq; cbn [andb].
    + destruct (JS.gtPerRoot _ _) eqn:Ep.
      * split.
        -- intros [<-|[]]. cbn. apply gtb_lt in Eq. repeat split; assumption.
        -- intros (H1 & H2 & H3 & H4 & H5 & H6). left.
           destruct o as [[d lg dg] p]. cbn in *. inversion H3. subst. reflexivity.
      * split; [intros []|].
        intros (H1 & H2 & H3 & H4 & H5 & H6). inversion H3. subst.
        rewrite H5 in H6. congruence.
    + split; [intros []|].
      intros (H1 & H2 & H3 & H4 & H5 & H6). inversion H3. subst.
      apply gtb_lt in H4. congruence.
  - split; [intros []|]. intros (H1 & H2 & H3 & _). discriminate H3.
Qed.

(** The offers are the options [listed]. *)
Lemma offers_listed (enum : ShipClass.t) (ship : IShip.t) (currentLocation : ILocation.t)
      (localMarket : list IGood.t) (locations : list ILocation.t) (o : ITradeOption.t) :
  In o (offers enum ship currentLocation localMarket (fuelUnitCostAt localMarket) locations)
  <-> listed enum ship currentLocation localMarket locations o.
Proof.
  unfold offers, listed. cbv zeta. rewrite in_flat_map. split.
  - intros (destination & Hd & Ho). unfold offersAt in Ho.
    destruct (String.eqb _ _) eqn:Es; [destruct Ho|].
    apply String.eqb_neq in Es.
    destruct (ILocation.marketplace destination) as [marketplace|] eqn:Em; [|destruct Ho].
    apply in_flat_map in Ho. destruct Ho as (destinationGood & Hg & Ho).
    apply offer_listed in Ho. destruct Ho as (H1 & H2 & H3 & H4 & H5 & H6).
    subst destination destinationGood.
    split; [exact Hd|]. split; [exact Es|]. split.
    { exists marketplace. split; assumption. }
    split; [exact H3|]. split; [exact H4|]. split; assumption.
  - intros (Hd & Hs & (marketplace & Hm & Hg) & H3 & H4 & H5 & H6).
    exists (ITrade.destination (ITradeOption.trade o)). split; [exact Hd|].
    unfold offersAt. apply String.eqb_neq in Hs. rewrite Hs, Hm.
    apply in_flat_map. exists (ITrade.destinationGood (ITradeOption.trade o)).
    split; [exact Hg|]. apply offer_listed. repeat split; assumption.
Qed.

(** X10.  [new Navigator(locations, ship)] returns an engine exactly when one
    of the locations bears the symbol in [ship.location] and the first such
    location has a marketplace, be it an empty one.  Otherwise it throws,
    and what it throws is a TypeError. *)
Theorem constructor_needs_marketplace (enum : ShipClass.t) (locations : list ILocation.t)
        (ship : IShip.t) :
  ((exists this, constructor enum locations ship = JS.Normal this)
   <-> (exists l marketplace,
           shipLocation ship locations = Some l /\
           ILocation.marketplace l = Some marketplace))
  /\ (forall e, constructor enum locations ship = JS.Throw e -> e = JS.TypeError).
Proof.
  rewrite constructor_closed.
  destruct (shipLocation ship locations) as [l|].
  - destruct (ILocation.marketplace l) as [marketplace|] eqn:Em.
    + split; [|intros e H; discriminate H]. split.
      * intros _. exists l, marketplace. split; [reflexivity|exact Em].
      * intros _. eexists. reflexivity.
    + split; [|intros e H; inversion H; reflexivity]. split.
      * intros [this H]. discriminate H.
      * intros (l0 & m & H1 & H2). inversion H1. subst. congruence.
  - split; [|intros e H; inversion H; reflexivity]. split.
    + intros [this H]. discriminate H.
    + intros (l0 & m & H1 & _). discriminate H1.
Qed.

(** X11.  A new engine at a location whose marketplace is not empty ranks
    exactly the options [listed]: the destination is one of the locations
    and bears another symbol than the current location; the destination
    good is on its marketplace; the local good is the first good of the
    local marketplace with the same symbol, and more than 0 of it is
    available; the profit per distance unit is [calculateProfitPerDU] of
    these with the local fuel unit cost, and it is greater than 0.  No
    option stands before one with a strictly greater profit per distance
    unit. *)
Theorem constructor_ranks_listed (enum : ShipClass.t) (locations : list ILocation.t)
        (ship : IShip.t) (this : t) (l : ILocation.t) (localMarket : list IGood.t) :
  constructor enum locations ship = JS.Normal this ->
  currentLocation this = Some l ->
  ILocation.marketplace l = Some localMarket ->
  localMarket <> [] ->
  exists ranked,
    tradeOptions this = Some ranked /\
    descending ITradeOption.profitPerDU ranked /\
    forall o, In o ranked <-> listed enum ship l localMarket locations o.
Proof.
  rewrite constructor_closed. intros H Hc Hm Hne.
  destruct (shipLocation ship locations) as [l0|]; [|discriminate H].
  destruct (ILocation.marketplace l0) as [m0|] eqn:Em0; [|discriminate H].
  inversion H. subst this. clear H.
  cbn in Hc. inversion Hc. subst l0. rewrite Em0 in Hm. inversion Hm. subst m0.
  destruct localMarket as [|g gs]; [contradiction|].
  eexists. split; [reflexivity|].
  pose proof (sortByKey_permutation ITradeOption.profitPerDU
                (offers enum ship l (g :: gs) (fuelUnitCostAt (g :: gs)) locations)) as Hp.
  split; [apply sortByKey_descending|].
  intro o. rewrite <- offers_listed. split; intro Hin.
  - eapply Permutation_in; [symmetry; exact Hp|exact Hin].
  - eapply Permutation_in; [exact Hp|exact Hin].
Qed.

(* ================================================================= *)
(** ** The cached properties stay in step with the locations and the ship *)

Lemma engineOf_inSync (locations : list ILocation.t) (ship : IShip.t) (l : ILocation.t)
      (marketplace : list IGood.t) (ranked : option (list ITradeOption.t)) :
  shipLocation ship locations = Some l ->
  ILocation.marketplace l = Some marketplace ->
  inSync (engineOf locations ship l marketplace ranked).
Proof.
  intros Hf Hm. exists locations, ship. unfold currentLocation, currentMarketplace,
    currentFuelUnitCost. cbn. rewrite Hf, Hm.
  repeat split. intros m E. inversion E. reflexivity.
Qed.

Lemma adrift_inSync (this : t) (locations : list ILocation.t) (ship : IShip.t) :
  _initialized this = true ->
  _locations this = Some locations ->
  _ship this = Some ship ->
  match shipLocation ship locations with
  | Some l => ILocation.marketplace l = None
  | None => True
  end ->
  inSync (adrift (shipLocation ship locations) this).
Proof.
  intros Hi Hl Hs Hm. exists locations, ship.
  unfold currentLocation, currentMarketplace, currentFuelUnitCost. cbn.
  split; [exact Hi|]. split; [exact Hl|]. split; [exact Hs|]. split; [reflexivity|].
  split.
  - destruct (shipLocation ship locations); [symmetry; exact Hm|reflexivity].
  - intros m E. discriminate E.
Qed.

Lemma constructor_inSync (enum : ShipClass.t) (locations : list ILocation.t) (ship : IShip.t)
      (this : t) :
  constructor enum locations ship = JS.Normal this -> inSync this.
Proof.
  rewrite constructor_closed.
  destruct (shipLocation ship locations) as [l|] eqn:Ef; [|intro H; discriminate H].
  destruct (ILocation.marketplace l) as [m|] eqn:Em; intro H; inversion H.
  apply engineOf_inSync; assumption.
Qed.

Lemma updateShipData_inSync (enum : ShipClass.t) (ship : IShip.t) (this this' : t)
      (c : JS.Completion unit) :
  inSync this -> updateShipData enum ship this = (this', c) -> inSync this'.
Proof.
  intros (locations & ship0 & Hi & Hl & _).
  rewrite (updateShipData_closed enum ship this locations Hi Hl).
  destruct (shipLocation ship locations) as [l|] eqn:Ef.
  - destruct (ILocation.marketplace l) as [m|] eqn:Em; intro H; inversion H.
    + apply engineOf_inSync; assumption.
    + rewrite <- Ef. apply (adrift_inSync _ locations ship); try assumption; try reflexivity.
      rewrite Ef. exact Em.
  - intro H. inversion H. rewrite <- Ef.
    apply (adrift_inSync _ locations ship); try assumption; try reflexivity.
    rewrite Ef. exact I.
Qed.

Lemma updateLocationsData_inSync (enum : ShipClass.t) (locations : list ILocation.t)
      (this this' : t) (c : JS.Completion unit) :
  inSync this -> updateLocationsData enum locations this = (this', c) -> inSync this'.
Proof.
  intros (locations0 & ship & Hi & _ & Hs & _).
  rewrite (updateLocationsData_closed enum locations this ship Hi Hs).
  destruct (shipLocation ship locations) as [l|] eqn:Ef.
  - destruct (ILocation.marketplace l) as [m|] eqn:Em; intro H; inversion H.
    + apply engineOf_inSync; assumption.
    + rewrite <- Ef. apply (adrift_inSync _ locations ship); try assumption; try reflexivity.
      rewrite Ef. exact Em.
  - intro H. inversion H. rewrite <- Ef.
    apply (adrift_inSync _ locations ship); try assumption; try reflexivity.
    rewrite Ef. exact I.
Qed.

Lemma navigate_inSync (enum : ShipClass.t) (params : option INavigationParameters.t)
      (strict : bool) (this this' : t) (c : JS.Completion (option ITradeRoute.t)) :
  inSync this -> navigate enum params strict this = (this', c) -> inSync this'.
Proof.
  intros Hs H. apply navigate_frame in H. destruct H as [Hsame _].
  rewrite Hsame. destruct Hs as (locations & ship & H).
  exists locations, ship. exact H.
Qed.

(** Every engine a caller can hold is in step. *)
Lemma reachable_settled (P : ILocation.t -> Prop) (enum : ShipClass.t) (this : t) :
  reachable P enum this -> inSync this.
Proof.
  induction 1 as [locations ship this Hl Hc
                 |locations this this' c Hr IH Hl Hu
                 |ship this this' c Hr IH Hu
                 |params strict this this' c Hr IH Hn].
  - eapply constructor_inSync, Hc.
  - eapply updateLocationsData_inSync; eassumption.
  - eapply updateShipData_inSync; eassumption.
  - eapply navigate_inSync; eassumption.
Qed.

(** X12.  Whatever a caller has done with an engine, updates that threw
    included: the current location is the first location that bears the
    symbol in [ship.location], [null] when there is none; the current
    marketplace is that location's; and where there is a current
    marketplace, the current fuel unit cost is the purchase price of its
    first FUEL good, [null] when it lists none. *)
Theorem reachable_in_sync (P : ILocation.t -> Prop) (enum : ShipClass.t) (this : t) :
  reachable P enum this ->
  exists (locations : list ILocation.t) (ship : IShip.t),
    _locations this = Some locations /\
    _ship this = Some ship /\
    currentLocation this
    = find (fun l => String.eqb (IShip.location ship) (ILocation.symbol l)) locations /\
    currentMarketplace this
    = match currentLocation this with
      | Some l => ILocation.marketplace l
      | None => None
      end /\
    forall marketplace,
      currentMarketplace this = Some marketplace ->
      currentFuelUnitCost this
      = option_map IGood.purchasePricePerUnit
          (find (fun g => String.eqb (IGood.symbol g) "FUEL") marketplace).
Proof.
  intro H. apply reachable_settled in H.
  destruct H as (locations & ship & Hi & Hl & Hs & Hc & Hm & Hf).
  exists locations, ship. split; [exact Hl|]. split; [exact Hs|].
  split; [exact Hc|]. split; [rewrite Hc; exact Hm|exact Hf].
Qed.

(* ================================================================= *)
(** ** An update is a rebuild *)

(** X13.  [updateShipData(ship)] on an engine a caller holds leaves the very
    engine that [new Navigator(locations, ship)] builds from the engine's
    locations; only where that new engine has no ranked list, the ship
    being at an empty marketplace, the previous list stays.  Where the
    constructor throws, the update throws the same: the ship is stored,
    there is no current marketplace and the ranked list is the previous
    one. *)
Theorem updateShipData_rebuilds (P : ILocation.t -> Prop) (enum : ShipClass.t) (this : t)
        (locations : list ILocation.t) (ship : IShip.t) :
  reachable P enum this ->
  _locations this = Some locations ->
  match constructor enum locations ship with
  | JS.Normal fresh =>
      updateShipData enum ship this
      = (match tradeOptions fresh with
         | Some _ => fresh
         | None => set_tradeOptions (tradeOptions this) fresh
         end, JS.Normal tt)
  | JS.Throw e =>
      exists this',
        updateShipData enum ship this = (this', JS.Throw e) /\
        _ship this' = Some ship /\
        currentMarketplace this' = None /\
        tradeOptions this' = tradeOptions this
  end.
Proof.
  intros Hr Hl. apply reachable_settled in Hr. destruct Hr as (locations0 & ship0 & Hi & _).
  rewrite constructor_closed, (updateShipData_closed enum ship this locations Hi Hl).
  destruct (shipLocation ship locations) as [l|].
  - destruct (ILocation.marketplace l) as [[|g gs]|].
    + reflexivity.
    + reflexivity.
    + eexists. split; [reflexivity|]. repeat split.
  - eexists. split; [reflexivity|]. repeat split.
Qed.

(** X14.  [updateLocationsData(locations)] on an engine a caller holds leaves
    the very engine that [new Navigator(locations, ship)] builds with the
    engine's ship; only where that new engine has no ranked list the
    previous list stays.  Where the constructor throws, the update throws
    the same: the locations are stored, there is no current marketplace
    and the ranked list is the previous one. *)
Theorem updateLocationsData_rebuilds (P : ILocation.t -> Prop) (enum : ShipClass.t) (this : t)
        (locations : list ILocation.t) (ship : IShip.t) :
  reachable P enum this ->
  _ship this = Some ship ->
  match constructor enum locations ship with
  | JS.Normal fresh =>
      updateLocationsData enum locations this
      = (match tradeOptions fresh with
         | Some _ => fresh
         | None => set_tradeOptions (tradeOptions this) fresh
         end, JS.Normal tt)
  | JS.Throw e =>
      exists this',
        updateLocationsData enum locations this = (this', JS.Throw e) /\
        _locations this' = Some locations /\
        currentMarketplace this' = None /\
        tradeOptions this' = tradeOptions this
  end.
Proof.
  intros Hr Hs. apply reachable_settled in Hr. destruct Hr as (locations0 & ship0 & Hi & _).
  rewrite constructor_closed, (updateLocationsData_closed enum locations this ship Hi Hs).
  destruct (shipLocation ship locations) as [l|].
  - destruct (ILocation.marketplace l) as [[|g gs]|].
    + reflexivity.
    + reflexivity.
    + eexists. split; [reflexivity|]. repeat split.
  - eexists. split; [reflexivity|]. repeat split.
Qed.

(* ================================================================= *)
(** ** The first loop on a list *)

(** What the first loop takes out fails the test; what it finds passes the
    test and stays in the list. *)
Lemma examine_shape (ok : ITradeOption.t -> bool) (n : nat) :
  forall arr, (List.length arr <= n)%nat ->
    exists dropped,
      Permutation arr (dropped ++ fst (examine ok arr)) /\
      Forall (fun o => ok o = false) dropped /\
      (forall o, snd (examine ok arr) = Some o ->
                 In o (fst (examine ok arr)) /\ ok o = true).
Proof.
  induction n as [|n IH]; intros arr Hn.
  - destruct arr; [|cbn in Hn; lia]. exists []. cbn.
    split; [reflexivity|]. split; [constructor|]. intros o H. discriminate H.
  - destruct arr as [|candidate rest].
    { exists []. cbn. split; [reflexivity|]. split; [constructor|].
      intros o H. discriminate H. }
    cbn [examine]. destruct (ok candidate) eqn:Ek.
    + exists []. cbn [fst snd app]. split; [reflexivity|]. split; [constructor|].
      intros o H. inversion H. subst o. split; [left; reflexivity|exact Ek].
    + destruct rest as [|passedOver rest'].
      * exists [candidate]. cbn [fst snd app]. split; [reflexivity|].
        split; [constructor; [exact Ek|constructor]|].
        intros o H. discriminate H.
      * destruct (IH rest') as (dropped & Hp & Hd & Hf); [cbn in Hn; lia|].
        destruct (examine ok rest') as [kept found]. cbn [fst snd] in *.
        exists (candidate :: dropped). split; [|split].
        -- cbn [app]. apply perm_skip.
           rewrite Hp. apply Permutation_middle.
        -- constructor; assumption.
        -- intros o H. destruct (Hf o H) as [Hin Hok].
           split; [right; exact Hin|exact Hok].
Qed.

(** The two fuel checks. *)
Lemma canRefuel_true (marketplace : list IGood.t) (ship : IShip.t) (refuel : Refuel) :
  canRefuel marketplace ship refuel = true
  <-> fuelQuantity refuel <= Spec.availableFuel marketplace /\
      fuelQuantity refuel <= IShip.spaceAvailable ship.
Proof.
  unfold canRefuel. rewrite andb_true_iff, !negb_true_iff, gtb_le, ltb_ge.
  rewrite localFuel_available. reflexivity.
Qed.

(* ================================================================= *)
(** ** [navigate] in closed form *)

(** The first loop and the cargo assembly in one step, on an engine with a
    ship, a current location and a current marketplace. *)
Lemma plotRoute_closed (enum : ShipClass.t) (params : INavigationParameters.t) (strict : bool)
      (trades : TradesRef) (this : t) (arr : list ITradeOption.t)
      (ship : IShip.t) (l : ILocation.t) (m : list IGood.t) :
  _ship this = Some ship ->
  _currentLocation this = Some l ->
  _currentMarketplace this = Some m ->
  arrayOf trades this = Some arr ->
  let ok := fun o => canRefuel m ship (refuelFor enum params ship l o) in
  plotRoute enum params strict trades this
  = (commit trades (fst (examine ok arr)) this,
     match snd (examine ok arr) with
     | Some o => JS.Normal (Some (routeFor ship (refuelFor enum params ship l o)
                                    (fst (examine ok arr))))
     | None => if strict then JS.Throw (JS.Error NoFeasibleFuelPlan) else JS.Normal None
     end).
Proof.
  intros Hs Hc Hm Ha ok. unfold plotRoute. unfold bind at 1.
  rewrite readTrades_arrayOf, Ha. cbn [JS.deref]. unfold bind at 1.
  pose proof (fuelScan_examine enum params ship l m (List.length arr) trades this [] arr
                Hs Hc Hm Ha (Nat.le_refl _)) as H.
  cbn [List.length app] in H. cbv zeta in H. fold ok in H. rewrite H. clear H.
  destruct (examine ok arr) as [kept found]. cbn [fst snd].
  destruct found as [o|]; cbn [option_map].
  - unfold bind. rewrite readTrades_arrayOf.
    assert (Ha' : arrayOf (rebind trades kept) (commit trades kept this) = Some kept)
      by (destruct trades; reflexivity).
    rewrite Ha'. cbn [JS.deref]. unfold reading.
    assert (Hs' : _ship (commit trades kept this) = Some ship)
      by (destruct trades; exact Hs).
    rewrite Hs'. reflexivity.
  - unfold giveUp, throw, ret. destruct strict; reflexivity.
Qed.

(** Without one of them the first iteration throws. *)
Lemma plotRoute_adrift (enum : ShipClass.t) (params : INavigationParameters.t) (strict : bool)
      (trades : TradesRef) (this : t) (o : ITradeOption.t) (arr : list ITradeOption.t) :
  arrayOf trades this = Some (o :: arr) ->
  _currentLocation this = None \/ _ship this = None \/ _currentMarketplace this = None ->
  plotRoute enum params strict trades this = (this, JS.Throw JS.TypeError).
Proof.
  intros Ha H. unfold plotRoute. unfold bind at 1.
  rewrite readTrades_arrayOf, Ha. cbn [JS.deref List.length fuelScan].
  unfold bind. rewrite readTrades_arrayOf, Ha. cbn [JS.deref nth_error]. unfold reading.
  destruct (_currentLocation this); [|reflexivity].
  destruct (_ship this); [|reflexivity].
  destruct (_currentMarketplace this); [|reflexivity].
  destruct H as [H|[H|H]]; discriminate H.
Qed.

(* ================================================================= *)
(** ** Strict and lenient mode *)

(** The two modes from the first loop on. *)
Lemma plotRoute_strict (enum : ShipClass.t) (params : INavigationParameters.t)
      (trades : TradesRef) (this : t) :
  match plotRoute enum params false trades this with
  | (this', JS.Normal (Some route)) =>
      plotRoute enum params true trades this = (this', JS.Normal (Some route))
  | (this', JS.Normal None) =>
      plotRoute enum params true trades this
      = (this', JS.Throw (JS.Error NoFeasibleFuelPlan))
  | (this', JS.Throw e) =>
      e = JS.TypeError /\ plotRoute enum params true trades this = (this', JS.Throw e)
  end.
Proof.
  unfold plotRoute, bind. rewrite !readTrades_arrayOf.
  destruct (arrayOf trades this) as [arr|]; cbn [JS.deref]; [|split; reflexivity].
  destruct (fuelScan enum (List.length arr) params 0 trades this)
    as [this1 [[trades1 found]|e]] eqn:Es.
  - destruct found as [refuel|].
    + rewrite !readTrades_arrayOf.
      destruct (arrayOf trades1 this1) as [arr1|]; cbn [JS.deref]; [|split; reflexivity].
      unfold reading. destruct (_ship this1); cbn [JS.deref]; [reflexivity|split; reflexivity].
    + reflexivity.
  - split; [|reflexivity].
    revert Es. generalize 0%nat. generalize trades. generalize this.
    induction (List.length arr) as [|gas IH]; intros this0 trades0 i Es.
    + discriminate Es.
    + cbn [fuelScan] in Es. unfold bind in Es. rewrite readTrades_arrayOf in Es.
      destruct (arrayOf trades0 this0) as [arr0|]; cbn [JS.deref] in Es;
        [|inversion Es; reflexivity].
      destruct (nth_error arr0 i); [|discriminate Es].
      unfold reading in Es.
      destruct (_currentLocation this0); cbn [JS.deref] in Es; [|inversion Es; reflexivity].
      destruct (_ship this0); cbn [JS.deref] in Es; [|inversion Es; reflexivity].
      destruct (_currentMarketplace this0); cbn [JS.deref] in Es;
        [|inversion Es; reflexivity].
      cbv zeta in Es.
      assert (Hnext : match splice1 i trades0 this0 with
                      | (this', JS.Normal a) => fuelScan enum gas params (S i) a this'
                      | (this', JS.Throw e) => (this', JS.Throw e)
                      end = (this1, JS.Throw e) -> e = JS.TypeError).
      { destruct (splice1 i trades0 this0) as [this2 [trades2|e2]] eqn:E2; intro K.
        - eapply IH, K.
        - inversion K. subst. destruct trades0; cbn [splice1] in E2.
          + unfold bind, readTrades, reading, assign, ret in E2.
            destruct (_tradeOptions this0); cbn [JS.deref] in E2; inversion E2. reflexivity.
          + inversion E2. }
      destruct (JS.gtb _ _); [exact (Hnext Es)|].
      destruct (JS.ltb _ _); [exact (Hnext Es)|discriminate Es].
Qed.

(** [navigate] up to the first loop, case by case. *)
Lemma navigate_cases (enum : ShipClass.t) (params : option INavigationParameters.t)
      (strict : bool) (this : t) :
  navigate enum params strict this
  = match _tradeOptions this with
    | None => (this, JS.Throw JS.TypeError)
    | Some [] => giveUp strict NoProfitableTrade this
    | Some (o :: arr) =>
        match INavigationParameters.range (inForce params) with
        | Some range =>
            if JS.truthy range then
              match _ship this with
              | None => (this, JS.Throw JS.TypeError)
              | Some ship =>
                  match filter (fun tradeOption =>
                                  Mentat.validateRange ship range
                                    (ITrade.destination (ITradeOption.trade tradeOption)))
                               (o :: arr) with
                  | [] => giveUp strict NoTradeInRange this
                  | o' :: filtered =>
                      plotRoute enum (inForce params) strict (OwnArray (o' :: filtered)) this
                  end
              end
            else plotRoute enum (inForce params) strict ThisTradeOptions this
        | None => plotRoute enum (inForce params) strict ThisTradeOptions this
        end
    end.
Proof.
  unfold navigate. fold (inForce params). unfold bind at 1. cbn [readTrades].
  unfold reading at 1.
  destruct (_tradeOptions this) as [[|o arr]|]; cbn [JS.deref]; try reflexivity.
  destruct (INavigationParameters.range (inForce params)) as [range|]; [|reflexivity].
  destruct (JS.truthy range); [|reflexivity].
  unfold bind, reading. destruct (_ship this); cbn [JS.deref]; [|reflexivity].
  destruct (filter _ (o :: arr)); reflexivity.
Qed.

(** X15.  Strict mode differs from lenient mode in one thing: where the
    lenient call returns nothing, the strict call throws an [Error] with
    one of the three messages.  A route is the same route, the engine is
    left in the same state, and a lenient call throws nothing but a
    TypeError, which the strict call throws as well. *)
Theorem navigate_strict_lenient (enum : ShipClass.t)
        (params : option INavigationParameters.t) (this : t) :
  match navigate enum params false this with
  | (this', JS.Normal (Some route)) =>
      navigate enum params true this = (this', JS.Normal (Some route))
  | (this', JS.Normal None) =>
      exists message,
        In message [NoProfitableTrade; NoTradeInRange; NoFeasibleFuelPlan] /\
        navigate enum params true this = (this', JS.Throw (JS.Error message))
  | (this', JS.Throw e) =>
      e = JS.TypeError /\ navigate enum params true this = (this', JS.Throw e)
  end.
Proof.
  assert (Hplot : forall p trades,
             match plotRoute enum p false trades this with
             | (this', JS.Normal (Some route)) =>
                 plotRoute enum p true trades this = (this', JS.Normal (Some route))
             | (this', JS.Normal None) =>
                 exists message,
                   In message [NoProfitableTrade; NoTradeInRange; NoFeasibleFuelPlan] /\
                   plotRoute enum p true trades this = (this', JS.Throw (JS.Error message))
             | (this', JS.Throw e) =>
                 e = JS.TypeError /\ plotRoute enum p true trades this = (this', JS.Throw e)
             end).
  { intros p trades. pose proof (plotRoute_strict enum p trades this) as H.
    destruct (plotRoute enum p false trades this) as [this' [[route|]|e]]; [exact H| |exact H].
    exists NoFeasibleFuelPlan. split; [right; right; left; reflexivity|exact H]. }
  rewrite !navigate_cases.
  destruct (_tradeOptions this) as [[|o arr]|].
  - exists NoProfitableTrade. split; [left; reflexivity|reflexivity].
  - destruct (INavigationParameters.range _) as [range|]; [|apply Hplot].
    destruct (JS.truthy range); [|apply Hplot].
    destruct (_ship this) as [ship|].
    + destruct (filter _ _) as [|o' filtered]; [|apply Hplot].
      exists NoTradeInRange. split; [right; left; reflexivity|reflexivity].
    + split; reflexivity.
  - split; reflexivity.
Qed.

Lemma candidates_incl (params : INavigationParameters.t) (ship : IShip.t)
      (ranked : list ITradeOption.t) :
  incl (candidates params ship ranked) ranked.
Proof.
  unfold candidates. destruct (INavigationParameters.range params) as [range|];
    [|apply incl_refl].
  destruct (JS.truthy range); [apply filter_incl|apply incl_refl].
Qed.

Lemma scanRef_arrayOf (params : INavigationParameters.t) (ship : IShip.t) (this : t)
      (ranked : list ITradeOption.t) :
  _tradeOptions this = Some ranked ->
  arrayOf (scanRef params (candidates params ship ranked)) this
  = Some (candidates params ship ranked).
Proof.
  intro Ht. unfold scanRef, candidates.
  destruct (INavigationParameters.range params) as [range|]; [|exact Ht].
  destruct (JS.truthy range); [reflexivity|exact Ht].
Qed.

(** [navigate] on an engine with a ship: nothing to scan, or the first
    loop and the cargo assembly on the candidates. *)
Lemma navigate_scan (enum : ShipClass.t) (params : option INavigationParameters.t)
      (strict : bool) (this : t) (ship : IShip.t) (ranked : list ITradeOption.t) :
  _tradeOptions this = Some ranked ->
  _ship this = Some ship ->
  navigate enum params strict this
  = match ranked with
    | [] => giveUp strict NoProfitableTrade this
    | _ :: _ =>
        match candidates (inForce params) ship ranked with
        | [] => giveUp strict NoTradeInRange this
        | scanned =>
            plotRoute enum (inForce params) strict (scanRef (inForce params) scanned) this
        end
    end.
Proof.
  intros Ht Hs. rewrite navigate_cases, Ht, Hs. unfold candidates, scanRef.
  destruct ranked as [|o arr]; [reflexivity|].
  destruct (INavigationParameters.range (inForce params)) as [range|]; [|reflexivity].
  destruct (JS.truthy range); [|reflexivity].
  destruct (filter _ (o :: arr)); reflexivity.
Qed.

(** [navigate] in one step, on an engine with a ranked list, a ship, a
    current location and a current marketplace. *)
Lemma navigate_closed (enum : ShipClass.t) (params : option INavigationParameters.t)
      (strict : bool) (this : t) (ship : IShip.t) (l : ILocation.t) (m : list IGood.t)
      (ranked : list ITradeOption.t) :
  _tradeOptions this = Some ranked ->
  _ship this = Some ship ->
  _currentLocation this = Some l ->
  _currentMarketplace this = Some m ->
  let p := inForce params in
  let scanned := candidates p ship ranked in
  let ok := fun o => canRefuel m ship (refuelFor enum p ship l o) in
  navigate enum params strict this
  = match ranked with
    | [] => giveUp strict NoProfitableTrade this
    | _ :: _ =>
        match scanned with
        | [] => giveUp strict NoTradeInRange this
        | _ :: _ =>
            (commit (scanRef p scanned) (fst (examine ok scanned)) this,
             match snd (examine ok scanned) with
             | Some o => JS.Normal (Some (routeFor ship (refuelFor enum p ship l o)
                                            (fst (examine ok scanned))))
             | None => if strict then JS.Throw (JS.Error NoFeasibleFuelPlan)
                       else JS.Normal None
             end)
        end
    end.
Proof.
  intros Ht Hs Hc Hm p scanned ok.
  rewrite (navigate_scan enum params strict this ship ranked Ht Hs).
  destruct ranked as [|o arr]; [reflexivity|].
  fold p. fold scanned.
  pose proof (scanRef_arrayOf p ship this (o :: arr) Ht) as Ha. fold scanned in Ha.
  destruct scanned as [|o' scanned'] eqn:Es; [reflexivity|].
  apply (plotRoute_closed enum p strict _ this _ ship l m Hs Hc Hm Ha).
Qed.

(* ================================================================= *)
(** ** The choice of the destination *)

(** X16.  When the first candidate (the best ranked option, among those in
    range if a range is given) needs no more fuel than the market offers
    and than the ship has space for, [navigate] returns a route to its
    destination whose first cargo line is that FUEL, and leaves the engine
    as it is. *)
Theorem navigate_takes_best (enum : ShipClass.t) (params : option INavigationParameters.t)
        (strict : bool) (this : t) (ship : IShip.t) (l : ILocation.t) (m : list IGood.t)
        (ranked : list ITradeOption.t) (best : ITradeOption.t) (rest : list ITradeOption.t) :
  tradeOptions this = Some ranked ->
  _ship this = Some ship ->
  currentLocation this = Some l ->
  currentMarketplace this = Some m ->
  let p := match params with Some p => p | None => defaultParameters end in
  let target := ITrade.destination (ITradeOption.trade best) in
  let fuel :=
    Mentat.calculateFuelQuantity ship (Mentat.calculateFuelToTravel enum ship l target)
      (INavigationParameters.fuelMargin p) in
  candidates p ship ranked = best :: rest ->
  fuel <= Spec.availableFuel m ->
  fuel <= IShip.spaceAvailable ship ->
  exists goods,
    navigate enum params strict this
    = (this, JS.Normal (Some {| ITradeRoute.destination := target;
                                ITradeRoute.cargo :=
                                  {| ICargo.good := "FUEL"; ICargo.quantity := fuel;
                                     ICargo.totalVolume := fuel * 1 |} :: goods |})).
Proof.
  intros Ht Hs Hc Hm p target fuel Hcand Hav Hsp.
  unfold tradeOptions in Ht. unfold currentLocation in Hc. unfold currentMarketplace in Hm.
  rewrite (navigate_closed enum params strict this ship l m ranked Ht Hs Hc Hm).
  cbv zeta. fold (inForce params) in p. fold p. rewrite Hcand.
  destruct ranked as [|o arr].
  { exfalso. pose proof (candidates_incl p ship []) as Hi. rewrite Hcand in Hi.
    apply (Hi best). left. reflexivity. }
  assert (Hok : canRefuel m ship (refuelFor enum p ship l best) = true).
  { apply canRefuel_true. split; assumption. }
  cbn [examine]. rewrite Hok. cbn [fst snd].
  pose proof (scanRef_arrayOf p ship this (o :: arr) Ht) as Ha. rewrite Hcand in Ha.
  rewrite (commit_same _ _ _ Ha).
  eexists. reflexivity.
Qed.

(** X17.  [navigate] takes from the ranked list only options that fail a fuel
    check: the list before the call is the list after it together with
    candidates whose fuel exceeds the FUEL on offer or the ship's space. *)
Theorem navigate_drops_unfuelable (enum : ShipClass.t)
        (params : option INavigationParameters.t) (strict : bool) (this this' : t)
        (c : JS.Completion (option ITradeRoute.t))
        (ship : IShip.t) (l : ILocation.t) (m : list IGood.t) (ranked : list ITradeOption.t) :
  tradeOptions this = Some ranked ->
  _ship this = Some ship ->
  currentLocation this = Some l ->
  currentMarketplace this = Some m ->
  navigate enum params strict this = (this', c) ->
  let p := match params with Some p => p | None => defaultParameters end in
  exists dropped kept,
    tradeOptions this' = Some kept /\
    Permutation ranked (dropped ++ kept) /\
    Forall (fun o => canRefuel m ship (refuelFor enum p ship l o) = false) dropped.
Proof.
  intros Ht Hs Hc Hm H p.
  unfold tradeOptions in *. unfold currentLocation in Hc. unfold currentMarketplace in Hm.
  rewrite (navigate_closed enum params strict this ship l m ranked Ht Hs Hc Hm) in H.
  cbv zeta in H. fold (inForce params) in p. fold p in H.
  assert (Hsame : forall x, (this, x) = (this', c) ->
             exists dropped kept, _tradeOptions this' = Some kept /\
               Permutation ranked (dropped ++ kept) /\
               Forall (fun o => canRefuel m ship (refuelFor enum p ship l o) = false) dropped).
  { intros x K. inversion K. subst. exists [], ranked.
    split; [exact Ht|]. split; [reflexivity|constructor]. }
  destruct ranked as [|o arr].
  { unfold giveUp, throw, ret in H. destruct strict; eapply Hsame, H. }
  destruct (candidates p ship (o :: arr)) as [|o' scanned'] eqn:Ec.
  { unfold giveUp, throw, ret in H. destruct strict; eapply Hsame, H. }
  revert H. unfold scanRef. unfold candidates in Ec.
  set (ok := fun o0 => canRefuel m ship (refuelFor enum p ship l o0)).
  destruct (INavigationParameters.range p) as [range|].
  - destruct (JS.truthy range).
    + cbn [commit]. apply Hsame.
    + subst. cbn [commit]. intro H. inversion H.
      destruct (examine_shape ok _ (o' :: scanned') (Nat.le_refl _)) as (dropped & Hp & Hd & _).
      exists dropped, (fst (examine ok (o' :: scanned'))).
      split; [reflexivity|]. split; [inversion Ec; subst; exact Hp|exact Hd].
  - cbn [commit]. intro H. inversion H.
    destruct (examine_shape ok _ (o' :: scanned') (Nat.le_refl _)) as (dropped & Hp & Hd & _).
    exists dropped, (fst (examine ok (o' :: scanned'))).
    split; [reflexivity|]. split; [inversion Ec; subst; exact Hp|exact Hd].
Qed.

(* ================================================================= *)
(** ** The routes *)

(** The lines of the second loop load the goods of the first options, one
    line each. *)
Lemma fillCargo_loads (trades : list ITradeOption.t) :
  forall remainingSpace : Q,
    exists n : nat, Forall2 loads (fillCargo remainingSpace trades) (firstn n trades).
Proof.
  induction trades as [|o rest IH]; intro remainingSpace.
  - exists 0%nat. constructor.
  - cbn [fillCargo]. destruct (JS.leb remainingSpace 0); [exists 0%nat; constructor|].
    cbv zeta.
    set (localGood := ITrade.localGood (ITradeOption.trade o)).
    set (q0 := Mentat.calculateGoodQuantity remainingSpace (IGood.volumePerUnit localGood)).
    set (q := if JS.gtb q0 (IGood.quantityAvailable localGood)
              then IGood.quantityAvailable localGood else q0).
    destruct (IH (remainingSpace - Mentat.calculateGoodVolume q localGood)) as [n Hn].
    exists (S n). cbn [firstn]. constructor; [|exact Hn].
    unfold loads. cbn. fold localGood. split; [reflexivity|]. split; [|reflexivity].
    unfold q. destruct (JS.gtb q0 (IGood.quantityAvailable localGood)) eqn:E.
    + lra.
    + apply gtb_le, E.
Qed.

(** What a call that returns a route has computed. *)
Lemma navigate_route_closed (enum : ShipClass.t) (params : option INavigationParameters.t)
      (strict : bool) (this this' : t) (route : ITradeRoute.t) :
  navigate enum params strict this = (this', JS.Normal (Some route)) ->
  exists (ranked : list ITradeOption.t) (ship : IShip.t) (l : ILocation.t)
         (m : list IGood.t) (chosen : ITradeOption.t),
    _tradeOptions this = Some ranked /\
    _ship this = Some ship /\
    _currentLocation this = Some l /\
    _currentMarketplace this = Some m /\
    let p := inForce params in
    let scanned := candidates p ship ranked in
    let ok := fun o => canRefuel m ship (refuelFor enum p ship l o) in
    snd (examine ok scanned) = Some chosen /\
    route = routeFor ship (refuelFor enum p ship l chosen) (fst (examine ok scanned)) /\
    this' = commit (scanRef p scanned) (fst (examine ok scanned)) this.
Proof.
  intro H.
  destruct (navigate_route _ _ _ _ _ _ H)
    as (ranked & _ & refuel & ship & Ht & _ & Hf & Hs & _).
  destruct Hf as (ship' & m & _ & Hm & _).
  assert (Hne : forall message, giveUp strict message this <> (this', JS.Normal (Some route))).
  { intros message K. unfold giveUp, throw, ret in K. destruct strict; inversion K. }
  destruct (_currentLocation this) as [l|] eqn:Hc.
  - exists ranked, ship, l, m.
    rewrite (navigate_closed enum params strict this ship l m ranked Ht Hs Hc Hm) in H.
    cbv zeta in H |- *.
    destruct ranked as [|o arr]; [exfalso; eapply Hne, H|].
    destruct (candidates (inForce params) ship (o :: arr)) as [|o' scanned'];
      [exfalso; eapply Hne, H|].
    destruct (snd (examine _ (o' :: scanned'))) as [chosen|] eqn:Ex.
    + exists chosen.
      pose proof (f_equal fst H) as E1. pose proof (f_equal snd H) as E2.
      cbn [fst snd] in E1, E2. injection E2 as E2.
      split; [exact Ht|]. split; [exact Hs|]. split; [reflexivity|]. split; [exact Hm|].
      split; [reflexivity|]. split; [symmetry; exact E2|symmetry; exact E1].
    + destruct strict; inversion H.
  - exfalso. rewrite (navigate_scan enum params strict this ship ranked Ht Hs) in H.
    destruct ranked as [|o arr]; [eapply Hne, H|].
    pose proof (scanRef_arrayOf (inForce params) ship this (o :: arr) Ht) as Ha.
    destruct (candidates (inForce params) ship (o :: arr)) as [|o' scanned'];
      [eapply Hne, H|].
    rewrite (plotRoute_adrift enum _ strict _ this o' scanned' Ha) in H
      by (left; exact Hc).
    inversion H.
Qed.

(** What the first loop finds is one of its candidates. *)
Lemma examine_found (ok : ITradeOption.t -> bool) (arr : list ITradeOption.t)
      (chosen : ITradeOption.t) :
  snd (examine ok arr) = Some chosen ->
  In chosen arr /\ ok chosen = true /\ incl (fst (examine ok arr)) arr.
Proof.
  intro H. destruct (examine_shape ok _ arr (Nat.le_refl _)) as (dropped & Hp & _ & Hf).
  destruct (Hf chosen H) as [Hin Hok].
  assert (Hi : incl (fst (examine ok arr)) arr).
  { intros o Ho. eapply Permutation_in; [symmetry; exact Hp|].
    apply in_or_app. right. exact Ho. }
  split; [apply Hi, Hin|]. split; [exact Hok|exact Hi].
Qed.

(** C9.  A route can hold lines of quantity 0 and volume 0.  In the cargo
    walk, a candidate whose good takes more space per unit than the
    positive space that remains gets a line of quantity 0, and the walk
    goes on with the same space.  The cargo of a route that [navigate]
    returns is the FUEL line followed by all the lines of the walk over
    the candidates that the fuel scan has left and that go to the chosen
    destination, nothing filtered.  With 5 units of space left after 40
    METAL, MACHINERY at 10 per unit gets the line [{MACHINERY, 0, 0}] in
    the route. *)
Theorem zero_quantity_lines :
  (forall (remainingSpace : Q) (tradeOption : ITradeOption.t) (rest : list ITradeOption.t),
      let localGood := ITrade.localGood (ITradeOption.trade tradeOption) in
      0 < remainingSpace ->
      remainingSpace < IGood.volumePerUnit localGood ->
      0 <= IGood.quantityAvailable localGood ->
      exists zeroLine : ICargo.t,
        fillCargo remainingSpace (tradeOption :: rest)
        = zeroLine :: fillCargo remainingSpace rest /\
        ICargo.good zeroLine = IGood.symbol localGood /\
        ICargo.quantity zeroLine = 0 /\
        ICargo.totalVolume zeroLine == 0)
  /\
  (forall (enum : ShipClass.t) (params : option INavigationParameters.t) (strict : bool)
          (this this' : t) (route : ITradeRoute.t),
      navigate enum params strict this = (this', JS.Normal (Some route)) ->
      exists (ranked : list ITradeOption.t) (ship : IShip.t) (l : ILocation.t)
             (m : list IGood.t) (chosen : ITradeOption.t),
        _tradeOptions this = Some ranked /\
        _ship this = Some ship /\
        _currentLocation this = Some l /\
        _currentMarketplace this = Some m /\
        let p := inForce params in
        let scanned := candidates p ship ranked in
        let ok := fun o => canRefuel m ship (refuelFor enum p ship l o) in
        let refuel := refuelFor enum p ship l chosen in
        snd (examine ok scanned) = Some chosen /\
        ITradeRoute.cargo route
        = {| ICargo.good := "FUEL"; ICargo.quantity := fuelQuantity refuel;
             ICargo.totalVolume := fuelVolume refuel |}
          :: fillCargo
               (Mentat.calculateRemainingSpaceAfterRefuel ship (fuelQuantity refuel))
               (filter (fun o => String.eqb
                                   (ILocation.symbol
                                      (ITrade.destination (ITradeOption.trade o)))
                                   (ILocation.symbol (destination refuel)))
                       (fst (examine ok scanned))))
  /\
  (forall enum : ShipClass.t,
      unrecognized enum "JW-MK-I" ->
      exists (this this' : t) (route : ITradeRoute.t),
        constructor enum [locA'; locB'] shipAtA = JS.Normal this /\
        navigate enum None false this = (this', JS.Normal (Some route)) /\
        ITradeRoute.cargo route
        = [line "FUEL" 5 5; line "METAL" 40 40; line "MACHINERY" 0 0]).
Proof.
  split; [exact fillCargo_zero_line|]. split.
  - intros enum params strict this this' route H.
    destruct (navigate_route_closed _ _ _ _ _ _ H)
      as (ranked & ship & l & m & chosen & Ht & Hs & Hl & Hm & Hx).
    cbv zeta in Hx. destruct Hx as (Hx & Hroute & _).
    exists ranked, ship, l, m, chosen.
    split; [exact Ht|]. split; [exact Hs|]. split; [exact Hl|]. split; [exact Hm|].
    cbv zeta. split; [exact Hx|]. rewrite Hroute. reflexivity.
  - intros enum H. do 3 eexists.
    split. { to_classes H. vm_compute. reflexivity. }
    split. { to_classes H. vm_compute. reflexivity. }
    reflexivity.
Qed.

(** X18.  With a range that is not 0, the destination of a returned route
    passes [validateRange] for that range: its distance from the ship's
    coordinates, as [calculateDistance] computes it, is below the range.
    The engine is left as it is. *)
Theorem navigate_within_range (enum : ShipClass.t) (p : INavigationParameters.t)
        (range : Q) (strict : bool) (this this' : t) (route : ITradeRoute.t)
        (ship : IShip.t) :
  INavigationParameters.range p = Some range ->
  JS.truthy range = true ->
  _ship this = Some ship ->
  navigate enum (Some p) strict this = (this', JS.Normal (Some route)) ->
  Mentat.validateRange ship range (ITradeRoute.destination route) = true
  /\ this' = this.
Proof.
  intros Hr Ht Hs H.
  destruct (navigate_route_closed _ _ _ _ _ _ H)
    as (ranked & ship' & l & m & chosen & _ & Hs' & _ & _ & Hx).
  rewrite Hs in Hs'. inversion Hs'. subst ship'. clear Hs'.
  cbv zeta in Hx. cbn [inForce] in Hx. destruct Hx as (Hx & -> & ->).
  apply examine_found in Hx. destruct Hx as (Hin & _ & _).
  unfold scanRef. unfold candidates in Hin |- *. rewrite Hr, Ht in Hin |- *.
  split; [|reflexivity].
  apply filter_In in Hin. destruct Hin as [_ Hv]. exact Hv.
Qed.

(** X19.  In a returned route the destination is that of a ranked option, and
    every cargo line after the FUEL line loads the local good of a ranked
    option whose destination bears the symbol of the route's destination:
    the line names that good, its quantity is at most the quantity
    available, and its total volume is its quantity times the good's
    volume per unit. *)
Theorem navigate_cargo_lines (enum : ShipClass.t) (params : option INavigationParameters.t)
        (strict : bool) (this this' : t) (route : ITradeRoute.t) :
  navigate enum params strict this = (this', JS.Normal (Some route)) ->
  exists (ranked : list ITradeOption.t) (chosen : ITradeOption.t)
         (fuelLine : ICargo.t) (goods : list ICargo.t) (loaded : list ITradeOption.t),
    tradeOptions this = Some ranked /\
    In chosen ranked /\
    ITrade.destination (ITradeOption.trade chosen) = ITradeRoute.destination route /\
    ITradeRoute.cargo route = fuelLine :: goods /\
    Forall2 loads goods loaded /\
    Forall (fun o =>
              In o ranked /\
              ILocation.symbol (ITrade.destination (ITradeOption.trade o))
              = ILocation.symbol (ITradeRoute.destination route)) loaded.
Proof.
  intro H.
  destruct (navigate_route_closed _ _ _ _ _ _ H)
    as (ranked & ship & l & m & chosen & Ht & _ & _ & _ & Hx).
  cbv zeta in Hx. destruct Hx as (Hx & -> & _).
  apply examine_found in Hx. destruct Hx as (Hin & _ & Hkept).
  pose proof (candidates_incl (inForce params) ship ranked) as Hc.
  unfold routeFor. cbn [ITradeRoute.destination ITradeRoute.cargo refuelFor destination].
  set (kept := filter _ _).
  destruct (fillCargo_loads kept
              (Mentat.calculateRemainingSpaceAfterRefuel ship
                 (fuelQuantity (refuelFor enum (inForce params) ship l chosen))))
    as [n Hn].
  exists ranked, chosen. eexists. eexists. exists (firstn n kept).
  split; [exact Ht|]. split; [apply Hc, Hin|]. split; [reflexivity|].
  split; [reflexivity|]. split; [exact Hn|].
  apply Forall_forall. intros o Ho.
  assert (Hk : In o kept).
  { rewrite <- (firstn_skipn n kept). apply in_or_app. left. exact Ho. }
  unfold kept in Hk. apply filter_In in Hk. destruct Hk as [Hk Hsym].
  split; [apply Hc, Hkept, Hk|]. apply String.eqb_eq, Hsym.
Qed.

(* ================================================================= *)
(** ** What [navigate] leaves alone, and when it fails *)

(** X20.  Whether it returns or throws, [navigate] changes no field of the
    engine but the ranked list, and every option of the list it leaves was
    in the list before; with a range that is not 0 it changes nothing. *)
Theorem navigate_only_removes (enum : ShipClass.t) (params : option INavigationParameters.t)
        (strict : bool) (this this' : t) (c : JS.Completion (option ITradeRoute.t)) :
  navigate enum params strict this = (this', c) ->
  this' = set_tradeOptions (tradeOptions this') this
  /\ (forall remaining,
         tradeOptions this' = Some remaining ->
         exists ranked, tradeOptions this = Some ranked /\ incl remaining ranked)
  /\ (forall p range,
         params = Some p -> INavigationParameters.range p = Some range ->
         JS.truthy range = true -> this' = this).
Proof.
  intro H. destruct (navigate_frame _ _ _ _ _ _ H) as [Hs Ho].
  split; [exact Hs|]. split; [exact Ho|].
  intros p range -> Hr Ht. destruct p as [r fm]. cbn in Hr. subst r.
  eapply navigate_in_range_pure; eassumption.
Qed.

(** X21.  On an engine a caller holds, [navigate] throws a TypeError exactly
    when the engine has no ranked list, or has no current marketplace
    while there is a candidate to scan.  A call that throws a TypeError
    leaves the engine as it is. *)
Theorem navigate_type_error (P : ILocation.t -> Prop) (enum : ShipClass.t)
        (params : option INavigationParameters.t) (strict : bool) (this : t) :
  reachable P enum this ->
  let p := match params with Some p => p | None => defaultParameters end in
  ((exists this', navigate enum params strict this = (this', JS.Throw JS.TypeError))
   <-> tradeOptions this = None
       \/ (currentMarketplace this = None /\
           exists ranked ship,
             tradeOptions this = Some ranked /\ _ship this = Some ship /\
             candidates p ship ranked <> []))
  /\ (forall this',
         navigate enum params strict this = (this', JS.Throw JS.TypeError) -> this' = this).
Proof.
  intros Hr p. fold (inForce params) in p.
  apply reachable_settled in Hr.
  destruct Hr as (locations & ship & _ & _ & Hs & Hc & Hm & _).
  unfold tradeOptions, currentMarketplace, currentLocation in *.
  assert (Hgive : forall message this' ,
             giveUp strict message this <> (this', JS.Throw JS.TypeError)).
  { intros message this' K. unfold giveUp, throw, ret in K. destruct strict; inversion K. }
  destruct (_tradeOptions this) as [ranked|] eqn:Ht.
  2:{ rewrite (navigate_without_tradeOptions enum params strict this Ht). split.
      - split; [intros _; left; reflexivity|intros _; exists this; reflexivity].
      - intros this' K. inversion K. reflexivity. }
  rewrite (navigate_scan enum params strict this ship ranked Ht Hs). fold p.
  destruct ranked as [|o arr].
  { split.
    - split.
      + intros [this' K]. exfalso. eapply Hgive, K.
      + intros [K|(_ & ranked & ship' & K1 & K2 & K3)]; [discriminate K|].
        inversion K1. subst ranked. exfalso. apply K3.
        pose proof (candidates_incl p ship' []) as Hi.
        destruct (candidates p ship' []) as [|x xs]; [reflexivity|].
        exfalso. apply (Hi x). left. reflexivity.
    - intros this' K. exfalso. eapply Hgive, K. }
  pose proof (scanRef_arrayOf p ship this (o :: arr) Ht) as Ha.
  destruct (candidates p ship (o :: arr)) as [|o' scanned'] eqn:Ec.
  { split.
    - split.
      + intros [this' K]. exfalso. eapply Hgive, K.
      + intros [K|(_ & ranked & ship' & K1 & K2 & K3)]; [discriminate K|].
        inversion K1. subst ranked. rewrite Hs in K2. inversion K2. subst ship'.
        exfalso. apply K3, Ec.
    - intros this' K. exfalso. eapply Hgive, K. }
  destruct (_currentMarketplace this) as [m|] eqn:Em.
  - destruct (shipLocation ship locations) as [l|]; [|discriminate Hm].
    rewrite (plotRoute_closed enum p strict _ this _ ship l m Hs Hc Em Ha).
    assert (Hnot : forall this',
               (commit (scanRef p (o' :: scanned'))
                       (fst (examine (fun o0 => canRefuel m ship (refuelFor enum p ship l o0))
                                     (o' :: scanned'))) this,
                match snd (examine (fun o0 => canRefuel m ship (refuelFor enum p ship l o0))
                                   (o' :: scanned')) with
                | Some o0 =>
                    JS.Normal (Some (routeFor ship (refuelFor enum p ship l o0)
                                       (fst (examine (fun o1 => canRefuel m ship
                                                                  (refuelFor enum p ship l o1))
                                                     (o' :: scanned')))))
                | None => if strict then JS.Throw (JS.Error NoFeasibleFuelPlan)
                          else JS.Normal None
                end) <> (this', JS.Throw JS.TypeError)).
    { intros this' K. destruct (snd (examine _ _)); [inversion K|].
      destruct strict; inversion K. }
    split.
    + split.
      * intros [this' K]. exfalso. eapply Hnot, K.
      * intros [K|(K & _)]; discriminate K.
    + intros this' K. exfalso. eapply Hnot, K.
  - rewrite (plotRoute_adrift enum p strict _ this o' scanned' Ha)
      by (right; right; exact Em).
    split.
    + split; [|intros _; exists this; reflexivity].
      intros _. right. split; [reflexivity|].
      exists (o :: arr), ship. split; [reflexivity|]. split; [exact Hs|].
      rewrite Ec. discriminate.
    + intros this' K. inversion K. reflexivity.
Qed.

(* ================================================================= *)
(** ** The errors of strict mode, and the FUEL line *)

(** What strict mode throws from the first loop on. *)
Lemma plotRoute_throws (enum : ShipClass.t) (params : INavigationParameters.t)
      (trades : TradesRef) (this this' : t) (e : JS.Exn) :
  plotRoute enum params true trades this = (this', JS.Throw e) ->
  e = JS.TypeError \/ e = JS.Error NoFeasibleFuelPlan.
Proof.
  intro H. pose proof (plotRoute_strict enum params trades this) as K.
  destruct (plotRoute enum params false trades this) as [this1 [[route|]|e1]].
  - rewrite K in H. discriminate H.
  - rewrite K in H. inversion H. right. reflexivity.
  - destruct K as [-> K]. rewrite K in H. inversion H. left. reflexivity.
Qed.

(** No two of the three messages are the same. *)
Lemma messages_differ :
  NoProfitableTrade <> NoTradeInRange /\
  NoProfitableTrade <> NoFeasibleFuelPlan /\
  NoTradeInRange <> NoFeasibleFuelPlan.
Proof.
  repeat split; intro H; apply String.eqb_eq in H; vm_compute in H; discriminate H.
Qed.

(** X22.  In strict mode, on an engine with a ranked list and a ship,
    [navigate] throws the Error [NoProfitableTrade] exactly when the ranked
    list is empty, and the Error [NoTradeInRange] exactly when the list is
    not empty and none of its options is in range; any other Error it
    throws is [NoFeasibleFuelPlan], and then there was a candidate to
    scan. *)
Theorem navigate_error_message (enum : ShipClass.t)
        (params : option INavigationParameters.t) (this : t)
        (ship : IShip.t) (ranked : list ITradeOption.t) :
  tradeOptions this = Some ranked ->
  _ship this = Some ship ->
  let p := match params with Some p => p | None => defaultParameters end in
  (ranked = []
   <-> exists this', navigate enum params true this
                     = (this', JS.Throw (JS.Error NoProfitableTrade)))
  /\ (ranked <> [] /\ candidates p ship ranked = []
      <-> exists this', navigate enum params true this
                        = (this', JS.Throw (JS.Error NoTradeInRange)))
  /\ (forall this' message,
         navigate enum params true this = (this', JS.Throw (JS.Error message)) ->
         message <> NoProfitableTrade -> message <> NoTradeInRange ->
         message = NoFeasibleFuelPlan /\ candidates p ship ranked <> []).
Proof.
  intros Ht Hs p. unfold tradeOptions in Ht. fold (inForce params) in p.
  rewrite (navigate_scan enum params true this ship ranked Ht Hs). fold p.
  destruct messages_differ as (D1 & D2 & D3).
  assert (Hplot : forall trades this' message,
             plotRoute enum p true trades this = (this', JS.Throw (JS.Error message)) ->
             message = NoFeasibleFuelPlan).
  { intros trades this' message K. apply plotRoute_throws in K.
    destruct K as [K|K]; congruence. }
  destruct ranked as [|o arr].
  { unfold giveUp, throw. split; [|split].
    - split; [intros _; eexists; reflexivity|reflexivity].
    - split; [intros [K _]; congruence|].
      intros [this' K]. congruence.
    - intros this' message K Hn _. congruence. }
  destruct (candidates p ship (o :: arr)) as [|o' scanned'] eqn:Ec.
  { unfold giveUp, throw. split; [|split].
    - split; [intro K; discriminate K|].
      intros [this' K]. congruence.
    - split; [intros _; eexists; reflexivity|].
      intros _. split; [discriminate|reflexivity].
    - intros this' message K _ Hn. congruence. }
  split; [|split].
  - split; [intro K; discriminate K|].
    intros [this' K]. apply Hplot in K. congruence.
  - split; [intros [_ K]; discriminate K|].
    intros [this' K]. apply Hplot in K. congruence.
  - intros this' message K _ _. apply Hplot in K. split; [exact K|discriminate].
Qed.

(** X23.  The first cargo line of a returned route is the FUEL for the trip
    to the route's destination: its quantity is [calculateFuelQuantity] of
    the ship and of the fuel to travel from the current location to that
    destination, under the margin in force, and its total volume is that
    quantity times 1. *)
Theorem navigate_fuel_line (enum : ShipClass.t) (params : option INavigationParameters.t)
        (strict : bool) (this this' : t) (route : ITradeRoute.t) :
  navigate enum params strict this = (this', JS.Normal (Some route)) ->
  exists (ship : IShip.t) (l : ILocation.t) (goods : list ICargo.t),
    _ship this = Some ship /\
    currentLocation this = Some l /\
    let p := match params with Some p => p | None => defaultParameters end in
    let fuel :=
      Mentat.calculateFuelQuantity ship
        (Mentat.calculateFuelToTravel enum ship l (ITradeRoute.destination route))
        (INavigationParameters.fuelMargin p) in
    ITradeRoute.cargo route
    = {| ICargo.good := "FUEL"; ICargo.quantity := fuel; ICargo.totalVolume := fuel * 1 |}
      :: goods.
Proof.
  intro H.
  destruct (navigate_route_closed _ _ _ _ _ _ H)
    as (ranked & ship & l & m & chosen & _ & Hs & Hc & _ & Hx).
  cbv zeta in Hx. destruct Hx as (_ & -> & _).
  exists ship, l. eexists. split; [exact Hs|]. split; [exact Hc|]. reflexivity.
Qed.

(* ================================================================= *)
(** ** Nothing negative in the cargo *)

(** No negative number of units fits a space that is not negative. *)
Lemma calculateGoodQuantity_nonneg (space volumePerUnit : Q) :
  0 <= space -> 0 < volumePerUnit ->
  0 <= Mentat.calculateGoodQuantity space volumePerUnit.
Proof.
  intros Hs Hv. unfold Mentat.calculateGoodQuantity, JS.floor.
  apply inject_Z_nonneg, floor_nonneg, inject_Z_nonneg, floor_nonneg.
  apply Qle_shift_div_l; [exact Hv|]. lra.
Qed.

Lemma fillCargo_notNegative (trades : list ITradeOption.t) :
  Forall (fun o => positiveVolume o /\
                   0 < IGood.quantityAvailable (ITrade.localGood (ITradeOption.trade o)))
         trades ->
  forall remainingSpace : Q, Forall notNegative (fillCargo remainingSpace trades).
Proof.
  induction 1 as [|o rest [Hv Ha] Hrest IH]; intro remainingSpace; [constructor|].
  cbn [fillCargo]. destruct (JS.leb remainingSpace 0) eqn:E; [constructor|].
  apply leb_gt in E. cbv zeta. constructor; [|apply IH].
  unfold positiveVolume in Hv.
  set (localGood := ITrade.localGood (ITradeOption.trade o)) in *.
  pose proof (calculateGoodQuantity_nonneg remainingSpace (IGood.volumePerUnit localGood)
                (Qlt_le_weak _ _ E) Hv) as Hq.
  set (q0 := Mentat.calculateGoodQuantity remainingSpace (IGood.volumePerUnit localGood)) in *.
  assert (H : 0 <= (if JS.gtb q0 (IGood.quantityAvailable localGood)
                    then IGood.quantityAvailable localGood else q0)).
  { destruct (JS.gtb q0 (IGood.quantityAvailable localGood)); lra. }
  split; cbn [ICargo.quantity ICargo.totalVolume]; [exact H|].
  unfold Mentat.calculateGoodVolume. fold localGood.
  apply Qmult_le_0_compat; [exact H|lra].
Qed.

(** No negative fuel quantity under a margin of at least -100 percent. *)
Lemma calculateFuelQuantity_nonneg (ship : IShip.t) (fuelToTravel : Q) (margin : option Q) :
  -100 <= match margin with Some m => m | None => 0 end ->
  0 <= Mentat.calculateFuelQuantity ship fuelToTravel margin.
Proof.
  intro H. rewrite calculateFuelQuantity_ceiling. unfold Spec.fuelQuantity.
  set (m := match margin with Some m => m | None => 0 end) in *.
  apply inject_Z_nonneg, ceiling_nonneg.
  apply Qmult_le_0_compat; [apply Q.le_max_l|].
  assert (E : 1 + m / 100 == (100 + m) * (1 # 100)) by field. rewrite E.
  apply Qmult_le_0_compat; [lra|discriminate].
Qed.

(** X24.  On an engine a caller holds, whose goods take space, no cargo line
    after the FUEL line of a returned route has a negative quantity or a
    negative total volume; under a margin of at least -100 percent the
    FUEL line has neither. *)
Theorem navigate_buys_nothing_negative (enum : ShipClass.t)
        (params : option INavigationParameters.t) (strict : bool) (this this' : t)
        (route : ITradeRoute.t) :
  reachable goodsTakeSpace enum this ->
  navigate enum params strict this = (this', JS.Normal (Some route)) ->
  let p := match params with Some p => p | None => defaultParameters end in
  let marginPercent :=
    match INavigationParameters.fuelMargin p with Some m => m | None => 0 end in
  Forall notNegative (tl (ITradeRoute.cargo route))
  /\ (-100 <= marginPercent -> Forall notNegative (ITradeRoute.cargo route)).
Proof.
  intros Hr H p m.
  destruct (navigate_route _ _ _ _ _ _ H)
    as (ranked & kept & refuel & ship & Ht & Hk & _ & Hs & _ & _ & Hc).
  destruct (reachable_sound _ _ _ Hr) as (_ & _ & H3).
  specialize (H3 _ Ht).
  assert (Hkept : Forall (fun o => positiveVolume o /\
                            0 < IGood.quantityAvailable
                                  (ITrade.localGood (ITradeOption.trade o))) kept).
  { apply Forall_forall. intros o Ho. apply Hk in Ho.
    pose proof (soundOption_positiveVolume _ H3) as Hp.
    rewrite Forall_forall in H3, Hp. split; [apply Hp, Ho|apply (H3 o Ho)]. }
  pose proof (fillCargo_notNegative kept Hkept
                (IShip.spaceAvailable ship - fuelQuantity refuel * 1)) as Hgoods.
  assert (Htl : Forall notNegative (tl (ITradeRoute.cargo route)))
    by (rewrite Hc; exact Hgoods).
  split; [exact Htl|].
  intro Hm.
  destruct (navigate_route_closed _ _ _ _ _ _ H)
    as (ranked' & ship' & l & market & chosen & _ & _ & _ & _ & Hx).
  cbv zeta in Hx. destruct Hx as (_ & Hroute & _).
  rewrite Hroute in Htl |- *. unfold routeFor in *. cbn [ITradeRoute.cargo tl] in *.
  constructor; [|exact Htl].
  pose proof (calculateFuelQuantity_nonneg ship'
                (Mentat.calculateFuelToTravel enum ship' l
                   (ITrade.destination (ITradeOption.trade chosen)))
                (INavigationParameters.fuelMargin (inForce params)) Hm) as Hq.
  split; cbn [ICargo.quantity ICargo.totalVolume refuelFor fuelQuantity fuelVolume].
  - exact Hq.
  - unfold Mentat.calculateFuelToTravelVolume. lra.
Qed.

(* ================================================================= *)
(** ** The console log *)

(** Without a ship the loops push nothing. *)
Lemma goodsLoop_without_ship (enum : ShipClass.t) (this : t) (currentLocation : ILocation.t)
      (localMarket : list IGood.t) (destination : ILocation.t) (marketplace : list IGood.t) :
  _ship this = None ->
  forall trades trades',
    goodsLoop enum this currentLocation localMarket destination marketplace trades
    = JS.Normal trades' ->
    trades' = trades.
Proof.
  intro Hs. induction marketplace as [|destinationGood rest IH]; intros trades trades' H.
  - inversion H. reflexivity.
  - cbn [goodsLoop] in H.
    destruct (find _ localMarket) as [localGood|]; [|exact (IH _ _ H)].
    destruct (JS.gtb (IGood.quantityAvailable localGood) 0); [|exact (IH _ _ H)].
    destruct (getCurrentFuelUnitCost this) as [fuelUnitCost|e]; [|inversion H].
    rewrite Hs in H. inversion H.
Qed.

Lemma locationsLoop_without_ship (enum : ShipClass.t) (this : t)
      (currentLocation : ILocation.t) (localMarket : list IGood.t)
      (locations : list ILocation.t) :
  _ship this = None ->
  forall trades trades',
    locationsLoop enum this currentLocation localMarket locations trades = JS.Normal trades' ->
    trades' = trades.
Proof.
  intro Hs. induction locations as [|destination rest IH]; intros trades trades' H.
  - inversion H. reflexivity.
  - cbn [locationsLoop] in H.
    destruct (String.eqb _ _); [exact (IH _ _ H)|].
    destruct (ILocation.marketplace destination) as [[|g gs]|]; try exact (IH _ _ H).
    destruct (goodsLoop enum this currentLocation localMarket destination (g :: gs) trades)
      as [trades1|e] eqn:Eg; [|inversion H].
    apply (goodsLoop_without_ship enum this _ _ _ _ Hs) in Eg. subst trades1.
    exact (IH _ _ H).
Qed.

(** With a current location and a ship every callback returns. *)
Lemma logEach_normal (enum : ShipClass.t) (this : t) (l : ILocation.t) (ship : IShip.t)
      (tradeOptions : list ITradeOption.t) :
  _currentLocation this = Some l ->
  _ship this = Some ship ->
  forall printed,
    exists entries,
      logEach enum this tradeOptions printed = (printed ++ entries, JS.Normal tt) /\
      map LogEntry.good entries
      = map (fun o => IGood.symbol (ITrade.localGood (ITradeOption.trade o))) tradeOptions /\
      map LogEntry.trip entries
      = map (fun o => (ILocation.symbol l ++ " -> "
                       ++ ILocation.symbol (ITrade.destination (ITradeOption.trade o)))%string)
            tradeOptions /\
      map LogEntry.profitPerDU entries = map ITradeOption.profitPerDU tradeOptions.
Proof.
  intros Hc Hs. induction tradeOptions as [|o rest IH]; intro printed.
  - exists []. cbn. rewrite app_nil_r. repeat split.
  - cbn [logEach]. unfold logEntry. rewrite Hc, Hs. cbn [JS.deref JS.bindC]. cbv zeta.
    match goal with |- context [logEach enum this rest (printed ++ [?e])] =>
      destruct (IH (printed ++ [e])) as (entries & H1 & H2 & H3 & H4);
      exists (e :: entries)
    end.
    rewrite H1, <- app_assoc. cbn [map app LogEntry.good LogEntry.trip LogEntry.profitPerDU].
    rewrite H2, H3, H4. repeat split.
Qed.

(** X25.  Where [sortTradeOptions] calls it, after the ranked list has been
    assigned, [logTradeOptions] returns normally: it prints one entry per
    ranked option, in rank order, with the option's local good, its trip
    and its profit per distance unit. *)
Theorem logTradeOptions_in_place (enum : ShipClass.t) (this this' : t) (l : ILocation.t)
        (g : IGood.t) (gs : list IGood.t) :
  _currentLocation this = Some l ->
  ILocation.marketplace l = Some (g :: gs) ->
  sortTradeOptions enum this = (this', JS.Normal tt) ->
  exists entries ranked,
    logTradeOptions enum this' = (entries, JS.Normal tt) /\
    tradeOptions this' = Some ranked /\
    map LogEntry.good entries
    = map (fun o => IGood.symbol (ITrade.localGood (ITradeOption.trade o))) ranked /\
    map LogEntry.trip entries
    = map (fun o => (ILocation.symbol l ++ " -> "
                     ++ ILocation.symbol (ITrade.destination (ITradeOption.trade o)))%string)
          ranked /\
    map LogEntry.profitPerDU entries = map ITradeOption.profitPerDU ranked.
Proof.
  intros Hc Hm. unfold sortTradeOptions, bind, reading, assign, ret.
  rewrite Hc. cbn [JS.deref]. rewrite Hm.
  destruct (JS.deref (_locations this)) as [locations|e]; cbn [JS.bindC];
    [|intro H; discriminate H].
  destruct (locationsLoop enum this l (g :: gs) locations []) as [trades|e] eqn:El;
    intro H; inversion H. subst this'. clear H.
  unfold logTradeOptions, tradeOptions. cbn [_tradeOptions set_tradeOptions].
  destruct (_ship this) as [ship|] eqn:Hs.
  - destruct (logEach_normal enum (set_tradeOptions
                (Some (Mentat.sortByKey ITradeOption.profitPerDU trades)) this) l ship
                (Mentat.sortByKey ITradeOption.profitPerDU trades) Hc Hs [])
      as (entries & H1 & H2).
    exists entries. eexists. split; [exact H1|]. split; [reflexivity|exact H2].
  - apply (locationsLoop_without_ship enum this _ _ _ Hs) in El. subst trades.
    exists []. eexists. cbn. repeat split.
Qed.

(** Profit per distance unit times distance is the profit. *)
Lemma ofPerRoot_times_root (x : Q) (d : JS.Root) :
  Real.ofRoot d <> 0%R ->
  (Real.ofPerRoot (JS.divRoot x d) * Real.ofRoot d)%R = Q2R x.
Proof.
  intro H. rewrite divRoot_value. field. exact H.
Qed.

(* ================================================================= *)
(** ** Instances *)

(** The skipped candidate of C2 with the enumeration [classes]. *)
Lemma navigate_skips_feasible_candidate_witness :
  unrecognized classes "JW-MK-I" /\
  exists (this this' : t) (route : ITradeRoute.t),
    constructor classes [locO; locX; locY; locZ] shipAtO = JS.Normal this /\
    option_map (map destinationOf) (_tradeOptions this) = Some ["X"; "Y"; "Z"] /\
    Mentat.calculateFuelQuantity shipAtO
      (Mentat.calculateFuelToTravel classes shipAtO locO locX) (Some 5) = 30 /\
    Mentat.calculateFuelQuantity shipAtO
      (Mentat.calculateFuelToTravel classes shipAtO locO locY) (Some 5) = 5 /\
    _currentMarketplace this = ILocation.marketplace locO /\
    option_map Spec.availableFuel (ILocation.marketplace locO) = Some 10 /\
    IShip.spaceAvailable shipAtO = 100 /\
    navigate classes None false this = (this', JS.Normal (Some route)) /\
    ILocation.symbol (ITradeRoute.destination route) = "Z".
Proof.
  assert (H : unrecognized classes "JW-MK-I") by (repeat split; discriminate).
  split; [exact H|]. exact (navigate_skips_feasible_candidate classes H).
Defined.

(** The stale list of C3 with the enumeration [classes]. *)
Lemma rebuild_keeps_stale_options_witness :
  unrecognized classes "JW-MK-I" /\
  exists (this this' atE : t),
    constructor classes [locA 60; locB; locE] shipAtA = JS.Normal this /\
    updateShipData classes shipAtE this = (this', JS.Normal tt) /\
    _currentLocation this' = Some locE /\
    ILocation.marketplace locE = Some [] /\
    _tradeOptions this' = _tradeOptions this /\
    option_map (map destinationOf) (_tradeOptions this') = Some ["B"] /\
    constructor classes [locA 60; locB; locE] shipAtE = JS.Normal atE /\
    _currentLocation atE = Some locE /\
    _tradeOptions atE = None.
Proof.
  assert (H : unrecognized classes "JW-MK-I") by (repeat split; discriminate).
  split; [exact H|]. exact (rebuild_keeps_stale_options classes H).
Defined.

(** The scenario of C5 with the enumeration [classes] and 60 METAL on
    offer. *)
Lemma scenario_route_witness :
  unrecognized classes "JW-MK-I" /\
  45 <= 60 /\
  exists this : t,
    constructor classes [locA 60; locB] shipAtA = JS.Normal this /\
    Mentat.calculateFuelToTravel classes shipAtA (locA 60) locB = 4 /\
    navigate classes None false this
    = (this, JS.Normal (Some {| ITradeRoute.destination := locB;
                                 ITradeRoute.cargo := [line "FUEL" 5 5;
                                                       line "METAL" 45 45] |})).
Proof.
  assert (H : unrecognized classes "JW-MK-I") by (repeat split; discriminate).
  assert (Hm : 45 <= 60) by (intro K; discriminate K).
  split; [exact H|]. split; [exact Hm|]. exact (scenario_route classes 60 H Hm).
Defined.

(** The two calls of C6 with the enumeration [classes]. *)
Lemma navigate_twice_differs_witness :
  unrecognized classes "JW-MK-I" /\
  exists (this this1 this2 : t) (route : ITradeRoute.t),
    constructor classes [locO; locX; locY] shipAtO = JS.Normal this /\
    option_map (map destinationOf) (_tradeOptions this) = Some ["X"; "Y"] /\
    navigate classes None false this = (this1, JS.Normal None) /\
    option_map (map destinationOf) (_tradeOptions this1) = Some ["Y"] /\
    navigate classes None false this1 = (this2, JS.Normal (Some route)) /\
    ILocation.symbol (ITradeRoute.destination route) = "Y" /\
    ITradeRoute.cargo route = [line "FUEL" 5 5; line "METAL" 95 95].
Proof.
  assert (H : unrecognized classes "JW-MK-I") by (repeat split; discriminate).
  split; [exact H|]. exact (navigate_twice_differs classes H).
Defined.

(** The zero line of C9: 5 units of space left, MACHINERY at 10 per unit;
    and the route of the engine that trades METAL and MACHINERY. *)
Lemma zero_quantity_lines_witness :
  (0 < 5 /\ 5 < 10 /\ 0 <= 10 /\
   exists zeroLine : ICargo.t,
     fillCargo 5 [machineryOption] = zeroLine :: fillCargo 5 [] /\
     ICargo.good zeroLine = "MACHINERY" /\
     ICargo.quantity zeroLine = 0 /\
     ICargo.totalVolume zeroLine == 0)
  /\
  (navigate classes None false machineryEngine
   = (machineryEngine, JS.Normal (Some machineryRoute)) /\
   exists (ranked : list ITradeOption.t) (ship : IShip.t) (l : ILocation.t)
          (m : list IGood.t) (chosen : ITradeOption.t),
     _tradeOptions machineryEngine = Some ranked /\
     _ship machineryEngine = Some ship /\
     _currentLocation machineryEngine = Some l /\
     _currentMarketplace machineryEngine = Some m /\
     let p := inForce None in
     let scanned := candidates p ship ranked in
     let ok := fun o => canRefuel m ship (refuelFor classes p ship l o) in
     let refuel := refuelFor classes p ship l chosen in
     snd (examine ok scanned) = Some chosen /\
     ITradeRoute.cargo machineryRoute
     = {| ICargo.good := "FUEL"; ICargo.quantity := fuelQuantity refuel;
          ICargo.totalVolume := fuelVolume refuel |}
       :: fillCargo
            (Mentat.calculateRemainingSpaceAfterRefuel ship (fuelQuantity refuel))
            (filter (fun o => String.eqb
                                (ILocation.symbol
                                   (ITrade.destination (ITradeOption.trade o)))
                                (ILocation.symbol (destination refuel)))
                    (fst (examine ok scanned))))
  /\
  (unrecognized classes "JW-MK-I" /\
   exists (this this' : t) (route : ITradeRoute.t),
     constructor classes [locA'; locB'] shipAtA = JS.Normal this /\
     navigate classes None false this = (this', JS.Normal (Some route)) /\
     ITradeRoute.cargo route
     = [line "FUEL" 5 5; line "METAL" 40 40; line "MACHINERY" 0 0]).
Proof.
  assert (H0 : 0 < 5) by reflexivity.
  assert (H1 : 5 < 10) by reflexivity.
  assert (H2 : 0 <= 10) by (intro K; discriminate K).
  assert (Hn : navigate classes None false machineryEngine
               = (machineryEngine, JS.Normal (Some machineryRoute)))
    by (vm_compute; reflexivity).
  assert (H : unrecognized classes "JW-MK-I") by (repeat split; discriminate).
  split; [|split].
  - split; [exact H0|]. split; [exact H1|]. split; [exact H2|].
    exact (proj1 zero_quantity_lines 5 machineryOption [] H0 H1 H2).
  - split; [exact Hn|].
    exact (proj1 (proj2 zero_quantity_lines) classes None false
             machineryEngine machineryEngine machineryRoute Hn).
  - split; [exact H|]. exact (proj2 (proj2 zero_quantity_lines) classes H).
Defined.

(** The two routes of C10 with the enumeration [classes]. *)
Lemma omitted_margin_is_zero_witness :
  unrecognized classes "JW-MK-I" /\
  exists (this this1 this2 : t) (withoutMargin byDefault : ITradeRoute.t),
    constructor classes [locA 60; locB] shipAtA = JS.Normal this /\
    navigate classes (Some {| INavigationParameters.range := Some 0;
                              INavigationParameters.fuelMargin := None |}) false this
    = (this1, JS.Normal (Some withoutMargin)) /\
    ITradeRoute.cargo withoutMargin = [line "FUEL" 4 4; line "METAL" 46 46] /\
    navigate classes None false this = (this2, JS.Normal (Some byDefault)) /\
    ITradeRoute.cargo byDefault = [line "FUEL" 5 5; line "METAL" 45 45].
Proof.
  assert (H : unrecognized classes "JW-MK-I") by (repeat split; discriminate).
  split; [exact H|]. exact (proj2 (proj2 omitted_margin_is_zero) classes H).
Defined.

(* ================================================================= *)
(** ** Instances of the further properties *)

(** An HM-MK-III and a GR-MK-II on the way from A to X. *)
Lemma calculateFuelToTravel_by_class_witness :
  (thirst (Spec.bracketOf classes (IShip.type (shipOfClass "HM-MK-III")))
   <= thirst (Spec.bracketOf classes (IShip.type (shipOfClass "GR-MK-II"))))%nat /\
  Mentat.calculateFuelToTravel classes (shipOfClass "HM-MK-III") (locA 45) locX
  <= Mentat.calculateFuelToTravel classes (shipOfClass "GR-MK-II") (locA 45) locX.
Proof.
  assert (H : (thirst (Spec.bracketOf classes (IShip.type (shipOfClass "HM-MK-III")))
               <= thirst (Spec.bracketOf classes (IShip.type (shipOfClass "GR-MK-II"))))%nat)
    by (vm_compute; lia).
  split; [exact H|].
  exact (calculateFuelToTravel_by_class classes (shipOfClass "HM-MK-III")
           (shipOfClass "GR-MK-II") (locA 45) locX H).
Defined.

(** The engine of the scenario is one a caller can hold. *)
Lemma scenarioEngine_reachable : reachable goodsTakeSpace classes scenarioEngine.
Proof.
  apply (reachable_new goodsTakeSpace classes [locA 45; locB] shipAtA).
  - repeat constructor; intros marketplace E; injection E as <-; repeat constructor.
  - vm_compute. reflexivity.
Defined.

(** The ranked list of the engine of the scenario. *)
Lemma constructor_ranks_listed_witness :
  constructor classes [locA 45; locB] shipAtA = JS.Normal scenarioEngine /\
  currentLocation scenarioEngine = Some (locA 45) /\
  ILocation.marketplace (locA 45) = Some [good "FUEL" 100 1 1 1; metalAtA] /\
  [good "FUEL" 100 1 1 1; metalAtA] <> [] /\
  exists ranked,
    tradeOptions scenarioEngine = Some ranked /\
    descending ITradeOption.profitPerDU ranked /\
    forall o, In o ranked
              <-> listed classes shipAtA (locA 45) [good "FUEL" 100 1 1 1; metalAtA]
                         [locA 45; locB] o.
Proof.
  assert (H1 : constructor classes [locA 45; locB] shipAtA = JS.Normal scenarioEngine)
    by (vm_compute; reflexivity).
  assert (H2 : currentLocation scenarioEngine = Some (locA 45)) by reflexivity.
  assert (H3 : ILocation.marketplace (locA 45) = Some [good "FUEL" 100 1 1 1; metalAtA])
    by reflexivity.
  assert (H4 : [good "FUEL" 100 1 1 1; metalAtA] <> []) by discriminate.
  split; [exact H1|]. split; [exact H2|]. split; [exact H3|]. split; [exact H4|].
  exact (constructor_ranks_listed classes [locA 45; locB] shipAtA scenarioEngine (locA 45)
           [good "FUEL" 100 1 1 1; metalAtA] H1 H2 H3 H4).
Defined.

(** The cached properties of the engine of the scenario. *)
Lemma reachable_in_sync_witness :
  reachable goodsTakeSpace classes scenarioEngine /\
  exists (locations : list ILocation.t) (ship : IShip.t),
    _locations scenarioEngine = Some locations /\
    _ship scenarioEngine = Some ship /\
    currentLocation scenarioEngine
    = find (fun l => String.eqb (IShip.location ship) (ILocation.symbol l)) locations /\
    currentMarketplace scenarioEngine
    = match currentLocation scenarioEngine with
      | Some l => ILocation.marketplace l
      | None => None
      end /\
    forall marketplace,
      currentMarketplace scenarioEngine = Some marketplace ->
      currentFuelUnitCost scenarioEngine
      = option_map IGood.purchasePricePerUnit
          (find (fun g => String.eqb (IGood.symbol g) "FUEL") marketplace).
Proof.
  split; [exact scenarioEngine_reachable|].
  exact (reachable_in_sync goodsTakeSpace classes scenarioEngine scenarioEngine_reachable).
Defined.

(** The ship of the scenario moves to B. *)
Lemma updateShipData_rebuilds_witness :
  reachable goodsTakeSpace classes scenarioEngine /\
  _locations scenarioEngine = Some [locA 45; locB] /\
  updateShipData classes (shipAt "B" 3 4 [] 50) scenarioEngine
  = (match constructor classes [locA 45; locB] (shipAt "B" 3 4 [] 50) with
     | JS.Normal fresh => fresh
     | JS.Throw _ => blank
     end, JS.Normal tt).
Proof.
  assert (H : _locations scenarioEngine = Some [locA 45; locB]) by reflexivity.
  split; [exact scenarioEngine_reachable|]. split; [exact H|].
  exact (updateShipData_rebuilds goodsTakeSpace classes scenarioEngine [locA 45; locB]
           (shipAt "B" 3 4 [] 50) scenarioEngine_reachable H).
Defined.

(** The engine of the scenario learns of more METAL at A and of E. *)
Lemma updateLocationsData_rebuilds_witness :
  reachable goodsTakeSpace classes scenarioEngine /\
  _ship scenarioEngine = Some shipAtA /\
  updateLocationsData classes [locA 60; locB; locE] scenarioEngine
  = (match constructor classes [locA 60; locB; locE] shipAtA with
     | JS.Normal fresh => fresh
     | JS.Throw _ => blank
     end, JS.Normal tt).
Proof.
  assert (H : _ship scenarioEngine = Some shipAtA) by reflexivity.
  split; [exact scenarioEngine_reachable|]. split; [exact H|].
  exact (updateLocationsData_rebuilds goodsTakeSpace classes scenarioEngine
           [locA 60; locB; locE] shipAtA scenarioEngine_reachable H).
Defined.

(** The engine of the scenario takes its METAL trade. *)
Lemma navigate_takes_best_witness :
  tradeOptions scenarioEngine = Some [metalOption] /\
  _ship scenarioEngine = Some shipAtA /\
  currentLocation scenarioEngine = Some (locA 45) /\
  currentMarketplace scenarioEngine = Some [good "FUEL" 100 1 1 1; metalAtA] /\
  candidates defaultParameters shipAtA [metalOption] = [metalOption] /\
  Mentat.calculateFuelQuantity shipAtA
    (Mentat.calculateFuelToTravel classes shipAtA (locA 45) locB) (Some 5)
  <= Spec.availableFuel [good "FUEL" 100 1 1 1; metalAtA] /\
  Mentat.calculateFuelQuantity shipAtA
    (Mentat.calculateFuelToTravel classes shipAtA (locA 45) locB) (Some 5)
  <= IShip.spaceAvailable shipAtA /\
  exists goods,
    navigate classes None false scenarioEngine
    = (scenarioEngine,
       JS.Normal (Some {| ITradeRoute.destination := locB;
                          ITradeRoute.cargo :=
                            {| ICargo.good := "FUEL";
                               ICargo.quantity :=
                                 Mentat.calculateFuelQuantity shipAtA
                                   (Mentat.calculateFuelToTravel classes shipAtA (locA 45) locB)
                                   (Some 5);
                               ICargo.totalVolume :=
                                 Mentat.calculateFuelQuantity shipAtA
                                   (Mentat.calculateFuelToTravel classes shipAtA (locA 45) locB)
                                   (Some 5) * 1 |} :: goods |})).
Proof.
  assert (H1 : tradeOptions scenarioEngine = Some [metalOption]) by (vm_compute; reflexivity).
  assert (H2 : _ship scenarioEngine = Some shipAtA) by reflexivity.
  assert (H3 : currentLocation scenarioEngine = Some (locA 45)) by reflexivity.
  assert (H4 : currentMarketplace scenarioEngine = Some [good "FUEL" 100 1 1 1; metalAtA])
    by reflexivity.
  assert (H5 : candidates defaultParameters shipAtA [metalOption] = [metalOption])
    by reflexivity.
  assert (H6 : Mentat.calculateFuelQuantity shipAtA
                 (Mentat.calculateFuelToTravel classes shipAtA (locA 45) locB) (Some 5)
               <= Spec.availableFuel [good "FUEL" 100 1 1 1; metalAtA])
    by (vm_compute; intro K; discriminate K).
  assert (H7 : Mentat.calculateFuelQuantity shipAtA
                 (Mentat.calculateFuelToTravel classes shipAtA (locA 45) locB) (Some 5)
               <= IShip.spaceAvailable shipAtA)
    by (vm_compute; intro K; discriminate K).
  split; [exact H1|]. split; [exact H2|]. split; [exact H3|]. split; [exact H4|].
  split; [exact H5|]. split; [exact H6|]. split; [exact H7|].
  exact (navigate_takes_best classes None false scenarioEngine shipAtA (locA 45)
           [good "FUEL" 100 1 1 1; metalAtA] [metalOption] metalOption [] H1 H2 H3 H4 H5 H6 H7).
Defined.

(** At O the call drops X, which needs 30 FUEL where 10 are on offer. *)
Lemma navigate_drops_unfuelable_witness :
  tradeOptions scarceFuelEngine = Some (optionsOf scarceFuelEngine) /\
  map destinationOf (optionsOf scarceFuelEngine) = ["X"; "Y"] /\
  navigate classes None false scarceFuelEngine = (scarceFuelEngine', JS.Normal None) /\
  exists dropped kept,
    tradeOptions scarceFuelEngine' = Some kept /\
    Permutation (optionsOf scarceFuelEngine) (dropped ++ kept) /\
    Forall (fun o => canRefuel [good "FUEL" 10 1 1 1; good "METAL" 1000 1 5 4] shipAtO
                       (refuelFor classes defaultParameters shipAtO locO o) = false) dropped.
Proof.
  assert (H1 : tradeOptions scarceFuelEngine = Some (optionsOf scarceFuelEngine))
    by reflexivity.
  assert (H2 : _ship scarceFuelEngine = Some shipAtO) by reflexivity.
  assert (H3 : currentLocation scarceFuelEngine = Some locO) by reflexivity.
  assert (H4 : currentMarketplace scarceFuelEngine
               = Some [good "FUEL" 10 1 1 1; good "METAL" 1000 1 5 4]) by reflexivity.
  assert (H5 : navigate classes None false scarceFuelEngine
               = (scarceFuelEngine', JS.Normal None)) by (vm_compute; reflexivity).
  split; [exact H1|]. split; [reflexivity|]. split; [exact H5|].
  exact (navigate_drops_unfuelable classes None false scarceFuelEngine scarceFuelEngine'
           (JS.Normal None) shipAtO locO [good "FUEL" 10 1 1 1; good "METAL" 1000 1 5 4]
           (optionsOf scarceFuelEngine) H1 H2 H3 H4 H5).
Defined.

(** B, 5 away, with a range of 10. *)
Lemma navigate_within_range_witness :
  JS.truthy 10 = true /\
  navigate classes (Some {| INavigationParameters.range := Some 10;
                            INavigationParameters.fuelMargin := Some 5 |}) false scenarioEngine
  = (scenarioEngine, JS.Normal (Some scenarioRoute)) /\
  Mentat.validateRange shipAtA 10 (ITradeRoute.destination scenarioRoute) = true /\
  scenarioEngine = scenarioEngine.
Proof.
  assert (H1 : INavigationParameters.range
                 {| INavigationParameters.range := Some 10;
                    INavigationParameters.fuelMargin := Some 5 |} = Some 10) by reflexivity.
  assert (H2 : JS.truthy 10 = true) by reflexivity.
  assert (H3 : _ship scenarioEngine = Some shipAtA) by reflexivity.
  assert (H4 : navigate classes (Some {| INavigationParameters.range := Some 10;
                                         INavigationParameters.fuelMargin := Some 5 |})
                 false scenarioEngine
               = (scenarioEngine, JS.Normal (Some scenarioRoute)))
    by (vm_compute; reflexivity).
  split; [exact H2|]. split; [exact H4|].
  exact (navigate_within_range classes _ 10 false scenarioEngine scenarioEngine scenarioRoute
           shipAtA H1 H2 H3 H4).
Defined.

(** The cargo of the route of the scenario. *)
Lemma navigate_cargo_lines_witness :
  navigate classes None false scenarioEngine
  = (scenarioEngine, JS.Normal (Some scenarioRoute)) /\
  exists (ranked : list ITradeOption.t) (chosen : ITradeOption.t)
         (fuelLine : ICargo.t) (goods : list ICargo.t) (loaded : list ITradeOption.t),
    tradeOptions scenarioEngine = Some ranked /\
    In chosen ranked /\
    ITrade.destination (ITradeOption.trade chosen) = ITradeRoute.destination scenarioRoute /\
    ITradeRoute.cargo scenarioRoute = fuelLine :: goods /\
    Forall2 loads goods loaded /\
    Forall (fun o =>
              In o ranked /\
              ILocation.symbol (ITrade.destination (ITradeOption.trade o))
              = ILocation.symbol (ITradeRoute.destination scenarioRoute)) loaded.
Proof.
  assert (H : navigate classes None false scenarioEngine
              = (scenarioEngine, JS.Normal (Some scenarioRoute)))
    by (vm_compute; reflexivity).
  split; [exact H|].
  exact (navigate_cargo_lines classes None false scenarioEngine scenarioEngine scenarioRoute H).
Defined.

(** At O the call leaves Y of X and Y. *)
Lemma navigate_only_removes_witness :
  navigate classes None false scarceFuelEngine = (scarceFuelEngine', JS.Normal None) /\
  scarceFuelEngine' = set_tradeOptions (tradeOptions scarceFuelEngine') scarceFuelEngine /\
  option_map (map destinationOf) (tradeOptions scarceFuelEngine') = Some ["Y"] /\
  forall remaining,
    tradeOptions scarceFuelEngine' = Some remaining ->
    exists ranked, tradeOptions scarceFuelEngine = Some ranked /\ incl remaining ranked.
Proof.
  assert (H : navigate classes None false scarceFuelEngine
              = (scarceFuelEngine', JS.Normal None)) by (vm_compute; reflexivity).
  split; [exact H|].
  pose proof (navigate_only_removes classes None false scarceFuelEngine scarceFuelEngine'
                (JS.Normal None) H) as (K1 & K2 & _).
  split; [exact K1|]. split; [reflexivity|exact K2].
Defined.

(** The engine of the scenario throws no TypeError. *)
Lemma navigate_type_error_witness :
  reachable goodsTakeSpace classes scenarioEngine /\
  ~ (exists this', navigate classes None true scenarioEngine = (this', JS.Throw JS.TypeError)).
Proof.
  split; [exact scenarioEngine_reachable|].
  intro H.
  apply (proj1 (navigate_type_error goodsTakeSpace classes None true scenarioEngine
                  scenarioEngine_reachable)) in H.
  destruct H as [H|[H _]]; discriminate H.
Defined.

(** The engine of the scenario has a trade; B is out of a range of 1. *)
Lemma navigate_error_message_witness :
  tradeOptions scenarioEngine = Some [metalOption] /\
  _ship scenarioEngine = Some shipAtA /\
  ~ (exists this', navigate classes None true scenarioEngine
                   = (this', JS.Throw (JS.Error NoProfitableTrade))) /\
  exists this',
    navigate classes (Some {| INavigationParameters.range := Some 1;
                              INavigationParameters.fuelMargin := None |}) true scenarioEngine
    = (this', JS.Throw (JS.Error NoTradeInRange)).
Proof.
  assert (H1 : tradeOptions scenarioEngine = Some [metalOption]) by (vm_compute; reflexivity).
  assert (H2 : _ship scenarioEngine = Some shipAtA) by reflexivity.
  split; [exact H1|]. split; [exact H2|]. split.
  - intro K.
    apply (proj1 (navigate_error_message classes None scenarioEngine shipAtA [metalOption]
                    H1 H2)) in K.
    discriminate K.
  - apply (proj1 (proj2 (navigate_error_message classes
                           (Some {| INavigationParameters.range := Some 1;
                                    INavigationParameters.fuelMargin := None |})
                           scenarioEngine shipAtA [metalOption] H1 H2))).
    split; [discriminate|reflexivity].
Defined.

(** The FUEL line of the route of the scenario. *)
Lemma navigate_fuel_line_witness :
  navigate classes None false scenarioEngine
  = (scenarioEngine, JS.Normal (Some scenarioRoute)) /\
  exists (ship : IShip.t) (l : ILocation.t) (goods : list ICargo.t),
    _ship scenarioEngine = Some ship /\
    currentLocation scenarioEngine = Some l /\
    ITradeRoute.cargo scenarioRoute
    = {| ICargo.good := "FUEL";
         ICargo.quantity :=
           Mentat.calculateFuelQuantity ship
             (Mentat.calculateFuelToTravel classes ship l
                (ITradeRoute.destination scenarioRoute)) (Some 5);
         ICargo.totalVolume :=
           Mentat.calculateFuelQuantity ship
             (Mentat.calculateFuelToTravel classes ship l
                (ITradeRoute.destination scenarioRoute)) (Some 5) * 1 |}
      :: goods.
Proof.
  assert (H : navigate classes None false scenarioEngine
              = (scenarioEngine, JS.Normal (Some scenarioRoute)))
    by (vm_compute; reflexivity).
  split; [exact H|].
  exact (navigate_fuel_line classes None false scenarioEngine scenarioEngine scenarioRoute H).
Defined.

(** The cargo of the route of the scenario. *)
Lemma navigate_buys_nothing_negative_witness :
  reachable goodsTakeSpace classes scenarioEngine /\
  navigate classes None false scenarioEngine
  = (scenarioEngine, JS.Normal (Some scenarioRoute)) /\
  -100 <= 5 /\
  Forall notNegative (ITradeRoute.cargo scenarioRoute).
Proof.
  assert (H : navigate classes None false scenarioEngine
              = (scenarioEngine, JS.Normal (Some scenarioRoute)))
    by (vm_compute; reflexivity).
  assert (Hm : -100 <= 5) by (intro K; discriminate K).
  split; [exact scenarioEngine_reachable|]. split; [exact H|]. split; [exact Hm|].
  exact (proj2 (navigate_buys_nothing_negative classes None false scenarioEngine
                  scenarioEngine scenarioRoute scenarioEngine_reachable H) Hm).
Defined.

(** What the engine of the scenario prints. *)
Lemma logTradeOptions_in_place_witness :
  _currentLocation scenarioEngine = Some (locA 45) /\
  sortTradeOptions classes scenarioEngine = (scenarioEngine, JS.Normal tt) /\
  exists entries ranked,
    logTradeOptions classes scenarioEngine = (entries, JS.Normal tt) /\
    tradeOptions scenarioEngine = Some ranked /\
    map LogEntry.good entries
    = map (fun o => IGood.symbol (ITrade.localGood (ITradeOption.trade o))) ranked /\
    map LogEntry.trip entries
    = map (fun o => (ILocation.symbol (locA 45) ++ " -> "
                     ++ ILocation.symbol (ITrade.destination (ITradeOption.trade o)))%string)
          ranked /\
    map LogEntry.profitPerDU entries = map ITradeOption.profitPerDU ranked.
Proof.
  assert (H1 : _currentLocation scenarioEngine = Some (locA 45)) by reflexivity.
  assert (H2 : ILocation.marketplace (locA 45)
               = Some (good "FUEL" 100 1 1 1 :: [metalAtA])) by reflexivity.
  assert (H3 : sortTradeOptions classes scenarioEngine = (scenarioEngine, JS.Normal tt))
    by (vm_compute; reflexivity).
  split; [exact H1|]. split; [exact H3|].
  exact (logTradeOptions_in_place classes scenarioEngine scenarioEngine (locA 45)
           (good "FUEL" 100 1 1 1) [metalAtA] H1 H2 H3).
Defined.

(* ================================================================= *)
(** * The reading on doubles *)

(* ================================================================= *)
(** ** Powers of two *)

Lemma pow2_pos (e : Z) : 0 < 2 ^ e.
Proof. apply Qpower_0_lt. reflexivity. Qed.

Lemma pow2_add (a b : Z) : 2 ^ (a + b) == 2 ^ a * 2 ^ b.
Proof. apply Qpower_plus. discriminate. Qed.

Lemma pow2_le (a b : Z) : (a <= b)%Z -> 2 ^ a <= 2 ^ b.
Proof. intro H. apply Qpower_le_compat_l; [exact H|discriminate]. Qed.

Lemma pow2_lt (a b : Z) : (a < b)%Z -> 2 ^ a < 2 ^ b.
Proof. intro H. apply Qpower_lt_compat_l; [exact H|reflexivity]. Qed.

Lemma pow2_lt_inv (a b : Z) : 2 ^ a < 2 ^ b -> (a < b)%Z.
Proof. intro H. eapply Qpower_lt_compat_l_inv; [exact H|reflexivity]. Qed.

Lemma pow2_inject (n : Z) : (0 <= n)%Z -> inject_Z (2 ^ n) == 2 ^ n.
Proof. intro H. rewrite Zpower_Qpower by exact H. reflexivity. Qed.

Lemma pow2_cancel (e : Z) : 2 ^ e * 2 ^ (- e) == 1.
Proof. rewrite <- pow2_add. replace (e + - e)%Z with 0%Z by lia. reflexivity. Qed.

(** Scaling by a power of two keeps the order. *)
Lemma scale_le (x y : Q) (e : Z) : x <= y -> x * 2 ^ e <= y * 2 ^ e.
Proof. intro H. apply Qmult_le_compat_r; [exact H|apply Qlt_le_weak, pow2_pos]. Qed.

Lemma scale_lt (x y : Q) (e : Z) : x < y -> x * 2 ^ e < y * 2 ^ e.
Proof. intro H. apply Qmult_lt_compat_r; [apply pow2_pos|exact H]. Qed.

(* ================================================================= *)
(** ** The integer part of the binary logarithm *)

Lemma ilog2_spec (q : Q) :
  0 < q -> 2 ^ Double.ilog2 q <= q /\ q < 2 ^ (Double.ilog2 q + 1).
Proof.
  intro Hq. unfold Double.ilog2.
  destruct q as [n d]. cbn [Qnum Qden].
  assert (Hn : (0 < n)%Z) by (unfold Qlt in Hq; cbn in Hq; lia).
  set (a := Z.log2 n). set (b := Z.log2 (Zpos d)).
  destruct (Z.log2_spec n Hn) as [Ha1 Ha2]. fold a in Ha1, Ha2.
  destruct (Z.log2_spec (Zpos d) (Pos2Z.is_pos d)) as [Hb1 Hb2]. fold b in Hb1, Hb2.
  assert (Ha0 : (0 <= a)%Z) by apply Z.log2_nonneg.
  assert (Hb0 : (0 <= b)%Z) by apply Z.log2_nonneg.
  set (N := inject_Z n). set (D := inject_Z (Zpos d)).
  assert (HD : 0 < D) by (unfold D, Qlt; cbn; lia).
  assert (E : n # d == N / D) by apply Qmake_Qdiv.
  assert (A1 : 2 ^ a <= N).
  { rewrite <- pow2_inject by exact Ha0. unfold N. rewrite <- Zle_Qle. exact Ha1. }
  assert (A2 : N < 2 ^ (a + 1)).
  { rewrite <- pow2_inject by lia. unfold N. rewrite <- Zlt_Qlt.
    replace (a + 1)%Z with (Z.succ a) by lia. exact Ha2. }
  assert (B1 : 2 ^ b <= D).
  { rewrite <- pow2_inject by exact Hb0. unfold D. rewrite <- Zle_Qle. exact Hb1. }
  assert (B2 : D < 2 ^ (b + 1)).
  { rewrite <- pow2_inject by lia. unfold D. rewrite <- Zlt_Qlt.
    replace (b + 1)%Z with (Z.succ b) by lia. exact Hb2. }
  (* n/d lies between 2^(a-b-1) and 2^(a-b+1) *)
  assert (Hhi : N / D < 2 ^ (a - b + 1)).
  { apply Qlt_shift_div_r; [exact HD|].
    apply Qlt_le_trans with (1 := A2).
    replace (a + 1)%Z with ((a - b + 1) + b)%Z by lia. rewrite pow2_add.
    apply Qmult_le_l; [apply pow2_pos|exact B1]. }
  assert (Hlo : 2 ^ (a - b - 1) < N / D).
  { apply Qlt_shift_div_l; [exact HD|].
    apply Qlt_le_trans with (2 := A1).
    replace a with ((a - b - 1) + (b + 1))%Z at 2 by lia. rewrite pow2_add.
    apply Qmult_lt_l; [apply pow2_pos|exact B2]. }
  destruct (Qle_bool (2 ^ (a - b)) (n # d)) eqn:Ek.
  - apply Qle_bool_iff in Ek. split; [exact Ek|]. rewrite E. exact Hhi.
  - assert (Hk : n # d < 2 ^ (a - b)).
    { apply Qnot_le_lt. intro L. apply Qle_bool_iff in L. congruence. }
    split.
    + rewrite E. apply Qlt_le_weak. exact Hlo.
    + replace (a - b - 1 + 1)%Z with (a - b)%Z by lia. exact Hk.
Qed.

(** The integer part of the logarithm is the only exponent between whose
    powers the number lies. *)
Lemma ilog2_unique (q : Q) (l : Z) :
  2 ^ l <= q -> q < 2 ^ (l + 1) -> Double.ilog2 q = l.
Proof.
  intros H1 H2.
  assert (Hq : 0 < q) by (eapply Qlt_le_trans; [apply (pow2_pos l)|exact H1]).
  destruct (ilog2_spec q Hq) as [K1 K2].
  assert (L1 : (l < Double.ilog2 q + 1)%Z).
  { apply pow2_lt_inv. eapply Qle_lt_trans; eassumption. }
  assert (L2 : (Double.ilog2 q < l + 1)%Z).
  { apply pow2_lt_inv. eapply Qle_lt_trans; eassumption. }
  lia.
Qed.

Lemma ilog2_monotone (q1 q2 : Q) :
  0 < q1 -> q1 <= q2 -> (Double.ilog2 q1 <= Double.ilog2 q2)%Z.
Proof.
  intros H1 H2.
  assert (Hq2 : 0 < q2) by (eapply Qlt_le_trans; eassumption).
  destruct (ilog2_spec q1 H1) as [A1 _]. destruct (ilog2_spec q2 Hq2) as [_ B2].
  assert (L : (Double.ilog2 q1 < Double.ilog2 q2 + 1)%Z).
  { apply pow2_lt_inv. eapply Qle_lt_trans; [exact A1|].
    eapply Qle_lt_trans; eassumption. }
  lia.
Qed.

Lemma ilog2_comp (q1 q2 : Q) : 0 < q1 -> q1 == q2 -> Double.ilog2 q1 = Double.ilog2 q2.
Proof.
  intros H E. destruct (ilog2_spec q1 H) as [A B].
  symmetry. apply ilog2_unique; rewrite <- E; assumption.
Qed.

(* ================================================================= *)
(** ** Rounding to the nearest integer *)

Lemma roundHalfEven_bounds (x : Q) :
  (Qfloor x <= Double.roundHalfEven x <= Qfloor x + 1)%Z.
Proof.
  unfold Double.roundHalfEven.
  destruct (Qcompare _ _); [destruct (Z.even _)| |]; lia.
Qed.

Lemma roundHalfEven_Z (n : Z) : Double.roundHalfEven (inject_Z n) = n.
Proof.
  unfold Double.roundHalfEven. rewrite Qfloor_Z.
  assert (E : inject_Z n - inject_Z n == 0) by ring.
  rewrite (Qcompare_comp _ _ E (1 # 2) (1 # 2) (Qeq_refl _)). reflexivity.
Qed.

Lemma roundHalfEven_monotone (x y : Q) :
  x <= y -> (Double.roundHalfEven x <= Double.roundHalfEven y)%Z.
Proof.
  intro H. pose proof (Qfloor_resp_le x y H) as Hf.
  pose proof (roundHalfEven_bounds x) as Bx. pose proof (roundHalfEven_bounds y) as By_.
  destruct (Z.eq_dec (Qfloor x) (Qfloor y)) as [E|E]; [|lia].
  unfold Double.roundHalfEven. rewrite <- E.
  destruct (Qcompare_spec (x - inject_Z (Qfloor x)) (1 # 2)) as [Cx|Cx|Cx];
    destruct (Qcompare_spec (y - inject_Z (Qfloor x)) (1 # 2)) as [Cy|Cy|Cy];
    try destruct (Z.even (Qfloor x)); try lia; exfalso; lra.
Qed.

Lemma roundHalfEven_comp (x y : Q) : x == y -> Double.roundHalfEven x = Double.roundHalfEven y.
Proof.
  intro E. unfold Double.roundHalfEven. rewrite (Qfloor_comp _ _ E).
  assert (E' : x - inject_Z (Qfloor y) == y - inject_Z (Qfloor y)) by (rewrite E; reflexivity).
  rewrite (Qcompare_comp _ _ E' (1 # 2) (1 # 2) (Qeq_refl _)). reflexivity.
Qed.

Lemma roundHalfEven_nonneg (x : Q) : 0 <= x -> (0 <= Double.roundHalfEven x)%Z.
Proof.
  intro H. pose proof (roundHalfEven_bounds x) as B.
  assert (0 <= Qfloor x)%Z by (change 0%Z with (Qfloor 0); apply Qfloor_resp_le, H).
  lia.
Qed.

(* ================================================================= *)
(** ** Mantissas *)

Lemma digits2_pos_spec (m : positive) :
  (2 ^ (Zpos (digits2_pos m) - 1) <= Zpos m < 2 ^ Zpos (digits2_pos m))%Z.
Proof.
  induction m as [m IH|m IH|]; cbn [digits2_pos].
  - rewrite Pos2Z.inj_succ.
    replace (Z.succ (Zpos (digits2_pos m)) - 1)%Z with (Zpos (digits2_pos m) - 1 + 1)%Z by lia.
    rewrite Z.pow_succ_r by lia.
    rewrite Z.pow_add_r by lia. change (2 ^ 1)%Z with 2%Z. lia.
  - rewrite Pos2Z.inj_succ.
    replace (Z.succ (Zpos (digits2_pos m)) - 1)%Z with (Zpos (digits2_pos m) - 1 + 1)%Z by lia.
    rewrite Z.pow_succ_r by lia.
    rewrite Z.pow_add_r by lia. change (2 ^ 1)%Z with 2%Z. lia.
  - cbn. lia.
Qed.

Lemma digits2_pos_unique (m : positive) (d : Z) :
  (2 ^ (d - 1) <= Zpos m < 2 ^ d)%Z -> (0 < d)%Z -> Zpos (digits2_pos m) = d.
Proof.
  intros [H1 H2] Hd. destruct (digits2_pos_spec m) as [K1 K2].
  assert (L1 : (d - 1 < Zpos (digits2_pos m))%Z).
  { apply (Z.pow_lt_mono_r_iff 2); lia. }
  assert (L2 : (Zpos (digits2_pos m) - 1 < d)%Z).
  { apply (Z.pow_lt_mono_r_iff 2); lia. }
  lia.
Qed.

(** A double's finite value is below [2^1024]. *)
Lemma bounded_value (m : positive) (e : Z) :
  bounded Double.prec Double.emax m e = true ->
  inject_Z (Zpos m) * 2 ^ e < 2 ^ Double.emax.
Proof.
  unfold bounded, canonical_mantissa, fexp, SpecFloat.emin, Double.prec, Double.emax.
  intro H. apply andb_true_iff in H. destruct H as [Hc He].
  apply Z.eqb_eq in Hc. apply Z.leb_le in He.
  destruct (digits2_pos_spec m) as [_ Hm].
  set (d := Zpos (digits2_pos m)) in *.
  assert (Hd : (d <= 53)%Z) by lia.
  assert (Hm' : inject_Z (Zpos m) < 2 ^ 53).
  { rewrite <- pow2_inject by lia. rewrite <- Zlt_Qlt.
    eapply Z.lt_le_trans; [exact Hm|]. apply Z.pow_le_mono_r; lia. }
  apply Qlt_le_trans with (2 ^ 53 * 2 ^ e).
  - apply scale_lt, Hm'.
  - rewrite <- pow2_add. apply pow2_le. lia.
Qed.

(** What [pack] makes of a mantissa as rounding yields them. *)
Lemma pack_spec (s : bool) (m e : Z) :
  (0 <= m <= 2 ^ 53)%Z ->
  (Double.emin <= e)%Z ->
  (Double.emin < e -> 2 ^ 52 <= m)%Z ->
  let v := inject_Z m * 2 ^ e in
  (m = 0%Z /\ Double.pack s m e = S754_zero s)
  \/ (exists m' e', Double.pack s m e = S754_finite s m' e' /\
                    inject_Z (Zpos m') * 2 ^ e' == v /\
                    bounded Double.prec Double.emax m' e' = true)
  \/ (Double.pack s m e = S754_infinity s /\ 2 ^ Double.emax <= v).
Proof.
  intros Hm He Hn v. unfold Double.pack, Double.prec, Double.emax, Double.emin in *.
  change (53 - 1)%Z with 52%Z. change (1024 - 53)%Z with 971%Z.
  destruct (m =? 2 ^ 53)%Z eqn:E53.
  - apply Z.eqb_eq in E53.
    assert (Ev : 2 ^ 52 * 2 ^ (e + 1) == v).
    { unfold v. rewrite E53. rewrite pow2_inject by lia. rewrite <- !pow2_add.
      replace (52 + (e + 1))%Z with (53 + e)%Z by lia. reflexivity. }
    change (2 ^ 52)%Z with (Zpos (2 ^ 52)%positive).
    destruct (e + 1 <=? 971)%Z eqn:Ee.
    + right. left. apply Z.leb_le in Ee. exists (2 ^ 52)%positive, (e + 1)%Z.
      split; [reflexivity|]. split.
      * rewrite <- Ev. reflexivity.
      * unfold bounded, canonical_mantissa, fexp, SpecFloat.emin.
        apply andb_true_iff. split; [|apply Z.leb_le; lia].
        apply Z.eqb_eq. change (Zpos (digits2_pos (2 ^ 52))) with 53%Z. lia.
    + right. right. apply Z.leb_gt in Ee. split; [reflexivity|].
      rewrite <- Ev. rewrite <- pow2_add. apply pow2_le. lia.
  - apply Z.eqb_neq in E53.
    destruct m as [|p|p]; [left; split; reflexivity| |lia].
    assert (Hp : (Zpos p < 2 ^ 53)%Z) by lia.
    destruct (e <=? 971)%Z eqn:Ee.
    + right. left. apply Z.leb_le in Ee. exists p, e.
      split; [reflexivity|]. split; [reflexivity|].
      unfold bounded, canonical_mantissa, fexp, SpecFloat.emin.
      apply andb_true_iff. split; [|apply Z.leb_le; lia].
      apply Z.eqb_eq.
      destruct (Z.eq_dec e (-1074)) as [E|E].
      * destruct (digits2_pos_spec p) as [K1 _].
        assert (Zpos (digits2_pos p) <= 53)%Z.
        { destruct (Z.le_gt_cases (Zpos (digits2_pos p)) 53) as [L|L]; [exact L|].
          exfalso. assert (2 ^ 53 <= 2 ^ (Zpos (digits2_pos p) - 1))%Z
            by (apply Z.pow_le_mono_r; lia). lia. }
        lia.
      * assert (H52 : (2 ^ 52 <= Zpos p)%Z) by (apply Hn; lia).
        rewrite (digits2_pos_unique p 53); [lia| |lia].
        change (53 - 1)%Z with 52%Z. lia.
    + right. right. apply Z.leb_gt in Ee. split; [reflexivity|].
      assert (H52 : (2 ^ 52 <= Zpos p)%Z) by (apply Hn; lia).
      unfold v. apply Qle_trans with (2 ^ 52 * 2 ^ e).
      * rewrite <- pow2_add. apply pow2_le. lia.
      * apply scale_le. rewrite <- pow2_inject by lia. rewrite <- Zle_Qle. exact H52.
Qed.

(** The mantissa that rounding a positive rational yields. *)
Lemma nearest_mantissa (q : Q) :
  0 < q ->
  let e := Double.exponentAt (Double.ilog2 q) in
  let m := Double.roundHalfEven (q * 2 ^ (- e)) in
  (0 <= m <= 2 ^ 53)%Z /\ (Double.emin <= e)%Z /\ (Double.emin < e -> 2 ^ 52 <= m)%Z.
Proof.
  intros Hq e m. destruct (ilog2_spec q Hq) as [L1 L2].
  set (l := Double.ilog2 q) in *.
  assert (He : (l - 52 <= e)%Z /\ (Double.emin <= e)%Z)
    by (unfold e, Double.exponentAt, Double.prec, Double.emin; lia).
  split; [split|split].
  - apply roundHalfEven_nonneg. apply Qmult_le_0_compat; apply Qlt_le_weak;
      [exact Hq|apply pow2_pos].
  - rewrite <- (roundHalfEven_Z (2 ^ 53)). apply roundHalfEven_monotone.
    rewrite pow2_inject by lia.
    apply Qle_trans with (2 ^ (l + 1) * 2 ^ (- e)).
    + apply scale_le, Qlt_le_weak, L2.
    + rewrite <- pow2_add. apply pow2_le. lia.
  - apply He.
  - intro Hn.
    assert (Ee : e = (l - 52)%Z)
      by (unfold e, Double.exponentAt, Double.prec, Double.emin in *; lia).
    rewrite <- (roundHalfEven_Z (2 ^ 52)). apply roundHalfEven_monotone.
    rewrite pow2_inject by lia.
    apply Qle_trans with (2 ^ l * 2 ^ (- e)).
    + rewrite <- pow2_add. apply pow2_le. lia.
    + apply scale_le, L1.
Qed.

(** The value rounding yields, before the largest exponent cuts it off. *)
Lemma nearest_value_monotone (q1 q2 : Q) :
  0 < q1 -> q1 <= q2 ->
  let e1 := Double.exponentAt (Double.ilog2 q1) in
  let e2 := Double.exponentAt (Double.ilog2 q2) in
  inject_Z (Double.roundHalfEven (q1 * 2 ^ (- e1))) * 2 ^ e1
  <= inject_Z (Double.roundHalfEven (q2 * 2 ^ (- e2))) * 2 ^ e2.
Proof.
  intros H1 H12 e1 e2.
  assert (H2 : 0 < q2) by (eapply Qlt_le_trans; eassumption).
  destruct (nearest_mantissa q1 H1) as ([_ A1] & A2 & _).
  destruct (nearest_mantissa q2 H2) as (_ & B2 & B3).
  fold e1 in A1, A2. fold e2 in B2, B3.
  pose proof (ilog2_monotone q1 q2 H1 H12) as Hl.
  assert (He : (e1 <= e2)%Z) by (unfold e1, e2, Double.exponentAt; lia).
  destruct (Z.eq_dec e1 e2) as [E|E].
  - rewrite <- E. apply scale_le. rewrite <- Zle_Qle.
    apply roundHalfEven_monotone, scale_le, H12.
  - apply Qle_trans with (2 ^ 53 * 2 ^ e1).
    { apply scale_le. rewrite <- (pow2_inject 53) by lia. rewrite <- Zle_Qle. exact A1. }
    apply Qle_trans with (2 ^ 52 * 2 ^ e2).
    { rewrite <- !pow2_add. apply pow2_le. lia. }
    apply scale_le. rewrite <- (pow2_inject 52) by lia. rewrite <- Zle_Qle.
    apply B3. unfold Double.emin in *. lia.
Qed.

(* ================================================================= *)
(** ** Rounding keeps the order *)

Lemma rounded_nonneg (q : Q) : 0 < q -> 0 <= Double.rounded q.
Proof.
  intro H. unfold Double.rounded. cbv zeta.
  destruct (nearest_mantissa q H) as ([A _] & _).
  apply Qmult_le_0_compat; [|apply Qlt_le_weak, pow2_pos].
  change 0 with (inject_Z 0). rewrite <- Zle_Qle. exact A.
Qed.

Lemma rounded_monotone (q1 q2 : Q) :
  0 < q1 -> q1 <= q2 -> Double.rounded q1 <= Double.rounded q2.
Proof. apply nearest_value_monotone. Qed.

(** The double nearest to a positive rational: never NaN, a double, and on
    the extended line the rounded value cut off at [2^1024]. *)
Lemma nearest_spec (s : bool) (q : Q) :
  0 < q ->
  Double.isNaN (Double.nearest s q) = false
  /\ Double.isDouble (Double.nearest s q) = true
  /\ Double.sign (Double.nearest s q) = s
  /\ Double.extended (Double.nearest s q)
     == (if s then - Qmin (Double.rounded q) (2 ^ Double.emax)
         else Qmin (Double.rounded q) (2 ^ Double.emax)).
Proof.
  intro H. unfold Double.nearest, Double.rounded. cbv zeta.
  destruct (nearest_mantissa q H) as (A & B & C).
  set (e := Double.exponentAt (Double.ilog2 q)) in *.
  set (m := Double.roundHalfEven (q * 2 ^ (- e))) in *.
  destruct (pack_spec s m e A B C) as [[E0 Ep]|[(m' & e' & Ep & Ev & Eb)|[Ep Ev]]];
    rewrite Ep.
  - split; [reflexivity|]. split; [reflexivity|]. split; [reflexivity|].
    cbn [Double.extended Double.toQ]. rewrite E0.
    assert (Ez : inject_Z 0 * 2 ^ e == 0) by (change (inject_Z 0) with 0; ring).
    destruct s; rewrite Ez, Q.min_l by (apply Qlt_le_weak, pow2_pos); reflexivity.
  - split; [reflexivity|]. split; [exact Eb|]. split; [reflexivity|].
    cbn [Double.extended Double.toQ].
    pose proof (bounded_value m' e' Eb) as Hb. rewrite Ev in Hb.
    destruct s; rewrite Q.min_l by (apply Qlt_le_weak, Hb); rewrite <- Ev; ring.
  - split; [reflexivity|]. split; [reflexivity|]. split; [reflexivity|].
    cbn [Double.extended]. destruct s; rewrite Q.min_r by exact Ev; reflexivity.
Qed.

Lemma round_spec (q : Q) :
  Double.isNaN (Double.round q) = false
  /\ Double.isDouble (Double.round q) = true
  /\ Double.extended (Double.round q)
     == match Qcompare q 0 with
        | Eq => 0
        | Gt => Qmin (Double.rounded q) (2 ^ Double.emax)
        | Lt => - Qmin (Double.rounded (- q)) (2 ^ Double.emax)
        end.
Proof.
  unfold Double.round. destruct (Qcompare_spec q 0) as [E|L|G].
  - split; [reflexivity|]. split; reflexivity.
  - assert (H : 0 < - q) by lra.
    destruct (nearest_spec true (- q) H) as (A & B & _ & C).
    split; [exact A|]. split; [exact B|exact C].
  - destruct (nearest_spec false q G) as (A & B & _ & C).
    split; [exact A|]. split; [exact B|exact C].
Qed.

(** On doubles the order is the order on the extended line. *)
Lemma leb_extended (x y : Double.t) :
  Double.isNaN x = false -> Double.isNaN y = false ->
  Double.isDouble x = true -> Double.isDouble y = true ->
  (Double.leb x y = true <-> Double.extended x <= Double.extended y).
Proof.
  intros Nx Ny Dx Dy.
  assert (HB : 0 < 2 ^ Double.emax) by apply pow2_pos.
  assert (Hfin : forall z, Double.isDouble z = true ->
                   match z with
                   | S754_infinity _ | S754_nan => True
                   | _ => - 2 ^ Double.emax < Double.toQ z /\ Double.toQ z < 2 ^ Double.emax
                   end).
  { intros z Dz. destruct z as [s|s| |s m e]; try exact I.
    - cbn. lra.
    - cbn [Double.toQ]. pose proof (bounded_value m e Dz) as Hb.
      assert (0 < inject_Z (Zpos m) * 2 ^ e).
      { apply Qmult_lt_0_compat; [reflexivity|apply pow2_pos]. }
      destruct s; lra. }
  pose proof (Hfin x Dx) as Fx. pose proof (Hfin y Dy) as Fy.
  unfold Double.leb, Double.compare.
  destruct x as [sx|sx| |sx mx ex]; try discriminate Nx;
    destruct y as [sy|sy| |sy my ey]; try discriminate Ny;
    cbn [Double.extended] in *;
    try (destruct sx; split; intro K; try reflexivity; try discriminate K; lra);
    try (destruct sy; split; intro K; try reflexivity; try discriminate K; lra);
    try (destruct sx, sy; split; intro K; try reflexivity; try discriminate K; lra);
    try (destruct (Qcompare_spec (Double.toQ (S754_zero sx)) (Double.toQ (S754_zero sy)));
         split; intro K; try reflexivity; try discriminate K; lra);
    match goal with
    | |- context [Qcompare ?a ?b] =>
        destruct (Qcompare_spec a b); split; intro K;
        try reflexivity; try discriminate K; lra
    end.
Qed.

(** Rounding to nearest keeps the order of the exact results. *)
Lemma rounding_monotone (q1 q2 : Q) :
  q1 <= q2 -> Double.leb (Double.round q1) (Double.round q2) = true.
Proof.
  intro H.
  destruct (round_spec q1) as (N1 & D1 & E1). destruct (round_spec q2) as (N2 & D2 & E2).
  apply leb_extended; try assumption. rewrite E1, E2.
  assert (HB : 0 < 2 ^ Double.emax) by apply pow2_pos.
  assert (Hmin : forall q, 0 < q -> 0 <= Qmin (Double.rounded q) (2 ^ Double.emax)).
  { intros q Hq. apply Q.min_glb; [apply rounded_nonneg, Hq|lra]. }
  assert (Hmono : forall a b, 0 < a -> a <= b ->
             Qmin (Double.rounded a) (2 ^ Double.emax)
             <= Qmin (Double.rounded b) (2 ^ Double.emax)).
  { intros a b Ha Hab. apply Q.min_le_compat_r, rounded_monotone; assumption. }
  destruct (Qcompare_spec q1 0) as [A|A|A]; destruct (Qcompare_spec q2 0) as [B|B|B];
    try lra.
  - apply Hmin, B.
  - assert (0 <= Qmin (Double.rounded (- q1)) (2 ^ Double.emax)) by (apply Hmin; lra). lra.
  - assert (Qmin (Double.rounded (- q2)) (2 ^ Double.emax)
            <= Qmin (Double.rounded (- q1)) (2 ^ Double.emax)) by (apply Hmono; lra).
    lra.
  - assert (0 <= Qmin (Double.rounded (- q1)) (2 ^ Double.emax)) by (apply Hmin; lra).
    assert (0 <= Qmin (Double.rounded q2) (2 ^ Double.emax)) by (apply Hmin; lra).
    lra.
  - apply Hmono; assumption.
Qed.

(* ================================================================= *)
(** ** Signs and comparisons of doubles *)

Lemma toQ_finite_pos (m : positive) (e : Z) : 0 < Double.toQ (S754_finite false m e).
Proof. cbn. apply Qmult_lt_0_compat; [reflexivity|apply pow2_pos]. Qed.

Lemma toQ_finite_neg (m : positive) (e : Z) : Double.toQ (S754_finite true m e) < 0.
Proof.
  cbn. assert (0 < inject_Z (Zpos m) * 2 ^ e)
    by (apply Qmult_lt_0_compat; [reflexivity|apply pow2_pos]).
  lra.
Qed.

Lemma pack_sign (s : bool) (m e : Z) :
  match Double.pack s m e with
  | S754_zero s' | S754_infinity s' | S754_finite s' _ _ => s' = s
  | S754_nan => False
  end.
Proof.
  unfold Double.pack. destruct (m =? 2 ^ Double.prec)%Z.
  - cbn. destruct (_ <=? _)%Z; reflexivity.
  - destruct m; [reflexivity| |reflexivity]. destruct (_ <=? _)%Z; reflexivity.
Qed.

Lemma pack_nonNegative (m e : Z) : Double.nonNegative (Double.pack false m e) = true.
Proof.
  pose proof (pack_sign false m e) as H.
  destruct (Double.pack false m e); try (rewrite H); try reflexivity. destruct H.
Qed.

Lemma round_pos (q : Q) : 0 < q -> Double.round q = Double.nearest false q.
Proof.
  intro H. unfold Double.round. destruct (Qcompare_spec q 0); [lra|lra|reflexivity].
Qed.

Lemma round_neg (q : Q) : q < 0 -> Double.round q = Double.nearest true (- q).
Proof.
  intro H. unfold Double.round. destruct (Qcompare_spec q 0); [lra|reflexivity|lra].
Qed.

Lemma round_nonNegative (q : Q) : 0 <= q -> Double.nonNegative (Double.round q) = true.
Proof.
  intro H. unfold Double.round. destruct (Qcompare_spec q 0); [reflexivity|lra|].
  apply pack_nonNegative.
Qed.

Lemma round_notNaN (q : Q) : Double.isNaN (Double.round q) = false.
Proof. apply round_spec. Qed.

(** The numbers not below 0 are the non-negative ones. *)
Lemma leb_zero (x : Double.t) : Double.leb Double.zero x = Double.nonNegative x.
Proof.
  destruct x as [s|s| |s m e].
  - reflexivity.
  - destruct s; reflexivity.
  - reflexivity.
  - unfold Double.leb, Double.compare, Double.zero.
    destruct s; cbn [Double.nonNegative negb].
    + pose proof (toQ_finite_neg m e).
      destruct (Qcompare_spec (Double.toQ (S754_zero false)) (Double.toQ (S754_finite true m e)));
        cbn [Double.toQ] in *; try reflexivity; lra.
    + pose proof (toQ_finite_pos m e).
      destruct (Qcompare_spec (Double.toQ (S754_zero false)) (Double.toQ (S754_finite false m e)));
        cbn [Double.toQ] in *; try reflexivity; lra.
Qed.

Lemma compare_antisym (x y : Double.t) :
  Double.compare y x = option_map CompOpp (Double.compare x y).
Proof.
  unfold Double.compare.
  destruct x as [sx|sx| |sx mx ex], y as [sy|sy| |sy my ey]; try reflexivity;
    try (destruct sx; reflexivity); try (destruct sy; reflexivity);
    try (destruct sx, sy; reflexivity);
    cbn [option_map]; f_equal; symmetry; apply Qcompare_antisym.
Qed.

Lemma leb_not_ltb (x y : Double.t) : Double.leb x y = true -> Double.ltb y x = false.
Proof.
  unfold Double.leb, Double.ltb. rewrite (compare_antisym x y).
  destruct (Double.compare x y) as [[| |]|]; cbn; intro H; try reflexivity; discriminate H.
Qed.

Lemma ltb_leb (x y : Double.t) : Double.ltb x y = true -> Double.leb x y = true.
Proof.
  unfold Double.leb, Double.ltb.
  destruct (Double.compare x y) as [[| |]|]; intro H; try reflexivity; discriminate H.
Qed.

Lemma leb_notNaN (x y : Double.t) :
  Double.leb x y = true -> Double.isNaN x = false /\ Double.isNaN y = false.
Proof.
  unfold Double.leb, Double.compare.
  destruct x, y; intro H; try discriminate H; split; reflexivity.
Qed.

(** Between zeros and finite values the order is the order of the values. *)
Lemma leb_value (x y : Double.t) :
  match x, y with
  | (S754_zero _ | S754_finite _ _ _), (S754_zero _ | S754_finite _ _ _) =>
      Double.leb x y = true <-> Double.toQ x <= Double.toQ y
  | _, _ => True
  end.
Proof.
  destruct x as [sx|sx| |sx mx ex], y as [sy|sy| |sy my ey]; try exact I;
    unfold Double.leb, Double.compare;
    match goal with
    | |- context [Qcompare ?a ?b] =>
        destruct (Qcompare_spec a b); split; intro K;
        try reflexivity; try discriminate K; lra
    end.
Qed.

Lemma ltb_value (x y : Double.t) :
  match x, y with
  | (S754_zero _ | S754_finite _ _ _), (S754_zero _ | S754_finite _ _ _) =>
      Double.ltb x y = true <-> Double.toQ x < Double.toQ y
  | _, _ => True
  end.
Proof.
  destruct x as [sx|sx| |sx mx ex], y as [sy|sy| |sy my ey]; try exact I;
    unfold Double.ltb, Double.compare;
    match goal with
    | |- context [Qcompare ?a ?b] =>
        destruct (Qcompare_spec a b); split; intro K;
        try reflexivity; try discriminate K; lra
    end.
Qed.

Lemma leb_trans (x y z : Double.t) :
  Double.leb x y = true -> Double.leb y z = true -> Double.leb x z = true.
Proof.
  intros H1 H2.
  destruct x as [sx|sx| |sx mx ex], y as [sy|sy| |sy my ey], z as [sz|sz| |sz mz ez];
    try discriminate H1; try discriminate H2; try reflexivity;
    try (destruct sx; try discriminate H1; reflexivity);
    try (destruct sz; try discriminate H2; reflexivity);
    try (destruct sy; try discriminate H1; try discriminate H2; fail);
    try (destruct sx, sy; try discriminate H1; destruct sz; try discriminate H2; reflexivity);
    try (destruct sx, sz; try discriminate H1; try discriminate H2; reflexivity);
    try (destruct sy, sz; try discriminate H1; try discriminate H2; reflexivity);
    match goal with
    | |- Double.leb ?a ?c = true =>
        apply (leb_value a c);
        match type of H1 with Double.leb _ ?b = true =>
          apply (leb_value a b) in H1; apply (leb_value b c) in H2; lra
        end
    end.
Qed.

(* ================================================================= *)
(** ** Rounding a double's own value *)

(** A double is the nearest double to its value. *)
Lemma round_toQ (s : bool) (m : positive) (e : Z) :
  Double.isDouble (S754_finite s m e) = true ->
  Double.round (Double.toQ (S754_finite s m e)) = S754_finite s m e.
Proof.
  unfold Double.isDouble, valid_binary, bounded, canonical_mantissa, fexp, SpecFloat.emin.
  unfold Double.prec, Double.emax.
  intro H. apply andb_true_iff in H. destruct H as [Hc He].
  apply Z.eqb_eq in Hc. apply Z.leb_le in He.
  destruct (digits2_pos_spec m) as [D1 D2].
  set (d := Zpos (digits2_pos m)) in *.
  assert (Hd : (0 < d)%Z) by (unfold d; lia).
  set (v := inject_Z (Zpos m) * 2 ^ e).
  assert (Hv : 0 < v) by (apply Qmult_lt_0_compat; [reflexivity|apply pow2_pos]).
  assert (Hl : Double.ilog2 v = (d - 1 + e)%Z).
  { apply ilog2_unique; unfold v.
    - rewrite pow2_add. apply scale_le.
      rewrite <- pow2_inject by lia. rewrite <- Zle_Qle. exact D1.
    - replace (d - 1 + e + 1)%Z with (d + e)%Z by lia. rewrite pow2_add. apply scale_lt.
      rewrite <- pow2_inject by lia. rewrite <- Zlt_Qlt. exact D2. }
  assert (Hx : Double.exponentAt (Double.ilog2 v) = e).
  { rewrite Hl. unfold Double.exponentAt, Double.prec, Double.emin. lia. }
  assert (Hm : Double.roundHalfEven (v * 2 ^ (- e)) = Zpos m).
  { rewrite <- (roundHalfEven_Z (Zpos m)). apply roundHalfEven_comp.
    unfold v. rewrite <- Qmult_assoc, pow2_cancel. ring. }
  assert (Hn : Double.nearest s v = S754_finite s m e).
  { unfold Double.nearest. rewrite Hx, Hm. unfold Double.pack, Double.prec, Double.emax.
    assert (E : (Zpos m =? 2 ^ 53)%Z = false).
    { apply Z.eqb_neq. intro K. rewrite K in D2.
      assert (d <= 53)%Z by lia.
      assert (2 ^ d <= 2 ^ 53)%Z by (apply Z.pow_le_mono_r; lia). lia. }
    rewrite E. change (1024 - 53)%Z with 971%Z.
    assert (He' : (e <=? 971)%Z = true) by (apply Z.leb_le; lia).
    rewrite He'. reflexivity. }
  destruct s; cbn [Double.toQ]; fold v.
  - assert (Hneg : - inject_Z (Zpos m) * 2 ^ e == - v) by (unfold v; ring).
    assert (Hlt : - inject_Z (Zpos m) * 2 ^ e < 0) by lra.
    rewrite (round_neg _ Hlt).
    assert (Ec : - (- inject_Z (Zpos m) * 2 ^ e) == v) by (unfold v; ring).
    unfold Double.nearest in *.
    rewrite (ilog2_comp _ v) by (try exact Ec; lra).
    rewrite Hx in *.
    rewrite (roundHalfEven_comp _ (v * 2 ^ (- e))) by (rewrite Ec; reflexivity).
    exact Hn.
  - rewrite (round_pos _ Hv). exact Hn.
Qed.

(** Rounding does not depend on the fraction that stands for the value. *)
Lemma round_comp (q1 q2 : Q) : q1 == q2 -> Double.round q1 = Double.round q2.
Proof.
  intro E. unfold Double.round.
  rewrite (Qcompare_comp _ _ E 0 0 (Qeq_refl 0)).
  destruct (Qcompare_spec q2 0) as [A|A|A]; [reflexivity| |].
  - unfold Double.nearest.
    assert (E' : - q1 == - q2) by (rewrite E; reflexivity).
    rewrite (ilog2_comp (- q1) (- q2)) by (try exact E'; lra).
    rewrite (roundHalfEven_comp (- q1 * _) (- q2 * 2 ^ (- Double.exponentAt (Double.ilog2 (- q2)))))
      by (rewrite E'; reflexivity).
    reflexivity.
  - unfold Double.nearest.
    rewrite (ilog2_comp q1 q2) by (try exact E; lra).
    rewrite (roundHalfEven_comp (q1 * _) (q2 * 2 ^ (- Double.exponentAt (Double.ilog2 q2))))
      by (rewrite E; reflexivity).
    reflexivity.
Qed.

(* ================================================================= *)
(** ** The operations on numbers that are not negative *)

Lemma ltb_zero (x : Double.t) :
  Double.ltb x Double.zero = negb (Double.isNaN x || Double.nonNegative x).
Proof.
  destruct x as [s|s| |s m e].
  - reflexivity.
  - destruct s; reflexivity.
  - reflexivity.
  - unfold Double.ltb, Double.compare, Double.zero.
    destruct s; cbn [Double.isNaN Double.nonNegative negb orb].
    + pose proof (toQ_finite_neg m e).
      destruct (Qcompare_spec (Double.toQ (S754_finite true m e)) (Double.toQ (S754_zero false)));
        cbn [Double.toQ] in *; try reflexivity; lra.
    + pose proof (toQ_finite_pos m e).
      destruct (Qcompare_spec (Double.toQ (S754_finite false m e)) (Double.toQ (S754_zero false)));
        cbn [Double.toQ] in *; try reflexivity; lra.
Qed.

Lemma toQ_opp (x : Double.t) : Double.toQ (Double.opp x) == - Double.toQ x.
Proof.
  destruct x as [s|s| |s m e]; cbn [Double.opp SFopp Double.toQ]; try reflexivity.
  destruct s; cbn [negb]; ring.
Qed.

Lemma add_nonNegative (x y : Double.t) :
  Double.nonNegative x = true -> Double.nonNegative y = true ->
  Double.nonNegative (Double.add x y) = true.
Proof.
  destruct x as [sx|sx| |sx mx ex], y as [sy|sy| |sy my ey]; cbn [Double.nonNegative];
    intros Hx Hy; try discriminate Hx; try discriminate Hy;
    try (apply negb_true_iff in Hx; subst sx); try (apply negb_true_iff in Hy; subst sy);
    try reflexivity.
  unfold Double.add. apply round_nonNegative.
  pose proof (toQ_finite_pos mx ex). pose proof (toQ_finite_pos my ey). lra.
Qed.

Lemma mul_nonNegative (x y : Double.t) :
  Double.nonNegative x = true -> Double.nonNegative y = true ->
  Double.isNaN (Double.mul x y) = true \/ Double.nonNegative (Double.mul x y) = true.
Proof.
  destruct x as [sx|sx| |sx mx ex], y as [sy|sy| |sy my ey]; cbn [Double.nonNegative];
    intros Hx Hy; try discriminate Hx; try discriminate Hy;
    try (apply negb_true_iff in Hx; subst sx); try (apply negb_true_iff in Hy; subst sy);
    try (left; reflexivity); try (right; reflexivity).
  right. unfold Double.mul. apply round_nonNegative.
  pose proof (toQ_finite_pos mx ex). pose proof (toQ_finite_pos my ey). nra.
Qed.

(** A product with a positive finite factor. *)
Lemma mul_nonNegative_finite (x : Double.t) (m : positive) (e : Z) :
  Double.nonNegative x = true ->
  Double.nonNegative (Double.mul x (S754_finite false m e)) = true.
Proof.
  intro Hx. destruct (mul_nonNegative x (S754_finite false m e) Hx eq_refl) as [H|H];
    [|exact H].
  destruct x as [sx|sx| |sx mx ex]; try discriminate H; try discriminate Hx.
  unfold Double.mul in H. rewrite round_notNaN in H. discriminate H.
Qed.


Lemma abs_nonNegative (x : Double.t) :
  Double.isNaN x = false -> Double.nonNegative (Double.abs x) = true.
Proof. destruct x; intro H; try discriminate H; reflexivity. Qed.

Lemma nearestSqrt_nonNegative (q : Q) : Double.nonNegative (Double.nearestSqrt q) = true.
Proof. unfold Double.nearestSqrt. apply pack_nonNegative. Qed.

Lemma sqrt_nonNegative (x : Double.t) :
  Double.nonNegative x = true -> Double.nonNegative (Double.sqrt x) = true.
Proof.
  destruct x as [s|s| |s m e]; cbn [Double.nonNegative]; intro H; try discriminate H.
  - reflexivity.
  - apply negb_true_iff in H. subst s. reflexivity.
  - apply negb_true_iff in H. subst s. cbn [Double.sqrt]. apply nearestSqrt_nonNegative.
Qed.

Lemma ofZ_nonNegative (n : Z) : (0 <= n)%Z -> Double.nonNegative (Double.ofZ n) = true.
Proof.
  intro H. apply round_nonNegative. change 0 with (inject_Z 0). rewrite <- Zle_Qle. exact H.
Qed.

Lemma integral_nonNegative (s : bool) (n : Z) :
  (0 <= n)%Z -> Double.nonNegative (Double.integral s n) = true.
Proof.
  intro H. unfold Double.integral. destruct (n =? 0)%Z; [reflexivity|].
  apply ofZ_nonNegative, H.
Qed.

Lemma roundToInteger_nonNegative (x : Double.t) :
  Double.nonNegative x = true -> Double.nonNegative (Double.roundToInteger x) = true.
Proof.
  destruct x as [s|s| |s m e]; intro H; try exact H.
  cbn [Double.nonNegative] in H. apply negb_true_iff in H. subst s.
  cbn [Double.roundToInteger]. apply integral_nonNegative.
  pose proof (toQ_finite_pos m e).
  change 0%Z with (Qfloor 0). apply Qfloor_resp_le. lra.
Qed.

Lemma ceil_nonNegative (x : Double.t) :
  Double.nonNegative x = true -> Double.nonNegative (Double.ceil x) = true.
Proof.
  destruct x as [s|s| |s m e]; intro H; try exact H.
  cbn [Double.nonNegative] in H. apply negb_true_iff in H. subst s.
  cbn [Double.ceil]. apply integral_nonNegative.
  pose proof (toQ_finite_pos m e).
  change 0%Z with (Qceiling 0). apply Qceiling_resp_le. lra.
Qed.

Lemma floor_nonNegative (x : Double.t) :
  Double.nonNegative x = true -> Double.nonNegative (Double.floor x) = true.
Proof.
  destruct x as [s|s| |s m e]; intro H; try exact H.
  cbn [Double.nonNegative] in H. apply negb_true_iff in H. subst s.
  cbn [Double.floor]. apply integral_nonNegative.
  pose proof (toQ_finite_pos m e).
  change 0%Z with (Qfloor 0). apply Qfloor_resp_le. lra.
Qed.


(** What is greater minus what is smaller is not negative. *)
Lemma sub_nonNegative (x y : Double.t) :
  Double.ltb y x = true -> Double.nonNegative (Double.sub x y) = true.
Proof.
  intro H.
  destruct x as [sx|sx| |sx mx ex], y as [sy|sy| |sy my ey];
    try discriminate H;
    try (destruct sx; try discriminate H; reflexivity);
    try (destruct sy; try discriminate H; reflexivity);
    try (destruct sx, sy; try discriminate H; reflexivity);
    match type of H with Double.ltb ?b ?a = true => apply (ltb_value b a) in H end.
  - (* zero, finite *)
    destruct sy; [reflexivity|]. pose proof (toQ_finite_pos my ey). cbn [Double.toQ] in *. lra.
  - (* finite, zero *)
    destruct sx; [|reflexivity]. pose proof (toQ_finite_neg mx ex). cbn [Double.toQ] in *. lra.
  - (* finite, finite *)
    unfold Double.sub, Double.add. cbn [Double.opp SFopp].
    apply round_nonNegative.
    pose proof (toQ_opp (S754_finite sy my ey)) as Ho. cbn [Double.opp SFopp] in Ho.
    rewrite Ho. lra.
Qed.


(* ================================================================= *)
(** ** The fuel formulas on doubles *)

Lemma calculateFuelToTravel_on_doubles (enum : ShipClass.t) (ship : Floating.IShip.t)
      (origin destination : Floating.ILocation.t) :
  let b := Spec.bracketOf enum (Floating.IShip.type ship) in
  Floating.Mentat.calculateFuelToTravel enum ship origin destination
  = (Double.roundToInteger
       (Double.roundToInteger (Floating.Mentat.calculateLocationDistance origin destination)
        * Double.lit (Spec.multiplier b))
     + Double.lit (if planetOnDoubles origin then Spec.planetPenalty b else 0)
     + Double.lit 1)%D.
Proof.
  unfold Floating.Mentat.calculateFuelToTravel, Spec.bracketOf, planetOnDoubles.
  destruct (String.eqb (Floating.IShip.type ship) (ShipClass.HM_MK_III enum));
    [destruct (String.eqb _ "PLANET"); reflexivity|].
  destruct (String.eqb (Floating.IShip.type ship) (ShipClass.GR_MK_III enum));
    [destruct (String.eqb _ "PLANET"); reflexivity|].
  destruct (String.eqb (Floating.IShip.type ship) (ShipClass.GR_MK_II enum));
    destruct (String.eqb _ "PLANET"); reflexivity.
Qed.

Lemma isFinite_notNaN (x : Double.t) : Double.isFinite x = true -> Double.isNaN x = false.
Proof. destruct x; intro H; try discriminate H; reflexivity. Qed.


Lemma multiplier_on_doubles (b : Spec.Bracket) :
  exists m e, Double.lit (Spec.multiplier b) = S754_finite false m e.
Proof. destruct b; vm_compute; eauto. Qed.

Lemma penalty_on_doubles (b : Spec.Bracket) (planet : bool) :
  Double.nonNegative (Double.lit (if planet then Spec.planetPenalty b else 0)) = true.
Proof. destruct planet; [destruct b|]; reflexivity. Qed.


(* ----------------------------------------------------------------- *)
(** *** The fuel quantity *)

(** The fuel the code finds in the cargo: the held fuel, with +0 for -0
    and for NaN. *)
Lemma currentFuel_on_doubles (ship : Floating.IShip.t) :
  Double.orZero (option_map Floating.ICargo.quantity
                   (hd_error (filter (fun c => String.eqb (Floating.ICargo.good c) "FUEL")
                                     (Floating.IShip.cargo ship))))
  = if Double.truthy (heldOnDoubles ship) then heldOnDoubles ship else Double.zero.
Proof.
  rewrite hd_error_filter. unfold heldOnDoubles.
  destruct (find _ (Floating.IShip.cargo ship)) as [c|]; reflexivity.
Qed.

(** A result of rounding that is not positive, and one that is not
    negative, next to 0. *)
Lemma max_zero_round_nonpos (q : Q) : q <= 0 -> Double.max Double.zero (Double.round q) = Double.zero.
Proof.
  intro H. unfold Double.round. destruct (Qcompare_spec q 0) as [E|L|G]; [reflexivity| |lra].
  unfold Double.nearest.
  set (e := Double.exponentAt _). set (m := Double.roundHalfEven _).
  pose proof (pack_sign true m e) as Hs.
  destruct (Double.pack true m e) as [s|s| |s m' e']; try contradiction; subst s.
  - reflexivity.
  - reflexivity.
  - unfold Double.max, Double.compare, Double.zero.
    pose proof (toQ_finite_neg m' e').
    destruct (Qcompare_spec (Double.toQ (S754_zero false)) (Double.toQ (S754_finite true m' e')));
      cbn [Double.toQ] in *; try reflexivity; lra.
Qed.

Lemma max_zero_round_pos (q : Q) : 0 < q -> Double.max Double.zero (Double.round q) = Double.round q.
Proof.
  intro H. rewrite round_pos by exact H. unfold Double.nearest.
  set (e := Double.exponentAt _). set (m := Double.roundHalfEven _).
  pose proof (pack_sign false m e) as Hs.
  destruct (Double.pack false m e) as [s|s| |s m' e']; try contradiction; subst s.
  - reflexivity.
  - reflexivity.
  - unfold Double.max, Double.compare, Double.zero.
    pose proof (toQ_finite_pos m' e').
    destruct (Qcompare_spec (Double.toQ (S754_zero false)) (Double.toQ (S754_finite false m' e')));
      cbn [Double.toQ] in *; try reflexivity; lra.
Qed.

Lemma max_zero_negative (m : positive) (e : Z) :
  Double.max Double.zero (S754_finite true m e) = Double.zero.
Proof.
  unfold Double.max, Double.compare, Double.zero.
  pose proof (toQ_finite_neg m e).
  destruct (Qcompare_spec (Double.toQ (S754_zero false)) (Double.toQ (S754_finite true m e)));
    cbn [Double.toQ] in *; try reflexivity; lra.
Qed.

Lemma max_zero_positive (m : positive) (e : Z) :
  Double.max Double.zero (S754_finite false m e) = S754_finite false m e.
Proof.
  unfold Double.max, Double.compare, Double.zero.
  pose proof (toQ_finite_pos m e).
  destruct (Qcompare_spec (Double.toQ (S754_zero false)) (Double.toQ (S754_finite false m e)));
    cbn [Double.toQ] in *; try reflexivity; lra.
Qed.

(** The missing fuel as the code takes it, 0 or the difference, is the
    greater of 0 and the difference when the held fuel is finite. *)
Lemma missing_fuel_max (held fuelToTravel : Double.t) :
  Double.isFinite held = true ->
  (if Double.geb held fuelToTravel then Double.lit 0 else (fuelToTravel - held)%D)
  = Double.max (Double.lit 0) (fuelToTravel - held)%D.
Proof.
  intro Hh. change (Double.lit 0) with Double.zero. unfold Double.geb.
  destruct held as [sh|sh| |sh mh eh]; try discriminate Hh; clear Hh;
    destruct fuelToTravel as [sf|sf| |sf mf ef].
  - destruct sh, sf; reflexivity.
  - destruct sh, sf; reflexivity.
  - reflexivity.
  - pose proof (leb_value (S754_finite sf mf ef) (S754_zero sh)) as Hv. cbv beta iota in Hv.
    replace (S754_finite sf mf ef - S754_zero sh)%D with (S754_finite sf mf ef)
      by (destruct sh; reflexivity).
    destruct sf.
    + rewrite max_zero_negative.
      pose proof (toQ_finite_neg mf ef). cbn [Double.toQ] in *.
      destruct (Double.leb _ _) eqn:E; [reflexivity|].
      assert (K : false = true) by (apply Hv; lra). discriminate K.
    + rewrite max_zero_positive.
      pose proof (toQ_finite_pos mf ef). cbn [Double.toQ] in *.
      destruct (Double.leb _ _) eqn:E; [|reflexivity].
      assert (K : inject_Z (Z.pos mf) * 2 ^ ef <= 0) by (apply Hv; reflexivity). lra.
  - pose proof (leb_value (S754_zero sf) (S754_finite sh mh eh)) as Hv. cbv beta iota in Hv.
    replace (S754_zero sf - S754_finite sh mh eh)%D with (S754_finite (negb sh) mh eh)
      by reflexivity.
    destruct sh; cbn [negb].
    + rewrite max_zero_positive.
      pose proof (toQ_finite_neg mh eh). cbn [Double.toQ] in *.
      destruct (Double.leb _ _) eqn:E; [|reflexivity].
      assert (K : 0 <= - inject_Z (Z.pos mh) * 2 ^ eh) by (apply Hv; reflexivity). lra.
    + rewrite max_zero_negative.
      pose proof (toQ_finite_pos mh eh). cbn [Double.toQ] in *.
      destruct (Double.leb _ _) eqn:E; [reflexivity|].
      assert (K : false = true) by (apply Hv; lra). discriminate K.
  - destruct sh, sf; reflexivity.
  - reflexivity.
  - pose proof (leb_value (S754_finite sf mf ef) (S754_finite sh mh eh)) as Hv.
    cbv beta iota in Hv.
    change (S754_finite sf mf ef - S754_finite sh mh eh)%D
      with (Double.round (Double.toQ (S754_finite sf mf ef)
                          + Double.toQ (Double.opp (S754_finite sh mh eh)))).
    pose proof (toQ_opp (S754_finite sh mh eh)) as Ho.
    destruct (Double.leb _ _) eqn:E.
    + symmetry. apply max_zero_round_nonpos.
      assert (K : Double.toQ (S754_finite sf mf ef) <= Double.toQ (S754_finite sh mh eh))
        by (apply Hv; reflexivity).
      rewrite Ho. lra.
    + symmetry. apply max_zero_round_pos.
      assert (K : ~ Double.toQ (S754_finite sf mf ef) <= Double.toQ (S754_finite sh mh eh))
        by (intro K; apply Hv in K; discriminate K).
      rewrite Ho. lra.
Qed.

(** The code's +0 for a held -0 changes neither the comparison nor the
    difference that is used. *)
Lemma missing_fuel_held (held fuelToTravel : Double.t) :
  Double.isFinite held = true ->
  let currentFuel := if Double.truthy held then held else Double.zero in
  (if Double.geb currentFuel fuelToTravel then Double.lit 0 else (fuelToTravel - currentFuel)%D)
  = (if Double.geb held fuelToTravel then Double.lit 0 else (fuelToTravel - held)%D).
Proof.
  intro Hh. destruct held as [sh|sh| |sh mh eh]; try discriminate Hh; [|reflexivity].
  cbn [Double.truthy]. cbv zeta. destruct sh; [|reflexivity].
  destruct fuelToTravel as [sf|sf| |sf mf ef]; try reflexivity; destruct sf; reflexivity.
Qed.

Lemma calculateFuelQuantity_on_doubles (ship : Floating.IShip.t) (fuelToTravel : Double.t)
      (margin : option Double.t) :
  Double.isFinite (heldOnDoubles ship) = true ->
  Floating.Mentat.calculateFuelQuantity ship fuelToTravel margin
  = Double.ceil (Double.max (Double.lit 0) (fuelToTravel - heldOnDoubles ship)
                 * (Double.lit 1
                    + Double.lit 0.01 * match margin with Some m => m | None => Double.lit 0 end))%D.
Proof.
  intro Hh. unfold Floating.Mentat.calculateFuelQuantity.
  rewrite currentFuel_on_doubles.
  rewrite <- (missing_fuel_max _ _ Hh), <- (missing_fuel_held _ _ Hh). reflexivity.
Qed.

(** Rounding stays between a double and its opposite. *)
Lemma round_within (q : Q) (m : positive) (e : Z) :
  Double.isDouble (S754_finite false m e) = true ->
  - Double.toQ (S754_finite false m e) <= q <= Double.toQ (S754_finite false m e) ->
  Double.isFinite (Double.round q) = true
  /\ - Double.toQ (S754_finite false m e) <= Double.toQ (Double.round q)
     <= Double.toQ (S754_finite false m e).
Proof.
  intros Hb [Hlo Hhi].
  assert (Hb' : Double.isDouble (S754_finite true m e) = true) by exact Hb.
  assert (Eo : Double.toQ (S754_finite true m e) == - Double.toQ (S754_finite false m e))
    by (cbn [Double.toQ]; ring).
  pose proof (rounding_monotone q _ Hhi) as Hu. rewrite (round_toQ _ _ _ Hb) in Hu.
  assert (Hlo' : Double.toQ (S754_finite true m e) <= q) by (rewrite Eo; exact Hlo).
  pose proof (rounding_monotone _ q Hlo') as Hl. rewrite (round_toQ _ _ _ Hb') in Hl.
  destruct (round_spec q) as (_ & Hd & _).
  pose proof (leb_value (Double.round q) (S754_finite false m e)) as Vu.
  pose proof (leb_value (S754_finite true m e) (Double.round q)) as Vl.
  destruct (Double.round q) as [s|s| |s m' e'].
  - split; [reflexivity|]. apply Vu in Hu. apply Vl in Hl. rewrite Eo in Hl. split; assumption.
  - destruct s; [discriminate Hl|discriminate Hu].
  - discriminate Hu.
  - split; [exact Hd|]. apply Vu in Hu. apply Vl in Hl. rewrite Eo in Hl. split; assumption.
Qed.

(** The value of a finite double lies within [2^1024]. *)
Lemma finite_value_bound (x : Double.t) :
  Double.isFinite x = true ->
  - 2 ^ Double.emax < Double.toQ x /\ Double.toQ x < 2 ^ Double.emax.
Proof.
  assert (HB : 0 < 2 ^ Double.emax) by apply pow2_pos.
  destruct x as [s|s| |s m e]; intro H; try discriminate H.
  - cbn [Double.toQ]. lra.
  - pose proof (bounded_value m e H) as Hv.
    assert (Hp : 0 < inject_Z (Z.pos m) * 2 ^ e) by exact (toQ_finite_pos m e).
    cbn [Double.toQ]. destruct s; lra.
Qed.

Lemma lit_hundredth : Double.lit 0.01 = S754_finite false 5764607523034235 (-59).
Proof. vm_compute. reflexivity. Qed.

Lemma lit_one : Double.lit 1 = S754_finite false 4503599627370496 (-52).
Proof. vm_compute. reflexivity. Qed.

(** A hundredth of a finite number, as the code computes it, is finite and
    within [2^1018]. *)
Lemma hundredth_finite (x : Double.t) :
  Double.isFinite x = true ->
  Double.isFinite (Double.lit 0.01 * x)%D = true
  /\ - Double.toQ (S754_finite false 4503599627370496 966)
     <= Double.toQ (Double.lit 0.01 * x)%D
     <= Double.toQ (S754_finite false 4503599627370496 966).
Proof.
  intro H. rewrite lit_hundredth.
  destruct x as [s|s| |s m e]; try discriminate H.
  - split; [reflexivity|]. cbn [Double.mul Double.toQ]. split; intro K; discriminate K.
  - destruct (finite_value_bound _ H) as [Hlo Hhi].
    change (S754_finite false 5764607523034235 (-59) * S754_finite s m e)%D
      with (Double.round (Double.toQ (S754_finite false 5764607523034235 (-59))
                          * Double.toQ (S754_finite s m e))).
    apply round_within; [reflexivity|].
    assert (Hc : 0 < Double.toQ (S754_finite false 5764607523034235 (-59)))
      by apply toQ_finite_pos.
    assert (Hk : Double.toQ (S754_finite false 5764607523034235 (-59)) * 2 ^ Double.emax
                 <= Double.toQ (S754_finite false 4503599627370496 966))
      by (vm_compute; intro K; discriminate K).
    set (c := Double.toQ (S754_finite false 5764607523034235 (-59))) in *.
    set (b := Double.toQ (S754_finite false 4503599627370496 966)) in *.
    set (v := Double.toQ (S754_finite s m e)) in *.
    set (E := 2 ^ Double.emax) in *.
    clearbody c b v E. nra.
Qed.

(** With a finite margin the factor [1 + 0.01 * margin] is finite. *)
Lemma margin_factor_finite (margin : Double.t) :
  Double.isFinite margin = true ->
  Double.isFinite (Double.lit 1 + Double.lit 0.01 * margin)%D = true.
Proof.
  intro H. destruct (hundredth_finite margin H) as [Hf [Hlo Hhi]].
  rewrite lit_one.
  destruct (Double.lit 0.01 * margin)%D as [s|s| |s m e]; try discriminate Hf.
  - reflexivity.
  - change (S754_finite false 4503599627370496 (-52) + S754_finite s m e)%D
      with (Double.round (Double.toQ (S754_finite false 4503599627370496 (-52))
                          + Double.toQ (S754_finite s m e))).
    apply (round_within _ 4503599627370496 967); [reflexivity|].
    assert (H1 : Double.toQ (S754_finite false 4503599627370496 (-52)) == 1)
      by (vm_compute; reflexivity).
    assert (H2 : 1 + Double.toQ (S754_finite false 4503599627370496 966)
                 <= Double.toQ (S754_finite false 4503599627370496 967))
      by (vm_compute; intro K; discriminate K).
    assert (H3 : 0 < Double.toQ (S754_finite false 4503599627370496 966))
      by apply toQ_finite_pos.
    rewrite H1.
    set (b := Double.toQ (S754_finite false 4503599627370496 966)) in *.
    set (b' := Double.toQ (S754_finite false 4503599627370496 967)) in *.
    set (v := Double.toQ (S754_finite s m e)) in *.
    clearbody b b' v. lra.
Qed.

(** The comparison of the code sees the held fuel. *)
Lemma geb_currentFuel (held fuelToTravel : Double.t) :
  Double.geb held fuelToTravel = true ->
  Double.geb (if Double.truthy held then held else Double.zero) fuelToTravel = true.
Proof.
  destruct held as [s|s| |s m e]; cbn [Double.truthy]; intro H.
  - destruct fuelToTravel as [sf|sf| |sf mf ef]; try exact H; destruct s; exact H.
  - exact H.
  - destruct fuelToTravel; discriminate H.
  - exact H.
Qed.

Lemma calculateFuelQuantity_covered (ship : Floating.IShip.t) (fuelToTravel : Double.t)
      (margin : option Double.t) :
  Double.geb (heldOnDoubles ship) fuelToTravel = true ->
  Double.isFinite (match margin with Some m => m | None => Double.lit 0 end) = true ->
  Double.eqb (Floating.Mentat.calculateFuelQuantity ship fuelToTravel margin) (Double.lit 0)
  = true.
Proof.
  intros Hg Hm. unfold Floating.Mentat.calculateFuelQuantity.
  rewrite currentFuel_on_doubles, (geb_currentFuel _ _ Hg).
  pose proof (margin_factor_finite _ Hm) as Hf.
  destruct (Double.lit 1 + _)%D as [s|s| |s m e]; try discriminate Hf; reflexivity.
Qed.

(** From a margin of -100 percent on the factor [1 + 0.01 * margin] is not
    negative. *)
Lemma margin_factor_nonNegative (margin : Double.t) :
  Double.leb (Double.lit (-100)) margin = true ->
  Double.nonNegative (Double.lit 1 + Double.lit 0.01 * margin)%D = true.
Proof.
  intro H. rewrite lit_one, lit_hundredth.
  assert (L : Double.lit (-100) = S754_finite true 7036874417766400 (-46))
    by (vm_compute; reflexivity).
  rewrite L in H.
  destruct margin as [s|s| |s m e]; try discriminate H.
  - destruct s; reflexivity.
  - destruct s; [discriminate H|reflexivity].
  - pose proof (leb_value (S754_finite true 7036874417766400 (-46)) (S754_finite s m e)) as Hv.
    cbv beta iota in Hv. apply Hv in H. clear Hv.
    change (S754_finite false 5764607523034235 (-59) * S754_finite s m e)%D
      with (Double.round (Double.toQ (S754_finite false 5764607523034235 (-59))
                          * Double.toQ (S754_finite s m e))).
    assert (Hc : 0 < Double.toQ (S754_finite false 5764607523034235 (-59)))
      by apply toQ_finite_pos.
    assert (Hq : Double.toQ (S754_finite false 5764607523034235 (-59))
                 * Double.toQ (S754_finite true 7036874417766400 (-46))
                 <= Double.toQ (S754_finite false 5764607523034235 (-59))
                    * Double.toQ (S754_finite s m e)).
    { set (c := Double.toQ (S754_finite false 5764607523034235 (-59))) in *.
      set (a := Double.toQ (S754_finite true 7036874417766400 (-46))) in *.
      set (v := Double.toQ (S754_finite s m e)) in *.
      clearbody c a v. nra. }
    pose proof (rounding_monotone _ _ Hq) as Hr.
    assert (E1 : Double.round (Double.toQ (S754_finite false 5764607523034235 (-59))
                               * Double.toQ (S754_finite true 7036874417766400 (-46)))
                 = S754_finite true 4503599627370496 (-52))
      by (vm_compute; reflexivity).
    rewrite E1 in Hr. clear E1 Hq H.
    pose proof (leb_value (S754_finite true 4503599627370496 (-52))
                          (Double.round (Double.toQ (S754_finite false 5764607523034235 (-59))
                                         * Double.toQ (S754_finite s m e)))) as Hv.
    destruct (Double.round _) as [s'|s'| |s' m' e'].
    + reflexivity.
    + destruct s'; [discriminate Hr|reflexivity].
    + discriminate Hr.
    + apply Hv in Hr.
      change (S754_finite false 4503599627370496 (-52) + S754_finite s' m' e')%D
        with (Double.round (Double.toQ (S754_finite false 4503599627370496 (-52))
                            + Double.toQ (S754_finite s' m' e'))).
      apply round_nonNegative.
      assert (H1 : Double.toQ (S754_finite false 4503599627370496 (-52)) == 1)
        by (vm_compute; reflexivity).
      assert (H2 : Double.toQ (S754_finite true 4503599627370496 (-52)) == - (1))
        by (vm_compute; reflexivity).
      rewrite H1. rewrite H2 in Hr. lra.
Qed.

(** The missing fuel as the code takes it is NaN or not negative. *)
Lemma missing_fuel_nonNegative (currentFuel fuelToTravel : Double.t) :
  let quantity := if Double.geb currentFuel fuelToTravel then Double.lit 0
                  else (fuelToTravel - currentFuel)%D in
  Double.isNaN quantity = true \/ Double.nonNegative quantity = true.
Proof.
  cbv zeta. unfold Double.geb. destruct (Double.leb fuelToTravel currentFuel) eqn:E.
  - right. reflexivity.
  - destruct (Double.isNaN (fuelToTravel - currentFuel)%D) eqn:N; [left; reflexivity|right].
    apply sub_nonNegative.
    unfold Double.leb in E. unfold Double.ltb.
    destruct fuelToTravel as [sf|sf| |sf mf ef], currentFuel as [sc|sc| |sc mc ec];
      try discriminate N;
      try (destruct sf, sc; try discriminate E; try discriminate N; reflexivity);
      try (destruct sf; try discriminate E; reflexivity);
      try (destruct sc; try discriminate E; reflexivity);
      unfold Double.compare in *;
      match goal with
      | |- context [Qcompare ?a ?b] =>
          rewrite <- (Qcompare_antisym b a);
          destruct (Qcompare b a); try discriminate E; reflexivity
      end.
Qed.

Lemma calculateFuelQuantity_not_negative (ship : Floating.IShip.t) (fuelToTravel : Double.t)
      (margin : option Double.t) :
  Double.leb (Double.lit (-100)) (match margin with Some m => m | None => Double.lit 0 end)
  = true ->
  Double.ltb (Floating.Mentat.calculateFuelQuantity ship fuelToTravel margin) (Double.lit 0)
  = false.
Proof.
  intro Hm. unfold Floating.Mentat.calculateFuelQuantity.
  pose proof (margin_factor_nonNegative _ Hm) as Hf.
  set (factor := (Double.lit 1 + _)%D) in *.
  set (currentFuel := Double.orZero _).
  pose proof (missing_fuel_nonNegative currentFuel fuelToTravel) as Hq. cbv zeta in Hq.
  set (quantity := if Double.geb currentFuel fuelToTravel then _ else _) in *.
  change (Double.lit 0) with Double.zero. rewrite ltb_zero.
  apply negb_false_iff, orb_true_iff.
  destruct Hq as [Hq|Hq].
  - left. destruct quantity; try discriminate Hq. reflexivity.
  - destruct (mul_nonNegative quantity factor Hq Hf) as [K|K].
    + left. destruct (quantity * factor)%D; try discriminate K. reflexivity.
    + right. apply ceil_nonNegative, K.
Qed.

(* ================================================================= *)
(** ** The claims on doubles *)




(** C8, as amended.  In double arithmetic, with a finite quantity of fuel
    held, the fuel quantity is
    [ceil (max 0 (fuelToTravel - held) * (1 + 0.01 * marginPercent))],
    every operation rounded to the nearest double.  It is 0 whenever the
    held fuel covers the required amount and the margin is finite, and it
    is not negative when the margin is at least -100 percent. *)
Theorem calculateFuelQuantity_rounded (ship : Floating.IShip.t) (fuelToTravel : Double.t)
        (margin : option Double.t) :
  let marginPercent := match margin with Some m => m | None => Double.lit 0 end in
  let held := heldOnDoubles ship in
  let bought := Floating.Mentat.calculateFuelQuantity ship fuelToTravel margin in
  (Double.isFinite held = true ->
   bought = Double.ceil (Double.max (Double.lit 0) (fuelToTravel - held)
                         * (Double.lit 1 + Double.lit 0.01 * marginPercent))%D)
  /\ (Double.geb held fuelToTravel = true ->
      Double.isFinite marginPercent = true ->
      Double.eqb bought (Double.lit 0) = true)
  /\ (Double.leb (Double.lit (-100)) marginPercent = true ->
      Double.ltb bought (Double.lit 0) = false).
Proof.
  intros marginPercent held bought. split; [|split].
  - apply calculateFuelQuantity_on_doubles.
  - apply calculateFuelQuantity_covered.
  - apply calculateFuelQuantity_not_negative.
Qed.

(** C8 as stated fails.  With 50 units required, none held and a margin of
    10 percent the formula gives 55 and the code returns 56, the product
    [50 * (1 + 0.01 * 10)] being greater than 55 in doubles; with 4 units
    required and a margin of -200 percent the code returns -4. *)
Lemma calculateFuelQuantity_off_formula :
  Floating.IShip.cargo (Parsed.ship shipAtA) = []
  /\ Spec.fuelQuantity shipAtA 50 10 = 55%Z
  /\ Floating.Mentat.calculateFuelQuantity (Parsed.ship shipAtA) (Double.lit 50)
       (Some (Double.lit 10)) = Double.lit 56
  /\ Floating.Mentat.calculateFuelQuantity (Parsed.ship shipAtA) (Double.lit 4)
       (Some (Double.lit (-200))) = Double.lit (-4)
  /\ Double.ltb (Double.lit (-4)) (Double.lit 0) = true.
Proof.
  split; [reflexivity|]. split; [vm_compute; reflexivity|].
  split; [vm_compute; reflexivity|]. split; vm_compute; reflexivity.
Qed.

(** C8 as amended at a margin of 5 percent, with 4 units required and none
    or 10 held. *)
Lemma calculateFuelQuantity_rounded_witness :
  let carrying := Parsed.ship (shipAt "A" 0 0 [line "FUEL" 10 10] 40) in
  Double.isFinite (heldOnDoubles carrying) = true /\
  Double.geb (heldOnDoubles carrying) (Double.lit 4) = true /\
  Double.isFinite (Double.lit 5) = true /\
  Double.leb (Double.lit (-100)) (Double.lit 5) = true /\
  Floating.Mentat.calculateFuelQuantity carrying (Double.lit 4) (Some (Double.lit 5))
  = Double.ceil (Double.max (Double.lit 0) (Double.lit 4 - heldOnDoubles carrying)
                 * (Double.lit 1 + Double.lit 0.01 * Double.lit 5))%D /\
  Double.eqb (Floating.Mentat.calculateFuelQuantity carrying (Double.lit 4)
                (Some (Double.lit 5))) (Double.lit 0) = true /\
  Double.ltb (Floating.Mentat.calculateFuelQuantity carrying (Double.lit 4)
                (Some (Double.lit 5))) (Double.lit 0) = false.
Proof.
  cbv zeta.
  set (carrying := Parsed.ship (shipAt "A" 0 0 [line "FUEL" 10 10] 40)).
  assert (H1 : Double.isFinite (heldOnDoubles carrying) = true) by (vm_compute; reflexivity).
  assert (H2 : Double.geb (heldOnDoubles carrying) (Double.lit 4) = true)
    by (vm_compute; reflexivity).
  assert (H3 : Double.isFinite (Double.lit 5) = true) by (vm_compute; reflexivity).
  assert (H4 : Double.leb (Double.lit (-100)) (Double.lit 5) = true)
    by (vm_compute; reflexivity).
  repeat (split; [assumption|]).
  pose proof (calculateFuelQuantity_rounded carrying (Double.lit 4) (Some (Double.lit 5)))
    as (K1 & K2 & K3).
  split; [exact (K1 H1)|]. split; [exact (K2 H2 H3)|exact (K3 H4)].
Defined.

(** C1, the code at the failing input, on doubles.  A at (0, 0) sells FUEL
    and GRAIN, a unit of GRAIN taking 1.1 units of space, B at (3, 4) buys
    GRAIN, and the ship at A has 192 units of space.  After 5 units of
    FUEL 187 units of space are left; [187 / 1.1] is 170 in doubles, so
    170 units of GRAIN are loaded, and their volume [170 * 1.1] is
    187.00000000000003: the lines of the route take more than the 192
    units of space. *)
Theorem navigate_overfills_space :
  exists (this : Floating.Navigator.t) (route : Floating.ITradeRoute.t),
    Floating.Navigator.constructor classes
      [Parsed.location grainA; Parsed.location grainB] (Parsed.ship grainShip)
    = JS.Normal this /\
    Floating.Navigator.navigate classes None false this = (this, JS.Normal (Some route)) /\
    Floating.ILocation.symbol (Floating.ITradeRoute.destination route) = "B" /\
    Floating.ITradeRoute.cargo route
    = [Parsed.cargo (line "FUEL" 5 5); Parsed.cargo (line "GRAIN" 170 187.00000000000003)] /\
    Double.toQ (Floating.IShip.spaceAvailable (Parsed.ship grainShip))
    < volumeOnDoubles (Floating.ITradeRoute.cargo route) /\
    Double.ltb (Floating.IShip.spaceAvailable (Parsed.ship grainShip))
               (Double.lit 5 + Double.lit 187.00000000000003)%D = true.
Proof.
  eexists. eexists.
  split; [vm_compute; reflexivity|].
  split; [vm_compute; reflexivity|].
  split; [reflexivity|]. split; [vm_compute; reflexivity|].
  split; vm_compute; reflexivity.
Qed.
(* ================================================================= *)
(** ** Distances, ranges and fuel on doubles *)

Lemma nearest_comp (s : bool) (q1 q2 : Q) :
  0 < q1 -> q1 == q2 -> Double.nearest s q1 = Double.nearest s q2.
Proof.
  intros H E. unfold Double.nearest.
  rewrite (ilog2_comp q1 q2 H E).
  rewrite (roundHalfEven_comp (q1 * _) (q2 * 2 ^ (- Double.exponentAt (Double.ilog2 q2))))
    by (rewrite E; reflexivity).
  reflexivity.
Qed.

Lemma pack_opp (m e : Z) : Double.pack true m e = Double.opp (Double.pack false m e).
Proof.
  unfold Double.pack. destruct (m =? 2 ^ Double.prec)%Z.
  - cbn. destruct (_ <=? _)%Z; reflexivity.
  - destruct m; [reflexivity| |reflexivity]. destruct (_ <=? _)%Z; reflexivity.
Qed.

Lemma opp_involutive (x : Double.t) : Double.opp (Double.opp x) = x.
Proof. destruct x as [s|s| |s m e]; try reflexivity; destruct s; reflexivity. Qed.

(** Rounding is symmetric about 0. *)
Lemma round_opp (q : Q) : ~ q == 0 -> Double.round (- q) = Double.opp (Double.round q).
Proof.
  intro H. destruct (Qlt_le_dec 0 q) as [P|N].
  - rewrite (round_pos q P), (round_neg (- q)) by lra.
    rewrite (nearest_comp true (- - q) q) by (try lra; ring).
    unfold Double.nearest. apply pack_opp.
  - assert (N' : q < 0) by (destruct (Qeq_dec q 0); [contradiction|lra]).
    rewrite (round_neg q N'), (round_pos (- q)) by lra.
    unfold Double.nearest. rewrite pack_opp, opp_involutive. reflexivity.
Qed.

Lemma pow2_opp (x : Double.t) : Double.pow2 (Double.opp x) = Double.pow2 x.
Proof.
  destruct x as [s|s| |s m e]; try (destruct s; reflexivity); [reflexivity|].
  unfold Double.pow2. cbn [Double.opp SFopp]. unfold Double.mul.
  apply round_comp.
  pose proof (toQ_opp (S754_finite s m e)) as Ho. cbn [Double.opp SFopp] in Ho.
  rewrite Ho. ring.
Qed.

(** The square of a difference does not depend on the order of its
    terms. *)
Lemma pow2_sub_swap (a b : Double.t) : Double.pow2 (a - b)%D = Double.pow2 (b - a)%D.
Proof.
  destruct a as [sa|sa| |sa ma ea], b as [sb|sb| |sb mb eb];
    try reflexivity;
    try (destruct sa, sb; reflexivity);
    try (destruct sa; reflexivity);
    try (destruct sb; reflexivity).
  - (* zero, finite *)
    change (S754_zero sa - S754_finite sb mb eb)%D with (Double.opp (S754_finite sb mb eb)).
    change (S754_finite sb mb eb - S754_zero sa)%D with (S754_finite sb mb eb).
    apply pow2_opp.
  - (* finite, zero *)
    change (S754_zero sb - S754_finite sa ma ea)%D with (Double.opp (S754_finite sa ma ea)).
    change (S754_finite sa ma ea - S754_zero sb)%D with (S754_finite sa ma ea).
    symmetry. apply pow2_opp.
  - (* finite, finite *)
    change (S754_finite sa ma ea - S754_finite sb mb eb)%D
      with (Double.round (Double.toQ (S754_finite sa ma ea)
                          + Double.toQ (Double.opp (S754_finite sb mb eb)))).
    change (S754_finite sb mb eb - S754_finite sa ma ea)%D
      with (Double.round (Double.toQ (S754_finite sb mb eb)
                          + Double.toQ (Double.opp (S754_finite sa ma ea)))).
    pose proof (toQ_opp (S754_finite sa ma ea)) as Ha.
    pose proof (toQ_opp (S754_finite sb mb eb)) as Hb.
    set (qa := Double.toQ (S754_finite sa ma ea)) in *.
    set (qb := Double.toQ (S754_finite sb mb eb)) in *.
    rewrite (round_comp (qb + _) (- (qa + Double.toQ (Double.opp (S754_finite sb mb eb)))))
      by (rewrite Ha, Hb; ring).
    destruct (Qeq_dec (qa + Double.toQ (Double.opp (S754_finite sb mb eb))) 0) as [E|E].
    + rewrite (round_comp (- _) 0) by (rewrite E; reflexivity).
      rewrite (round_comp _ 0 E). reflexivity.
    + rewrite (round_opp _ E). symmetry. apply pow2_opp.
Qed.

Lemma calculateDistance_swap (ax ay bx by_ : Double.t) :
  Floating.Mentat.calculateDistance bx by_ ax ay
  = Floating.Mentat.calculateDistance ax ay bx by_.
Proof.
  unfold Floating.Mentat.calculateDistance.
  rewrite (pow2_sub_swap bx ax), (pow2_sub_swap by_ ay). reflexivity.
Qed.

(** Whatever the coordinates, the distance is NaN or a number that is not
    negative. *)
Lemma calculateDistance_range (ax ay bx by_ : Double.t) :
  Double.isNaN (Floating.Mentat.calculateDistance ax ay bx by_) = true
  \/ Double.nonNegative (Floating.Mentat.calculateDistance ax ay bx by_) = true.
Proof.
  unfold Floating.Mentat.calculateDistance.
  set (u := Double.pow2 (ax - bx)%D). set (v := Double.pow2 (ay - by_)%D).
  destruct (Double.isNaN u) eqn:Nu.
  { left. destruct u; try discriminate Nu. reflexivity. }
  destruct (Double.isNaN v) eqn:Nv.
  { left. destruct v; try discriminate Nv. destruct (Double.abs u); reflexivity. }
  right. apply sqrt_nonNegative, add_nonNegative; apply abs_nonNegative; assumption.
Qed.

Lemma sub_self (x : Double.t) : Double.isFinite x = true -> (x - x)%D = Double.zero.
Proof.
  destruct x as [s|s| |s m e]; intro H; try discriminate H.
  - destruct s; reflexivity.
  - change (S754_finite s m e - S754_finite s m e)%D
      with (Double.round (Double.toQ (S754_finite s m e)
                          + Double.toQ (Double.opp (S754_finite s m e)))).
    rewrite (round_comp _ 0); [reflexivity|].
    rewrite (toQ_opp (S754_finite s m e)). ring.
Qed.

(** X1.  On doubles [calculateDistance] is the same in both directions,
    whatever the coordinates; it is NaN or a number that is not negative;
    and between a point with finite coordinates and itself it is +0, and
    so falsy. *)
Theorem calculateDistance_on_doubles (ax ay bx by_ : Double.t) :
  Floating.Mentat.calculateDistance bx by_ ax ay
  = Floating.Mentat.calculateDistance ax ay bx by_
  /\ (Double.isNaN (Floating.Mentat.calculateDistance ax ay bx by_) = true
      \/ Double.nonNegative (Floating.Mentat.calculateDistance ax ay bx by_) = true)
  /\ (Double.isFinite ax = true -> Double.isFinite ay = true ->
      Floating.Mentat.calculateDistance ax ay ax ay = Double.zero
      /\ Double.truthy (Floating.Mentat.calculateDistance ax ay ax ay) = false).
Proof.
  split; [apply calculateDistance_swap|]. split; [apply calculateDistance_range|].
  intros Hx Hy. unfold Floating.Mentat.calculateDistance.
  rewrite (sub_self ax Hx), (sub_self ay Hy). split; reflexivity.
Qed.

Lemma leb_any_zero (s : bool) (x : Double.t) :
  Double.leb (S754_zero s) x = Double.nonNegative x.
Proof. rewrite <- leb_zero. destruct x; reflexivity. Qed.

Lemma ltb_leb_trans (x y z : Double.t) :
  Double.ltb x y = true -> Double.leb y z = true -> Double.ltb x z = true.
Proof.
  intros H1 H2.
  destruct x as [sx|sx| |sx mx ex], y as [sy|sy| |sy my ey], z as [sz|sz| |sz mz ez];
    try discriminate H1; try discriminate H2; try reflexivity;
    try (destruct sx; try discriminate H1; reflexivity);
    try (destruct sz; try discriminate H2; reflexivity);
    try (destruct sy; try discriminate H1; try discriminate H2; fail);
    try (destruct sx, sy; try discriminate H1; destruct sz; try discriminate H2; reflexivity);
    try (destruct sx, sz; try discriminate H1; try discriminate H2; reflexivity);
    try (destruct sy, sz; try discriminate H1; try discriminate H2; reflexivity);
    match goal with
    | |- Double.ltb ?a ?c = true =>
        apply (ltb_value a c);
        match type of H1 with Double.ltb _ ?b = true =>
          apply (ltb_value a b) in H1; apply (leb_value b c) in H2; lra
        end
    end.
Qed.

(** X2.  On doubles [validateRange] holds when the distance between the ship
    and the location, as [calculateDistance] computes it, is below the
    range.  So a range of 0 or less admits no location, not even one at
    the ship's own position, and a location a range admits is admitted by
    every wider range. *)
Theorem validateRange_on_doubles (ship : Floating.IShip.t) (range : Double.t)
        (location : Floating.ILocation.t) :
  Floating.Mentat.validateRange ship range location
  = Double.ltb (Floating.Mentat.calculateDistance
                  (Floating.IShip.x ship) (Floating.IShip.y ship)
                  (Floating.ILocation.x location) (Floating.ILocation.y location)) range
  /\ (Double.leb range (Double.lit 0) = true ->
      Floating.Mentat.validateRange ship range location = false)
  /\ (forall range' : Double.t,
         Double.leb range range' = true ->
         Floating.Mentat.validateRange ship range location = true ->
         Floating.Mentat.validateRange ship range' location = true).
Proof.
  unfold Floating.Mentat.validateRange, Double.gtb.
  set (d := Floating.Mentat.calculateDistance _ _ _ _).
  split; [reflexivity|]. split.
  - intro H. destruct (calculateDistance_range
                         (Floating.IShip.x ship) (Floating.IShip.y ship)
                         (Floating.ILocation.x location) (Floating.ILocation.y location))
      as [N|P]; fold d in N || fold d in P.
    + destruct d; try discriminate N. reflexivity.
    + apply leb_not_ltb. eapply leb_trans; [exact H|].
      change (Double.lit 0) with Double.zero. rewrite leb_zero. exact P.
  - intros range' H1 H2. eapply ltb_leb_trans; eassumption.
Qed.

(** Below +Infinity stands every number. *)
Lemma leb_infinity (x : Double.t) :
  Double.isNaN x = false -> Double.leb x (S754_infinity false) = true.
Proof. destruct x as [s|s| |s m e]; intro H; try discriminate H; try reflexivity. destruct s; reflexivity. Qed.

Lemma nonNegative_notNaN (x : Double.t) : Double.nonNegative x = true -> Double.isNaN x = false.
Proof. destruct x; intro H; try discriminate H; reflexivity. Qed.

Lemma integral_ofZ (n : Z) : Double.integral false n = Double.ofZ n.
Proof.
  unfold Double.integral. destruct (n =? 0)%Z eqn:E; [|reflexivity].
  apply Z.eqb_eq in E. subst n. reflexivity.
Qed.

(** [Math.round], a product with a positive number and a sum with a number
    that is not negative keep the order of numbers that are not
    negative. *)
Lemma roundToInteger_monotone (x y : Double.t) :
  Double.nonNegative x = true -> Double.nonNegative y = true ->
  Double.leb x y = true ->
  Double.leb (Double.roundToInteger x) (Double.roundToInteger y) = true.
Proof.
  intros Hx Hy H.
  pose proof (roundToInteger_nonNegative y Hy) as Ry.
  destruct x as [sx|sx| |sx mx ex]; try discriminate Hx.
  - cbn [Double.roundToInteger]. rewrite leb_any_zero. exact Ry.
  - cbn in Hx. apply negb_true_iff in Hx. subst sx.
    destruct y as [sy|sy| |sy my ey]; try discriminate H.
    destruct sy; [discriminate H|reflexivity].
  - cbn in Hx. apply negb_true_iff in Hx. subst sx.
    destruct y as [sy|sy| |sy my ey]; try discriminate Hy.
    + pose proof (leb_value (S754_finite false mx ex) (S754_zero sy)) as Hv.
      cbv beta iota in Hv. apply Hv in H.
      pose proof (toQ_finite_pos mx ex). cbn [Double.toQ] in *. lra.
    + cbn in Hy. apply negb_true_iff in Hy. subst sy.
      apply leb_infinity, nonNegative_notNaN, roundToInteger_nonNegative. reflexivity.
    + cbn in Hy. apply negb_true_iff in Hy. subst sy.
      pose proof (leb_value (S754_finite false mx ex) (S754_finite false my ey)) as Hv.
      cbv beta iota in Hv. apply Hv in H.
      cbn [Double.roundToInteger]. rewrite !integral_ofZ. unfold Double.ofZ.
      apply rounding_monotone. rewrite <- Zle_Qle. apply Qfloor_resp_le. lra.
Qed.

Lemma mul_monotone (x y : Double.t) (m : positive) (e : Z) :
  Double.nonNegative x = true -> Double.nonNegative y = true ->
  Double.leb x y = true ->
  Double.leb (x * S754_finite false m e)%D (y * S754_finite false m e)%D = true.
Proof.
  intros Hx Hy H.
  pose proof (mul_nonNegative_finite y m e Hy) as Ry.
  pose proof (toQ_finite_pos m e) as Hc.
  destruct x as [sx|sx| |sx mx ex]; try discriminate Hx.
  - change (S754_zero sx * S754_finite false m e)%D with (S754_zero (xorb sx false)).
    rewrite leb_any_zero. exact Ry.
  - cbn in Hx. apply negb_true_iff in Hx. subst sx.
    destruct y as [sy|sy| |sy my ey]; try discriminate H.
    destruct sy; [discriminate H|reflexivity].
  - cbn in Hx. apply negb_true_iff in Hx. subst sx.
    destruct y as [sy|sy| |sy my ey]; try discriminate Hy.
    + pose proof (leb_value (S754_finite false mx ex) (S754_zero sy)) as Hv.
      cbv beta iota in Hv. apply Hv in H.
      pose proof (toQ_finite_pos mx ex). cbn [Double.toQ] in *. lra.
    + cbn in Hy. apply negb_true_iff in Hy. subst sy.
      apply leb_infinity, nonNegative_notNaN, mul_nonNegative_finite. reflexivity.
    + cbn in Hy. apply negb_true_iff in Hy. subst sy.
      pose proof (leb_value (S754_finite false mx ex) (S754_finite false my ey)) as Hv.
      cbv beta iota in Hv. apply Hv in H.
      unfold Double.mul. apply rounding_monotone.
      pose proof (toQ_finite_pos mx ex).
      set (a := Double.toQ (S754_finite false mx ex)) in *.
      set (b := Double.toQ (S754_finite false my ey)) in *.
      set (c := Double.toQ (S754_finite false m e)) in *.
      clearbody a b c. nra.
Qed.

Lemma leb_refl (x : Double.t) : Double.isNaN x = false -> Double.leb x x = true.
Proof.
  destruct x as [s|s| |s m e]; intro H; try discriminate H.
  - reflexivity.
  - destruct s; reflexivity.
  - apply (leb_value (S754_finite s m e) (S754_finite s m e)). lra.
Qed.

Lemma add_monotone (x y c : Double.t) :
  c = Double.zero
  \/ (exists m e, c = S754_finite false m e /\ Double.isDouble c = true) ->
  Double.nonNegative x = true -> Double.nonNegative y = true ->
  Double.leb x y = true ->
  Double.leb (x + c)%D (y + c)%D = true.
Proof.
  intros Hc Hx Hy H.
  assert (Nc : Double.nonNegative c = true)
    by (destruct Hc as [->|(m & e & -> & _)]; reflexivity).
  pose proof (add_nonNegative y c Hy Nc) as Ry.
  destruct x as [sx|sx| |sx mx ex]; try discriminate Hx.
  - (* x is a zero *)
    destruct Hc as [->|(m & e & -> & Hd)].
    + change (S754_zero sx + Double.zero)%D with (S754_zero (sx && false)).
      rewrite leb_any_zero. exact Ry.
    + change (S754_zero sx + S754_finite false m e)%D with (S754_finite false m e).
      destruct y as [sy|sy| |sy my ey]; try discriminate Hy.
      * apply (leb_refl (S754_finite false m e)). reflexivity.
      * cbn in Hy. apply negb_true_iff in Hy. subst sy. reflexivity.
      * cbn in Hy. apply negb_true_iff in Hy. subst sy.
        change (S754_finite false my ey + S754_finite false m e)%D
          with (Double.round (Double.toQ (S754_finite false my ey)
                              + Double.toQ (S754_finite false m e))).
        rewrite <- (round_toQ false m e Hd) at 1.
        apply rounding_monotone. pose proof (toQ_finite_pos my ey). lra.
  - cbn in Hx. apply negb_true_iff in Hx. subst sx.
    destruct y as [sy|sy| |sy my ey]; try discriminate H.
    destruct sy; [discriminate H|].
    destruct Hc as [->|(m & e & -> & _)]; reflexivity.
  - cbn in Hx. apply negb_true_iff in Hx. subst sx.
    destruct y as [sy|sy| |sy my ey]; try discriminate Hy.
    + pose proof (leb_value (S754_finite false mx ex) (S754_zero sy)) as Hv.
      cbv beta iota in Hv. apply Hv in H.
      pose proof (toQ_finite_pos mx ex). cbn [Double.toQ] in *. lra.
    + cbn in Hy. apply negb_true_iff in Hy. subst sy.
      replace (S754_infinity false + c)%D with (S754_infinity false)
        by (destruct Hc as [->|(m & e & -> & _)]; reflexivity).
      apply leb_infinity, nonNegative_notNaN, add_nonNegative; [reflexivity|exact Nc].
    + cbn in Hy. apply negb_true_iff in Hy. subst sy.
      destruct Hc as [->|(m & e & -> & _)].
      * exact H.
      * pose proof (leb_value (S754_finite false mx ex) (S754_finite false my ey)) as Hv.
        cbv beta iota in Hv. apply Hv in H.
        unfold Double.add. apply rounding_monotone. lra.
Qed.

Lemma penalty_addend (b : Spec.Bracket) (planet : bool) :
  let c := Double.lit (if planet then Spec.planetPenalty b else 0) in
  c = Double.zero
  \/ (exists m e, c = S754_finite false m e /\ Double.isDouble c = true).
Proof.
  destruct planet; [destruct b|]; cbv zeta;
    try (left; reflexivity); right; vm_compute; eauto.
Qed.

(** X3.  On doubles, for one ship and one origin, a destination whose
    distance, as [calculateLocationDistance] computes it, is at least that
    of another needs at least as much fuel. *)
Theorem calculateFuelToTravel_monotone (enum : ShipClass.t) (ship : Floating.IShip.t)
        (origin nearer farther : Floating.ILocation.t) :
  Double.leb (Floating.Mentat.calculateLocationDistance origin nearer)
             (Floating.Mentat.calculateLocationDistance origin farther) = true ->
  Double.leb (Floating.Mentat.calculateFuelToTravel enum ship origin nearer)
             (Floating.Mentat.calculateFuelToTravel enum ship origin farther) = true.
Proof.
  intro H. rewrite !calculateFuelToTravel_on_doubles. cbv zeta.
  set (b := Spec.bracketOf enum (Floating.IShip.type ship)).
  destruct (leb_notNaN _ _ H) as [N1 N2].
  assert (P : forall l,
             Double.isNaN (Floating.Mentat.calculateLocationDistance origin l) = false ->
             Double.nonNegative (Floating.Mentat.calculateLocationDistance origin l) = true).
  { intros l N. unfold Floating.Mentat.calculateLocationDistance in *.
    destruct (calculateDistance_range (Floating.ILocation.x origin) (Floating.ILocation.y origin)
                (Floating.ILocation.x l) (Floating.ILocation.y l)) as [K|K];
      [rewrite K in N; discriminate N|exact K]. }
  pose proof (P _ N1) as P1. pose proof (P _ N2) as P2.
  destruct (multiplier_on_doubles b) as (m & e & E). rewrite E.
  pose proof (roundToInteger_nonNegative _ P1) as Q1.
  pose proof (roundToInteger_nonNegative _ P2) as Q2.
  pose proof (roundToInteger_nonNegative _ (mul_nonNegative_finite _ m e Q1)) as R1.
  pose proof (roundToInteger_nonNegative _ (mul_nonNegative_finite _ m e Q2)) as R2.
  pose proof (penalty_on_doubles b (planetOnDoubles origin)) as Np.
  apply add_monotone.
  - right. vm_compute. eauto.
  - apply add_nonNegative; assumption.
  - apply add_nonNegative; assumption.
  - apply add_monotone; [apply penalty_addend|assumption|assumption|].
    apply roundToInteger_monotone; try (apply mul_nonNegative_finite; assumption).
    apply mul_monotone; try assumption.
    apply roundToInteger_monotone; assumption.
Qed.

(** X27.  On doubles the scenario of the specification gives the route of
    the exact reading: destination B, cargo [{FUEL, 5, 5}, {METAL, 45,
    45}]. *)
Theorem scenario_route_on_doubles :
  exists this : Floating.Navigator.t,
    Floating.Navigator.constructor classes
      [Parsed.location (locA 45); Parsed.location locB] (Parsed.ship shipAtA)
    = JS.Normal this /\
    Floating.Navigator.navigate classes None false this
    = (this, JS.Normal (Some (Parsed.route scenarioRoute))) /\
    Floating.ILocation.symbol (Floating.ITradeRoute.destination (Parsed.route scenarioRoute))
    = "B" /\
    Floating.ITradeRoute.cargo (Parsed.route scenarioRoute)
    = [Parsed.cargo (line "FUEL" 5 5); Parsed.cargo (line "METAL" 45 45)].
Proof.
  eexists. split; [vm_compute; reflexivity|].
  split; [vm_compute; reflexivity|]. split; reflexivity.
Qed.

(* ================================================================= *)
(** ** Instances on doubles *)

(** The distance from A to B and from A to A. *)
Lemma calculateDistance_on_doubles_witness :
  Double.isFinite (Double.lit 0) = true /\
  Floating.Mentat.calculateDistance (Double.lit 3) (Double.lit 4) (Double.lit 0) (Double.lit 0)
  = Floating.Mentat.calculateDistance (Double.lit 0) (Double.lit 0) (Double.lit 3) (Double.lit 4)
  /\ Floating.Mentat.calculateDistance (Double.lit 0) (Double.lit 0) (Double.lit 0) (Double.lit 0)
     = Double.zero
  /\ Double.truthy (Floating.Mentat.calculateDistance (Double.lit 0) (Double.lit 0)
                      (Double.lit 0) (Double.lit 0)) = false.
Proof.
  assert (H : Double.isFinite (Double.lit 0) = true) by reflexivity.
  split; [exact H|].
  split.
  - exact (proj1 (calculateDistance_on_doubles (Double.lit 0) (Double.lit 0)
                    (Double.lit 3) (Double.lit 4))).
  - exact (proj2 (proj2 (calculateDistance_on_doubles (Double.lit 0) (Double.lit 0)
                           (Double.lit 3) (Double.lit 4))) H H).
Defined.

(** B, 5 away from the ship at A: out of a range of 0, within a range of
    10 and of 20. *)
Lemma validateRange_on_doubles_witness :
  Double.leb (Double.lit 0) (Double.lit 0) = true /\
  Double.leb (Double.lit 10) (Double.lit 20) = true /\
  Floating.Mentat.validateRange (Parsed.ship shipAtA) (Double.lit 10) (Parsed.location locB)
  = true /\
  Floating.Mentat.validateRange (Parsed.ship shipAtA) (Double.lit 0) (Parsed.location locB)
  = false /\
  Floating.Mentat.validateRange (Parsed.ship shipAtA) (Double.lit 20) (Parsed.location locB)
  = true.
Proof.
  assert (H0 : Double.leb (Double.lit 0) (Double.lit 0) = true) by reflexivity.
  assert (H1 : Double.leb (Double.lit 10) (Double.lit 20) = true) by (vm_compute; reflexivity).
  assert (H2 : Floating.Mentat.validateRange (Parsed.ship shipAtA) (Double.lit 10)
                 (Parsed.location locB) = true) by (vm_compute; reflexivity).
  split; [exact H0|]. split; [exact H1|]. split; [exact H2|]. split.
  - exact (proj1 (proj2 (validateRange_on_doubles (Parsed.ship shipAtA) (Double.lit 0)
                           (Parsed.location locB))) H0).
  - exact (proj2 (proj2 (validateRange_on_doubles (Parsed.ship shipAtA) (Double.lit 10)
                           (Parsed.location locB))) (Double.lit 20) H1 H2).
Defined.

(** From O, Y at (3, 4) is nearer than X at (100, 0). *)
Lemma calculateFuelToTravel_monotone_witness :
  Double.leb (Floating.Mentat.calculateLocationDistance (Parsed.location locO)
                (Parsed.location locY))
             (Floating.Mentat.calculateLocationDistance (Parsed.location locO)
                (Parsed.location locX)) = true /\
  Double.leb (Floating.Mentat.calculateFuelToTravel classes (Parsed.ship shipAtO)
                (Parsed.location locO) (Parsed.location locY))
             (Floating.Mentat.calculateFuelToTravel classes (Parsed.ship shipAtO)
                (Parsed.location locO) (Parsed.location locX)) = true.
Proof.
  assert (H : Double.leb (Floating.Mentat.calculateLocationDistance (Parsed.location locO)
                            (Parsed.location locY))
                         (Floating.Mentat.calculateLocationDistance (Parsed.location locO)
                            (Parsed.location locX)) = true) by (vm_compute; reflexivity).
  split; [exact H|].
  exact (calculateFuelToTravel_monotone classes (Parsed.ship shipAtO) (Parsed.location locO)
           (Parsed.location locY) (Parsed.location locX) H).
Defined.

